(* ===== verification/_CoqProject ===== *)
-Q . S2P
Prelude.v
GoStrings.v
ReleaseId.v
ReleaseAlloc.v
Sha256.v
GoJson.v
Protocol.v
Store.v
Codec.v
Streams.v
Objects.v
NetIP.v
Clients.v
Listeners.v
Counters.v
Outbox.v
Tasks.v
Journal.v
TaskClock.v
CoreTraffic.v
Deployment.v
Worker.v
Catalog.v
CatalogReview.v
Documents.v
Receive.v
Issues.v
Processor.v
Rounds.v
CoreRuntime.v
Supervisor.v
Supervised.v
XrayCompiler.v
SingboxCompiler.v
NodeCore.v
Diagnostics.v
Observation.v
XrayTelemetry.v
SingboxTelemetry.v
Rollback.v
HostReporter.v
Reports.v
Sync.v
Delivery.v
Node.v
HandoverJournal.v
Crash.v
UpgradeDocs.v
UpdaterEngine.v
AgentSwap.v
UpdaterLogic.v
EngineLaws.v
UpdaterSample.v
SwapSafety.v
Handover.v
Follow.v
UpdaterRoles.v
AgentSpared.v
HandoverProtocol.v
SystemdHost.v
ReleaseFetch.v
SystemdSwap.v
SystemdRun.v
SystemdLogic.v
FetchAuthentic.v
Retention.v
SystemdSafety.v
