(* ===== verification/Prelude.v ===== *)
(** * Passwall-Node: a verification library

    Passwall-Node is the agent that runs on a proxy host.  It keeps a durable
    state in SQLite, polls its control plane (PSP), stores the three desired-state
    documents PSP sends (config, roster, directives), drives a proxy core towards
    them, accounts the traffic of clients and listeners, enforces quotas locally,
    runs the tasks PSP sends, and reports back.  A second process beside it, the
    updater, replaces the agent's container on PSP's request and then hands its own
    role to a successor on the new image; on a systemd host a privileged helper
    replaces the agent's files instead.  Releases are numbered by a small package
    of their own.

    ** How the parts are modelled

    Go code becomes functions.  A function that returns [(T, error)] becomes a
    function into [res E T]; a pointer that may be nil, an [option]; a loop with an
    early return, [res_foldl] or a [Fixpoint]; an [int64] or [uint64], a [Z] with
    its wrap-around or guard written out; a byte slice or string, a [string] of
    bytes (nil and empty slices are identified).  The database is a record of
    tables, and an operation of the store is a function from a database to a
    result and the next database: every operation of the source is one SQL
    statement or one transaction on a single connection, so an error leaves the
    database as it was.  CHECK constraints are booleans evaluated at each write.

    Code outside the repository is an argument: the operations of the protocol
    module are the class [Protocol], what the node relies on is [ProtocolLaws], and
    [Protocol.sample] is an instance of both, used to evaluate the model.  Time,
    entropy, cancellation and the behaviour of handlers are inputs.

    ** Files

    - [Prelude]: results, machine integers, tactics and shared lemmas.
    - [GoStrings], [Sha256], [GoJson], [NetIP]: what the source uses of [strings],
      [strconv], [unicode/utf8], [crypto/sha256], [encoding/hex],
      [encoding/json] and [net/netip].
    - [ReleaseId], [ReleaseAlloc]: [releaseid/*.go].
    - [Protocol]: the interface of the protocol module.
    - [Store]: the rows and tables of [internal/state/state.go] and of the schema in
      [internal/state/sqlite/store.go].
    - [Codec], [Streams], [Objects], [Clients], [Listeners], [Counters], [Outbox],
      [Tasks], [CoreTraffic], [Deployment]: the files of [internal/state/sqlite],
      one operation per method of the store.
    - [Journal]: the invariant of the task journal and the outbox together, and
      the properties that need both.
    - [TaskClock], [Worker]: [internal/agent/task_clock.go] and [tasks.go].
    - [Catalog], [CatalogReview]: selection from and review of the catalog,
      [corecatalog/catalog.go].
    - [Documents], [Receive], [Issues]: [internal/agent/validate.go], [receive.go]
      and [issues.go].
    - [Processor]: [internal/agent/processor.go] over any runtime, as computations
      in a state-and-error monad with a trace of the runtime's calls; [Rounds]:
      its properties.
    - [CoreRuntime]: [internal/core/core.go] and [internal/core/runtime], the
      runtime the processor drives, over any compiler, installer and supervisor.
    - [Supervisor]: [internal/core/process/supervisor.go]; [Supervised]: the runtime
      over it.
    - [XrayCompiler]: [internal/core/xray/compiler.go] and [compat.go];
      [SingboxCompiler]: [internal/core/singbox/compiler.go]; [NodeCore]: the runtime
      with the compilers of the node; [XrayTelemetry]:
      [internal/core/xray/telemetry.go]; [SingboxTelemetry]: [telemetry.go] and
      [api.go] of [internal/core/singbox]; [Rollback]: the node's router over both,
      after a deployment that failed.
    - [Diagnostics]: [internal/diagnostics]; [Observation]:
      [internal/agent/observation.go], [readiness.go], [runtime_stats.go] and
      [internal/core/telemetry.go]; [HostReporter]: [host_reporter.go];
      [Reports]: [report.go]; [Sync]: [sync.go] and [run.go], over the ports a
      round calls; [Delivery]: what a round guarantees.
    - [Node]: the wiring of [cmd/node/main.go], where the ports of the sync loop
      are the components above.
    - [UpgradeDocs]: the documents of [internal/upgrade/types.go] and the agent's
      side of an upgrade, [client.go].
    - [UpdaterEngine]: what an updater asks of the Docker engine and its disk, as a
      class over any state, the monad of its programs, and the guard of container
      changes ([docker_engine.go], [docker_updater_identity.go],
      [docker_handover_state.go]).  A program ends, or is killed in one of its calls.
    - [AgentSwap]: the agent swap of [docker_helper.go]; [HandoverJournal]: the
      journal of [docker_handover_state.go]; [Handover]: [docker_handover.go] and
      [docker_successor.go]; [Follow]: [docker_follow.go]; [UpdaterRoles]: the role
      loop of [docker_helper.go], turn by turn, and [docker_self.go].
    - [Crash]: programs that can be killed and the logic for them, which all
      upgrades use; [EngineLaws]: what is relied on of Docker; [UpdaterSample]: an
      instance; [SwapSafety], [AgentSpared], [HandoverProtocol]: what the updaters
      guarantee.
    - [SystemdHost]: what the systemd helper works on ([helper_files.go],
      [files.go]) and asks of its host; [ReleaseFetch]: [release.go] and
      [internal/releaseauth]; [SystemdSwap] and [SystemdRun]: [helper_linux.go].
      [SystemdLogic]: reasoning about it; [FetchAuthentic], [Retention],
      [SystemdSafety]: what it guarantees.

    ** What the theorems show

    Tasks ([Tasks], [Journal], [TaskClock], [Worker]).  No task is executed twice,
    whatever the interleaving with acceptances, acknowledgements and crashes; a
    task with a deadline starts only before it in PSP's time and is expired only
    after it; a finished task's record is immutable and its result stays pending
    until acknowledged; the worker's loops refine a step relation and terminate.

    Ledgers ([Clients], [Counters], [CoreTraffic]).  The gate is always the one the
    counters and the grant imply; counters never roll back; an observation is
    atomic; traffic is conserved across core restarts and gaps are refused.

    Documents ([Streams], [Objects], [Documents], [Receive]).  A stream never
    returns to an older document; a segment is accepted exactly when it should be
    and cannot disturb another stream; validated directives are applicable.

    Rounds ([Issues], [Processor], [Rounds]).  One response, whatever it holds and
    wherever it fails, is a path of store transactions and runtime calls: it keeps
    every invariant above, calls the runtime in a safe order, and when it succeeds
    the tables agree with the documents.

    The core ([CoreRuntime], [Supervisor], [NodeCore], [XrayTelemetry],
    [SingboxTelemetry], [Rollback], [Observation]).  A core that runs enables only
    clients inside their grant, down to the secrets of its configuration and to the
    process; a round is one transition; on a disk whose steps take effect durably or
    not at all a deployment is all or nothing, and between the turns of the loop the
    published status is honest; what telemetry reads is what was compiled, and what
    sing-box streams is what is collected; an observation is stored whole, and an
    outage raises one issue.  Expiries are enforced or waited for, but for those that
    fall between compiling and recording; a core that was rolled back to is not
    accounted.

    The loop ([Reports], [Sync], [Delivery], [HostReporter], [Node]).  Nothing that
    waits for PSP is lost, whatever a round meets; a moved gate is enforced before
    the network is used, and quotas hold while PSP is unreachable; retries back off
    within bounds; telemetry samples are sent as collected.

    Upgrades ([UpgradeDocs], [SwapSafety], [HandoverJournal], [HandoverProtocol],
    [AgentSpared], [SystemdSafety]).  An upgrade starts only before its deadline;
    there are never two agents and a receipt says what runs, wherever the updater is
    killed, but for a stop that was sent and not confirmed; where the lock works and
    journal writes that fail have no effect, at most one updater acts and the journal
    lets it; handovers move forward,
    stop after three failures and never touch the agent.  Under systemd the managed
    files are always the previous ones or an authentic release, the previous ones
    are kept while an upgrade is under way, and the receipt is true.

    Releases ([ReleaseId], [ReleaseAlloc]).  Versions round-trip and are totally
    ordered; allocation never reuses or goes back; a stable pointer needs
    approval.

    ** Bounds and fuel

    Loops over slices are structural.  Fuel appears where a Go loop consumes a
    string ([trim_left], [to_valid], [truncateRunes], [scan_value]): each turn
    removes a byte, and the length is the fuel.  [Worker.drain] runs over a script
    of environments, one per turn; [drain_terminates] shows that one more turn than
    waiting tasks is enough.  The waiting loops inside an upgrade ([waitStandby],
    [waitReady], [waitProcess]) run on fuel; out of fuel is a process killed in the
    loop, and the theorems hold for every fuel.

    ** Simplifications

    Error texts are abbreviated: an error is a sentinel of the source or a message.
    Epochs are stored decoded; [Codec] proves the encoding a bijection.  Failures
    of the database file are not modelled; those of the supervisor's and the
    updaters' files are.  A lock holder's turn is atomic for the other updaters,
    which neither write the journal nor take the lock meanwhile.  AUTOINCREMENT and rowid values are counters.

    ** Not modelled

    HTTP transport, operating-system clocks, host telemetry, installation of cores,
    the redirect policy of release downloads, the management command line and the
    flags and files of the composition roots: almost every step there is an external
    effect.  Migration of older database files is not modelled; the tables are those
    of the last schema version. *)

From stdpp Require Export prelude list gmap strings sorting.
From Stdlib Require Export Ascii ZArith Lia.
#[global] Open Scope Z_scope.

(** ** Results of fallible code

    A Go function that returns [(T, error)] becomes a function into
    [res E T]: [Ok v] for [(v, nil)], [Err e] for a non-nil error. *)
Inductive res (E A : Type) : Type :=
| Ok (a : A)
| Err (e : E).
Arguments Ok {E A} a.
Arguments Err {E A} e.

Section res_monad.
Context {E : Type}.

#[global] Instance res_ret : MRet (res E) := fun A a => Ok a.

#[global] Instance res_bind : MBind (res E) := fun A B f m =>
  match m with Ok a => f a | Err e => Err e end.

#[global] Instance res_fmap : FMap (res E) := fun A B f m =>
  match m with Ok a => Ok (f a) | Err e => Err e end.

End res_monad.

#[global] Instance res_eq_dec {E A} `{EqDecision E, EqDecision A} : EqDecision (res E A).
Proof. solve_decision. Defined.

(** [is_Ok] is [err == nil]. *)
Definition is_Ok {E A} (m : res E A) : bool :=
  match m with Ok _ => true | Err _ => false end.

(** A loop over a slice that threads a state and stops at the first error. *)
Fixpoint res_foldl {E S A} (f : S -> A -> res E S) (s : S) (l : list A) : res E S :=
  match l with
  | [] => Ok s
  | a :: l' => s' ← f s a; res_foldl f s' l'
  end.

(** A loop over a slice that collects one result per element. *)
Fixpoint res_mapM {E A B} (f : A -> res E B) (l : list A) : res E (list B) :=
  match l with
  | [] => Ok []
  | a :: l' => b ← f a; bs ← res_mapM f l'; Ok (b :: bs)
  end.

(** ** Machine integers

    Go's [int64] and [uint64] are [Z] with the ranges written out; [add64]
    and [sub64] wrap around the way the language does. *)
Definition max_int64 : Z := 9223372036854775807.
Definition min_int64 : Z := -9223372036854775808.
Definition max_uint64 : Z := 18446744073709551615.

Definition wrap64 (z : Z) : Z := (z + 2 ^ 63) mod 2 ^ 64 - 2 ^ 63.
Definition add64 (a b : Z) : Z := wrap64 (a + b).
Definition sub64 (a b : Z) : Z := wrap64 (a - b).

Definition in_int64 (z : Z) : Prop := min_int64 ≤ z ≤ max_int64.
Definition in_uint64 (z : Z) : Prop := 0 ≤ z ≤ max_uint64.

#[global] Instance in_int64_dec z : Decision (in_int64 z).
Proof. apply _. Defined.

#[global] Instance in_uint64_dec z : Decision (in_uint64 z).
Proof. apply _. Defined.

(** The node adds cumulative byte counts and millisecond instants with the same
    guarded sum in three places ([addBytes], [addNonNegative],
    [addTaskClockMS]): [None] is the Go pair [(0, false)]. *)
Definition checked_add (a b : Z) : option Z :=
  if decide (a < 0 ∨ b < 0 ∨ sub64 max_int64 b < a) then None else Some (add64 a b).

(** ** Tactics *)

(** Split one hypothesis [H : e = Ok v] along the guards and binds of [e]. *)
Ltac res_inv1 :=
  match goal with
  | H : Err _ = Ok _ |- _ => discriminate H
  | H : Ok _ = Err _ |- _ => discriminate H
  | H : None = Some _ |- _ => discriminate H
  | H : Some _ = None |- _ => discriminate H
  | H : Ok _ = Ok _ |- _ => injection H as H; subst
  | H : Err _ = Err _ |- _ => injection H as H; subst
  | H : Some _ = Some _ |- _ => injection H as H; subst
  | H : (_, _) = (_, _) |- _ => injection H as H; subst
  | H : mret _ = Ok _ |- _ => unfold mret, res_ret in H
  | H : mbind _ _ = Ok _ |- _ => unfold mbind, res_bind in H
  | H : (if decide ?P then _ else _) = Ok _ |- _ => destruct (decide P)
  | H : (match ?x with _ => _ end) = Ok _ |- _ => destruct x eqn:?
  end.

Ltac res_inv := repeat (res_inv1; simpl in *).

(** ** Lemmas *)

Lemma bind_Ok {E A B} (m : res E A) (f : A -> res E B) b :
  m ≫= f = Ok b <-> exists a, m = Ok a /\ f a = Ok b.
Proof.
  destruct m as [a|e]; simpl; split; [by eauto|by intros (a' & [= <-] & ?)|done|by intros (? & ? & _)].
Qed.

Lemma bind_Ok_unit {E B} (m : res E unit) (f : unit -> res E B) b :
  m ≫= f = Ok b <-> m = Ok tt /\ f tt = Ok b.
Proof. rewrite bind_Ok. split; [intros ([] & ? & ?); done|naive_solver]. Qed.

Lemma res_foldl_inv {E S A} (f : S -> A -> res E S) (P : S -> Prop) l s s' :
  (forall s a s', P s -> a ∈ l -> f s a = Ok s' -> P s') ->
  P s -> res_foldl f s l = Ok s' -> P s'.
Proof.
  revert s. induction l as [|a l IH]; intros s Hf Hs; simpl; [by intros [= <-]|].
  destruct (f s a) as [s1|] eqn:Ha; simpl; [|done]. apply IH; [|eapply Hf; [done| |done]; set_solver].
  intros. eapply Hf; [done| |done]. set_solver.
Qed.

Lemma res_mapM_Ok {E A B} (f : A -> res E B) l out :
  res_mapM f l = Ok out <-> Forall2 (fun a b => f a = Ok b) l out.
Proof.
  revert out. induction l as [|a l IH]; intros out; simpl.
  - split; [intros [= <-]; constructor|by inversion 1].
  - split.
    + intros H. destruct (f a) as [b|] eqn:Ha; simpl in H; [|done].
      destruct (res_mapM f l) as [bs|]; simpl in H; [|done]. simplify_eq.
      constructor; [done|]. by apply IH.
    + inversion 1 as [|? b ? bs Ha Hl]; subst. rewrite Ha. simpl.
      apply IH in Hl. by rewrite Hl.
Qed.

(** The first row a scan keeps. *)
Lemma head_filter_elem {A} (P : A -> Prop) `{forall x, Decision (P x)} (l : list A) x :
  head (filter P l) = Some x -> x ∈ l /\ P x.
Proof.
  intros Hh. destruct (filter P l) as [|y l'] eqn:Hf; simplify_eq/=.
  assert (x ∈ filter P l) as Hx by (rewrite Hf; left). apply list_elem_of_filter in Hx. tauto.
Qed.

Lemma head_filter_None {A} (P : A -> Prop) `{forall x, Decision (P x)} (l : list A) :
  head (filter P l) = None <-> forall x, x ∈ l -> ~ P x.
Proof.
  split.
  - intros Hh x Hx Hp. destruct (filter P l) as [|y l'] eqn:Hf; [|done].
    assert (x ∈ filter P l) as Hin by (by apply list_elem_of_filter). rewrite Hf in Hin. set_solver.
  - intros Hall. destruct (filter P l) as [|y l'] eqn:Hf; [done|].
    assert (y ∈ filter P l) as Hy by (rewrite Hf; left).
    apply list_elem_of_filter in Hy as [? ?]. exfalso. by eapply Hall.
Qed.

Lemma filter_keeps_all {A} (P : A -> Prop) `{forall x, Decision (P x)} (l : list A) :
  (forall x, x ∈ l -> P x) -> filter P l = l.
Proof.
  induction l as [|a l IH]; intros Hall; [done|]. rewrite filter_cons_True by set_solver. f_equal. set_solver.
Qed.

Lemma alter_as_insert `{FinMap K M} {A} (f : A -> A) (m : M A) k x :
  m !! k = Some x -> alter f k m = <[k := f x]> m.
Proof.
  intros Hk. apply map_eq. intros j. destruct (decide (j = k)) as [->|Hne].
  - by rewrite lookup_alter_eq, lookup_insert_eq, Hk.
  - by rewrite lookup_alter_ne, lookup_insert_ne.
Qed.

Lemma wrap64_id z : in_int64 z -> wrap64 z = z.
Proof. unfold in_int64, min_int64, max_int64, wrap64. intros H. rewrite Z.mod_small; lia. Qed.

Lemma checked_add_Some a b c :
  in_int64 a -> in_int64 b ->
  checked_add a b = Some c <-> 0 ≤ a /\ 0 ≤ b /\ c = a + b /\ c ≤ max_int64.
Proof.
  unfold checked_add, sub64, add64, in_int64, min_int64, max_int64. intros Ha Hb.
  assert (0 ≤ b -> wrap64 (9223372036854775807 - b) = 9223372036854775807 - b) as Hw.
  { intros. apply wrap64_id. unfold in_int64, min_int64, max_int64. lia. }
  case_decide as Hd.
  - split; [done|]. intros (H1 & H2 & -> & H3).
    destruct Hd as [?|[?|Hd]]; [lia..|]. rewrite Hw in Hd; lia.
  - destruct (decide (0 ≤ b)) as [Hb0|]; [|exfalso; apply Hd; lia].
    rewrite Hw in Hd by done.
    rewrite wrap64_id by (unfold in_int64, min_int64, max_int64; lia).
    split; [intros [= <-]; lia | intros (_ & _ & -> & _); done].
Qed.

Lemma checked_add_nonneg a b c : checked_add a b = Some c -> 0 ≤ a /\ 0 ≤ b.
Proof. unfold checked_add. case_decide; intros; simplify_eq. lia. Qed.

(** Elements with distinct keys are equal when their keys are. *)
Lemma NoDup_fmap_elem {A B} (f : A -> B) l x y : NoDup (f <$> l) -> x ∈ l -> y ∈ l -> f x = f y -> x = y.
Proof.
  induction l as [|a l IH]; simpl; intros Hn Hx Hy Hf; [set_solver|].
  apply NoDup_cons in Hn as [Ha Hn]. apply elem_of_cons in Hx as [->|Hx]; apply elem_of_cons in Hy as [->|Hy].
  - done.
  - exfalso. apply Ha. rewrite Hf. by apply list_elem_of_fmap_2.
  - exfalso. apply Ha. rewrite <-Hf. by apply list_elem_of_fmap_2.
  - by apply IH.
Qed.
