(* ===== verification/GoStrings.v ===== *)
(** * Go's [strings] and [strconv] as the node uses them

    A Go string is its sequence of bytes, here Stdlib's [string] of 8-bit
    characters.  Every separator the node cuts or splits on is one byte, so
    [Cut], [Split] and [Count] take a character.  [ParseInt] and [FormatInt] are
    the base-10, 64-bit instances. *)
From S2P Require Import Prelude.

(** ** Operations *)

(** [strings.Cut(s, sep)]: the text before and after the first [sep], and
    whether [sep] was found. *)
Fixpoint Cut (c : ascii) (s : string) : string * string * bool :=
  match s with
  | EmptyString => (EmptyString, EmptyString, false)
  | String a s' =>
      if decide (a = c) then (EmptyString, s', true)
      else let '(b, r, f) := Cut c s' in (String a b, r, f)
  end.

(** [strings.Split(s, sep)]; it always returns at least one element. *)
Fixpoint Split (c : ascii) (s : string) : list string :=
  match s with
  | EmptyString => [EmptyString]
  | String a s' =>
      if decide (a = c) then EmptyString :: Split c s'
      else match Split c s' with
           | [] => [String a EmptyString]
           | p :: ps => String a p :: ps
           end
  end.

(** [strings.Count(s, sep)]. *)
Fixpoint Count (c : ascii) (s : string) : nat :=
  match s with
  | EmptyString => 0
  | String a s' => if decide (a = c) then S (Count c s') else Count c s'
  end.

(** [strings.HasPrefix(s, prefix)]. *)
Fixpoint HasPrefix (s prefix : string) {struct prefix} : bool :=
  match prefix, s with
  | EmptyString, _ => true
  | String _ _, EmptyString => false
  | String p prefix', String a s' => bool_decide (a = p) && HasPrefix s' prefix'
  end.

(** [strings.CutPrefix(s, prefix)]: [None] when the prefix is absent. *)
Fixpoint CutPrefix (s prefix : string) {struct prefix} : option string :=
  match prefix, s with
  | EmptyString, _ => Some s
  | String _ _, EmptyString => None
  | String p prefix', String a s' => if decide (a = p) then CutPrefix s' prefix' else None
  end.

(** [strings.Contains(s, substr)]. *)
Fixpoint Contains (s substr : string) : bool :=
  HasPrefix s substr ||
  match s with EmptyString => false | String _ s' => Contains s' substr end.

(** [strings.Compare(a, b)]. *)
Definition Compare (a b : string) : Z :=
  match String.compare a b with Lt => -1 | Eq => 0 | Gt => 1 end.

(** The byte sequences [unicode.IsSpace] accepts: the six ASCII ones and the
    UTF-8 encodings of U+0085, U+00A0, U+1680, U+2000..U+200A, U+2028, U+2029,
    U+202F, U+205F and U+3000. *)
Definition bytes_of (l : list nat) : string :=
  foldr (fun n s => String (ascii_of_nat n) s) EmptyString l.

Definition space_runes : list string :=
  bytes_of <$>
    [[9]; [10]; [11]; [12]; [13]; [32]; [194; 133]; [194; 160]; [225; 154; 128];
     [226; 128; 128]; [226; 128; 129]; [226; 128; 130]; [226; 128; 131];
     [226; 128; 132]; [226; 128; 133]; [226; 128; 134]; [226; 128; 135];
     [226; 128; 136]; [226; 128; 137]; [226; 128; 138]; [226; 128; 168];
     [226; 128; 169]; [226; 128; 175]; [226; 129; 159]; [227; 128; 128]]%nat.

(** The rest of [s] after one leading space rune, when there is one. *)
Definition cut_space (runes : list string) (s : string) : option string :=
  foldr (fun r acc => match CutPrefix s r with Some s' => Some s' | None => acc end) None runes.

Fixpoint trim_left (runes : list string) (fuel : nat) (s : string) : string :=
  match fuel with
  | O => s
  | S fuel' => match cut_space runes s with
               | Some s' => trim_left runes fuel' s'
               | None => s
               end
  end.

(** [strings.TrimSpace(s)]: leading space runes, then trailing ones, which are
    leading ones of the reversed bytes.  Each step removes at least one byte, so
    the length is enough fuel. *)
Definition TrimSpace (s : string) : string :=
  let l := trim_left space_runes (String.length s) s in
  let r := String.rev l in
  String.rev (trim_left (String.rev <$> space_runes) (String.length r) r).

(** [strings.Fields]; each turn consumes a byte, so the length is enough fuel. *)
Fixpoint fieldsFrom (fuel : nat) (s field : string) : list string :=
  let close := if decide (field = "") then [] else [field] in
  match fuel, s with
  | S fuel, String a rest =>
      match cut_space space_runes s with
      | Some after => close ++ fieldsFrom fuel after ""
      | None => fieldsFrom fuel rest (field +:+ String a "")
      end
  | _, _ => close
  end.
Definition Fields (s : string) : list string := fieldsFrom (String.length s) s "".

(** [strconv.FormatInt(n, 10)], and [%d]: digits are produced from the least
    significant end.  An int64 has at most 19 of them. *)
Definition digit_char (d : Z) : ascii := ascii_of_nat (48 + Z.to_nat d).

Fixpoint format_digits (fuel : nat) (n : Z) (acc : string) : string :=
  match fuel with
  | O => acc
  | S fuel' =>
      let acc' := String (digit_char (n mod 10)) acc in
      if decide (n / 10 = 0) then acc' else format_digits fuel' (n / 10) acc'
  end.

Definition FormatInt (n : Z) : string :=
  if decide (n < 0) then String "-" (format_digits 20 (- n) "") else format_digits 20 n "".

(** [strconv.ParseInt(s, 10, 64)]: the value it returns and whether the error
    is nil.  [ParseUint] stops at the first byte that is not a digit (value 0)
    or at the first overflow of uint64 (value 2^64-1). *)
Inductive NumError := ErrSyntax | ErrRange.

#[global] Instance NumError_eq_dec : EqDecision NumError.
Proof. solve_decision. Defined.

Definition digit_value (a : ascii) : option Z :=
  let n := nat_of_ascii a in
  if decide (48 ≤ n ≤ 57)%nat then Some (Z.of_nat (n - 48)) else None.

Fixpoint ParseUint (acc : Z) (s : string) : Z * option NumError :=
  match s with
  | EmptyString => (acc, None)
  | String a s' =>
      match digit_value a with
      | None => (0, Some ErrSyntax)
      | Some d =>
          if decide (max_uint64 < acc * 10 + d) then (max_uint64, Some ErrRange)
          else ParseUint (acc * 10 + d) s'
      end
  end.

Definition ParseInt (s : string) : Z * option NumError :=
  let '(neg, body) :=
    match s with
    | String a s' => if decide (a = "-"%char) then (true, s')
                     else if decide (a = "+"%char) then (false, s') else (false, s)
    | EmptyString => (false, s)
    end in
  if decide (s = "" ∨ body = "") then (0, Some ErrSyntax) else
  match ParseUint 0 body with
  | (_, Some ErrSyntax) => (0, Some ErrSyntax)
  | (un, e) =>
      if neg then (if decide (2 ^ 63 < un) then (min_int64, Some ErrRange) else (- un, e))
      else (if decide (2 ^ 63 ≤ un) then (max_int64, Some ErrRange) else (un, e))
  end.

(** A byte occurs in a string. *)
Fixpoint occurs (c : ascii) (s : string) : Prop :=
  match s with EmptyString => False | String a s' => a = c ∨ occurs c s' end.

(** Every byte is an ASCII digit: the loop of [parseSegment] and
    [ParseReleaseLine]. *)
Fixpoint all_digits (s : string) : bool :=
  match s with
  | EmptyString => true
  | String a s' => bool_decide (is_Some (digit_value a)) && all_digits s'
  end.

#[global] Arguments digit_value : simpl never.
#[global] Arguments digit_char : simpl never.
#[global] Arguments ParseInt : simpl never.
#[global] Arguments FormatInt : simpl never.

(** ** Concatenation and occurrence *)

Lemma sapp_cons a s t : String a s +:+ t = String a (s +:+ t).
Proof. reflexivity. Qed.

Lemma sapp_nil_l s : "" +:+ s = s.
Proof. reflexivity. Qed.

Lemma sapp_nil_r s : s +:+ "" = s.
Proof. induction s as [|a s IH]; [done|]. by rewrite sapp_cons, IH. Qed.

Lemma sapp_assoc s t u : (s +:+ t) +:+ u = s +:+ (t +:+ u).
Proof. induction s as [|a s IH]; [done|]. by rewrite !sapp_cons, IH. Qed.

Lemma string_snoc_ind (P : string -> Prop) :
  P "" -> (forall s c, P s -> P (s +:+ String c "")) -> forall s, P s.
Proof.
  intros H0 HS s. rewrite <-(sapp_nil_l s). revert H0. generalize "".
  induction s as [|a s IH]; intros t Ht; [by rewrite sapp_nil_r|].
  replace (t +:+ String a s) with ((t +:+ String a "") +:+ s) by by rewrite sapp_assoc.
  by apply IH, HS.
Qed.

Create Rewrite HintDb gostr.
#[export] Hint Rewrite sapp_cons sapp_nil_l sapp_nil_r sapp_assoc : gostr.

#[global] Instance occurs_dec c s : Decision (occurs c s).
Proof. induction s; simpl; apply _. Defined.

Lemma occurs_app c s t : occurs c (s +:+ t) <-> occurs c s \/ occurs c t.
Proof. induction s as [|a s IH]; [simpl; tauto|]. rewrite sapp_cons. simpl. rewrite IH. tauto. Qed.

Lemma all_digits_app s t : all_digits (s +:+ t) = all_digits s && all_digits t.
Proof. induction s as [|a s IH]; [done|]. rewrite sapp_cons. simpl. rewrite IH. by destruct (bool_decide _). Qed.

Lemma all_digits_no_occurs c s :
  all_digits s = true -> digit_value c = None -> ~ occurs c s.
Proof.
  induction s as [|a s IH]; simpl; [tauto|].
  intros [Ha Hs]%andb_true_iff Hc [->|Ho]; [|by apply IH].
  apply bool_decide_eq_true in Ha. rewrite Hc in Ha. by destruct Ha.
Qed.

(** Two strings that agree up to a separator absent from both heads agree on
    the head and on the tail. *)
Lemma sep_inj c a a' b b' :
  ~ occurs c a -> ~ occurs c a' -> a +:+ String c b = a' +:+ String c b' -> a = a' /\ b = b'.
Proof.
  revert a'. induction a as [|x a IH]; intros [|x' a']; simpl; intros Ha Ha' H;
    rewrite ?sapp_nil_l, ?sapp_cons in H; simplify_eq; try tauto.
  destruct (IH a') as [-> ->]; tauto.
Qed.

(** ** Cut, Split, Count, prefixes *)

Lemma Cut_found c a b : ~ occurs c a -> Cut c (a +:+ String c b) = (a, b, true).
Proof.
  induction a as [|x a IH]; simpl; intros Ha.
  - rewrite ?sapp_nil_l; simpl. by case_decide.
  - rewrite ?sapp_cons; simpl. case_decide; [tauto|]. rewrite IH by tauto. done.
Qed.

Lemma Cut_none c s : ~ occurs c s -> Cut c s = (s, "", false).
Proof. induction s as [|x s IH]; simpl; [done|]. intros H. case_decide; [tauto|]. by rewrite IH by tauto. Qed.

Lemma Cut_spec c s :
  match Cut c s with
  | (a, b, true) => s = a +:+ String c b /\ ~ occurs c a
  | (a, b, false) => a = s /\ b = "" /\ ~ occurs c s
  end.
Proof.
  induction s as [|x s IH]; simpl; [tauto|]. case_decide as Hx.
  - subst. simpl. tauto.
  - destruct (Cut c s) as [[a b] []]; simpl in *.
    + destruct IH as [-> ?]. rewrite ?sapp_cons; simpl. tauto.
    + destruct IH as (-> & -> & ?). tauto.
Qed.

Lemma Split_found c a b : ~ occurs c a -> Split c (a +:+ String c b) = a :: Split c b.
Proof.
  induction a as [|x a IH]; simpl; intros Ha.
  - rewrite ?sapp_nil_l; simpl. by case_decide.
  - rewrite ?sapp_cons; simpl. case_decide; [tauto|]. by rewrite IH by tauto.
Qed.

Lemma Split_none c s : ~ occurs c s -> Split c s = [s].
Proof. induction s as [|x s IH]; simpl; [done|]. intros H. case_decide; [tauto|]. by rewrite IH by tauto. Qed.

Lemma Split_Count c s : length (Split c s) = S (Count c s).
Proof.
  induction s as [|x s IH]; simpl; [done|]. case_decide; simpl; [by rewrite IH|].
  destruct (Split c s); simpl in *; lia.
Qed.

(** [Split] is inverted by joining its parts with the separator. *)
Fixpoint join (c : ascii) (l : list string) : string :=
  match l with
  | [] => ""
  | [p] => p
  | p :: l' => p +:+ String c (join c l')
  end.

Lemma Split_join c s : join c (Split c s) = s.
Proof.
  induction s as [|x s IH]; simpl; [done|]. case_decide; subst.
  - pose proof (Split_Count c s). destruct (Split c s); simpl in *; [lia|by rewrite IH].
  - destruct (Split c s) as [|p [|q l]]; simpl in *; subst; done.
Qed.

Lemma HasPrefix_spec s p : HasPrefix s p = true <-> exists r, s = p +:+ r.
Proof.
  revert s. induction p as [|x p IH]; intros s; simpl.
  - split; [|by destruct s]. by exists s.
  - destruct s as [|y s]; [split; [done|by intros [r ?]]|].
    rewrite andb_true_iff, bool_decide_eq_true, IH. split.
    + intros [-> [r ->]]. by exists r.
    + intros [r Hr]. rewrite ?sapp_cons in Hr. simplify_eq. eauto.
Qed.

Lemma HasPrefix_app p r : HasPrefix (p +:+ r) p = true.
Proof. apply HasPrefix_spec. by exists r. Qed.

Lemma CutPrefix_spec s p r : CutPrefix s p = Some r <-> s = p +:+ r.
Proof.
  revert s. induction p as [|x p IH]; intros s; simpl.
  - rewrite ?sapp_nil_l. split; congruence.
  - destruct s as [|y s]; [done|]. rewrite ?sapp_cons. case_decide as Hd.
    + rewrite IH. split; congruence.
    + split; congruence.
Qed.

Lemma Contains_occurs c s : Contains s (String c "") = true <-> occurs c s.
Proof.
  induction s as [|a s IH]; [done|].
  change (Contains (String a s) (String c ""))
    with ((bool_decide (a = c) && true) || Contains s (String c "")).
  rewrite orb_true_iff, IH, andb_true_r, bool_decide_eq_true. simpl. tauto.
Qed.

Lemma Contains_app s t p : Contains s p = true -> Contains (t +:+ s) p = true.
Proof.
  intros H. induction t as [|a t IH]; [done|]. rewrite ?sapp_cons; simpl.
  rewrite IH. apply orb_true_r.
Qed.

Lemma HasPrefix_Contains s p : HasPrefix s p = true -> Contains s p = true.
Proof. destruct s; simpl; intros ->; done. Qed.

(** ** Decimal numerals *)

(** The value of a digit string read after [acc], without a bound. *)
Fixpoint dval (acc : Z) (s : string) : option Z :=
  match s with
  | EmptyString => Some acc
  | String a s' => match digit_value a with
                   | Some d => dval (acc * 10 + d) s'
                   | None => None
                   end
  end.

Lemma digit_value_char d : 0 ≤ d < 10 -> digit_value (digit_char d) = Some d.
Proof.
  intros H. unfold digit_value, digit_char.
  rewrite nat_ascii_embedding by lia. case_decide; [|lia]. f_equal. lia.
Qed.

Lemma digit_value_bound a d : digit_value a = Some d -> 0 ≤ d < 10 /\ digit_char d = a.
Proof.
  unfold digit_value, digit_char. case_decide; [|done]. intros [= <-]. split; [lia|].
  rewrite Nat2Z.id. replace (48 + (nat_of_ascii a - 48))%nat with (nat_of_ascii a) by lia.
  apply ascii_nat_embedding.
Qed.

Lemma dval_app acc s t : dval acc (s +:+ t) = v ← dval acc s; dval v t.
Proof.
  revert acc. induction s as [|a s IH]; intros acc; [done|]. rewrite ?sapp_cons; simpl.
  destruct (digit_value a); simpl; [apply IH|done].
Qed.

Lemma dval_mono acc s n : 0 ≤ acc -> dval acc s = Some n -> acc ≤ n.
Proof.
  revert acc. induction s as [|a s IH]; intros acc Hacc; simpl; [intros [= ->]; lia|].
  destruct (digit_value a) as [d|] eqn:Hd; simpl; [|done].
  apply digit_value_bound in Hd as [Hd _]. intros H%IH; lia.
Qed.

Lemma dval_all_digits acc s : all_digits s = true -> is_Some (dval acc s).
Proof.
  revert acc. induction s as [|a s IH]; intros acc; simpl; [by eexists|].
  intros [Ha Hs]%andb_true_iff. apply bool_decide_eq_true in Ha as [d ->]. simpl. by apply IH.
Qed.

Lemma ParseUint_dval acc s n :
  0 ≤ acc -> dval acc s = Some n -> n ≤ max_uint64 -> ParseUint acc s = (n, None).
Proof.
  revert acc. induction s as [|a s IH]; intros acc Hacc; simpl; [by intros [= ->]|].
  destruct (digit_value a) as [d|] eqn:Hd; simpl; [|done].
  apply digit_value_bound in Hd as [Hd _]. intros H Hn.
  assert (acc * 10 + d ≤ n) by (eapply dval_mono; [|done]; lia). case_decide; [lia|]. by apply IH; [lia|..].
Qed.

Lemma format_digits_dval fuel n acc :
  0 ≤ n < 10 ^ Z.of_nat fuel -> (0 < fuel)%nat ->
  dval 0 (format_digits fuel n acc) = dval n acc.
Proof.
  revert n acc. induction fuel as [|f IH]; intros n acc Hn Hf; [lia|]. cbn [format_digits].
  pose proof (Z.mod_pos_bound n 10 ltac:(lia)). pose proof (Z.div_mod n 10 ltac:(lia)).
  case_decide as Hz.
  - cbn [dval]. rewrite digit_value_char by lia. f_equal. lia.
  - assert (0 ≤ n / 10 < 10 ^ Z.of_nat f).
    { split; [apply Z.div_pos; lia|]. apply Z.div_lt_upper_bound; [lia|].
      rewrite Nat2Z.inj_succ, Z.pow_succ_r in Hn by lia. lia. }
    destruct f as [|f]; [change (10 ^ Z.of_nat 0) with 1 in *; lia|].
    rewrite IH by lia. cbn [dval]. rewrite digit_value_char by lia. f_equal. lia.
Qed.

Lemma all_digits_digit d acc :
  0 ≤ d < 10 -> all_digits (String (digit_char d) acc) = all_digits acc.
Proof. intros H. cbn [all_digits]. by rewrite digit_value_char. Qed.

Lemma format_digits_all_digits fuel n acc :
  0 ≤ n -> all_digits (format_digits fuel n acc) = all_digits acc.
Proof.
  revert n acc. induction fuel as [|f IH]; intros n acc Hn; [done|]. cbn [format_digits].
  pose proof (Z.mod_pos_bound n 10 ltac:(lia)).
  case_decide; [|rewrite IH by (apply Z.div_pos; lia)]; by apply all_digits_digit.
Qed.

(** A canonical numeral is nonempty, all digits, and has no leading zero
    unless it is [0] itself. *)
Definition canonical_num (s : string) : Prop :=
  all_digits s = true /\
  match s with "" => False | String a s' => s' = "" \/ a <> "0"%char end.

Lemma format_digits_head fuel n acc :
  0 < n < 10 ^ Z.of_nat fuel ->
  exists a s, format_digits fuel n acc = String a s /\ a <> "0"%char.
Proof.
  revert n acc. induction fuel as [|f IH]; intros n acc Hn; [change (10 ^ Z.of_nat 0) with 1 in *; lia|]. cbn [format_digits].
  pose proof (Z.mod_pos_bound n 10 ltac:(lia)). pose proof (Z.div_mod n 10 ltac:(lia)).
  case_decide as Hz.
  - eexists _, _. split; [done|]. intros Heq.
    pose proof (digit_value_char (n mod 10) ltac:(lia)) as Hd. rewrite Heq in Hd.
    change (digit_value "0") with (Some 0) in Hd. injection Hd as Hd. lia.
  - apply IH. split; [|apply Z.div_lt_upper_bound; [lia|]].
    + assert (0 ≤ n / 10) by (apply Z.div_pos; lia). lia.
    + rewrite Nat2Z.inj_succ, Z.pow_succ_r in Hn by lia. lia.
Qed.

Lemma FormatInt_canonical n : 0 ≤ n ≤ max_int64 -> canonical_num (FormatInt n).
Proof.
  unfold FormatInt, max_int64. intros Hn. case_decide; [lia|]. split.
  - by rewrite format_digits_all_digits by lia.
  - destruct (decide (n = 0)) as [->|Hne]; [vm_compute; tauto|].
    destruct (format_digits_head 20 n "") as (a & s & -> & ?); [|tauto].
    split; [lia|]. change (10 ^ Z.of_nat 20) with 100000000000000000000. lia.
Qed.

Lemma FormatInt_dval n : 0 ≤ n ≤ max_int64 -> dval 0 (FormatInt n) = Some n.
Proof.
  unfold FormatInt, max_int64. intros Hn. case_decide; [lia|].
  rewrite format_digits_dval; [done| |lia].
  change (10 ^ Z.of_nat 20) with 100000000000000000000. lia.
Qed.

Lemma FormatInt_no_occurs c n :
  0 ≤ n ≤ max_int64 -> digit_value c = None -> ~ occurs c (FormatInt n).
Proof. intros Hn. apply all_digits_no_occurs, FormatInt_canonical, Hn. Qed.

Lemma FormatInt_inj n m :
  0 ≤ n ≤ max_int64 -> 0 ≤ m ≤ max_int64 -> FormatInt n = FormatInt m -> n = m.
Proof.
  intros Hn Hm Heq. pose proof (FormatInt_dval n Hn) as H1.
  rewrite Heq, FormatInt_dval in H1 by done. congruence.
Qed.

Lemma canonical_dval_pos a s n :
  canonical_num (String a s) -> a <> "0"%char -> dval 0 (String a s) = Some n -> 0 < n.
Proof.
  intros _ Ha. simpl. destruct (digit_value a) as [d|] eqn:Hd; [|done]. simpl.
  apply digit_value_bound in Hd as [Hd Hc]. intros H%dval_mono; [|lia].
  destruct (decide (d = 0)) as [->|]; [|lia]. by vm_compute in Hc; subst.
Qed.

(** Printing the value of a canonical numeral gives it back. *)
Lemma format_digits_canonical s fuel n acc :
  canonical_num s -> dval 0 s = Some n -> n < 10 ^ Z.of_nat fuel -> (0 < fuel)%nat ->
  format_digits fuel n acc = s +:+ acc.
Proof.
  revert fuel n acc. induction s as [|s c IH] using string_snoc_ind;
    intros fuel n acc Hc Hv Hn Hf; [by destruct Hc|].
  destruct fuel as [|f]; [lia|]. cbn [format_digits].
  rewrite dval_app in Hv. destruct (dval 0 s) as [v|] eqn:Hs; simpl in Hv; [|done].
  destruct (digit_value c) as [d|] eqn:Hd; simpl in Hv; [|done]. injection Hv as <-.
  apply digit_value_bound in Hd as [Hd Hch].
  assert ((v * 10 + d) mod 10 = d) as -> by (rewrite Z.add_comm, Z.mod_add, ?Z.mod_small; lia).
  assert ((v * 10 + d) / 10 = v) as -> by (rewrite Z.add_comm, Z.div_add, ?Z.div_small; lia).
  rewrite Hch. destruct s as [|a s].
  - simpl in Hs. injection Hs as <-. by case_decide.
  - destruct Hc as [Hdig Hz]. rewrite all_digits_app in Hdig. apply andb_true_iff in Hdig as [Hdig _].
    rewrite ?sapp_cons in Hz. destruct Hz as [Hz|Hz]; [by destruct s|].
    assert (canonical_num (String a s)) as Hcan by (split; [done|tauto]).
    pose proof (canonical_dval_pos _ _ _ Hcan Hz Hs). case_decide; [lia|].
    rewrite Nat2Z.inj_succ, Z.pow_succ_r in Hn by lia.
    destruct f as [|f]; [change (10 ^ Z.of_nat 0) with 1 in *; lia|].
    rewrite (IH (S f) v) by (done || lia). by rewrite sapp_assoc.
Qed.

Lemma canonical_FormatInt s n :
  canonical_num s -> dval 0 s = Some n -> n ≤ max_int64 -> FormatInt n = s.
Proof.
  intros Hc Hv Hn. assert (0 ≤ n) by (by eapply dval_mono).
  unfold FormatInt. case_decide; [lia|].
  rewrite (format_digits_canonical s); [by rewrite sapp_nil_r|done|done| |lia].
  change (10 ^ Z.of_nat 20) with 100000000000000000000. unfold max_int64 in Hn. lia.
Qed.

(** On a nonempty digit string whose value fits, [ParseInt] returns it; a value
    above int64 is a range error. *)
Lemma ParseInt_digits s n :
  s <> "" -> all_digits s = true -> dval 0 s = Some n -> n ≤ max_int64 ->
  ParseInt s = (n, None).
Proof.
  intros Hne Hd Hv Hn. assert (0 ≤ n) by (by eapply dval_mono).
  destruct s as [|a s]; [done|]. unfold ParseInt.
  destruct (decide (a = "-"%char)) as [->|]; [by vm_compute in Hd|].
  destruct (decide (a = "+"%char)) as [->|]; [by vm_compute in Hd|].
  case_decide as Hx; [by destruct Hx|].
  rewrite (ParseUint_dval 0 (String a s) n); [|lia|done|unfold max_uint64, max_int64 in *; lia].
  case_decide; [unfold max_int64 in *; lia|done].
Qed.

Lemma ParseUint_range acc s n :
  0 ≤ acc ≤ max_uint64 -> dval acc s = Some n -> max_uint64 < n ->
  ParseUint acc s = (max_uint64, Some ErrRange).
Proof.
  revert acc. induction s as [|a s IH]; intros acc Hacc; simpl; [intros [= ->]; lia|].
  destruct (digit_value a) as [d|] eqn:Hd; [|done].
  apply digit_value_bound in Hd as [Hd _]. intros H Hn. case_decide; [done|].
  by apply IH; [lia|..].
Qed.

Lemma ParseInt_digits_inv s n :
  s <> "" -> all_digits s = true -> ParseInt s = (n, None) ->
  dval 0 s = Some n /\ 0 ≤ n ≤ max_int64.
Proof.
  intros Hne Hd Hp. destruct (dval_all_digits 0 s Hd) as [v Hv].
  assert (0 ≤ v) by (by eapply dval_mono).
  destruct (decide (v ≤ max_int64)) as [Hle|Hgt].
  - rewrite (ParseInt_digits s v) in Hp by done. simplify_eq. done.
  - exfalso. destruct s as [|a s]; [done|]. unfold ParseInt in Hp.
    destruct (decide (a = "-"%char)) as [->|]; [by vm_compute in Hd|].
    destruct (decide (a = "+"%char)) as [->|]; [by vm_compute in Hd|].
    destruct (decide _) as [Hx|_]; [by destruct Hx|].
    destruct (decide (v ≤ max_uint64)).
    + rewrite (ParseUint_dval 0 (String a s) v) in Hp by done.
      destruct (decide (2 ^ 63 ≤ v)); [done|unfold max_int64 in *; lia].
    + rewrite (ParseUint_range 0 (String a s) v) in Hp by (done || lia). by vm_compute in Hp.
Qed.

(** ** [utf8.ValidString]

    The well-formed byte sequences of the Unicode standard's table 3-7, which is
    the table Go's decoder is generated from. *)

Definition byte_in (lo hi : nat) (a : ascii) : bool :=
  (lo <=? nat_of_ascii a)%nat && (nat_of_ascii a <=? hi)%nat.

Fixpoint utf8_ValidString (s : string) : bool :=
  match s with
  | EmptyString => true
  | String a s1 =>
      if byte_in 0 127 a then utf8_ValidString s1 else
      match s1 with
      | EmptyString => false
      | String b s2 =>
          if byte_in 194 223 a then byte_in 128 191 b && utf8_ValidString s2 else
          match s2 with
          | EmptyString => false
          | String c s3 =>
              let tail3 := byte_in 128 191 c && utf8_ValidString s3 in
              if byte_in 224 224 a then byte_in 160 191 b && tail3 else
              if byte_in 237 237 a then byte_in 128 159 b && tail3 else
              if byte_in 225 239 a then byte_in 128 191 b && tail3 else
              match s3 with
              | EmptyString => false
              | String d s4 =>
                  let tail4 := byte_in 128 191 c && byte_in 128 191 d && utf8_ValidString s4 in
                  if byte_in 240 240 a then byte_in 144 191 b && tail4 else
                  if byte_in 241 243 a then byte_in 128 191 b && tail4 else
                  if byte_in 244 244 a then byte_in 128 143 b && tail4 else false
              end
          end
      end
  end.

(** Go's [len] of a string. *)
Definition len (s : string) : Z := Z.of_nat (String.length s).

(** ** ASCII text *)

Fixpoint is_ascii (s : string) : bool :=
  match s with
  | EmptyString => true
  | String a s' => (nat_of_ascii a <? 128)%nat && is_ascii s'
  end.

Fixpoint ascii_lower (s : string) : string :=
  match s with
  | EmptyString => EmptyString
  | String a s' =>
      let n := nat_of_ascii a in
      String (if (65 <=? n)%nat && (n <=? 90)%nat then ascii_of_nat (n + 32) else a) (ascii_lower s')
  end.

(** ** [strings.ToValidUTF8] and [utf8.DecodeLastRuneInString] *)

(** The width of the well-formed rune at the front, 0 when there is none. *)
Definition rune_width (s : string) : nat :=
  match s with
  | EmptyString => 0
  | String a s1 =>
      if byte_in 0 127 a then 1 else
      match s1 with
      | EmptyString => 0
      | String b s2 =>
          if byte_in 194 223 a && byte_in 128 191 b then 2 else
          match s2 with
          | EmptyString => 0
          | String c s3 =>
              if ((byte_in 224 224 a && byte_in 160 191 b) || (byte_in 237 237 a && byte_in 128 159 b) ||
                  (byte_in 225 236 a && byte_in 128 191 b) || (byte_in 238 239 a && byte_in 128 191 b))
                 && byte_in 128 191 c then 3 else
              match s3 with
              | EmptyString => 0
              | String d _ =>
                  if ((byte_in 240 240 a && byte_in 144 191 b) || (byte_in 241 243 a && byte_in 128 191 b) ||
                      (byte_in 244 244 a && byte_in 128 143 b)) && byte_in 128 191 c && byte_in 128 191 d
                  then 4 else 0
              end
          end
      end
  end%nat.

Definition take_str (n : nat) (s : string) : string := String.substring 0 n s.
Definition drop_str (n : nat) (s : string) : string := String.substring n (String.length s - n) s.

(** A run of invalid bytes becomes one replacement.  Each turn consumes a byte,
    so the length is enough fuel. *)
Fixpoint to_valid (fuel : nat) (invalid : bool) (replacement s : string) : string :=
  match fuel, s with
  | S fuel', String _ s' =>
      match rune_width s with
      | O => (if invalid then "" else replacement) +:+ to_valid fuel' true replacement s'
      | w => take_str w s +:+ to_valid fuel' false replacement (drop_str w s)
      end
  | _, _ => ""
  end.

Definition ToValidUTF8 (s replacement : string) : string := to_valid (String.length s) false replacement s.

Definition byte_at (s : string) (i : nat) : nat :=
  match String.get i s with Some a => nat_of_ascii a | None => 0 end.

(** The start of the last rune: at most three continuation bytes back. *)
Fixpoint last_rune_start (fuel : nat) (s : string) (start : nat) : nat :=
  match fuel, start with
  | S fuel', S start' =>
      if (128 <=? byte_at s start)%nat && (byte_at s start <=? 191)%nat then last_rune_start fuel' s start' else start
  | _, _ => start
  end.

Definition last_rune_size (s : string) : nat :=
  match String.length s with
  | O => 0
  | S last =>
      if (byte_at s last <=? 127)%nat then 1 else
      let start := last_rune_start 3 s last in
      if decide (rune_width (drop_str start s) = (S last - start)%nat /\ (0 < S last - start)%nat)
      then (S last - start)%nat else 1
  end%nat.

Lemma last_rune_size_pos s : s <> "" -> (0 < last_rune_size s)%nat.
Proof.
  intros Hs. unfold last_rune_size. destruct (String.length s) eqn:Hl; [by destruct s|].
  destruct (_ <=? 127)%nat; [lia|]. case_decide as Hd; [apply Hd|lia].
Qed.

Lemma length_sapp a b : String.length (a +:+ b) = (String.length a + String.length b)%nat.
Proof. induction a as [|x a IH]; simpl; [done|]. by rewrite IH. Qed.

Lemma take_str_length n s : (n ≤ String.length s)%nat -> String.length (take_str n s) = n.
Proof.
  unfold take_str. revert n. induction s as [|a s IH]; intros [|n] Hn; simpl in *; try lia.
  f_equal. apply IH. lia.
Qed.

Lemma cut_prefix_length s p r : CutPrefix s p = Some r -> (String.length r ≤ String.length s)%nat.
Proof.
  revert s. induction p as [|a p IH]; intros s Hc; [destruct s; simpl in Hc; simplify_eq; simpl; lia|].
  destruct s as [|b s]; [done|]. simpl in Hc. case_decide; [|done]. apply IH in Hc. simpl. lia.
Qed.

Lemma cut_space_length runes s r : cut_space runes s = Some r -> (String.length r ≤ String.length s)%nat.
Proof.
  unfold cut_space. induction runes as [|p runes IH]; simpl; [done|].
  destruct (CutPrefix s p) eqn:Hc; [|done]. intros [= <-]. by eapply cut_prefix_length.
Qed.

Lemma trim_left_length runes fuel s : (String.length (trim_left runes fuel s) ≤ String.length s)%nat.
Proof.
  revert s. induction fuel as [|fuel IH]; intros s; simpl; [lia|].
  destruct (cut_space runes s) as [r|] eqn:Hc; [|lia]. apply cut_space_length in Hc. specialize (IH r). lia.
Qed.

Lemma string_rev_length s : String.length (String.rev s) = String.length s.
Proof.
  assert (forall acc, String.length (String.rev_app s acc) = (String.length s + String.length acc)%nat) as Hgen.
  { induction s as [|a s IH]; intros acc; simpl; [done|]. rewrite IH. simpl. lia. }
  unfold String.rev. rewrite Hgen. simpl. lia.
Qed.

Lemma TrimSpace_length s : (String.length (TrimSpace s) ≤ String.length s)%nat.
Proof.
  unfold TrimSpace. rewrite string_rev_length. etrans; [apply trim_left_length|].
  rewrite string_rev_length. apply trim_left_length.
Qed.

(** ** Trimming twice *)

Lemma string_rev_app_spec a : forall b, String.rev_app a b = String.rev a +:+ b.
Proof. unfold String.rev. induction a as [|x a IH]; intros b; simpl; [done|]. rewrite IH, (IH (String x "")). by rewrite sapp_assoc. Qed.

Lemma string_rev_sapp a b : String.rev (a +:+ b) = String.rev b +:+ String.rev a.
Proof.
  induction a as [|x a IH]; simpl; [by rewrite sapp_nil_r|]. unfold String.rev at 1 3. simpl. rewrite !string_rev_app_spec, IH. by rewrite <-sapp_assoc.
Qed.

Lemma string_rev_rev s : String.rev (String.rev s) = s.
Proof. induction s as [|a s IH]; [done|]. change (String a s) with (String a "" +:+ s) at 1. rewrite !string_rev_sapp, IH. done. Qed.

Lemma cut_space_None runes s : cut_space runes s = None <-> forall r, r ∈ runes -> CutPrefix s r = None.
Proof.
  unfold cut_space. induction runes as [|r runes IH]; simpl; [split; [intros _ ? []%not_elem_of_nil|done]|]. destruct (CutPrefix s r) eqn:Hc.
  - split; [done|]. intros Hall. rewrite (Hall r) in Hc by left. done.
  - rewrite IH. split; [|intros Hall r' Hr'; apply Hall; by right]. by intros Hall r' [->|Hr']%elem_of_cons; [|apply Hall].
Qed.

Lemma cut_space_Some runes s s' : cut_space runes s = Some s' -> exists r, r ∈ runes /\ s = r +:+ s'.
Proof.
  unfold cut_space. induction runes as [|r runes IH]; simpl; [done|]. destruct (CutPrefix s r) as [x|] eqn:Hc.
  - intros [= ->]. exists r. split; [left|by apply CutPrefix_spec].
  - intros (r' & ? & ?)%IH. exists r'. split; [by right|done].
Qed.

(** What remains is a suffix that starts with no space. *)
Lemma trim_left_spec runes fuel : Forall (fun r => r <> "") runes -> forall s, (String.length s ≤ fuel)%nat ->
  cut_space runes (trim_left runes fuel s) = None /\ exists p, s = p +:+ trim_left runes fuel s.
Proof.
  intros Hne. assert (forall r s s', r ∈ runes -> s = r +:+ s' -> (String.length s' < String.length s)%nat) as Hlt.
  { intros r s s' Hr ->. rewrite Forall_forall in Hne. specialize (Hne r Hr). rewrite length_sapp. destruct r; [done|]. simpl. lia. }
  induction fuel as [|fuel IH]; intros s Hf; simpl; destruct (cut_space runes s) as [s'|] eqn:Hc; try (split; [done|by exists ""]).
  - apply cut_space_Some in Hc as (r & Hr & Hs). specialize (Hlt r s s' Hr Hs). lia.
  - apply cut_space_Some in Hc as (r & Hr & Hs). specialize (Hlt r s s' Hr Hs). destruct (IH s') as [Hn (p & Hp)]; [lia|]. split; [done|].
    exists (r +:+ p). rewrite Hs, Hp at 1. by rewrite <-sapp_assoc.
Qed.

Lemma trim_left_none runes fuel s : cut_space runes s = None -> trim_left runes fuel s = s.
Proof. intros Hc. destruct fuel; [done|]. simpl. by rewrite Hc. Qed.

Lemma cut_space_prefix runes a b : cut_space runes (a +:+ b) = None -> cut_space runes a = None.
Proof.
  rewrite !cut_space_None. intros Hall r Hr. specialize (Hall r Hr). destruct (CutPrefix a r) as [x|] eqn:Hc; [|done]. apply CutPrefix_spec in Hc. subst a.
  rewrite sapp_assoc in Hall. assert (CutPrefix (r +:+ (x +:+ b)) r = Some (x +:+ b)) by (by apply CutPrefix_spec). congruence.
Qed.

(** Trimming a trimmed string changes nothing. *)
Lemma TrimSpace_idempotent s : TrimSpace (TrimSpace s) = TrimSpace s.
Proof.
  assert (Forall (fun r => r <> "") space_runes /\ Forall (fun r => r <> "") (String.rev <$> space_runes)) as [Hf Hb] by (split; apply (bool_decide_unpack _); vm_compute; exact I).
  unfold TrimSpace at 2 3. set (l := trim_left space_runes (String.length s) s). set (t := trim_left (String.rev <$> space_runes) (String.length (String.rev l)) (String.rev l)).
  destruct (trim_left_spec _ (String.length s) Hf s) as [Hl _]; [lia|]. fold l in Hl.
  destruct (trim_left_spec _ (String.length (String.rev l)) Hb (String.rev l)) as [Ht (p & Hp)]; [lia|]. fold t in Ht, Hp.
  assert (l = String.rev t +:+ String.rev p) as Hlt by (rewrite <-string_rev_sapp, <-Hp; by rewrite string_rev_rev).
  rewrite Hlt in Hl. apply cut_space_prefix in Hl. unfold TrimSpace. rewrite (trim_left_none space_runes) by done. rewrite string_rev_rev. by rewrite trim_left_none.
Qed.
