(* ===== verification/ReleaseId.v ===== *)
(** * Release identity ([releaseid/releaseid.go])

    Product versions, their grammar, their order and the tags a release is
    published under.  The package is pure, so every function is translated as
    it stands; an error keeps the sentinel it wraps. *)
From S2P Require Import Prelude GoStrings.

(** ** Data *)

Definition MaxSegment : Z := 2147483647.

Inductive ReleaseError :=
| ErrUnknownFormat
| ErrSegmentRange
| ErrNotTagged
| ErrNotAllocated
| ErrAmbiguousRevision
| ErrCandidate (msg : string).

#[global] Instance ReleaseError_eq_dec : EqDecision ReleaseError.
Proof. solve_decision. Defined.

Record Version := MkVersion {
  Major : Z;
  Minor : Z;
  Patch : Z;
  Build : Z;
  Prerelease : string
}.

#[global] Instance Version_eq_dec : EqDecision Version.
Proof. solve_decision. Defined.

Inductive Scheme := SchemeProduct.

Record Tag := MkTag {
  Raw : string;
  TagScheme : Scheme;
  Product : Version
}.

Inductive Channel := ChannelStable | ChannelTesting.

Definition TagPrefix : string := "v".
Definition HistoricalTagPrefix : string := "release/".

(** ** Operations *)

(** [Version.String]. *)
Definition VString (v : Version) : string :=
  if decide (0 < Build v) then
    FormatInt (Major v) +:+ "." +:+ FormatInt (Minor v) +:+ "." +:+
    FormatInt (Patch v) +:+ "." +:+ FormatInt (Build v)
  else
    let base := FormatInt (Major v) +:+ "." +:+ FormatInt (Minor v) +:+ "." +:+ FormatInt (Patch v) in
    if decide (Prerelease v <> "") then base +:+ "-" +:+ Prerelease v else base.

Definition parseSegment (part : string) : res ReleaseError Z :=
  if decide (part = "") then Err ErrUnknownFormat else
  if negb (all_digits part) then Err ErrUnknownFormat else
  if decide ((1 < String.length part)%nat /\ HasPrefix part "0" = true) then Err ErrUnknownFormat else
  match ParseInt part with
  | (n, None) => if decide (MaxSegment < n) then Err ErrSegmentRange else Ok n
  | (_, Some _) => Err ErrSegmentRange
  end.

Definition validPrerelease (pre : string) : bool :=
  let '(stage, number, ok) := Cut "." pre in
  if decide (ok = false \/ (stage <> "beta" /\ stage <> "rc")) then false else
  match parseSegment number with
  | Ok n => bool_decide (0 < n)
  | Err _ => false
  end.

Definition ParseProductVersion (s : string) : res ReleaseError Version :=
  if decide (s = "") then Err ErrUnknownFormat else
  let '(base, pre, hasPre) := Cut "-" s in
  if hasPre && negb (validPrerelease pre) then Err ErrUnknownFormat else
  let parts := Split "." base in
  if hasPre && negb (bool_decide (length parts = 3%nat)) then Err ErrUnknownFormat else
  if decide (4 < length parts)%nat then Err ErrUnknownFormat else
  out ← res_mapM parseSegment parts;
  if decide (length parts = 4%nat /\ nth 3 out 0 = 0) then Err ErrUnknownFormat else
  Ok (MkVersion (nth 0 out 0) (nth 1 out 0) (nth 2 out 0) (nth 3 out 0) pre).

Definition CompareProductVersion (a b : Version) : Z :=
  let fix go (pairs : list (Z * Z)) (rest : Z) : Z :=
    match pairs with
    | [] => rest
    | (x, y) :: pairs' => if decide (x <> y) then (if decide (x < y) then -1 else 1) else go pairs' rest
    end in
  go [(Major a, Major b); (Minor a, Minor b); (Patch a, Patch b); (Build a, Build b)]
    (if decide (Prerelease a = Prerelease b) then 0 else
     if decide (Prerelease a = "") then 1 else
     if decide (Prerelease b = "") then -1 else
     let '(as_, an, _) := Cut "." (Prerelease a) in
     let '(bs, bn, _) := Cut "." (Prerelease b) in
     if decide (as_ <> bs) then Compare as_ bs else
     let ai := fst (ParseInt an) in
     let bi := fst (ParseInt bn) in
     if decide (ai < bi) then -1 else 1).

(** The number of dots before the first dash: two or three. *)
Definition exact_dots (value : string) : bool :=
  let dots := Count "." (fst (fst (Cut "-" value))) in
  bool_decide (dots = 2%nat \/ dots = 3%nat).

Definition ValidVersion (value : string) : bool :=
  if negb (exact_dots value) then false else
  match ParseProductVersion value with
  | Ok parsed => bool_decide (Major parsed <> 0 /\ VString parsed = value)
  | Err _ => false
  end.

Definition TagForVersion (version : string) : res ReleaseError Tag :=
  v ← ParseProductVersion version;
  if decide (Major v = 0) then Err ErrUnknownFormat else
  Ok (MkTag (TagPrefix +:+ VString v) SchemeProduct v).

Definition HistoricalTagFor (version : string) : res ReleaseError Tag :=
  tag ← TagForVersion version;
  Ok (MkTag (HistoricalTagPrefix +:+ VString (Product tag)) SchemeProduct (Product tag)).

Definition VersionString (t : Tag) : string := VString (Product t).

Definition tagBody (raw : string) : option string :=
  match CutPrefix raw TagPrefix with
  | Some body => Some body
  | None => CutPrefix raw HistoricalTagPrefix
  end.

Definition ParseReleaseTag (raw : string) : res ReleaseError Tag :=
  match tagBody raw with
  | None => Err ErrUnknownFormat
  | Some body =>
      if negb (exact_dots body) then Err ErrUnknownFormat else
      v ← ParseProductVersion body;
      if decide (Major v = 0) then Err ErrUnknownFormat else
      Ok (MkTag raw SchemeProduct v)
  end.

Definition ResolveChannel (draft prerelease : bool) : res ReleaseError Channel :=
  if draft then Err ErrNotTagged else if prerelease then Ok ChannelTesting else Ok ChannelStable.

(** ** What the package promises *)

(** A version the package can have produced: bounded segments, and a
    prerelease only on a three-segment version. *)
Definition segment_ok (n : Z) : Prop := 0 ≤ n ≤ MaxSegment.

Definition version_ok (v : Version) : Prop :=
  segment_ok (Major v) /\ segment_ok (Minor v) /\ segment_ok (Patch v) /\ segment_ok (Build v) /\
  (Prerelease v = "" \/ (Build v = 0 /\ validPrerelease (Prerelease v) = true)).

(** The documented order, as a lexicographic key: the four numbers, then beta
    before rc before a final release, then the counter. *)
Definition pre_key (pre : string) : Z * Z :=
  if decide (pre = "") then (2, 0) else
  let '(stage, number, _) := Cut "." pre in
  ((if decide (stage = "beta") then 0 else 1), fst (ParseInt number)).

Definition version_key (v : Version) : list Z :=
  [Major v; Minor v; Patch v; Build v; fst (pre_key (Prerelease v)); snd (pre_key (Prerelease v))].

Fixpoint lex (a b : list Z) : Z :=
  match a, b with
  | x :: a', y :: b' => if decide (x < y) then -1 else if decide (y < x) then 1 else lex a' b'
  | [], _ :: _ => -1
  | _ :: _, [] => 1
  | [], [] => 0
  end.

(** ** Segments *)

Lemma parseSegment_spec part n :
  parseSegment part = Ok n <-> canonical_num part /\ dval 0 part = Some n /\ n ≤ MaxSegment.
Proof.
  unfold parseSegment, canonical_num. split.
  - intros H. case_decide; [done|]. destruct (all_digits part) eqn:Hd; [|done]. simpl in H.
    case_decide as Hz; [done|]. destruct (ParseInt part) as [m []] eqn:Hp; [done|].
    case_decide; [done|]. simplify_eq.
    destruct (ParseInt_digits_inv part n) as [Hv _]; [done..|].
    split_and!; [done| |done|lia].
    destruct part as [|a [|b s]]; [done|by left|right]. intros ->. apply Hz. split; [simpl; lia|done].
  - intros ((Hd & Hc) & Hv & Hn). destruct part as [|a s]; [done|].
    case_decide; [done|]. rewrite Hd. simpl negb.
    case_decide as Hz.
    { exfalso. destruct Hc as [->|Ha]; [simpl in Hz; lia|]. destruct Hz as [_ Hz].
      simpl in Hz. apply andb_true_iff in Hz as [Hz _]. by apply bool_decide_eq_true in Hz. }
    rewrite (ParseInt_digits _ n); [|done|done|done|unfold MaxSegment, max_int64 in *; lia].
    case_decide; [lia|done].
Qed.

Lemma parseSegment_FormatInt n : segment_ok n -> parseSegment (FormatInt n) = Ok n.
Proof.
  unfold segment_ok, MaxSegment. intros Hn.
  assert (0 ≤ n ≤ max_int64) by (unfold max_int64; lia).
  apply parseSegment_spec. split_and!; [by apply FormatInt_canonical|by apply FormatInt_dval|apply Hn].
Qed.

Lemma parseSegment_bounds part n : parseSegment part = Ok n -> segment_ok n.
Proof.
  intros (_ & Hv & Hn)%parseSegment_spec. split; [|done]. by eapply dval_mono.
Qed.

Lemma parseSegment_print part n : parseSegment part = Ok n -> FormatInt n = part.
Proof.
  intros (Hc & Hv & Hn)%parseSegment_spec. apply canonical_FormatInt; [done..|].
  unfold MaxSegment, max_int64 in *. lia.
Qed.

Lemma segment_int64 n : segment_ok n -> 0 ≤ n ≤ max_int64.
Proof. unfold segment_ok, MaxSegment, max_int64. lia. Qed.

Lemma segment_no_occurs c n : segment_ok n -> digit_value c = None -> ~ occurs c (FormatInt n).
Proof. intros H. apply FormatInt_no_occurs, segment_int64, H. Qed.

Lemma segment_ne n : segment_ok n -> FormatInt n <> "".
Proof. intros H%segment_int64%FormatInt_canonical. intros Heq. rewrite Heq in H. by destruct H. Qed.

(** ** Prereleases *)

Lemma validPrerelease_spec pre :
  validPrerelease pre = true <->
  exists stage n, (stage = "beta" \/ stage = "rc") /\ 0 < n ≤ MaxSegment /\
                  pre = stage +:+ "." +:+ FormatInt n.
Proof.
  unfold validPrerelease. split.
  - pose proof (Cut_spec "." pre) as Hc. destruct (Cut "." pre) as [[stage number] ok].
    case_decide as Hd; [done|]. destruct ok; [|tauto]. destruct Hc as [-> Ho].
    destruct (parseSegment number) as [n|] eqn:Hn; [|done]. intros Hpos%bool_decide_eq_true.
    pose proof (parseSegment_bounds _ _ Hn) as [_ ?]. apply parseSegment_print in Hn as <-.
    exists stage, n. split_and!; [|lia..|done].
    destruct (decide (stage = "beta")); [tauto|]. destruct (decide (stage = "rc")); tauto.
  - intros (stage & n & Hs & Hn & ->).
    assert (~ occurs "." stage) as Ho by (destruct Hs as [-> | ->]; simpl; intuition done).
    change ("." +:+ FormatInt n) with (String "." (FormatInt n)). rewrite Cut_found by done.
    case_decide as Hd; [exfalso; intuition done|].
    rewrite parseSegment_FormatInt by (unfold segment_ok; lia). apply bool_decide_eq_true. lia.
Qed.

Lemma validPrerelease_ne pre : validPrerelease pre = true -> pre <> "".
Proof. by intros H ->. Qed.

(** ** Printing and parsing *)

Lemma Split3 a b c :
  ~ occurs "." a -> ~ occurs "." b -> ~ occurs "." c ->
  Split "." (a +:+ "." +:+ b +:+ "." +:+ c) = [a; b; c].
Proof. intros. rewrite !sapp_cons, !sapp_nil_l, (Split_found "." a), (Split_found "." b), (Split_none "." c) by done. done. Qed.

Lemma Split4 a b c d :
  ~ occurs "." a -> ~ occurs "." b -> ~ occurs "." c -> ~ occurs "." d ->
  Split "." (a +:+ "." +:+ b +:+ "." +:+ c +:+ "." +:+ d) = [a; b; c; d].
Proof. intros. rewrite !sapp_cons, !sapp_nil_l, (Split_found "." a), (Split_found "." b), (Split_found "." c), (Split_none "." d) by done. done. Qed.

Definition base3 (v : Version) : string :=
  FormatInt (Major v) +:+ "." +:+ FormatInt (Minor v) +:+ "." +:+ FormatInt (Patch v).

Definition base4 (v : Version) : string :=
  FormatInt (Major v) +:+ "." +:+ FormatInt (Minor v) +:+ "." +:+ FormatInt (Patch v)
    +:+ "." +:+ FormatInt (Build v).

Lemma base3_no_dash v : version_ok v -> ~ occurs "-" (base3 v).
Proof.
  intros (H1 & H2 & H3 & _). unfold base3. rewrite !occurs_app.
  intros [H|[H|[H|[H|H]]]]; try (by apply segment_no_occurs in H); simpl in H; intuition done.
Qed.

Lemma base4_no_dash v : version_ok v -> ~ occurs "-" (base4 v).
Proof.
  intros (H1 & H2 & H3 & H4 & _). unfold base4. rewrite !occurs_app.
  intros [H|[H|[H|[H|[H|[H|H]]]]]]; try (by apply segment_no_occurs in H); simpl in H; intuition done.
Qed.

Lemma Split_base3 v : version_ok v ->
  Split "." (base3 v) = [FormatInt (Major v); FormatInt (Minor v); FormatInt (Patch v)].
Proof. intros (?&?&?&_). apply Split3; by apply segment_no_occurs. Qed.

Lemma Split_base4 v : version_ok v ->
  Split "." (base4 v) = [FormatInt (Major v); FormatInt (Minor v); FormatInt (Patch v); FormatInt (Build v)].
Proof. intros (?&?&?&?&_). apply Split4; by apply segment_no_occurs. Qed.

Lemma VString_cases v : version_ok v ->
  (0 < Build v /\ VString v = base4 v /\ Prerelease v = "") \/
  (Build v = 0 /\ VString v = base3 v /\ Prerelease v = "") \/
  (Build v = 0 /\ VString v = base3 v +:+ "-" +:+ Prerelease v /\ validPrerelease (Prerelease v) = true).
Proof.
  intros (_ & _ & _ & [H4 _] & Hp). unfold VString. case_decide.
  - left. destruct Hp as [?|[? _]]; [done|lia].
  - right. assert (Build v = 0) by lia. case_decide as Hd.
    + right. destruct Hp as [?|[? ?]]; done.
    + left. split; [done|]. split; [done|]. destruct (decide (Prerelease v = "")); tauto.
Qed.

Lemma VString_ne v : version_ok v -> VString v <> "".
Proof.
  intros Hv. pose proof (segment_ne _ (proj1 Hv)) as Hm.
  destruct (VString_cases v Hv) as [(_ & -> & _)|[(_ & -> & _)|(_ & -> & _)]];
    unfold base3, base4; by destruct (FormatInt (Major v)).
Qed.

Lemma ParseProductVersion_VString v : version_ok v -> ParseProductVersion (VString v) = Ok v.
Proof.
  intros Hv. unfold ParseProductVersion. case_decide as He; [by apply VString_ne in He|clear He].
  pose proof Hv as (H1 & H2 & H3 & H4 & _).
  destruct (VString_cases v Hv) as [(Hb & -> & Hp)|[(Hb & -> & Hp)|(Hb & -> & Hp)]].
  - rewrite Cut_none by (by apply base4_no_dash). simpl andb. cbv iota.
    rewrite Split_base4 by done. simpl length. case_decide; [lia|].
    simpl. rewrite !parseSegment_FormatInt by done. simpl.
    case_decide; [lia|]. destruct v; simpl in *; by subst.
  - rewrite Cut_none by (by apply base3_no_dash). simpl andb. cbv iota.
    rewrite Split_base3 by done. simpl length. case_decide; [lia|].
    simpl. rewrite !parseSegment_FormatInt by done. simpl.
    destruct v; simpl in *; by subst.
  - change ("-" +:+ Prerelease v) with (String "-" (Prerelease v)).
    rewrite Cut_found by (by apply base3_no_dash). rewrite Hp. simpl andb. cbv iota.
    rewrite Split_base3 by done. simpl length. simpl negb. cbv iota. case_decide; [lia|].
    simpl. rewrite !parseSegment_FormatInt by done. simpl.
    destruct v; simpl in *; by subst.
Qed.

Lemma nth_segment l out i :
  Forall2 (fun a b => parseSegment a = Ok b) l out -> segment_ok (nth i out 0).
Proof.
  intros H. revert i. induction H as [|a b l out Ha _ IH]; intros [|i]; simpl;
    try (unfold segment_ok, MaxSegment; lia); [by eapply parseSegment_bounds|apply IH].
Qed.

Lemma ParseProductVersion_ok s v : ParseProductVersion s = Ok v -> version_ok v.
Proof.
  unfold ParseProductVersion. intros H. case_decide; [done|].
  pose proof (Cut_spec "-" s) as Hcut. destruct (Cut "-" s) as [[base pre] hasPre].
  destruct (hasPre && negb (validPrerelease pre)) eqn:Hp; [done|].
  destruct (hasPre && negb (bool_decide (length (Split "." base) = 3%nat))) eqn:Hl; [done|].
  case_decide; [done|]. destruct (res_mapM _ _) as [out|] eqn:Hm; simpl in H; [|done].
  case_decide; [done|]. simplify_eq. apply res_mapM_Ok in Hm.
  split_and!; simpl; try (by eapply nth_segment).
  destruct hasPre; simpl in *; [right|left; apply Hcut].
  apply negb_false_iff in Hp, Hl. apply bool_decide_eq_true in Hl. split; [|done].
  apply Forall2_length in Hm. by destruct out as [|? [|? [|? [|? ?]]]]; simpl in *; try lia.
Qed.

(** ** The order *)

Lemma lex_refl a : lex a a = 0.
Proof. induction a as [|x a IH]; simpl; [done|]. repeat case_decide; [lia..|done]. Qed.

Lemma lex_antisym a b : lex b a = - lex a b.
Proof.
  revert b. induction a as [|x a IH]; intros [|y b]; simpl; try done.
  repeat case_decide; try lia. apply IH.
Qed.

Lemma lex_eq a b : length a = length b -> lex a b = 0 -> a = b.
Proof.
  revert b. induction a as [|x a IH]; intros [|y b] Hl; simpl in *; try done.
  repeat case_decide; try done. intros Heq. f_equal; [lia|]. apply IH; [lia|done].
Qed.

Lemma lex_trans a b c : lex a b < 0 -> lex b c ≤ 0 -> lex a c < 0.
Proof.
  revert b c. induction a as [|x a IH]; intros [|y b] [|z c]; simpl; try lia;
    repeat case_decide; try lia. apply IH.
Qed.

Lemma lex_trans_le a b c : lex a b ≤ 0 -> lex b c < 0 -> lex a c < 0.
Proof.
  revert b c. induction a as [|x a IH]; intros [|y b] [|z c]; simpl; try lia;
    repeat case_decide; try lia. apply IH.
Qed.

Lemma lex_same x a b : lex (x :: a) (x :: b) = lex a b.
Proof. simpl. repeat case_decide; lia. Qed.

Lemma lex_diff x y a b : x <> y -> lex (x :: a) (y :: b) = if decide (x < y) then -1 else 1.
Proof. intros. simpl. repeat case_decide; lia. Qed.

Lemma stage_no_dot stage : stage = "beta" \/ stage = "rc" -> ~ occurs "." stage.
Proof. intros [-> | ->]; simpl; intuition done. Qed.

Lemma Cut_prerelease stage n :
  stage = "beta" \/ stage = "rc" ->
  Cut "." (stage +:+ "." +:+ FormatInt n) = (stage, FormatInt n, true).
Proof.
  intros Hs. change ("." +:+ FormatInt n) with (String "." (FormatInt n)).
  by apply Cut_found, stage_no_dot.
Qed.

Lemma ParseInt_FormatInt n : segment_ok n -> ParseInt (FormatInt n) = (n, None).
Proof.
  intros H. pose proof (segment_int64 _ H) as Hi.
  apply ParseInt_digits; [by apply segment_ne|by apply FormatInt_canonical|by apply FormatInt_dval|lia].
Qed.

Lemma pre_key_valid stage n :
  stage = "beta" \/ stage = "rc" -> 0 < n ≤ MaxSegment ->
  pre_key (stage +:+ "." +:+ FormatInt n) = ((if decide (stage = "beta") then 0 else 1), n).
Proof.
  intros Hs Hn. unfold pre_key. case_decide as He; [by destruct Hs as [-> | ->]|].
  rewrite Cut_prerelease by done. rewrite ParseInt_FormatInt by (unfold segment_ok; lia). done.
Qed.

Lemma compare_lex a b :
  version_ok a -> version_ok b ->
  CompareProductVersion a b = lex (version_key a) (version_key b).
Proof.
  intros (_ & _ & _ & _ & Ha) (_ & _ & _ & _ & Hb).
  unfold CompareProductVersion, version_key.
  do 4 (case_decide as Hne; [by rewrite lex_diff|rewrite Hne, lex_same; clear Hne]).
  destruct Ha as [Ha|[_ (sa & na & Hsa & Hna & Ha)%validPrerelease_spec]],
    Hb as [Hb|[_ (sb & nb & Hsb & Hnb & Hb)%validPrerelease_spec]]; rewrite Ha, Hb.
  - done.
  - rewrite pre_key_valid by done. destruct Hsb as [-> | ->]; done.
  - rewrite pre_key_valid by done. destruct Hsa as [-> | ->]; done.
  - rewrite !pre_key_valid, !Cut_prerelease by done.
    rewrite !ParseInt_FormatInt by (unfold segment_ok; lia). simpl fst. simpl snd.
    assert (na <> nb \/ na = nb) as [Hn| ->] by lia.
    + destruct Hsa as [-> | ->], Hsb as [-> | ->]; try done;
        (case_decide as Heq;
         [apply String.app_inj, String.app_inj, FormatInt_inj in Heq; [lia|apply segment_int64; unfold segment_ok; lia..]
         |simpl; repeat case_decide; try done; lia]).
    + destruct Hsa as [-> | ->], Hsb as [-> | ->]; try done; by rewrite decide_True, lex_refl.
Qed.

Lemma version_key_inj a b :
  version_ok a -> version_ok b -> version_key a = version_key b -> a = b.
Proof.
  intros (_ & _ & _ & _ & Ha) (_ & _ & _ & _ & Hb) [= H1 H2 H3 H4 H5 H6].
  destruct a as [? ? ? ? pa], b as [? ? ? ? pb]; simpl in *; subst. f_equal.
  destruct Ha as [->|[_ (sa & na & Hsa & Hna & ->)%validPrerelease_spec]],
    Hb as [->|[_ (sb & nb & Hsb & Hnb & ->)%validPrerelease_spec]]; [done|..];
    rewrite ?pre_key_valid in * by done; simpl in *; subst.
  - destruct Hsb as [-> | ->]; done.
  - destruct Hsa as [-> | ->]; done.
  - destruct Hsa as [-> | ->], Hsb as [-> | ->]; done.
Qed.

Lemma compare_eq a b :
  version_ok a -> version_ok b -> CompareProductVersion a b = 0 <-> a = b.
Proof.
  intros Ha Hb. rewrite compare_lex by done. split; [|by intros ->; apply lex_refl].
  intros H. by apply version_key_inj, lex_eq.
Qed.

(** ** Tags *)

Lemma exact_dots_VString v : version_ok v -> exact_dots (VString v) = true.
Proof.
  intros Hv. unfold exact_dots. apply bool_decide_eq_true.
  pose proof (Split_Count "." (base3 v)) as H3. rewrite Split_base3 in H3 by done. simpl in H3.
  pose proof (Split_Count "." (base4 v)) as H4. rewrite Split_base4 in H4 by done. simpl in H4.
  destruct (VString_cases v Hv) as [(_ & -> & _)|[(_ & -> & _)|(_ & -> & _)]].
  - rewrite Cut_none by (by apply base4_no_dash). simpl. lia.
  - rewrite Cut_none by (by apply base3_no_dash). simpl. lia.
  - change ("-" +:+ Prerelease v) with (String "-" (Prerelease v)).
    rewrite Cut_found by (by apply base3_no_dash). simpl. lia.
Qed.

Lemma tagBody_current body : tagBody (TagPrefix +:+ body) = Some body.
Proof. done. Qed.

Lemma tagBody_historical body : tagBody (HistoricalTagPrefix +:+ body) = Some body.
Proof. done. Qed.

Lemma ParseReleaseTag_VString raw v :
  version_ok v -> Major v <> 0 -> tagBody raw = Some (VString v) ->
  ParseReleaseTag raw = Ok (MkTag raw SchemeProduct v).
Proof.
  intros Hv Hm Hb. unfold ParseReleaseTag. rewrite Hb, exact_dots_VString by done. simpl.
  rewrite ParseProductVersion_VString by done. simpl. by case_decide.
Qed.

Lemma ParseReleaseTag_ok raw t :
  ParseReleaseTag raw = Ok t -> Raw t = raw /\ version_ok (Product t) /\ Major (Product t) <> 0.
Proof.
  unfold ParseReleaseTag. intros H. destruct (tagBody raw) as [body|]; [|done].
  destruct (exact_dots body); [|done]. simpl in H.
  destruct (ParseProductVersion body) as [v|] eqn:Hp; simpl in H; [|done].
  case_decide; [done|]. simplify_eq. simpl. eauto using ParseProductVersion_ok.
Qed.

Lemma ValidVersion_spec value :
  ValidVersion value = true <-> exists v, version_ok v /\ Major v <> 0 /\ VString v = value.
Proof.
  unfold ValidVersion. split.
  - destruct (exact_dots value); [|done]. simpl.
    destruct (ParseProductVersion value) as [v|] eqn:Hp; [|done].
    intros [? ?]%bool_decide_eq_true. eauto using ParseProductVersion_ok.
  - intros (v & Hv & Hm & <-). rewrite exact_dots_VString by done. simpl.
    rewrite ParseProductVersion_VString by done. by apply bool_decide_eq_true.
Qed.

(** ** Theorems *)

(** C39. Printing and parsing product versions are inverse.  A version is
    well-formed (bounded segments, a beta/rc suffix only on three segments)
    exactly when parsing its published spelling returns it, and parsing never
    produces any other kind of version. *)
Theorem product_version_roundtrip :
  (forall v, version_ok v <-> ParseProductVersion (VString v) = Ok v) /\
  (forall s v, ParseProductVersion s = Ok v -> version_ok v).
Proof.
  split; [|apply ParseProductVersion_ok].
  intros v. split; [apply ParseProductVersion_VString|apply ParseProductVersion_ok].
Qed.

(** On parsed versions [CompareProductVersion] is the documented order (the
    four numbers, then beta.N < rc.N < final with numeric counters): it is the
    lexicographic comparison of the keys, it answers 0 only for equal versions,
    swapping the arguments negates it, and it is transitive. *)
Theorem compare_total_order a b c :
  version_ok a -> version_ok b -> version_ok c ->
  CompareProductVersion a b = lex (version_key a) (version_key b) /\
  (CompareProductVersion a b = 0 <-> a = b) /\
  CompareProductVersion b a = - CompareProductVersion a b /\
  (CompareProductVersion a b < 0 -> CompareProductVersion b c < 0 -> CompareProductVersion a c < 0).
Proof.
  intros Ha Hb Hc. split_and!.
  - by apply compare_lex.
  - by apply compare_eq.
  - rewrite !compare_lex by done. apply lex_antisym.
  - rewrite !compare_lex by done. intros H1 H2. eapply lex_trans; [done|lia].
Qed.

(** The tag a version is published under, in the current namespace or the
    historical one, is read back as that version, and every tag that is read
    names a well-formed version with a nonzero release line and keeps its
    published spelling. *)
Theorem release_tag_roundtrip :
  (forall s t, TagForVersion s = Ok t ->
     ParseReleaseTag (Raw t) = Ok t /\ Raw t = TagPrefix +:+ VersionString t) /\
  (forall s t, HistoricalTagFor s = Ok t ->
     ParseReleaseTag (Raw t) = Ok t /\ Raw t = HistoricalTagPrefix +:+ VersionString t) /\
  (forall raw t, ParseReleaseTag raw = Ok t ->
     Raw t = raw /\ ValidVersion (VersionString t) = true).
Proof.
  assert (forall s t, TagForVersion s = Ok t -> version_ok (Product t) /\ Major (Product t) <> 0 /\
            t = MkTag (TagPrefix +:+ VString (Product t)) SchemeProduct (Product t)) as Htag.
  { unfold TagForVersion. intros s t H. res_inv. eauto using ParseProductVersion_ok. }
  split_and!.
  - intros s t (Hv & Hm & ->)%Htag. by rewrite ParseReleaseTag_VString with (v := Product t).
  - unfold HistoricalTagFor. intros s t H. res_inv. pose proof (Htag _ _ Heqr) as (Hv & Hm & _).
    by rewrite ParseReleaseTag_VString with (v := Product a).
  - intros raw t (Hr & Hv & Hm)%ParseReleaseTag_ok. split; [done|].
    apply ValidVersion_spec. eauto.
Qed.

Lemma compare_total_order_witness :
  let b := MkVersion 4 1 0 0 "beta.2" in
  let r := MkVersion 4 1 0 0 "rc.1" in
  let f := MkVersion 4 1 0 0 "" in
  CompareProductVersion b f < 0.
Proof.
  intros b r f.
  assert (version_ok b /\ version_ok r /\ version_ok f) as (Hb & Hr & Hf).
  { repeat split; try (vm_compute; intros; discriminate); try (by left); right; by vm_compute. }
  apply (compare_total_order b r f Hb Hr Hf); by vm_compute.
Defined.
