(* ===== verification/ReleaseAlloc.v ===== *)
(** * Allocating release numbers ([releaseid/allocate.go], [candidate.go],
      [release_stage.go])

    How a release line, the tags that already exist and a requested stage
    determine the next version, which stage a version is in, and which rolling
    pointers it may move. *)
From S2P Require Import Prelude GoStrings ReleaseId.

(** ** Lines and patch allocation *)

Record Line := MkLine { LMajor : Z; LMinor : Z }.

Definition LString (l : Line) : string := FormatInt (LMajor l) +:+ "." +:+ FormatInt (LMinor l).

(** One segment of a line: the same digit, leading-zero and range rules as
    [parseSegment], written out again in the source. *)
Definition parseLineSegment (part : string) : res ReleaseError Z :=
  if decide (part = "") then Err ErrUnknownFormat else
  if negb (all_digits part) then Err ErrUnknownFormat else
  if decide ((1 < String.length part)%nat /\ HasPrefix part "0" = true) then Err ErrUnknownFormat else
  match ParseInt part with
  | (n, None) => if decide (MaxSegment < n) then Err ErrSegmentRange else Ok n
  | (_, Some _) => Err ErrSegmentRange
  end.

Definition ParseReleaseLine (s : string) : res ReleaseError Line :=
  let parts := Split "." s in
  if negb (bool_decide (length parts = 2%nat)) then Err ErrUnknownFormat else
  segments ← res_mapM parseLineSegment parts;
  Ok (MkLine (nth 0 segments 0) (nth 1 segments 0)).

(** [versionOnLine] never fails in this source: its error result is always nil. *)
Definition versionOnLine (tag : Tag) (line : Line) : option Version :=
  if decide (Major (Product tag) <> LMajor line \/ Minor (Product tag) <> LMinor line) then None
  else Some (Product tag).

(** The version a raw tag contributes to a line, when it is one of ours and on
    that line: the body shared by the loops of [AllocatePatch] and [ResumeTag]. *)
Definition tagOnLine (line : Line) (raw : string) : option (Tag * Version) :=
  match ParseReleaseTag raw with
  | Err _ => None
  | Ok tag => match versionOnLine tag line with
              | None => None
              | Some v => Some (tag, v)
              end
  end.

Definition higher (highest : option Version) (v : Version) : option Version :=
  match highest with
  | None => Some v
  | Some h => if decide (0 < CompareProductVersion v h) then Some v else Some h
  end.

Definition highestOnLine (line : Line) (existing : list string) : option Version :=
  fold_left (fun highest raw =>
    match tagOnLine line raw with
    | None => highest
    | Some (_, v) => higher highest v
    end) existing None.

Definition AllocatePatch (line : Line) (existing : list string) : res ReleaseError Version :=
  match highestOnLine line existing with
  | None => Err ErrUnknownFormat
  | Some highest =>
      let next := add64 (Build highest) 1 in
      if decide (MaxSegment < next) then Err ErrSegmentRange else
      Ok (MkVersion (Major highest) (Minor highest) (Patch highest) next "")
  end.

Definition ResumeTag (line : Line) (onCommit : list string) : res ReleaseError Tag :=
  match omap (tagOnLine line) onCommit with
  | [] => Err ErrNotAllocated
  | [(found, _)] => Ok found
  | _ => Err ErrAmbiguousRevision
  end.

(** [Version.Tag]. *)
Definition VTag (v : Version) : Tag := MkTag (TagPrefix +:+ VString v) SchemeProduct v.

(** ** Candidates *)

Definition candidateMax : Z := MaxSegment.

Definition readCandidateTag (tag : string) : option string :=
  match ParseReleaseTag tag with Ok t => Some (VersionString t) | Err _ => None end.

Definition validCandidateVersion (v : string) : bool := ValidVersion v.

(** A failed parse leaves Go's zero [Version]. *)
Definition parseOrZero (s : string) : Version :=
  match ParseProductVersion s with Ok v => v | Err _ => MkVersion 0 0 0 0 "" end.

Definition orderCandidate (a b : string) : Z :=
  CompareProductVersion (parseOrZero a) (parseOrZero b).

(** The first loop of [AllocateCandidate]: the highest version string with the
    line's prefix, "" when there is none. *)
Definition highestCandidate (prefix : string) (existing : list string) : string :=
  fold_left (fun highest tag =>
    match readCandidateTag tag with
    | Some v => if HasPrefix v prefix && (bool_decide (highest = "") || bool_decide (0 < orderCandidate v highest))
                then v else highest
    | None => highest
    end) existing "".

(** The base version the candidate is numbered on. *)
Definition candidateBase (prefix target highest : string) : res ReleaseError string :=
  if decide (target <> "") then
    if negb (validCandidateVersion target) || Contains target "-" ||
       negb (bool_decide (length (Split "." target) = 3%nat)) || negb (HasPrefix target prefix)
    then Err (ErrCandidate "target must be a three-segment version on line")
    else Ok target
  else if decide (highest = "") then Ok (prefix +:+ "0")
  else
    let '(numeric, pre, _) := Cut "-" highest in
    let fields := Split "." numeric in
    if decide (pre <> "") then Ok numeric
    else
      let patch := fst (ParseInt (nth 2 fields "")) in
      if decide (candidateMax ≤ patch) then Err (ErrCandidate "patch exhausted")
      else Ok (prefix +:+ FormatInt (add64 patch 1)).

(** One step of the second loop of [AllocateCandidate]. *)
Definition candidateStep (base stage : string) (next : Z) (tag : string) : res ReleaseError Z :=
  match readCandidateTag tag with
  | None => Ok next
  | Some v =>
      if decide (v = base \/ HasPrefix v (base +:+ ".") = true)
      then Err (ErrCandidate "already released; select a newer target") else
      match CutPrefix v (base +:+ "-") with
      | None => Ok next
      | Some pre =>
          let '(name, number, _) := Cut "." pre in
          if decide (name = "rc" /\ stage = "beta")
          then Err (ErrCandidate "already reached rc; continue rc or select a newer target") else
          if decide (name = stage) then
            let n := fst (ParseInt number) in
            Ok (if decide (next ≤ n) then add64 n 1 else next)
          else Ok next
      end
  end.

Definition AllocateCandidate (line : Line) (stage target : string) (existing : list string)
    : res ReleaseError string :=
  if decide (LMajor line < 1 \/ LMinor line < 0 \/ candidateMax < LMajor line \/ candidateMax < LMinor line)
  then Err (ErrCandidate "invalid release line") else
  if decide (stage <> "beta" /\ stage <> "rc") then Err (ErrCandidate "stage must be beta or rc") else
  let prefix := LString line +:+ "." in
  let highest := highestCandidate prefix existing in
  base ← candidateBase prefix target highest;
  next ← res_foldl (candidateStep base stage) 1 existing;
  if decide (candidateMax < next) then Err (ErrCandidate "prerelease counter exhausted") else
  let result := base +:+ "-" +:+ stage +:+ "." +:+ FormatInt next in
  if decide (highest <> "" /\ orderCandidate result highest ≤ 0)
  then Err (ErrCandidate "candidate does not advance line") else
  Ok result.

(** ** Stages *)

Inductive Stage := StageUnknown | StageBeta | StageRC | StagePending | StageStable.

#[global] Instance Stage_eq_dec : EqDecision Stage.
Proof. solve_decision. Defined.

Definition ReleaseStage (v : string) (prerelease : bool) : Stage :=
  if negb (validCandidateVersion v) then StageUnknown else
  if Contains v "-beta." then StageBeta else
  if Contains v "-rc." then StageRC else
  if prerelease then
    if decide (length (Split "." v) = 3%nat /\ 0 ≤ orderCandidate v "4.0.2") then StagePending
    else StageBeta
  else StageStable.

Definition ReleaseAliases (v : string) (approved : bool) : list string :=
  match ReleaseStage v (negb approved) with
  | StageBeta => ["beta"; "testing"]
  | StageRC => ["rc"; "beta"; "testing"]
  | StageStable => if approved then ["stable"; "latest"; "rc"; "beta"; "testing"] else []
  | _ => []
  end.

Definition AdvanceRelease (source stage : string) (tags : list string) : res ReleaseError string :=
  match readCandidateTag source with
  | None => Err (ErrCandidate "source must be a numbered beta or rc release tag")
  | Some v =>
      if negb (HasPrefix source "v") || negb (Contains v "-")
      then Err (ErrCandidate "source must be a numbered beta or rc release tag") else
      let '(base, pre, _) := Cut "-" v in
      if negb (bool_decide (length (Split "." base) = 3%nat))
      then Err (ErrCandidate "source must have three segments") else
      if existsb (fun tag => match readCandidateTag tag with
                             | Some other => HasPrefix other (base +:+ "-") && bool_decide (0 < orderCandidate other v)
                             | None => false end) tags
      then Err (ErrCandidate "source is superseded; advance the newest candidate") else
      if decide (stage = "stable") then Ok base else
      if decide (stage <> "rc" \/ HasPrefix pre "beta." = false)
      then Err (ErrCandidate "only beta to rc, beta to stable and rc to stable are allowed") else
      if existsb (fun tag => match readCandidateTag tag with
                             | Some other => bool_decide (other = base) || HasPrefix other (base +:+ ".")
                             | None => false end) tags
      then Err (ErrCandidate "target already finalized") else
      Ok (base +:+ "-rc.1")
  end.

(** ** Folds that keep a maximum *)

Lemma fold_left_ext {A B} (f g : A -> B -> A) l a :
  (forall x y, f x y = g x y) -> fold_left f l a = fold_left g l a.
Proof. intros H. revert a. induction l as [|b l IH]; intros a; simpl; [done|]. by rewrite H. Qed.

Lemma compare_refl v : version_ok v -> CompareProductVersion v v = 0.
Proof. intros H. by apply compare_eq. Qed.

Lemma compare_antisym a b :
  version_ok a -> version_ok b -> CompareProductVersion b a = - CompareProductVersion a b.
Proof. intros. rewrite !compare_lex by done. apply lex_antisym. Qed.

Lemma compare_le_trans a b c :
  version_ok a -> version_ok b -> version_ok c ->
  CompareProductVersion a b ≤ 0 -> CompareProductVersion b c ≤ 0 -> CompareProductVersion a c ≤ 0.
Proof.
  intros Ha Hb Hc Hab Hbc. destruct (decide (CompareProductVersion a b = 0)) as [He|].
  - apply compare_eq in He as ->; done.
  - rewrite compare_lex in * by done.
    assert (lex (version_key a) (version_key c) < 0); [|lia]. eapply lex_trans; [|done]. lia.
Qed.

Lemma compare_le_lt_trans a b c :
  version_ok a -> version_ok b -> version_ok c ->
  CompareProductVersion a b ≤ 0 -> CompareProductVersion b c < 0 -> CompareProductVersion a c < 0.
Proof. intros Ha Hb Hc. rewrite !compare_lex by done. apply lex_trans_le. Qed.

(** Taking the higher of two: the result is one of them and above both. *)
Lemma higher_spec acc w :
  (forall v, acc = Some v -> version_ok v) -> version_ok w ->
  exists x, higher acc w = Some x /\ version_ok x /\ (x = w \/ acc = Some x) /\
    CompareProductVersion w x ≤ 0 /\ forall v, acc = Some v -> CompareProductVersion v x ≤ 0.
Proof.
  intros Hacc Hw. unfold higher. destruct acc as [h|].
  - pose proof (Hacc h eq_refl) as Hh. pose proof (compare_antisym w h Hw Hh).
    case_decide; [exists w|exists h]; (split_and!; [done|done|tauto| |intros v [= <-]]);
      rewrite ?compare_refl by done; lia.
  - exists w. split_and!; [done|done|by left|by rewrite compare_refl|done].
Qed.

Section maxfold.
Context {A : Type} (val : A -> option Version) (val_ok : forall a v, val a = Some v -> version_ok v).

Lemma higher_fold_spec l acc :
  (forall v, acc = Some v -> version_ok v) ->
  match fold_left (fun h a => match val a with None => h | Some v => higher h v end) l acc with
  | None => acc = None /\ forall a, a ∈ l -> val a = None
  | Some h =>
      (acc = Some h \/ exists a, a ∈ l /\ val a = Some h) /\
      (forall v, acc = Some v -> CompareProductVersion v h ≤ 0) /\
      (forall a v, a ∈ l -> val a = Some v -> CompareProductVersion v h ≤ 0)
  end.
Proof using val_ok.
  revert acc. induction l as [|a l IH]; intros acc Hacc; simpl.
  - destruct acc as [h|]; [|by split; [|set_solver]].
    split_and!; [by left|intros v [= ->]; rewrite compare_refl; [lia|eauto]|set_solver].
  - destruct (val a) as [w|] eqn:Hw.
    + destruct (higher_spec acc w Hacc (val_ok _ _ Hw)) as (x & Hx & Hxok & Hor & Hwx & Hvx).
      rewrite Hx. specialize (IH (Some x) ltac:(naive_solver)).
      destruct (fold_left _ l (Some x)) as [h|]; [|by destruct IH].
      destruct IH as (H1 & H2 & H3). specialize (H2 x eq_refl).
      assert (version_ok h) as Hhok by (destruct H1 as [[= <-]|(b & _ & Hb)]; eauto).
      split_and!.
      * destruct H1 as [[= <-]|(b & ? & ?)]; [|right; exists b; set_solver].
        destruct Hor as [->|?]; [right; exists a; set_solver|by left].
      * intros v Hv. apply compare_le_trans with x; eauto.
      * intros b v [->|Hb]%elem_of_cons Hv; [|eauto]. simplify_eq.
        apply compare_le_trans with x; eauto.
    + specialize (IH acc Hacc). destruct (fold_left _ l acc) as [h|].
      * destruct IH as (H1 & H2 & H3). split_and!; [|done|].
        -- destruct H1 as [?|(b & ? & ?)]; [by left|right; exists b; set_solver].
        -- intros b v [->|Hb]%elem_of_cons Hv; [congruence|eauto].
      * destruct IH as [H1 H2]. split; [done|]. intros b [->|Hb]%elem_of_cons; eauto.
Qed.

End maxfold.

Lemma tagOnLine_spec line raw t v :
  tagOnLine line raw = Some (t, v) <->
  ParseReleaseTag raw = Ok t /\ v = Product t /\ Major v = LMajor line /\ Minor v = LMinor line.
Proof.
  unfold tagOnLine, versionOnLine. destruct (ParseReleaseTag raw) as [t'|]; [|naive_solver].
  case_decide; [naive_solver|]. split; [|naive_solver]. intros [= <- <-]. split_and!; (done || lia).
Qed.

Lemma highestOnLine_spec line existing :
  match highestOnLine line existing with
  | None => forall raw, raw ∈ existing -> tagOnLine line raw = None
  | Some h =>
      (exists raw t, raw ∈ existing /\ tagOnLine line raw = Some (t, h)) /\
      (forall raw t v, raw ∈ existing -> tagOnLine line raw = Some (t, v) -> CompareProductVersion v h ≤ 0)
  end.
Proof.
  pose proof (higher_fold_spec (fun raw => snd <$> tagOnLine line raw)) as H.
  assert (forall raw v, snd <$> tagOnLine line raw = Some v -> version_ok v) as Hok.
  { intros raw v Hv. destruct (tagOnLine line raw) as [[t w]|] eqn:Ht; simplify_eq/=.
    apply tagOnLine_spec in Ht as (Hp & -> & _). by apply ParseReleaseTag_ok in Hp as (_ & ? & _). }
  specialize (H Hok existing None ltac:(done)).
  unfold highestOnLine. rewrite (fold_left_ext _ (fun h raw =>
    match snd <$> tagOnLine line raw with None => h | Some v => higher h v end));
    [|intros h raw; by destruct (tagOnLine line raw) as [[]|]].
  destruct (fold_left _ existing None) as [h|].
  - destruct H as ([?|(raw & Hin & Hr)] & _ & H3); [done|]. split.
    + destruct (tagOnLine line raw) as [[t w]|] eqn:Ht; simplify_eq/=. eauto.
    + intros raw' t v Hin' Ht. apply (H3 raw' v); [done|]. by rewrite Ht.
  - intros raw Hin. destruct H as [_ H]. specialize (H raw Hin). by destruct (tagOnLine line raw).
Qed.

(** ** Patch allocation *)

Lemma tagOnLine_ok line raw t v :
  tagOnLine line raw = Some (t, v) ->
  version_ok v /\ Major v <> 0 /\ Major v = LMajor line /\ Minor v = LMinor line.
Proof.
  intros (Hp & -> & ? & ?)%tagOnLine_spec. apply ParseReleaseTag_ok in Hp as (_ & ? & ?). done.
Qed.

Lemma next_build_above h next :
  lex (version_key h) (version_key (MkVersion (Major h) (Minor h) (Patch h) next "")) < 0 <-> Build h < next
  \/ (Build h = next /\ lex [fst (pre_key (Prerelease h)); snd (pre_key (Prerelease h))] [2; 0] < 0).
Proof.
  unfold version_key. cbn [Major Minor Patch Build Prerelease]. rewrite !lex_same.
  destruct (decide (Build h = next)) as [->|]; [rewrite lex_same; simpl; intuition lia|].
  rewrite lex_diff by done. case_decide; intuition lia.
Qed.

Lemma AllocatePatch_above line existing v :
  AllocatePatch line existing = Ok v ->
  version_ok v /\ Major v <> 0 /\ Major v = LMajor line /\ Minor v = LMinor line /\
  forall raw t w, raw ∈ existing -> tagOnLine line raw = Some (t, w) -> CompareProductVersion w v < 0.
Proof.
  unfold AllocatePatch. pose proof (highestOnLine_spec line existing) as Hs.
  destruct (highestOnLine line existing) as [h|]; [|done].
  destruct Hs as ((raw & t & Hin & Ht) & Hmax). apply tagOnLine_ok in Ht as (Hok & Hnz & HM & Hm).
  case_decide as Hn; [done|]. intros [= <-]. pose proof Hok as (H1 & H2 & H3 & [H4 H4'] & _).
  unfold add64 in *. rewrite wrap64_id in * by (unfold in_int64, min_int64, max_int64, MaxSegment in *; lia).
  assert (version_ok (MkVersion (Major h) (Minor h) (Patch h) (Build h + 1) "")) as Hv
    by (split_and!; try apply H1; try apply H2; try apply H3; simpl; unfold segment_ok; try lia; by left).
  split_and!; try done. intros raw' t' w Hin' Ht'.
  pose proof (tagOnLine_ok _ _ _ _ Ht') as (Hw & _).
  apply compare_le_lt_trans with h; [done..|by eapply Hmax|].
  rewrite compare_lex by done. apply next_build_above. lia.
Qed.

(** ** Candidate allocation *)

Definition line_ok (l : Line) : Prop := 1 ≤ LMajor l ≤ MaxSegment /\ 0 ≤ LMinor l ≤ MaxSegment.

Definition on_line (l : Line) (v : Version) : Prop := Major v = LMajor l /\ Minor v = LMinor l.

Lemma parseOrZero_VString v : version_ok v -> parseOrZero (VString v) = v.
Proof. intros H. unfold parseOrZero. by rewrite ParseProductVersion_VString. Qed.

Lemma readCandidateTag_spec tag s :
  readCandidateTag tag = Some s <->
  exists t, ParseReleaseTag tag = Ok t /\ s = VString (Product t) /\
            version_ok (Product t) /\ Major (Product t) <> 0.
Proof.
  unfold readCandidateTag, VersionString.
  destruct (ParseReleaseTag tag) as [t|] eqn:Ht; [|naive_solver].
  apply ParseReleaseTag_ok in Ht as (_ & ? & ?). naive_solver.
Qed.

Lemma VString_head v : version_ok v ->
  exists rest, VString v = FormatInt (Major v) +:+ String "." (FormatInt (Minor v) +:+ String "." rest).
Proof.
  intros Hv. destruct (VString_cases v Hv) as [(_ & -> & _)|[(_ & -> & _)|(_ & -> & _)]];
    unfold base3, base4; autorewrite with gostr; eauto.
Qed.

Lemma HasPrefix_line l v :
  version_ok v -> line_ok l -> HasPrefix (VString v) (LString l +:+ ".") = true <-> on_line l v.
Proof.
  intros Hv [Hl1 Hl2]. destruct (VString_head v Hv) as [rest ->]. rewrite HasPrefix_spec.
  pose proof Hv as (H1 & H2 & _).
  assert (segment_ok (LMajor l)) as Hs1 by (unfold segment_ok; lia).
  assert (segment_ok (LMinor l)) as Hs2 by (unfold segment_ok; lia).
  unfold LString, on_line. autorewrite with gostr. split.
  - intros [r Hr]. autorewrite with gostr in Hr.
    apply sep_inj in Hr as [HM Hr]; [|by apply segment_no_occurs..].
    apply sep_inj in Hr as [Hm _]; [|by apply segment_no_occurs..].
    split; (apply FormatInt_inj; [by apply segment_int64..|done]).
  - intros [-> ->]. exists rest. by autorewrite with gostr.
Qed.

Definition show_version (h : option Version) : string :=
  match h with Some v => VString v | None => "" end.

(** The loop over strings and the loop over parsed versions keep the same
    maximum. *)
Lemma highestCandidate_step l raw h0 :
  line_ok l -> (forall v, h0 = Some v -> version_ok v) ->
  match readCandidateTag raw with
  | Some v => if HasPrefix v (LString l +:+ ".") &&
                 (bool_decide (show_version h0 = "") || bool_decide (0 < orderCandidate v (show_version h0)))
              then v else show_version h0
  | None => show_version h0
  end = show_version (match tagOnLine l raw with None => h0 | Some (_, v) => higher h0 v end).
Proof.
  intros Hl Hh0. destruct (readCandidateTag raw) as [s|] eqn:Hr.
  - apply readCandidateTag_spec in Hr as (t & Hp & -> & Hv & _).
    destruct (tagOnLine l raw) as [[t' v]|] eqn:Ht.
    + apply tagOnLine_spec in Ht as (Hp' & -> & HM & Hm). assert (t' = t) as -> by congruence.
      rewrite (proj2 (HasPrefix_line l _ Hv Hl) (conj HM Hm)). simpl. unfold higher.
      destruct h0 as [h|]; [|done]. pose proof (Hh0 h eq_refl) as Hh. simpl.
      rewrite bool_decide_eq_false_2 by (by apply VString_ne). simpl.
      unfold orderCandidate. rewrite !parseOrZero_VString by done.
      case_decide; [by rewrite bool_decide_eq_true_2|by rewrite bool_decide_eq_false_2].
    + destruct (HasPrefix _ _) eqn:Hpre; [|done].
      apply HasPrefix_line in Hpre as [? ?]; [|done..].
      assert (tagOnLine l raw = Some (t, Product t)); [|congruence]. by apply tagOnLine_spec.
  - assert (tagOnLine l raw = None) as ->; [|done]. unfold readCandidateTag, tagOnLine in *.
    by destruct (ParseReleaseTag raw).
Qed.

Lemma highestCandidate_fold l existing :
  line_ok l ->
  highestCandidate (LString l +:+ ".") existing = show_version (highestOnLine l existing).
Proof.
  intros Hl. unfold highestCandidate, highestOnLine.
  assert (forall h0, (forall v, h0 = Some v -> version_ok v) ->
    fold_left (fun highest tag =>
      match readCandidateTag tag with
      | Some v => if HasPrefix v (LString l +:+ ".") &&
                     (bool_decide (highest = "") || bool_decide (0 < orderCandidate v highest))
                  then v else highest
      | None => highest
      end) existing (show_version h0) =
    show_version (fold_left (fun highest raw =>
      match tagOnLine l raw with None => highest | Some (_, v) => higher highest v end) existing h0))
    as H; [|by apply (H None)].
  induction existing as [|raw ex IH]; intros h0 Hh0; [done|]. cbn [fold_left].
  rewrite highestCandidate_step by done. apply IH. intros v.
  destruct (tagOnLine l raw) as [[t w]|] eqn:Ht; [|apply Hh0].
  apply tagOnLine_ok in Ht as (Hw & _). destruct (higher_spec h0 w Hh0 Hw) as (x & -> & ? & _).
  naive_solver.
Qed.

Lemma highestCandidate_spec l existing :
  line_ok l ->
  let highest := highestCandidate (LString l +:+ ".") existing in
  (highest = "" /\
   forall raw t, raw ∈ existing -> ParseReleaseTag raw = Ok t -> ~ on_line l (Product t)) \/
  (exists h, highest = VString h /\ version_ok h /\ on_line l h /\
   forall raw t, raw ∈ existing -> ParseReleaseTag raw = Ok t -> on_line l (Product t) ->
     CompareProductVersion (Product t) h ≤ 0).
Proof.
  intros Hl. cbv zeta. rewrite highestCandidate_fold by done.
  pose proof (highestOnLine_spec l existing) as Hs. destruct (highestOnLine l existing) as [h|].
  - right. destruct Hs as ((raw & t & Hin & Ht) & Hmax). apply tagOnLine_ok in Ht as (? & _ & ? & ?).
    exists h. split_and!; try done. intros raw' t' Hin' Hp [? ?]. apply (Hmax raw' t'); [done|].
    by apply tagOnLine_spec.
  - left. split; [done|]. intros raw t Hin Hp [? ?]. specialize (Hs raw Hin).
    assert (tagOnLine l raw = Some (t, Product t)); [|congruence]. by apply tagOnLine_spec.
Qed.

(** Every base the allocator counts on is a plain three-segment version on the
    line, and the one asked for when there is a target. *)
Lemma candidateBase_spec l target highest base :
  line_ok l ->
  (highest = "" \/ exists h, highest = VString h /\ version_ok h /\ on_line l h) ->
  candidateBase (LString l +:+ ".") target highest = Ok base ->
  (exists vb, version_ok vb /\ Build vb = 0 /\ Prerelease vb = "" /\ on_line l vb /\ base = base3 vb) /\
  (target <> "" -> base = target).
Proof.
  intros Hl Hh. unfold candidateBase. pose proof Hl as [Hl1 Hl2].
  assert (forall p, segment_ok p ->
    exists vb, version_ok vb /\ Build vb = 0 /\ Prerelease vb = "" /\ on_line l vb /\
      (LString l +:+ ".") +:+ FormatInt p = base3 vb) as Hmk.
  { intros p Hp. exists (MkVersion (LMajor l) (LMinor l) p 0 "").
    unfold version_ok, segment_ok, MaxSegment, base3, LString in *. simpl. split_and!; try lia; try done.
    - by left.
    - by autorewrite with gostr. }
  case_decide as Ht.
  - destruct (_ || _ || _ || _) eqn:Hc; [done|]. intros [= <-]. split; [|done].
    apply orb_false_iff in Hc as [Hc Hpre%negb_false_iff]. apply orb_false_iff in Hc as [Hc Hlen%negb_false_iff].
    apply orb_false_iff in Hc as [Hval%negb_false_iff Hdash].
    apply bool_decide_eq_true in Hlen.
    apply ValidVersion_spec in Hval as (v & Hv & Hm & <-). apply HasPrefix_line in Hpre; [|done..].
    destruct (VString_cases v Hv) as [(? & Hs & ?)|[(? & Hs & ?)|(? & Hs & ?)]]; rewrite Hs in *.
    + rewrite Split_base4 in Hlen by done. done.
    + exists v. done.
    + assert (Contains (base3 v +:+ "-" +:+ Prerelease v) "-" = true) as Hx; [|congruence].
      apply Contains_occurs. rewrite occurs_app. right. by left.
  - case_decide as He.
    { intros [= <-]. split; [|done]. apply (Hmk 0). unfold segment_ok, MaxSegment. lia. }
    destruct Hh as [?|(h & -> & Hok & Hon)]; [done|]. pose proof Hok as (_ & _ & [Hp0 Hp1] & _).
    destruct (VString_cases h Hok) as [(? & -> & ?)|[(? & -> & ?)|(? & -> & Hval)]].
    + rewrite Cut_none by (by apply base4_no_dash). rewrite decide_False by (intros H'; by apply H').
      rewrite Split_base4 by done. simpl nth. rewrite ParseInt_FormatInt by done. simpl fst.
      case_decide as Hmax; [done|]. intros [= <-]. split; [|done]. apply Hmk.
      unfold add64, candidateMax, segment_ok, MaxSegment in *.
      rewrite wrap64_id by (unfold in_int64, min_int64, max_int64; lia). lia.
    + rewrite Cut_none by (by apply base3_no_dash). rewrite decide_False by (intros H'; by apply H').
      rewrite Split_base3 by done. simpl nth. rewrite ParseInt_FormatInt by done. simpl fst.
      case_decide as Hmax; [done|]. intros [= <-]. split; [|done]. apply Hmk.
      unfold add64, candidateMax, segment_ok, MaxSegment in *.
      rewrite wrap64_id by (unfold in_int64, min_int64, max_int64; lia). lia.
    + change ("-" +:+ Prerelease h) with (String "-" (Prerelease h)).
      rewrite Cut_found by (by apply base3_no_dash).
      rewrite decide_True by (by apply validPrerelease_ne). intros [= <-]. split; [|done].
      exists (MkVersion (Major h) (Minor h) (Patch h) 0 ""). destruct Hok as (?&?&?&_).
      split; [|done]. repeat (split; [done|]). by left.
Qed.

(** The counter is at least one: every number read from a tag is a bounded
    prerelease counter, so adding one does not wrap. *)
Lemma candidateStep_pos vb stage next tag next' :
  version_ok vb -> 1 ≤ next ->
  candidateStep (base3 vb) stage next tag = Ok next' -> 1 ≤ next'.
Proof.
  intros Hvb Hn. unfold candidateStep.
  destruct (readCandidateTag tag) as [v|] eqn:Hr; [|naive_solver].
  apply readCandidateTag_spec in Hr as (t & _ & -> & Hv & _). case_decide; [done|].
  destruct (CutPrefix _ _) as [pre|] eqn:Hpre; [|naive_solver].
  apply CutPrefix_spec in Hpre. autorewrite with gostr in Hpre.
  pose proof (Cut_found "-" (base3 vb) pre (base3_no_dash _ Hvb)) as Hc. rewrite <-Hpre in Hc.
  destruct (VString_cases (Product t) Hv) as [(_ & Hs & _)|[(_ & Hs & _)|(_ & Hs & Hval)]]; rewrite Hs in Hc.
  - rewrite Cut_none in Hc by (by apply base4_no_dash). done.
  - rewrite Cut_none in Hc by (by apply base3_no_dash). done.
  - change ("-" +:+ Prerelease (Product t)) with (String "-" (Prerelease (Product t))) in Hc.
    rewrite Cut_found in Hc by (by apply base3_no_dash). injection Hc as _ <-.
    apply validPrerelease_spec in Hval as (st & n & Hst & Hn1 & ->).
    rewrite Cut_prerelease by done. case_decide; [done|]. case_decide; [|naive_solver].
    rewrite ParseInt_FormatInt by (unfold segment_ok; lia). simpl fst. intros [= <-].
    case_decide; [|done]. unfold add64, MaxSegment in *.
    rewrite wrap64_id by (unfold in_int64, min_int64, max_int64; lia). lia.
Qed.

Definition with_pre (v : Version) (pre : string) : Version :=
  MkVersion (Major v) (Minor v) (Patch v) 0 pre.

Lemma with_pre_ok v stage n :
  version_ok v -> stage = "beta" \/ stage = "rc" -> 0 < n ≤ MaxSegment ->
  version_ok (with_pre v (stage +:+ "." +:+ FormatInt n)) /\
  VString (with_pre v (stage +:+ "." +:+ FormatInt n)) = base3 v +:+ "-" +:+ stage +:+ "." +:+ FormatInt n.
Proof.
  intros (?&?&?&_) Hs Hn. split.
  - repeat (split; [done|]). right. split; [done|]. apply validPrerelease_spec. eauto.
  - unfold VString. simpl. rewrite decide_True; [done|]. by destruct Hs as [-> | ->].
Qed.

(** What a successful candidate allocation returns. *)
Lemma AllocateCandidate_spec line stage target existing r :
  AllocateCandidate line stage target existing = Ok r ->
  exists v n, version_ok v /\ VString v = r /\ on_line line v /\ Major v <> 0 /\
    Prerelease v = stage +:+ "." +:+ FormatInt n /\
    (target <> "" -> r = target +:+ "-" +:+ Prerelease v) /\
    forall raw t, raw ∈ existing -> ParseReleaseTag raw = Ok t -> on_line line (Product t) ->
      CompareProductVersion (Product t) v < 0.
Proof.
  unfold AllocateCandidate. case_decide as Hl; [done|]. case_decide as Hst; [done|].
  assert (line_ok line) as Hlok by (unfold line_ok, candidateMax in *; lia).
  assert (stage = "beta" \/ stage = "rc") as Hst'
    by (destruct (decide (stage = "beta")), (decide (stage = "rc")); tauto).
  pose proof (highestCandidate_spec line existing Hlok) as Hh. cbv zeta in Hh |- *.
  set (highest := highestCandidate _ _) in *.
  destruct (candidateBase _ _ _) as [base|] eqn:Hb; simpl; [|done].
  apply candidateBase_spec in Hb as ((vb & Hvb & Hbld & Hpre & Hon & ->) & Htgt); [|done|naive_solver].
  destruct (res_foldl _ _ _) as [next|] eqn:Hf; simpl; [|done].
  assert (1 ≤ next) as Hn1.
  { eapply (res_foldl_inv _ (fun n => 1 ≤ n)) in Hf; [done| |lia]. intros; by eapply candidateStep_pos. }
  case_decide as Hmax; [done|]. case_decide as Hord; [done|]. intros [= <-].
  destruct (with_pre_ok vb stage next Hvb Hst') as [Hok Hvs]; [unfold candidateMax in *; lia|].
  exists (with_pre vb (stage +:+ "." +:+ FormatInt next)), next.
  do 3 (split; [done|]). split; [|split; [done|split]].
  - simpl. destruct Hon as [-> _]. unfold line_ok in Hlok. lia.
  - intros Ht. by rewrite (Htgt Ht) at 1.
  - intros raw t Hin Hp Ht. destruct Hh as [[_ Hh]|(h & Hhe & Hhok & Hhon & Hmax')].
    + by destruct (Hh raw t Hin Hp).
    + rewrite Hhe in Hord. unfold orderCandidate in Hord.
      rewrite <-Hvs, !parseOrZero_VString in Hord by done.
      apply ParseReleaseTag_ok in Hp as Htok. destruct Htok as (_ & Htok & _).
      apply compare_le_lt_trans with h; [done..|by eapply Hmax'|].
      pose proof (compare_antisym (with_pre vb (stage +:+ "." +:+ FormatInt next)) h Hok Hhok).
      destruct (decide (CompareProductVersion (with_pre vb (stage +:+ "." +:+ FormatInt next)) h ≤ 0)); [|lia].
      exfalso. apply Hord. split; [by apply VString_ne|done].
Qed.

(** ** Theorems *)

(** A patch allocation never reuses a number.  When it succeeds the version
    is well-formed, on the requested line, strictly above every release already
    tagged on that line, and the tag it will be published under is not among the
    existing ones; it refuses exactly when the line has no release to count
    from, or when the build segment of the highest release is exhausted. *)
Theorem AllocatePatch_fresh line existing :
  match AllocatePatch line existing with
  | Ok v =>
      version_ok v /\ on_line line v /\ Raw (VTag v) ∉ existing /\
      (forall raw t, raw ∈ existing -> ParseReleaseTag raw = Ok t -> on_line line (Product t) ->
         CompareProductVersion (Product t) v < 0)
  | Err ErrUnknownFormat =>
      forall raw t, raw ∈ existing -> ParseReleaseTag raw = Ok t -> ~ on_line line (Product t)
  | Err ErrSegmentRange =>
      exists raw t, raw ∈ existing /\ ParseReleaseTag raw = Ok t /\ on_line line (Product t) /\
        Build (Product t) = MaxSegment
  | Err _ => False
  end.
Proof.
  destruct (AllocatePatch line existing) as [v|e] eqn:Ha.
  - apply AllocatePatch_above in Ha as (Hv & Hnz & HM & Hm & Hall).
    assert (forall raw t, raw ∈ existing -> ParseReleaseTag raw = Ok t -> on_line line (Product t) ->
              CompareProductVersion (Product t) v < 0) as Hall'
      by (intros raw t Hin Hp [? ?]; eapply Hall; [done|by apply tagOnLine_spec]).
    split_and!; [done..| |done]. intros Hin.
    assert (ParseReleaseTag (Raw (VTag v)) = Ok (VTag v)) as Hp by by apply ParseReleaseTag_VString.
    specialize (Hall' _ _ Hin Hp (conj HM Hm)). simpl in Hall'. rewrite compare_refl in Hall'; [lia|done].
  - unfold AllocatePatch in Ha. pose proof (highestOnLine_spec line existing) as Hs.
    destruct (highestOnLine line existing) as [h|].
    + destruct Hs as ((raw & t & Hin & Ht) & _). pose proof (tagOnLine_ok _ _ _ _ Ht) as (Hok & _).
      apply tagOnLine_spec in Ht as (Hp & -> & ? & ?). case_decide as Hn; [|done]. simplify_eq.
      exists raw, t. split_and!; [done..|]. destruct Hok as (_ & _ & _ & [H1 H2] & _).
      unfold add64, MaxSegment in *.
      rewrite wrap64_id in Hn by (unfold in_int64, min_int64, max_int64; lia). lia.
    + simplify_eq. intros raw t Hin Hp [? ?]. specialize (Hs raw Hin).
      assert (tagOnLine line raw = Some (t, Product t)); [by apply tagOnLine_spec|congruence].
Qed.

(** A candidate allocation advances its line.  The result is the published
    spelling of a well-formed version on the requested line whose prerelease is
    the requested stage with a positive counter, it is built on the target when
    one is given, it is strictly above every release already tagged on the
    line, and its tag is not among the existing ones. *)
Theorem AllocateCandidate_advances line stage target existing r :
  AllocateCandidate line stage target existing = Ok r ->
  exists v n, version_ok v /\ VString v = r /\ on_line line v /\
    Prerelease v = stage +:+ "." +:+ FormatInt n /\
    (target <> "" -> r = target +:+ "-" +:+ Prerelease v) /\
    (forall raw t, raw ∈ existing -> ParseReleaseTag raw = Ok t -> on_line line (Product t) ->
       CompareProductVersion (Product t) v < 0) /\
    TagPrefix +:+ r ∉ existing.
Proof.
  intros (v & n & Hv & Hs & Hon & Hnz & Hp & Ht & Hall)%AllocateCandidate_spec.
  exists v, n. do 6 (split; [done|]). intros Hin.
  assert (ParseReleaseTag (TagPrefix +:+ r) = Ok (MkTag (TagPrefix +:+ r) SchemeProduct v)) as Hpt
    by (apply ParseReleaseTag_VString; [done..|]; by rewrite Hs).
  specialize (Hall _ _ Hin Hpt Hon). simpl in Hall. rewrite compare_refl in Hall; [lia|done].
Qed.

Lemma AllocateCandidate_advances_witness :
  exists v n, VString v = "4.1.1-beta.1" /\ Prerelease v = "beta." +:+ FormatInt n.
Proof.
  destruct (AllocateCandidate_advances (MkLine 4 1) "beta" "" ["v4.1.0"; "release/4.0.9"; "junk"] "4.1.1-beta.1"
    ltac:(by vm_compute)) as (v & n & _ & H1 & _ & H2 & _).
  by exists v, n.
Defined.

Lemma Contains_sub_dash v s : Contains v (String "-" s) = true -> occurs "-" v.
Proof.
  induction v as [|a v IH]; [done|].
  change (Contains (String a v) (String "-" s))
    with ((bool_decide (a = "-"%char) && HasPrefix v s) || Contains v (String "-" s)).
  intros [[H _]%andb_true_iff|H]%orb_true_iff; [left; by apply bool_decide_eq_true in H|right; by apply IH].
Qed.

(** Only an approved final version can move a stable pointer.  [stable] and
    [latest] are offered exactly for a valid version without a prerelease suffix
    and with the explicit approval; and a version that is not a valid release
    identity moves no pointer at all. *)
Theorem stable_pointers_need_approval v approved :
  ("stable" ∈ ReleaseAliases v approved <->
     approved = true /\ exists w, version_ok w /\ Major w <> 0 /\ VString w = v /\ Prerelease w = "") /\
  ("latest" ∈ ReleaseAliases v approved <-> "stable" ∈ ReleaseAliases v approved) /\
  (ValidVersion v = false -> ReleaseAliases v approved = []).
Proof.
  unfold ReleaseAliases, ReleaseStage, validCandidateVersion. split_and!.
  - destruct (ValidVersion v) eqn:Hval; simpl.
    2: { split; [set_solver|]. intros (_ & w & ? & ? & ? & _).
         assert (ValidVersion v = true); [apply ValidVersion_spec; eauto|congruence]. }
    apply ValidVersion_spec in Hval as (w & Hw & Hm & <-).
    destruct (VString_cases w Hw) as [(? & Hs & Hp)|[(? & Hs & Hp)|(? & Hs & Hp)]].
    + assert (~ occurs "-" (VString w)) as Hno by (rewrite Hs; by apply base4_no_dash).
      destruct (Contains _ "-beta.") eqn:Hb; [by apply Contains_sub_dash in Hb|].
      destruct (Contains _ "-rc.") eqn:Hr; [by apply Contains_sub_dash in Hr|].
      destruct approved; simpl; [set_solver|]. case_decide; set_solver.
    + assert (~ occurs "-" (VString w)) as Hno by (rewrite Hs; by apply base3_no_dash).
      destruct (Contains _ "-beta.") eqn:Hb; [by apply Contains_sub_dash in Hb|].
      destruct (Contains _ "-rc.") eqn:Hr; [by apply Contains_sub_dash in Hr|].
      destruct approved; simpl; [set_solver|]. case_decide; set_solver.
    + pose proof (validPrerelease_ne _ Hp) as Hne.
      assert (~ exists w', version_ok w' /\ Major w' <> 0 /\ VString w' = VString w /\ Prerelease w' = "") as Hno.
      { intros (w' & Hw' & _ & Heq & Hnil). apply (f_equal ParseProductVersion) in Heq.
        rewrite !ParseProductVersion_VString in Heq by done. congruence. }
      apply validPrerelease_spec in Hp as (st & n & Hst & Hn & Hp).
      assert (Contains (VString w) "-beta." = true \/ Contains (VString w) "-rc." = true) as Hc.
      { rewrite Hs, Hp. destruct Hst as [-> | ->]; [left|right];
          apply Contains_app, HasPrefix_Contains, HasPrefix_spec; by exists (FormatInt n). }
      destruct (Contains _ "-beta."); [set_solver|]. destruct (Contains _ "-rc."); [set_solver|].
      by destruct Hc.
  - destruct (negb _); [set_solver|]. destruct (Contains _ _); [set_solver|]. destruct (Contains _ _); [set_solver|].
    destruct approved; simpl; [set_solver|]. case_decide; set_solver.
  - by intros ->.
Qed.

Lemma stable_pointers_need_approval_witness :
  "stable" ∈ ReleaseAliases "4.1.0" true /\ ReleaseAliases "4.1.0-rc.2" true = ["rc"; "beta"; "testing"] /\
  ReleaseAliases "v4.1.0" true = [].
Proof.
  split; [|split; [by vm_compute|]].
  - apply (proj1 (stable_pointers_need_approval "4.1.0" true)). split; [done|].
    exists (MkVersion 4 1 0 0 ""). split; [|split; [done|split; [by vm_compute|done]]].
    unfold version_ok, segment_ok, MaxSegment; simpl. split_and!; (lia || by left).
  - apply (stable_pointers_need_approval "v4.1.0" true). by vm_compute.
Defined.
