(* ===== verification/Sha256.v ===== *)
(** * SHA-256 and lower-case hex ([crypto/sha256], [encoding/hex])

    The node names documents, artifacts, grants and task inputs by the hex
    SHA-256 of their bytes.  This is the FIPS 180-4 function on byte strings,
    with 32-bit words as [Z] and every wrap-around written out. *)
From S2P Require Import Prelude GoStrings.

(** ** Words *)

Definition mask32 : Z := 4294967295.
Definition add32 (a b : Z) : Z := Z.land (a + b) mask32.
Definition rotr (n x : Z) : Z := Z.lor (Z.shiftr x n) (Z.land (Z.shiftl x (32 - n)) mask32).
Definition not32 (x : Z) : Z := Z.lxor x mask32.

Definition Ch (x y z : Z) : Z := Z.lxor (Z.land x y) (Z.land (not32 x) z).
Definition Maj (x y z : Z) : Z := Z.lxor (Z.lxor (Z.land x y) (Z.land x z)) (Z.land y z).
Definition Sigma0 (x : Z) : Z := Z.lxor (Z.lxor (rotr 2 x) (rotr 13 x)) (rotr 22 x).
Definition Sigma1 (x : Z) : Z := Z.lxor (Z.lxor (rotr 6 x) (rotr 11 x)) (rotr 25 x).
Definition sigma0 (x : Z) : Z := Z.lxor (Z.lxor (rotr 7 x) (rotr 18 x)) (Z.shiftr x 3).
Definition sigma1 (x : Z) : Z := Z.lxor (Z.lxor (rotr 17 x) (rotr 19 x)) (Z.shiftr x 10).

(** ** Constants

    The standard takes the first 32 fractional bits of the cube roots of the
    first 64 primes, and of the square roots of the first eight. *)

(** The largest [r] below [2 ^ bits] with [r ^ k <= n], found bit by bit. *)
Fixpoint integer_root (bits : nat) (k n r : Z) : Z :=
  match bits with
  | O => r
  | S bits' =>
      let r' := r + 2 ^ Z.of_nat bits' in
      integer_root bits' k n (if (r' ^ k <=? n) then r' else r)
  end.

(** 32 fractional bits of the [k]-th root of [p]. *)
Definition root_fraction (k p : Z) : Z := Z.land (integer_root 40 k (p * 2 ^ (32 * k)) 0) mask32.

Definition is_prime (n : nat) : bool :=
  (2 <=? n)%nat && forallb (fun d => negb (n mod d =? 0)%nat) (seq 2 (n - 2)).

Definition primes : list Z := Z.of_nat <$> List.filter is_prime (seq 0 312).

Definition round_constants : list Z := Eval vm_compute in root_fraction 3 <$> primes.

Definition initial_state : list Z := Eval vm_compute in root_fraction 2 <$> take 8 primes.

(** ** Padding and blocks *)

Fixpoint bytes (s : string) : list Z :=
  match s with
  | EmptyString => []
  | String a s' => Z.of_nat (nat_of_ascii a) :: bytes s'
  end.

Fixpoint be_bytes (n : nat) (z : Z) : list Z :=
  match n with
  | O => []
  | S n' => Z.land (Z.shiftr z (8 * Z.of_nat n')) 255 :: be_bytes n' z
  end.

Definition pad (m : list Z) : list Z :=
  let n := length m in
  let zeros := ((119 - n mod 64) mod 64)%nat in
  m ++ [128] ++ repeat 0 zeros ++ be_bytes 8 (8 * Z.of_nat n).

Fixpoint words (fuel : nat) (l : list Z) : list Z :=
  match fuel, l with
  | S fuel', a :: b :: c :: d :: l' =>
      Z.lor (Z.lor (Z.shiftl a 24) (Z.shiftl b 16)) (Z.lor (Z.shiftl c 8) d) :: words fuel' l'
  | _, _ => []
  end.

(** ** Compression *)

(** The message schedule, kept as the last sixteen words, newest first. *)
Fixpoint schedule (n : nat) (w : list Z) (acc : list Z) : list Z :=
  match n with
  | O => rev acc
  | S n' =>
      let x := add32 (add32 (sigma1 (nth 1 w 0)) (nth 6 w 0)) (add32 (sigma0 (nth 14 w 0)) (nth 15 w 0)) in
      schedule n' (x :: firstn 15 w) (x :: acc)
  end.

Definition compress_round (st : list Z) (kw : Z * Z) : list Z :=
  match st with
  | [a; b; c; d; e; f; g; h] =>
      let t1 := add32 (add32 (add32 h (Sigma1 e)) (add32 (Ch e f g) (fst kw))) (snd kw) in
      let t2 := add32 (Sigma0 a) (Maj a b c) in
      [add32 t1 t2; a; b; c; add32 d t1; e; f; g]
  | _ => st
  end.

Definition compress (st : list Z) (block : list Z) : list Z :=
  let w16 := words 16 block in
  let w := w16 ++ schedule 48 (rev w16) [] in
  zip_with add32 st (fold_left compress_round (zip round_constants w) st).

Fixpoint blocks (fuel : nat) (l : list Z) (st : list Z) : list Z :=
  match fuel, l with
  | S fuel', _ :: _ => blocks fuel' (skipn 64 l) (compress st (firstn 64 l))
  | _, _ => st
  end.

Definition sha256 (s : string) : list Z :=
  let m := pad (bytes s) in
  concat (be_bytes 4 <$> blocks (length m) m initial_state).

(** ** Hex *)

Definition hex_digit (d : Z) : ascii :=
  ascii_of_nat (if decide (d < 10) then 48 + Z.to_nat d else 87 + Z.to_nat d).

Definition EncodeToString (l : list Z) : string :=
  foldr (fun b s => String (hex_digit (Z.shiftr b 4)) (String (hex_digit (Z.land b 15)) s)) "" l.

(** [hex.EncodeToString(sha256.Sum256(body))], the digest every stored name
    uses. *)
Definition sha256_hex (body : string) : string := EncodeToString (sha256 body).

(** ** Published test vectors *)

Example sha256_abc :
  sha256_hex "abc" = "ba7816bf8f01cfea414140de5dae2223b00361a396177a9cb410ff61f20015ad".
Proof. vm_compute. reflexivity. Qed.

Example sha256_empty :
  sha256_hex "" = "e3b0c44298fc1c149afbf4c8996fb92427ae41e4649b934ca495991b7852b855".
Proof. vm_compute. reflexivity. Qed.

Example sha256_two_blocks :
  sha256_hex "abcdbcdecdefdefgefghfghighijhijkijkljklmklmnlmnomnopnopq" =
  "248d6a61d20638b8e5c026930c3e6039a33ce45964ff2167f6ecedd419db06c1".
Proof. vm_compute. reflexivity. Qed.

(** ** Length *)

Lemma compress_round_length st kw : length (compress_round st kw) = length st.
Proof. by do 9 (destruct st as [|? st]; [done|]). Qed.

Lemma compress_length st block : length (compress st block) = length st.
Proof.
  unfold compress. rewrite length_zip_with. generalize (zip round_constants (words 16 block ++ schedule 48 (rev (words 16 block)) [])).
  intros l. enough (length (fold_left compress_round l st) = length st) as -> by lia.
  revert st. induction l as [|kw l IH]; intros st; [done|]. simpl. by rewrite IH, compress_round_length.
Qed.

Lemma blocks_length fuel l st : length (blocks fuel l st) = length st.
Proof.
  revert l st. induction fuel as [|fuel IH]; intros [|a l] st; simpl; try done.
  by rewrite IH, compress_length.
Qed.

Lemma be_bytes_length n z : length (be_bytes n z) = n.
Proof. induction n; simpl; congruence. Qed.

Lemma EncodeToString_length l : String.length (EncodeToString l) = (2 * length l)%nat.
Proof. induction l as [|b l IH]; simpl; [done|]. change (foldr _ "" l) with (EncodeToString l). lia. Qed.

Lemma sha256_length s : length (sha256 s) = 32%nat.
Proof.
  unfold sha256. generalize (blocks_length (length (pad (bytes s))) (pad (bytes s)) initial_state).
  generalize (blocks (length (pad (bytes s))) (pad (bytes s)) initial_state). intros ws Hws.
  change (length initial_state) with 8%nat in Hws. by do 9 (destruct ws as [|? ws]; try done).
Qed.

Lemma sha256_hex_length s : String.length (sha256_hex s) = 64%nat.
Proof. unfold sha256_hex. by rewrite EncodeToString_length, sha256_length. Qed.
