(* ===== verification/GoJson.v ===== *)
(** * [json.Valid] ([encoding/json])

    The JSON grammar the standard library's scanner accepts: one value with
    optional white space around it, nested at most 10000 deep.  Bytes of 0x80 and
    above are accepted inside strings, control characters are not. *)
From S2P Require Import Prelude GoStrings.

Definition ascii_z (a : ascii) : Z := Z.of_nat (nat_of_ascii a).
Definition maxNestingDepth : Z := 10000.
Definition dquote : ascii := ascii_of_nat 34.
Definition backslash : ascii := ascii_of_nat 92.

Definition is_json_space (a : ascii) : bool :=
  bool_decide (ascii_z a = 32 \/ ascii_z a = 9 \/ ascii_z a = 10 \/ ascii_z a = 13).

Fixpoint skip_ws (s : string) : string :=
  match s with
  | String a s' => if is_json_space a then skip_ws s' else s
  | EmptyString => EmptyString
  end.

(** [Some rest] when [s] starts with the byte [c]. *)
Definition eat (c : ascii) (s : string) : option string :=
  match s with
  | String a s' => if decide (a = c) then Some s' else None
  | EmptyString => None
  end.

Definition is_hex (a : ascii) : bool :=
  let n := ascii_z a in
  bool_decide (48 ≤ n ≤ 57 \/ 97 ≤ n ≤ 102 \/ 65 ≤ n ≤ 70).

(** The rest of a string literal after its opening quote.  The counter is the
    number of hex digits still owed to a [\u] escape. *)
Fixpoint scan_string (esc : bool) (hex : nat) (s : string) : option string :=
  match s with
  | EmptyString => None
  | String a s' =>
      match hex with
      | S h => if is_hex a then scan_string false h s' else None
      | O =>
          if esc then
            if decide (a = "u"%char) then scan_string false 4 s'
            else if decide (a = "b"%char \/ a = "f"%char \/ a = "n"%char \/ a = "r"%char \/ a = "t"%char \/
                            a = backslash \/ a = "/"%char \/ a = dquote)
                 then scan_string false 0 s' else None
          else if decide (a = dquote) then Some s'
          else if decide (a = backslash) then scan_string true 0 s'
          else if decide (ascii_z a < 32) then None
          else scan_string false 0 s'
      end
  end.

Fixpoint skip_digits (s : string) : string :=
  match s with
  | String a s' => if decide (is_Some (digit_value a)) then skip_digits s' else s
  | EmptyString => EmptyString
  end.

(** One digit, then more. *)
Definition digits1 (s : string) : option string :=
  match s with
  | String a s' => if decide (is_Some (digit_value a)) then Some (skip_digits s') else None
  | EmptyString => None
  end.

Definition scan_number (s : string) : option string :=
  let s := default s (eat "-" s) in
  int ← match s with
        | String a s' => if decide (a = "0"%char) then Some s' else digits1 s
        | EmptyString => None
        end;
  frac ← match eat "." int with Some r => digits1 r | None => Some int end;
  match frac with
  | String a r =>
      if decide (a = "e"%char \/ a = "E"%char) then
        digits1 (default (default r (eat "-" r)) (eat "+" r))
      else Some frac
  | EmptyString => Some frac
  end.

(** Values, the members of an object after its brace, and the elements of an
    array after its bracket.  Every call but the one from a container to its
    first entry consumes a byte, so three times the length is enough fuel. *)
Fixpoint scan_value (fuel : nat) (depth : Z) (s : string) {struct fuel} : option string :=
  match fuel with
  | O => None
  | S f =>
      match skip_ws s with
      | EmptyString => None
      | String a r =>
          if decide (a = "{"%char) then
            if decide (maxNestingDepth ≤ depth) then None else
            match eat "}" (skip_ws r) with
            | Some r' => Some r'
            | None => scan_members f (depth + 1) r
            end
          else if decide (a = "["%char) then
            if decide (maxNestingDepth ≤ depth) then None else
            match eat "]" (skip_ws r) with
            | Some r' => Some r'
            | None => scan_elements f (depth + 1) r
            end
          else if decide (a = dquote) then scan_string false 0 r
          else if decide (a = "t"%char) then CutPrefix r "rue"
          else if decide (a = "f"%char) then CutPrefix r "alse"
          else if decide (a = "n"%char) then CutPrefix r "ull"
          else scan_number (String a r)
      end
  end
with scan_members (fuel : nat) (depth : Z) (s : string) {struct fuel} : option string :=
  match fuel with
  | O => None
  | S f =>
      r ← eat dquote (skip_ws s);
      r ← scan_string false 0 r;
      r ← eat ":" (skip_ws r);
      r ← scan_value f depth r;
      match eat "," (skip_ws r) with
      | Some r' => scan_members f depth r'
      | None => eat "}" (skip_ws r)
      end
  end
with scan_elements (fuel : nat) (depth : Z) (s : string) {struct fuel} : option string :=
  match fuel with
  | O => None
  | S f =>
      r ← scan_value f depth s;
      match eat "," (skip_ws r) with
      | Some r' => scan_elements f depth r'
      | None => eat "]" (skip_ws r)
      end
  end.

Definition json_Valid (s : string) : bool :=
  match scan_value (3 * String.length s + 3) 0 s with
  | Some r => bool_decide (skip_ws r = "")
  | None => false
  end.

(** ** The grammar on samples *)

Example json_object : json_Valid "{}" = true.
Proof. vm_compute. reflexivity. Qed.

Example json_nested : json_Valid " [1, -0.5e+3, [true, null], {}] " = true.
Proof. vm_compute. reflexivity. Qed.

Example json_leading_zero : json_Valid "[01]" = false.
Proof. vm_compute. reflexivity. Qed.

Example json_trailing : json_Valid "{} x" = false.
Proof. vm_compute. reflexivity. Qed.

Example json_empty : json_Valid "" = false.
Proof. vm_compute. reflexivity. Qed.

(** ** Strings through [json.Marshal] and back

    Invalid bytes of a Go string are encoded as U+FFFD, one per byte; a string of
    valid UTF-8 survives the round trip. *)
Definition replacement (s : string) : string :=
  String (ascii_of_nat 239) (String (ascii_of_nat 191) (String (ascii_of_nat 189) s)).

Fixpoint json_string (s : string) : string :=
  match s with
  | EmptyString => ""
  | String a s1 =>
      if byte_in 0 127 a then String a (json_string s1) else
      match s1 with
      | EmptyString => replacement ""
      | String b s2 =>
          if byte_in 194 223 a && byte_in 128 191 b then String a (String b (json_string s2)) else
          match s2 with
          | EmptyString => replacement (json_string s1)
          | String c s3 =>
              if ((byte_in 224 224 a && byte_in 160 191 b) || (byte_in 237 237 a && byte_in 128 159 b) ||
                  (byte_in 225 236 a && byte_in 128 191 b) || (byte_in 238 239 a && byte_in 128 191 b))
                 && byte_in 128 191 c
              then String a (String b (String c (json_string s3))) else
              match s3 with
              | EmptyString => replacement (json_string s1)
              | String d s4 =>
                  if ((byte_in 240 240 a && byte_in 144 191 b) || (byte_in 241 243 a && byte_in 128 191 b) ||
                      (byte_in 244 244 a && byte_in 128 143 b)) && byte_in 128 191 c && byte_in 128 191 d
                  then String a (String b (String c (String d (json_string s4))))
                  else replacement (json_string s1)
              end
          end
      end
  end.

(** The double quote of an encoded object. *)
Definition quote : string := String (ascii_of_nat 34) "".

(** [json.Marshal] of an object with the given fields, already encoded. *)
Definition json_encode_object (fields : list (string * string)) : string :=
  let field '(name, value) := quote +:+ name +:+ quote +:+ ":" +:+ value in
  match field <$> fields with
  | [] => "{}"
  | f :: fs => "{" +:+ foldl (fun acc g => acc +:+ "," +:+ g) f fs +:+ "}"
  end.

(** A [*int64]. *)
Definition json_int_ptr (o : option Z) : string := match o with Some z => FormatInt z | None => "null" end.
