(* ===== verification/Protocol.v ===== *)
(** * The wire contract ([github.com/KazuhaHub/passwall-protocol])

    [protocol/alias.go] re-exports another module; its code is not part of this
    repository.  The data the node builds and reads field by field is declared
    here with the fields the node uses.  The functions of that module are the
    operations of the class [Protocol], so every definition that calls one takes
    it as a parameter; what the node relies on is [ProtocolLaws]. *)
From S2P Require Import Prelude GoStrings.

(** ** Data *)

(** Stream versions are pairs of uint64. *)
Record PVersion := MkPVersion { Epoch : Z; VNum : Z }.

#[global] Instance PVersion_eq_dec : EqDecision PVersion.
Proof. solve_decision. Defined.

(** The stream names, as the schema's CHECK constraints list them. *)
Definition StreamConfig : string := "config".
Definition StreamRoster : string := "roster".
Definition StreamDirectives : string := "directives".

Inductive GateState := GateUnconfigured | GateArmed | GateClosed.

#[global] Instance GateState_eq_dec : EqDecision GateState.
Proof. solve_decision. Defined.

(** Object states are strings on the wire; "" is Go's zero value. *)
Definition ObjectApplied : string := "applied".
Definition ObjectPending : string := "pending".
Definition ObjectRejected : string := "rejected".
Definition ObjectBlocked : string := "blocked".

Record ObjectStatus := MkObjectStatus {
  OStream : string;
  OKey : string;
  OState : string;
  SinceVersion : PVersion;
  FirstFailedAtMS : Z;
  IssueCode : string;
  BlockedOn : string
}.

#[global] Instance ObjectStatus_eq_dec : EqDecision ObjectStatus.
Proof. solve_decision. Defined.

Record Issue := MkIssue { ICode : string; IKey : string; IDetail : string }.

#[global] Instance Issue_eq_dec : EqDecision Issue.
Proof. solve_decision. Defined.

Record Task := MkTask {
  TID : string;
  TKind : string;
  TArgs : string;
  TInputSHA256 : string;
  TNotAfterMS : Z
}.

#[global] Instance Task_eq_dec : EqDecision Task.
Proof. solve_decision. Defined.

Record TaskResult := MkTaskResult {
  RID : string;
  RKind : string;
  RInputSHA256 : string;
  RNotAfterMS : Z;
  ROK : bool;
  RIndeterminate : bool;
  RResult : string;
  RErrorCode : string;
  RError : string
}.

#[global] Instance TaskResult_eq_dec : EqDecision TaskResult.
Proof. solve_decision. Defined.

(** The one error code the schema itself names. *)
Definition TaskErrorExpiredBeforeStart : string := "task_expired_before_start".

(** ** Operations of the other module *)

Class Protocol := {
  (** [v.Newer(w)], [v.Zero()], [v.Committed()]. *)
  Newer : PVersion -> PVersion -> bool;
  VZero : PVersion -> bool;
  Committed : PVersion -> bool;
  (** [Converged(a, b)] on ETags. *)
  Converged : string -> string -> bool;
  (** [key.RowID()]: [None] is its error. *)
  ListenerRowID : string -> option Z;
  ClientRowID : string -> option Z;
  SubjectRowID : string -> option Z;
  (** [QuotaEntry.RefreshDue(nowMS)] on the entry's two next-period fields. *)
  RefreshDue : Z -> option Z -> Z -> bool;
  (** [ValidateTasks(ts) == nil] and [ValidateTaskResults(rs) == nil]. *)
  ValidateTasks : list Task -> bool;
  ValidateTaskResults : list TaskResult -> bool;
  (** The text of [ValidateTaskResults]'s refusal. *)
  TaskResultsErrorText : list TaskResult -> string;
  (** The JSON encoding of the two outbox payloads. *)
  MarshalIssue : Issue -> string;
  UnmarshalIssue : string -> option Issue;
  MarshalTaskResult : TaskResult -> string;
  UnmarshalTaskResult : string -> option TaskResult;
  (** [ComputeTaskInputSHA256(kind, args)] and the capability names. *)
  ComputeTaskInputSHA256 : string -> string -> string;
  CapabilityTaskExecutionV1 : string;
  CapabilityTaskExpiryV1 : string;
  TaskCapability : string -> string;
  (** Field and report limits. *)
  MaxTaskErrorCodeBytes : Z;
  MaxTaskErrorBytes : Z;
  MaxCapabilitiesPerReport : Z;
  MaxIssueCodeBytes : Z;
  MaxIssueKeyBytes : Z;
  MaxIssueDetailBytes : Z;
  MaxIssuesPerReport : Z;
  MaxTaskResultsPerReport : Z;
  MaxTaskResultBytesPerReport : Z
}.

(** What the node relies on: versions are strictly ordered; a committed version
    is one with a positive epoch and number (the refusals quote this), and the
    zero one is the other extreme; a refresh is due exactly when a next-period
    grant is present and its deadline has passed; the limits are positive; what was encoded can be
    decoded (to the same value where every text is valid UTF-8, which is not relied on). *)
Class ProtocolLaws `{Protocol} : Prop := {
  Newer_irrefl : forall v, Newer v v = false;
  Newer_trans : forall u v w, Newer u v = true -> Newer v w = true -> Newer u w = true;
  Committed_spec : forall v, Committed v = true <-> 0 < Epoch v /\ 0 < VNum v;
  VZero_spec : forall v, VZero v = true <-> v = MkPVersion 0 0;
  RefreshDue_spec : forall deadline next now,
    RefreshDue deadline next now = true <-> 0 < deadline /\ deadline ≤ now /\ next <> None;
  limits_pos : 0 < MaxIssueCodeBytes /\ 0 < MaxIssueKeyBytes /\ 0 < MaxIssueDetailBytes /\
    0 < MaxIssuesPerReport /\ 0 < MaxTaskResultsPerReport /\ 0 < MaxTaskResultBytesPerReport;
  UnmarshalIssue_Marshal : forall i, is_Some (UnmarshalIssue (MarshalIssue i));
  UnmarshalTaskResult_Marshal : forall r, is_Some (UnmarshalTaskResult (MarshalTaskResult r))
}.

#[global] Hint Mode ProtocolLaws ! : typeclass_instances.

Lemma committed_not_zero `{ProtocolLaws} v : Committed v = true -> VZero v = false.
Proof.
  intros [He _]%Committed_spec. destruct (VZero v) eqn:Hz; [|done].
  apply VZero_spec in Hz as ->. simpl in He. lia.
Qed.

(** ** An instance

    A concrete implementation of the operations, used to evaluate the model on
    inputs and to show that the laws can hold together. *)
Module sample.

Fixpoint pos_str (p : positive) : string :=
  match p with
  | xH => ""
  | xO p' => String "0" (pos_str p')
  | xI p' => String "1" (pos_str p')
  end.

Fixpoint str_pos (s : string) : option positive :=
  match s with
  | EmptyString => Some xH
  | String a s' => p ← str_pos s';
                   if decide (a = "0"%char) then Some (xO p)
                   else if decide (a = "1"%char) then Some (xI p) else None
  end.

Lemma str_pos_str p : str_pos (pos_str p) = Some p.
Proof. induction p as [p IH|p IH|]; simpl; [by rewrite IH..|done]. Qed.

#[export] Instance Issue_countable : Countable Issue :=
  inj_countable' (fun i => (ICode i, IKey i, IDetail i)) (fun '(c, k, d) => MkIssue c k d)
    ltac:(by intros []).

#[export] Instance TaskResult_countable : Countable TaskResult :=
  inj_countable' (fun r => (RID r, RKind r, RInputSHA256 r, RNotAfterMS r, ROK r, RIndeterminate r,
                            RResult r, RErrorCode r, RError r))
    (fun '(a, b, c, d, e, f, g, h, i) => MkTaskResult a b c d e f g h i)
    ltac:(by intros []).

(** A row key is a prefix and a positive decimal number. *)
Definition row_id (prefix key : string) : option Z :=
  n ← CutPrefix key prefix;
  match ParseInt n with
  | (v, None) => if decide (0 < v /\ FormatInt v = n) then Some v else None
  | _ => None
  end.

#[export] Instance sample_protocol : Protocol := {|
  Newer a b := bool_decide (Epoch b < Epoch a \/ (Epoch a = Epoch b /\ VNum b < VNum a));
  VZero v := bool_decide (v = MkPVersion 0 0);
  Committed v := bool_decide (0 < Epoch v /\ 0 < VNum v);
  Converged a b := bool_decide (a = b);
  ListenerRowID := row_id "lst_";
  ClientRowID := row_id "cli_";
  SubjectRowID := row_id "usr_";
  RefreshDue deadline next now := bool_decide (0 < deadline /\ deadline ≤ now /\ next <> None);
  ValidateTasks ts := bool_decide (Forall (fun t => TID t <> "") ts);
  TaskResultsErrorText _ := "invalid task result";
  ValidateTaskResults rs := bool_decide (Forall (fun r => RID r <> "") rs);
  MarshalIssue i := pos_str (encode i);
  UnmarshalIssue s := str_pos s ≫= decode;
  MarshalTaskResult r := pos_str (encode r);
  UnmarshalTaskResult s := str_pos s ≫= decode;
  ComputeTaskInputSHA256 kind args := kind +:+ ":" +:+ args;
  CapabilityTaskExecutionV1 := "task.execution.v1";
  CapabilityTaskExpiryV1 := "task.expiry.v1";
  TaskCapability kind := "task:" +:+ kind;
  MaxTaskErrorCodeBytes := 64;
  MaxTaskErrorBytes := 256;
  MaxCapabilitiesPerReport := 32;
  MaxIssueCodeBytes := 64;
  MaxIssueKeyBytes := 256;
  MaxIssueDetailBytes := 1024;
  MaxIssuesPerReport := 8;
  MaxTaskResultsPerReport := 4;
  MaxTaskResultBytesPerReport := 1024
|}.

#[export] Instance sample_laws : ProtocolLaws.
Proof.
  split; simpl.
  - intros v. apply bool_decide_eq_false. lia.
  - intros u v w [?|[? ?]]%bool_decide_eq_true [?|[? ?]]%bool_decide_eq_true;
      apply bool_decide_eq_true; lia.
  - intros v. apply bool_decide_eq_true.
  - intros v. apply bool_decide_eq_true.
  - intros. apply bool_decide_eq_true.
  - lia.
  - intros i. rewrite str_pos_str. simpl. eexists. apply decode_encode.
  - intros r. rewrite str_pos_str. simpl. eexists. apply decode_encode.
Qed.

End sample.
