(* ===== verification/Store.v ===== *)
(** * The durable state ([internal/state/state.go], the schema of
      [internal/state/sqlite/store.go])

    One record per row type, and the database as a record of tables.  A table
    with a primary key is a finite map from that key; the outbox, whose key is an
    AUTOINCREMENT number and which is always read in an order, is a list.

    Every operation of the store runs either one SQL statement or one
    transaction over the single connection, and an error abandons the
    transaction.  So an operation is a function from a database to
    [res error (A * DB)]: on [Err] the database stays what it was.  Each CHECK
    constraint is a boolean on the row, evaluated at every write. *)
From S2P Require Import Prelude GoStrings Protocol.

(** ** Errors *)

Inductive error :=
| ErrNotFound
| ErrStaleVersion
| ErrVersionConflict
| ErrCounterRollback
| ErrCoreTrafficGap
| ErrInvalidState
| ErrTaskIdentityConflict (id input : string)
| ErrTaskTerminalConflict
| ErrConstraint
| ErrNilPointer
| Errorf (msg : string).

#[global] Instance error_eq_dec : EqDecision error.
Proof. solve_decision. Defined.

(** ** Rows *)

Record StreamDocument := MkStreamDocument {
  DStream : string;
  DVersion : PVersion;
  DETag : string;
  DBody : string;
  AcceptedAtMS : Z
}.

#[global] Instance StreamDocument_eq_dec : EqDecision StreamDocument.
Proof. solve_decision. Defined.

Record storedStream := MkStoredStream { document : StreamDocument; epochFloor : Z }.

Record ClientIdentity := MkClientIdentity { CKey : string; CSubject : string }.

Record ClientRuntime := MkClientRuntime {
  Subject : string;
  Present : bool;
  UpBytes : Z;
  DownBytes : Z;
  CounterEpoch : Z;
  LiveIPs : list string;
  Gate : GateState;
  BaselineBytes : option Z;
  HeadroomBytes : option Z;
  PeriodEndsAtMS : Z;
  NextPeriodHeadroomBytes : option Z;
  QuotaFingerprint : string;
  UpdatedAtMS : Z
}.

#[global] Instance ClientRuntime_eq_dec : EqDecision ClientRuntime.
Proof. solve_decision. Defined.

Record QuotaGrant := MkQuotaGrant {
  GBaselineBytes : Z;
  GHeadroomBytes : option Z;
  GPeriodEndsAtMS : Z;
  GNextPeriodHeadroomBytes : option Z
}.

#[global] Instance QuotaGrant_eq_dec : EqDecision QuotaGrant.
Proof. solve_decision. Defined.

Record CounterUpdate := MkCounterUpdate {
  UKey : string;
  UPresent : bool;
  UUpBytes : Z;
  UDownBytes : Z;
  UCounterEpoch : Z;
  ULiveIPs : list string
}.

Record ListenerRuntime := MkListenerRuntime {
  LPresent : bool;
  LUpBytes : Z;
  LDownBytes : Z;
  LCounterEpoch : Z;
  LUpdatedAtMS : Z
}.

#[global] Instance ListenerRuntime_eq_dec : EqDecision ListenerRuntime.
Proof. solve_decision. Defined.

Record ListenerCounterUpdate := MkListenerCounterUpdate {
  LUKey : string;
  LUPresent : bool;
  LUUpBytes : Z;
  LUDownBytes : Z;
  LUCounterEpoch : Z
}.

Record CounterBatch := MkCounterBatch {
  BClients : list CounterUpdate;
  BListeners : list ListenerCounterUpdate
}.

Inductive OutboxKind := outboxIssue | outboxTaskResult.

#[global] Instance OutboxKind_eq_dec : EqDecision OutboxKind.
Proof. solve_decision. Defined.

Record OutboxRow := MkOutboxRow {
  obID : Z;
  obKind : OutboxKind;
  obDedupe : string;
  obPayload : string;
  obCreatedAtMS : Z;
  obDelivered : bool
}.

#[global] Instance OutboxRow_eq_dec : EqDecision OutboxRow.
Proof. solve_decision. Defined.

Record CoreDeployment := MkCoreDeployment {
  CDEngine : string;
  CDVersion : string;
  CDConfigDigest : string;
  CDArtifact : string;
  CDConfigBody : string;
  CDRosterBody : string;
  CDAppliedAtMS : Z
}.

#[global] Instance CoreDeployment_eq_dec : EqDecision CoreDeployment.
Proof. solve_decision. Defined.

(** [rowid] orders equal closing times when the ledger is pruned. *)
Record ConnectionRow := MkConnectionRow {
  crRowID : Z;
  crClient : string;
  crListener : string;
  crSourceIP : string;
  crUp : Z;
  crDown : Z;
  crClosed : bool;
  crClosedAtMS : Z
}.

#[global] Instance ConnectionRow_eq_dec : EqDecision ConnectionRow.
Proof. solve_decision. Defined.

Inductive TaskState := TaskReceived | TaskRunning | TaskSucceeded | TaskFailed | TaskIndeterminate.

#[global] Instance TaskState_eq_dec : EqDecision TaskState.
Proof. solve_decision. Defined.

Definition Terminal (s : TaskState) : bool :=
  bool_decide (s = TaskSucceeded \/ s = TaskFailed \/ s = TaskIndeterminate).

Record TaskExecution := MkTaskExecution {
  XID : string;
  XKind : string;
  XArgs : string;
  XInputSHA256 : string;
  XNotAfterMS : Z;
  XClaimToken : string;
  XState : TaskState;
  XResult : string;
  XErrorCode : string;
  XError : string;
  XReceivedAtMS : Z;
  XStartedAtMS : Z;
  XFinishedAtMS : Z;
  XResultDelivered : bool
}.

#[global] Instance TaskExecution_eq_dec : EqDecision TaskExecution.
Proof. solve_decision. Defined.

Record TaskTimeBounds := MkTaskTimeBounds { LowerMS : Z; UpperMS : Z }.

(** [TaskTimeBounds.Validate() == nil]. *)
Definition ValidateBounds (b : TaskTimeBounds) : bool :=
  negb (bool_decide (LowerMS b ≤ 0 \/ UpperMS b ≤ 0 \/ UpperMS b < LowerMS b)).

(** ** CHECK constraints *)

Definition opt_nonneg (o : option Z) : Prop := match o with Some z => 0 ≤ z | None => True end.

#[global] Instance opt_nonneg_dec o : Decision (opt_nonneg o).
Proof. destruct o; simpl; apply _. Defined.

(** [client_runtime]. *)
Definition client_check (c : ClientRuntime) : bool :=
  bool_decide (
    0 ≤ UpBytes c /\ 0 ≤ DownBytes c /\ 0 ≤ UpdatedAtMS c /\ 0 ≤ PeriodEndsAtMS c /\
    opt_nonneg (BaselineBytes c) /\ opt_nonneg (HeadroomBytes c) /\ opt_nonneg (NextPeriodHeadroomBytes c) /\
    (Gate c = GateUnconfigured \/ (BaselineBytes c <> None /\ HeadroomBytes c <> None)) /\
    ((PeriodEndsAtMS c = 0 /\ NextPeriodHeadroomBytes c = None) \/
     (0 < PeriodEndsAtMS c /\ NextPeriodHeadroomBytes c <> None))).

(** [listener_runtime]. *)
Definition listener_check (l : ListenerRuntime) : bool :=
  bool_decide (0 ≤ LUpBytes l /\ 0 ≤ LDownBytes l /\ 0 ≤ LUpdatedAtMS l).

(** [task_executions] as schema v9 rebuilds it. *)
Definition task_check (t : TaskExecution) : bool :=
  bool_decide (
    String.length (XInputSHA256 t) = 64%nat /\ 0 ≤ XNotAfterMS t /\
    0 ≤ XReceivedAtMS t /\ 0 ≤ XStartedAtMS t /\ 0 ≤ XFinishedAtMS t /\
    ((XState t = TaskReceived /\ XStartedAtMS t = 0 /\ XFinishedAtMS t = 0 /\ XClaimToken t = "") \/
     (XState t = TaskRunning /\ 0 < XStartedAtMS t /\ XFinishedAtMS t = 0) \/
     (Terminal (XState t) = true /\ 0 < XFinishedAtMS t /\
      (0 < XStartedAtMS t \/
       (XState t = TaskFailed /\ XStartedAtMS t = 0 /\ 0 < XNotAfterMS t /\ XClaimToken t = "" /\
        XErrorCode t = TaskErrorExpiredBeforeStart)))) /\
    ((XState t = TaskSucceeded /\ XErrorCode t = "" /\ XError t = "") \/
     ((XState t = TaskFailed \/ XState t = TaskIndeterminate) /\ XResult t = "" /\
      XErrorCode t <> "" /\ XError t <> "") \/
     ((XState t = TaskReceived \/ XState t = TaskRunning) /\ XResult t = "" /\
      XErrorCode t = "" /\ XError t = ""))).

(** ** Tables *)

Record DB := MkDB {
  stream_documents : gmap string storedStream;
  object_status : gmap (string * string) (ObjectStatus * Z);
  client_runtime : gmap string ClientRuntime;
  listener_runtime : gmap string ListenerRuntime;
  report_outbox : list OutboxRow;
  outbox_seq : Z;
  reference_skew : gmap (string * string) (PVersion * Z);
  core_counter_epoch : option (string * Z);
  core_deployment : option CoreDeployment;
  core_traffic_stream : option (string * bool);
  core_connection_traffic : gmap (string * string) ConnectionRow;
  core_client_traffic : gmap (string * string) (Z * Z);
  core_listener_traffic : gmap (string * string) (Z * Z);
  task_executions : gmap string TaskExecution
}.

Definition empty_db : DB := {|
  stream_documents := ∅;
  object_status := ∅;
  client_runtime := ∅;
  listener_runtime := ∅;
  report_outbox := [];
  outbox_seq := 0;
  reference_skew := ∅;
  core_counter_epoch := None;
  core_deployment := None;
  core_traffic_stream := None;
  core_connection_traffic := ∅;
  core_client_traffic := ∅;
  core_listener_traffic := ∅;
  task_executions := ∅
|}.

Definition set_stream_documents (x : gmap string storedStream) (db : DB) : DB := {|
  stream_documents := x;
  object_status := object_status db;
  client_runtime := client_runtime db;
  listener_runtime := listener_runtime db;
  report_outbox := report_outbox db;
  outbox_seq := outbox_seq db;
  reference_skew := reference_skew db;
  core_counter_epoch := core_counter_epoch db;
  core_deployment := core_deployment db;
  core_traffic_stream := core_traffic_stream db;
  core_connection_traffic := core_connection_traffic db;
  core_client_traffic := core_client_traffic db;
  core_listener_traffic := core_listener_traffic db;
  task_executions := task_executions db
|}.

Definition set_object_status (x : gmap (string * string) (ObjectStatus * Z)) (db : DB) : DB := {|
  stream_documents := stream_documents db;
  object_status := x;
  client_runtime := client_runtime db;
  listener_runtime := listener_runtime db;
  report_outbox := report_outbox db;
  outbox_seq := outbox_seq db;
  reference_skew := reference_skew db;
  core_counter_epoch := core_counter_epoch db;
  core_deployment := core_deployment db;
  core_traffic_stream := core_traffic_stream db;
  core_connection_traffic := core_connection_traffic db;
  core_client_traffic := core_client_traffic db;
  core_listener_traffic := core_listener_traffic db;
  task_executions := task_executions db
|}.

Definition set_client_runtime (x : gmap string ClientRuntime) (db : DB) : DB := {|
  stream_documents := stream_documents db;
  object_status := object_status db;
  client_runtime := x;
  listener_runtime := listener_runtime db;
  report_outbox := report_outbox db;
  outbox_seq := outbox_seq db;
  reference_skew := reference_skew db;
  core_counter_epoch := core_counter_epoch db;
  core_deployment := core_deployment db;
  core_traffic_stream := core_traffic_stream db;
  core_connection_traffic := core_connection_traffic db;
  core_client_traffic := core_client_traffic db;
  core_listener_traffic := core_listener_traffic db;
  task_executions := task_executions db
|}.

Definition set_listener_runtime (x : gmap string ListenerRuntime) (db : DB) : DB := {|
  stream_documents := stream_documents db;
  object_status := object_status db;
  client_runtime := client_runtime db;
  listener_runtime := x;
  report_outbox := report_outbox db;
  outbox_seq := outbox_seq db;
  reference_skew := reference_skew db;
  core_counter_epoch := core_counter_epoch db;
  core_deployment := core_deployment db;
  core_traffic_stream := core_traffic_stream db;
  core_connection_traffic := core_connection_traffic db;
  core_client_traffic := core_client_traffic db;
  core_listener_traffic := core_listener_traffic db;
  task_executions := task_executions db
|}.

Definition set_report_outbox (x : list OutboxRow) (db : DB) : DB := {|
  stream_documents := stream_documents db;
  object_status := object_status db;
  client_runtime := client_runtime db;
  listener_runtime := listener_runtime db;
  report_outbox := x;
  outbox_seq := outbox_seq db;
  reference_skew := reference_skew db;
  core_counter_epoch := core_counter_epoch db;
  core_deployment := core_deployment db;
  core_traffic_stream := core_traffic_stream db;
  core_connection_traffic := core_connection_traffic db;
  core_client_traffic := core_client_traffic db;
  core_listener_traffic := core_listener_traffic db;
  task_executions := task_executions db
|}.

Definition set_outbox_seq (x : Z) (db : DB) : DB := {|
  stream_documents := stream_documents db;
  object_status := object_status db;
  client_runtime := client_runtime db;
  listener_runtime := listener_runtime db;
  report_outbox := report_outbox db;
  outbox_seq := x;
  reference_skew := reference_skew db;
  core_counter_epoch := core_counter_epoch db;
  core_deployment := core_deployment db;
  core_traffic_stream := core_traffic_stream db;
  core_connection_traffic := core_connection_traffic db;
  core_client_traffic := core_client_traffic db;
  core_listener_traffic := core_listener_traffic db;
  task_executions := task_executions db
|}.

Definition set_reference_skew (x : gmap (string * string) (PVersion * Z)) (db : DB) : DB := {|
  stream_documents := stream_documents db;
  object_status := object_status db;
  client_runtime := client_runtime db;
  listener_runtime := listener_runtime db;
  report_outbox := report_outbox db;
  outbox_seq := outbox_seq db;
  reference_skew := x;
  core_counter_epoch := core_counter_epoch db;
  core_deployment := core_deployment db;
  core_traffic_stream := core_traffic_stream db;
  core_connection_traffic := core_connection_traffic db;
  core_client_traffic := core_client_traffic db;
  core_listener_traffic := core_listener_traffic db;
  task_executions := task_executions db
|}.

Definition set_core_counter_epoch (x : option (string * Z)) (db : DB) : DB := {|
  stream_documents := stream_documents db;
  object_status := object_status db;
  client_runtime := client_runtime db;
  listener_runtime := listener_runtime db;
  report_outbox := report_outbox db;
  outbox_seq := outbox_seq db;
  reference_skew := reference_skew db;
  core_counter_epoch := x;
  core_deployment := core_deployment db;
  core_traffic_stream := core_traffic_stream db;
  core_connection_traffic := core_connection_traffic db;
  core_client_traffic := core_client_traffic db;
  core_listener_traffic := core_listener_traffic db;
  task_executions := task_executions db
|}.

Definition set_core_deployment (x : option CoreDeployment) (db : DB) : DB := {|
  stream_documents := stream_documents db;
  object_status := object_status db;
  client_runtime := client_runtime db;
  listener_runtime := listener_runtime db;
  report_outbox := report_outbox db;
  outbox_seq := outbox_seq db;
  reference_skew := reference_skew db;
  core_counter_epoch := core_counter_epoch db;
  core_deployment := x;
  core_traffic_stream := core_traffic_stream db;
  core_connection_traffic := core_connection_traffic db;
  core_client_traffic := core_client_traffic db;
  core_listener_traffic := core_listener_traffic db;
  task_executions := task_executions db
|}.

Definition set_core_traffic_stream (x : option (string * bool)) (db : DB) : DB := {|
  stream_documents := stream_documents db;
  object_status := object_status db;
  client_runtime := client_runtime db;
  listener_runtime := listener_runtime db;
  report_outbox := report_outbox db;
  outbox_seq := outbox_seq db;
  reference_skew := reference_skew db;
  core_counter_epoch := core_counter_epoch db;
  core_deployment := core_deployment db;
  core_traffic_stream := x;
  core_connection_traffic := core_connection_traffic db;
  core_client_traffic := core_client_traffic db;
  core_listener_traffic := core_listener_traffic db;
  task_executions := task_executions db
|}.

Definition set_core_connection_traffic (x : gmap (string * string) ConnectionRow) (db : DB) : DB := {|
  stream_documents := stream_documents db;
  object_status := object_status db;
  client_runtime := client_runtime db;
  listener_runtime := listener_runtime db;
  report_outbox := report_outbox db;
  outbox_seq := outbox_seq db;
  reference_skew := reference_skew db;
  core_counter_epoch := core_counter_epoch db;
  core_deployment := core_deployment db;
  core_traffic_stream := core_traffic_stream db;
  core_connection_traffic := x;
  core_client_traffic := core_client_traffic db;
  core_listener_traffic := core_listener_traffic db;
  task_executions := task_executions db
|}.

Definition set_core_client_traffic (x : gmap (string * string) (Z * Z)) (db : DB) : DB := {|
  stream_documents := stream_documents db;
  object_status := object_status db;
  client_runtime := client_runtime db;
  listener_runtime := listener_runtime db;
  report_outbox := report_outbox db;
  outbox_seq := outbox_seq db;
  reference_skew := reference_skew db;
  core_counter_epoch := core_counter_epoch db;
  core_deployment := core_deployment db;
  core_traffic_stream := core_traffic_stream db;
  core_connection_traffic := core_connection_traffic db;
  core_client_traffic := x;
  core_listener_traffic := core_listener_traffic db;
  task_executions := task_executions db
|}.

Definition set_core_listener_traffic (x : gmap (string * string) (Z * Z)) (db : DB) : DB := {|
  stream_documents := stream_documents db;
  object_status := object_status db;
  client_runtime := client_runtime db;
  listener_runtime := listener_runtime db;
  report_outbox := report_outbox db;
  outbox_seq := outbox_seq db;
  reference_skew := reference_skew db;
  core_counter_epoch := core_counter_epoch db;
  core_deployment := core_deployment db;
  core_traffic_stream := core_traffic_stream db;
  core_connection_traffic := core_connection_traffic db;
  core_client_traffic := core_client_traffic db;
  core_listener_traffic := x;
  task_executions := task_executions db
|}.

Definition set_task_executions (x : gmap string TaskExecution) (db : DB) : DB := {|
  stream_documents := stream_documents db;
  object_status := object_status db;
  client_runtime := client_runtime db;
  listener_runtime := listener_runtime db;
  report_outbox := report_outbox db;
  outbox_seq := outbox_seq db;
  reference_skew := reference_skew db;
  core_counter_epoch := core_counter_epoch db;
  core_deployment := core_deployment db;
  core_traffic_stream := core_traffic_stream db;
  core_connection_traffic := core_connection_traffic db;
  core_client_traffic := core_client_traffic db;
  core_listener_traffic := core_listener_traffic db;
  task_executions := x
|}.


(** ** Writes checked against the constraints *)

Definition put_client (key : string) (c : ClientRuntime) (db : DB) : res error DB :=
  if client_check c then Ok (set_client_runtime (<[key := c]> (client_runtime db)) db) else Err ErrConstraint.

Definition put_listener (key : string) (l : ListenerRuntime) (db : DB) : res error DB :=
  if listener_check l then Ok (set_listener_runtime (<[key := l]> (listener_runtime db)) db) else Err ErrConstraint.

Definition put_task (t : TaskExecution) (db : DB) : res error DB :=
  if task_check t then Ok (set_task_executions (<[XID t := t]> (task_executions db)) db) else Err ErrConstraint.

(** [ORDER BY] a text key: SQLite's BINARY collation compares bytes. *)
Definition sorted_keys {A} (m : gmap string A) : list string := merge_sort String.le (map_to_list m).*1.

(** ** Lemmas on ordered scans *)

Lemma sorted_keys_elem {A} (m : gmap string A) k : k ∈ sorted_keys m <-> is_Some (m !! k).
Proof.
  unfold sorted_keys. rewrite merge_sort_Permutation, list_elem_of_fmap. split.
  - intros ([k' x] & -> & Hx). apply elem_of_map_to_list in Hx. eauto.
  - intros [x Hx]. exists (k, x). split; [done|]. by apply elem_of_map_to_list.
Qed.

Lemma sorted_keys_NoDup {A} (m : gmap string A) : NoDup (sorted_keys m).
Proof. unfold sorted_keys. rewrite merge_sort_Permutation. apply NoDup_fst_map_to_list. Qed.

Lemma sorted_keys_sorted {A} (m : gmap string A) : StronglySorted String.le (sorted_keys m).
Proof. apply StronglySorted_merge_sort; apply _. Qed.
