(* ===== verification/Codec.v ===== *)
(** * Fixed-width unsigned integers on disk ([internal/state/sqlite/version.go])

    SQLite integers are signed, so the store writes epochs and versions as
    eight-byte big-endian blobs.  The codec is a bijection between uint64 and
    the blobs of length 8 (the length every such column is CHECKed to have), which is
    why the rows of [Store] carry the decoded number. *)
From S2P Require Import Prelude Protocol Store.

(** [binary.BigEndian.PutUint64] into a fresh 8-byte slice. *)
Definition encodeUint64 (value : Z) : list Z :=
  (fun i => Z.land (Z.shiftr value (8 * i)) 255) <$> [7; 6; 5; 4; 3; 2; 1; 0].

Definition decodeUint64 (value : list Z) : res error Z :=
  if decide (length value <> 8%nat) then Err (Errorf "uint64 state value has length, want 8") else
  Ok (fold_left (fun acc b => Z.lor (Z.shiftl acc 8) b) value 0).

Definition decodeVersion (epoch version : list Z) : res error PVersion :=
  e ← decodeUint64 epoch;
  v ← decodeUint64 version;
  Ok (MkPVersion e v).

(** ** Lemmas *)

Lemma lor_byte a b : 0 ≤ b < 256 -> Z.lor (Z.shiftl a 8) b = a * 256 + b.
Proof.
  intros Hb. rewrite <-Z.add_lor_land.
  - rewrite Z.shiftl_mul_pow2 by lia. change (2 ^ 8) with 256.
    assert (Z.land (a * 256) b = 0) as ->; [|lia].
    apply Z.bits_inj'. intros i Hi. rewrite Z.land_spec, Z.bits_0.
    change 256 with (2 ^ 8). rewrite <-Z.shiftl_mul_pow2 by lia.
    destruct (decide (i < 8)).
    + by rewrite Z.shiftl_spec_low by lia.
    + rewrite (Z.bits_above_log2 b i), andb_false_r; [done|lia|].
      destruct (decide (b = 0)) as [->|]; [simpl; lia|].
      assert (Z.log2 b < 8); [|lia]. apply Z.log2_lt_pow2; lia.
Qed.

Lemma land_byte x : Z.land x 255 = x mod 256.
Proof. change 255 with (Z.ones 8). rewrite Z.land_ones by lia. done. Qed.

Definition is_byte (b : Z) : Prop := 0 ≤ b < 256.

Lemma encode_bytes v : Forall is_byte (encodeUint64 v) /\ length (encodeUint64 v) = 8%nat.
Proof.
  split; [|done]. apply Forall_fmap, Forall_forall. intros i _. simpl.
  unfold is_byte. rewrite land_byte. apply Z.mod_pos_bound. lia.
Qed.

Lemma decode_encode_uint64 v : in_uint64 v -> decodeUint64 (encodeUint64 v) = Ok v.
Proof.
  unfold in_uint64, max_uint64. intros Hv. unfold decodeUint64. simpl. f_equal.
  rewrite !lor_byte by (rewrite land_byte; apply Z.mod_pos_bound; lia).
  rewrite !land_byte, !Z.shiftr_div_pow2 by lia.
  change (2 ^ (8 * 7)) with 72057594037927936. change (2 ^ (8 * 6)) with 281474976710656.
  change (2 ^ (8 * 5)) with 1099511627776. change (2 ^ (8 * 4)) with 4294967296.
  change (2 ^ (8 * 3)) with 16777216. change (2 ^ (8 * 2)) with 65536.
  change (2 ^ (8 * 1)) with 256. change (2 ^ (8 * 0)) with 1.
  Z.div_mod_to_equations. lia.
Qed.

Lemma horner_byte acc b k k' :
  is_byte b -> k' = k + 8 -> 0 ≤ k -> (acc * 256 + b) / 2 ^ k' = acc / 2 ^ k.
Proof.
  unfold is_byte. intros Hb -> Hk. replace (2 ^ (k + 8)) with (256 * 2 ^ k)
    by (rewrite Z.pow_add_r by lia; lia).
  rewrite <-Z.div_div by lia. f_equal. rewrite Z.div_add_l, Z.div_small by lia. lia.
Qed.

Lemma horner_last acc b : is_byte b -> Z.land (acc * 256 + b) 255 = b.
Proof. unfold is_byte. intros Hb. rewrite land_byte, Z.add_comm, Z.mod_add, Z.mod_small; lia. Qed.

Lemma encode_decode_uint64 bs v :
  Forall is_byte bs -> decodeUint64 bs = Ok v -> in_uint64 v /\ encodeUint64 v = bs.
Proof.
  unfold decodeUint64. intros Hb. case_decide as Hl; [done|].
  destruct bs as [|b7 [|b6 [|b5 [|b4 [|b3 [|b2 [|b1 [|b0 [|]]]]]]]]]; simplify_eq/=.
  rewrite !Forall_cons in Hb. destruct Hb as (H7 & H6 & H5 & H4 & H3 & H2 & H1 & H0 & _).
  intros [= <-]. rewrite !lor_byte by assumption.
  split; [unfold in_uint64, max_uint64, is_byte in *; lia|].
  unfold encodeUint64. simpl. rewrite !Z.shiftr_div_pow2 by lia.
  change (8 * 7) with 56. change (8 * 6) with 48. change (8 * 5) with 40. change (8 * 4) with 32.
  change (8 * 3) with 24. change (8 * 2) with 16. change (8 * 1) with 8. change (8 * 0) with 0.
  rewrite !(horner_byte _ _ 48 56), !(horner_byte _ _ 40 48), !(horner_byte _ _ 32 40),
    !(horner_byte _ _ 24 32), !(horner_byte _ _ 16 24), !(horner_byte _ _ 8 16),
    !(horner_byte _ _ 0 8) by (assumption || lia).
  rewrite Z.pow_0_r, !Z.div_1_r. rewrite !horner_last by assumption.
  done.
Qed.

(** ** Theorem *)

(** The on-disk encoding of epochs and versions is a bijection between
    uint64 and eight-byte blobs: decoding inverts encoding over the whole unsigned
    range, every blob of eight bytes is the encoding of its value, and a blob of
    any other length is refused. *)
Theorem uint64_codec_bijection :
  (forall v, in_uint64 v -> length (encodeUint64 v) = 8%nat /\ decodeUint64 (encodeUint64 v) = Ok v) /\
  (forall bs, Forall is_byte bs -> length bs = 8%nat ->
     exists v, decodeUint64 bs = Ok v /\ in_uint64 v /\ encodeUint64 v = bs) /\
  (forall bs, length bs <> 8%nat -> is_Ok (decodeUint64 bs) = false).
Proof.
  split_and!.
  - intros v Hv. split; [done|by apply decode_encode_uint64].
  - intros bs Hb Hl. destruct (decodeUint64 bs) as [v|] eqn:Hd.
    + exists v. split; [done|]. by apply encode_decode_uint64.
    + unfold decodeUint64 in Hd. by case_decide.
  - intros bs Hl. unfold decodeUint64. by case_decide.
Qed.
