(* ===== verification/Streams.v ===== *)
(** * Received documents ([internal/state/sqlite/streams.go])

    The three desired-state streams: one durable row each, holding the document
    last accepted, the version presented on the next poll and the highest epoch
    ever observed. *)
From S2P Require Import Prelude GoStrings Sha256 GoJson Protocol Store.

Section streams.
Context `{Protocol}.

(** ** Operations *)

Definition validateStream (stream : string) : res error unit :=
  if decide (stream = StreamConfig \/ stream = StreamRoster \/ stream = StreamDirectives)
  then Ok tt else Err (Errorf "unknown stream").

Definition validateStreamDocument (doc : StreamDocument) : res error unit :=
  if negb (is_Ok (validateStream (DStream doc))) then Err ErrInvalidState else
  if negb (Committed (DVersion doc)) then Err ErrInvalidState else
  if decide (AcceptedAtMS doc < 0) then Err ErrInvalidState else
  if decide (DBody doc = "" \/ json_Valid (DBody doc) = false) then Err ErrInvalidState else
  if decide (DETag doc <> sha256_hex (DBody doc)) then Err ErrInvalidState else
  Ok tt.

Definition readStream (db : DB) (stream : string) : res error storedStream :=
  match stream_documents db !! stream with
  | None => Err ErrNotFound
  | Some record => Ok record
  end.

(** [Store.Stream]. *)
Definition Stream (db : DB) (stream : string) : res error StreamDocument :=
  _ ← validateStream stream;
  record ← readStream db stream;
  Ok (document record).

Definition SaveStream (db : DB) (doc : StreamDocument) : res error DB :=
  _ ← validateStreamDocument doc;
  let save := set_stream_documents
    (<[DStream doc := MkStoredStream doc (Epoch (DVersion doc))]> (stream_documents db)) db in
  match readStream db (DStream doc) with
  | Ok current =>
      if decide (Epoch (DVersion doc) < epochFloor current) then Err ErrStaleVersion else
      if decide (DVersion (document current) = DVersion doc) then
        if decide (DETag (document current) <> DETag doc \/ DBody (document current) <> DBody doc)
        then Err ErrVersionConflict else Ok db
      else if negb (VZero (DVersion (document current))) &&
              negb (Newer (DVersion doc) (DVersion (document current)))
      then Err ErrStaleVersion
      else Ok save
  | Err ErrNotFound => Ok save
  | Err e => Err e
  end.

Definition ClearStreamForHigherEpoch (db : DB) (stream : string) (observedEpoch : Z) : res error DB :=
  _ ← validateStream stream;
  match readStream db stream with
  | Err ErrNotFound => Ok db
  | Err e => Err e
  | Ok current =>
      if decide (observedEpoch ≤ epochFloor current)
      then Err (Errorf "observed epoch is not higher than epoch floor") else
      let d := document current in
      Ok (set_stream_documents
        (<[stream := MkStoredStream
             (MkStreamDocument (DStream d) (MkPVersion 0 0) "" (DBody d) (AcceptedAtMS d))
             observedEpoch]> (stream_documents db)) db)
  end.

(** ** Invariant and history *)

(** A row holds a document filed under its own name whose body is valid JSON;
    it either presents the committed version and digest of that body, with the
    floor at its epoch, or presents nothing and waits for a higher epoch. *)
Definition stream_row_ok (stream : string) (r : storedStream) : Prop :=
  let d := document r in
  DStream d = stream /\ is_Ok (validateStream stream) = true /\
  DBody d <> "" /\ json_Valid (DBody d) = true /\ 0 ≤ AcceptedAtMS d /\
  ((Committed (DVersion d) = true /\ DETag d = sha256_hex (DBody d) /\ epochFloor r = Epoch (DVersion d)) \/
   (DVersion d = MkPVersion 0 0 /\ DETag d = "")).

Definition streams_ok (db : DB) : Prop := map_Forall stream_row_ok (stream_documents db).

(** Any call of the two writers that succeeds. *)
Inductive stream_step : DB -> DB -> Prop :=
| step_save db doc db' : SaveStream db doc = Ok db' -> stream_step db db'
| step_clear db stream epoch db' :
    ClearStreamForHigherEpoch db stream epoch = Ok db' -> stream_step db db'.

(** [v'] may follow [v] as an applied version. *)
Definition version_follows (v v' : PVersion) : Prop :=
  Epoch v < Epoch v' \/ (Epoch v = Epoch v' /\ (v = v' \/ Newer v' v = true)).

(** What one row may become: the floor only rises, and a presented version is
    only replaced by one that follows it. *)
Definition row_progress (r r' : storedStream) : Prop :=
  epochFloor r ≤ epochFloor r' /\
  (VZero (DVersion (document r)) = false ->
   (version_follows (DVersion (document r)) (DVersion (document r'))) \/
   (VZero (DVersion (document r')) = true /\ Epoch (DVersion (document r)) < epochFloor r')).

Definition db_progress (db db' : DB) : Prop :=
  forall s r, stream_documents db !! s = Some r ->
  exists r', stream_documents db' !! s = Some r' /\ row_progress r r'.

(** ** Lemmas *)

Lemma validateStreamDocument_ok doc :
  validateStreamDocument doc = Ok tt ->
  is_Ok (validateStream (DStream doc)) = true /\ Committed (DVersion doc) = true /\ 0 ≤ AcceptedAtMS doc /\
  DBody doc <> "" /\ json_Valid (DBody doc) = true /\ DETag doc = sha256_hex (DBody doc).
Proof.
  unfold validateStreamDocument. intros Hv.
  destruct (is_Ok _); simpl in Hv; [|done]. destruct (Committed _); simpl in Hv; [|done].
  case_decide; [done|]. case_decide as Hb; [done|]. case_decide as He; [done|].
  split_and!; try done; [lia|tauto|].
  destruct (json_Valid _); [done|tauto].
Qed.

(** The two ways a save succeeds. *)
Lemma SaveStream_Ok db doc db' :
  SaveStream db doc = Ok db' ->
  validateStreamDocument doc = Ok tt /\
  ((exists r, stream_documents db !! DStream doc = Some r /\ db' = db /\
      epochFloor r ≤ Epoch (DVersion doc) /\
      DVersion (document r) = DVersion doc /\ DETag (document r) = DETag doc /\ DBody (document r) = DBody doc) \/
   (db' = set_stream_documents
      (<[DStream doc := MkStoredStream doc (Epoch (DVersion doc))]> (stream_documents db)) db /\
    forall r, stream_documents db !! DStream doc = Some r ->
      epochFloor r ≤ Epoch (DVersion doc) /\
      (VZero (DVersion (document r)) = true \/ Newer (DVersion doc) (DVersion (document r)) = true))).
Proof.
  unfold SaveStream, readStream. destruct (validateStreamDocument doc) as [[]|]; simpl; [|done].
  intros Hs. split; [done|]. destruct (stream_documents db !! DStream doc) as [r|] eqn:Hr; simpl in Hs.
  - case_decide; [done|]. case_decide as Hv.
    + case_decide as Hd; [done|]. simplify_eq. left. exists r. split_and!; try done; [lia|..].
      * destruct (decide (DETag (document r) = DETag doc)); tauto.
      * destruct (decide (DBody (document r) = DBody doc)); tauto.
    + right. destruct (VZero _) eqn:Hz; simpl in Hs.
      * simplify_eq. split; [done|]. intros r' [= <-]. split; [lia|by left].
      * destruct (Newer _ _) eqn:Hn; simpl in Hs; [|done]. simplify_eq.
        split; [done|]. intros r' [= <-]. split; [lia|by right].
  - simplify_eq. right. split; [done|]. naive_solver.
Qed.

Lemma ClearStream_Ok db stream epoch db' :
  ClearStreamForHigherEpoch db stream epoch = Ok db' ->
  is_Ok (validateStream stream) = true /\
  ((stream_documents db !! stream = None /\ db' = db) \/
   exists r, stream_documents db !! stream = Some r /\ epochFloor r < epoch /\
     db' = set_stream_documents (<[stream := MkStoredStream
       (MkStreamDocument (DStream (document r)) (MkPVersion 0 0) "" (DBody (document r)) (AcceptedAtMS (document r)))
       epoch]> (stream_documents db)) db).
Proof.
  unfold ClearStreamForHigherEpoch, readStream. destruct (validateStream stream); simpl; [|done].
  intros Hs. split; [done|]. destruct (stream_documents db !! stream) as [r|] eqn:Hr; simpl in Hs.
  - case_decide; [done|]. simplify_eq. right. exists r. split_and!; [done|lia|done].
  - simplify_eq. by left.
Qed.

Lemma saved_row_ok doc :
  validateStreamDocument doc = Ok tt -> stream_row_ok (DStream doc) (MkStoredStream doc (Epoch (DVersion doc))).
Proof.
  intros (?&?&?&?&?&?)%validateStreamDocument_ok. unfold stream_row_ok. cbn [document epochFloor]. split_and!; auto.
Qed.

Lemma stream_step_ok db db' : streams_ok db -> stream_step db db' -> streams_ok db'.
Proof.
  intros Hdb Hst. destruct Hst as [db doc db' Hs|db s e db' Hs].
  - apply SaveStream_Ok in Hs as (Hv & [(r & _ & -> & _)|[-> _]]); [done|].
    apply map_Forall_insert_2; [by apply saved_row_ok|done].
  - apply ClearStream_Ok in Hs as (Hv & [(_ & ->)|(r & Hr & _ & ->)]); [done|].
    apply map_Forall_insert_2; [|done]. apply Hdb in Hr as (?&?&?&?&?&_).
    unfold stream_row_ok. cbn. split_and!; auto.
Qed.

Lemma row_progress_refl r : row_progress r r.
Proof. split; [done|]. intros _. left. right. by split; [|left]. Qed.

Lemma db_progress_refl db : db_progress db db.
Proof. intros s r Hr. exists r. split; [done|apply row_progress_refl]. Qed.

Lemma version_follows_trans `{!ProtocolLaws} u v w :
  version_follows u v -> version_follows v w -> version_follows u w.
Proof.
  unfold version_follows. intros [?|[? [->|?]]] [?|[? [->|?]]]; try (left; lia); try (right; split; [lia|]); auto.
  right. eapply Newer_trans; eauto.
Qed.

(** One step on one row, under the invariant. *)
Lemma stream_step_progress `{!ProtocolLaws} db db' :
  streams_ok db -> stream_step db db' -> db_progress db db'.
Proof.
  intros Hdb Hstep s r Hr. pose proof (Hdb _ _ Hr) as (_ & _ & _ & _ & _ & Hor).
  destruct Hstep as [? doc ? Hs|? s' e ? Hs].
  - apply SaveStream_Ok in Hs as (Hv & [(r' & _ & -> & _)|[-> Hnew]]); [by eapply db_progress_refl|].
    simpl. destruct (decide (s = DStream doc)) as [->|Hne].
    2: { rewrite lookup_insert_ne by done. exists r. split; [done|apply row_progress_refl]. }
    rewrite lookup_insert_eq. eexists. split; [done|]. destruct (Hnew r Hr) as [Hfl Hn].
    split; [done|]. simpl. intros Hz. left.
    destruct Hor as [(_ & _ & Hf)|[Hv0 _]]; [|rewrite (proj2 (VZero_spec _) Hv0) in Hz; done].
    rewrite Hz in Hn. destruct Hn as [?|Hn]; [done|].
    destruct (decide (Epoch (DVersion (document r)) = Epoch (DVersion doc))); [right; tauto|left; lia].
  - apply ClearStream_Ok in Hs as (Hv & [(_ & ->)|(r' & Hr' & He & ->)]); [by eapply db_progress_refl|].
    simpl. destruct (decide (s = s')) as [->|Hne].
    2: { rewrite lookup_insert_ne by done. exists r. split; [done|apply row_progress_refl]. }
    simplify_eq. rewrite lookup_insert_eq. eexists. split; [done|]. split; simpl; [lia|].
    intros Hz. right. split; [by apply VZero_spec|].
    destruct Hor as [(_ & _ & Hf)|[Hv0 _]]; [lia|].
    rewrite (proj2 (VZero_spec _) Hv0) in Hz. done.
Qed.

(** Progress composes along histories of valid rows. *)
Lemma row_progress_trans `{!ProtocolLaws} s a b c :
  stream_row_ok s a -> stream_row_ok s b -> stream_row_ok s c ->
  row_progress a b -> row_progress b c -> row_progress a c.
Proof.
  intros (_ & _ & _ & _ & _ & Ha) (_ & _ & _ & _ & _ & Hb) (_ & _ & _ & _ & _ & Hc) [Hf1 Hp1] [Hf2 Hp2].
  split; [lia|]. intros Hz.
  assert (0 < Epoch (DVersion (document a))) as Hpos.
  { destruct Ha as [(?%Committed_spec & _)|[Hv _]]; [tauto|]. by rewrite (proj2 (VZero_spec _) Hv) in Hz. }
  destruct (VZero (DVersion (document b))) eqn:Hzb.
  - assert (Epoch (DVersion (document a)) < epochFloor b) as Hlt.
    { destruct (Hp1 Hz) as [Hfol|[_ ?]]; [|done]. apply VZero_spec in Hzb. rewrite Hzb in Hfol.
      unfold version_follows in Hfol. simpl in Hfol. lia. }
    destruct Hc as [(_ & _ & Hfc)|[Hv _]].
    + left. left. lia.
    + right. split; [by apply VZero_spec|lia].
  - destruct (Hp1 Hz) as [Hfol|[? _]]; [|congruence].
    destruct (Hp2 eq_refl) as [Hfol'|[Hzc Hlt]].
    + left. by eapply version_follows_trans.
    + right. split; [done|]. unfold version_follows in Hfol. lia.
Qed.

Lemma stream_reachable_ok db : rtc stream_step empty_db db -> streams_ok db.
Proof.
  intros Hr. assert (streams_ok empty_db) as H0 by apply map_Forall_empty.
  revert H0. induction Hr as [|a b c Hab _ IH]; [done|]. intros Ha. apply IH. by eapply stream_step_ok.
Qed.

Lemma db_progress_trans `{!ProtocolLaws} a b c :
  streams_ok a -> streams_ok b -> streams_ok c -> db_progress a b -> db_progress b c -> db_progress a c.
Proof.
  intros Ha Hb Hc Hab Hbc s r Hr. destruct (Hab _ _ Hr) as (r1 & Hr1 & Hp1).
  destruct (Hbc _ _ Hr1) as (r2 & Hr2 & Hp2). exists r2. split; [done|].
  eapply (row_progress_trans s _ r1); eauto.
Qed.

(** What the table answers for a document that was just saved. *)
Lemma SaveStream_readback db doc db' :
  streams_ok db -> SaveStream db doc = Ok db' ->
  exists r, stream_documents db' !! DStream doc = Some r /\ epochFloor r = Epoch (DVersion doc) /\
    DVersion (document r) = DVersion doc /\ DETag (document r) = DETag doc /\ DBody (document r) = DBody doc.
Proof.
  intros Hok (Hv & [(r & Hr & -> & Hf & Hver & ? & ?)|[-> _]])%SaveStream_Ok.
  - exists r. split_and!; try done.
    apply Hok in Hr as (_ & _ & _ & _ & _ & Hor). destruct Hor as [(_ & _ & Hfl)|[_ He]]; [by rewrite Hfl, Hver|].
    apply validateStreamDocument_ok in Hv as (_ & _ & _ & _ & _ & Hd).
    assert (String.length (sha256_hex (DBody doc)) = 64%nat) as Hl by apply sha256_hex_length.
    rewrite <-Hd in Hl. replace (DETag doc) with "" in Hl by congruence. done.
  - simpl. rewrite lookup_insert_eq. eexists. by split_and!.
Qed.

Lemma Newer_asym `{!ProtocolLaws} v w : Newer v w = true -> Newer w v = false.
Proof.
  intros Hvw. destruct (Newer w v) eqn:Hwv; [|done].
  pose proof (Newer_trans v w v Hvw Hwv) as Hc. by rewrite Newer_irrefl in Hc.
Qed.

(** ** Properties *)

(** C36. Every stream row the two writers can reach from an empty database
    is well formed (valid JSON body, digest and floor matching the version it
    presents, or nothing presented), and along any further history the epoch
    floor of a stream never falls and a presented version is replaced only by a
    newer one or, when a higher epoch was observed, withdrawn: no sequence of
    saves and clears takes a stream back to an older document. *)
Theorem stream_history_never_regresses `{!ProtocolLaws} db db' :
  rtc stream_step empty_db db -> rtc stream_step db db' -> streams_ok db' /\ db_progress db db'.
Proof.
  intros Hdb%stream_reachable_ok Hstep. induction Hstep as [a|a b c Hab _ IH]; [split; [done|apply db_progress_refl]|].
  assert (streams_ok b) as Hb by (by eapply stream_step_ok).
  destruct (IH Hb) as [Hc Hbc]. split; [done|].
  apply (db_progress_trans a b c); auto using stream_step_progress.
Qed.

(** A save that succeeds is what the next read returns and touches no
    other stream; repeating it changes nothing; a different body under the same
    version is refused as a conflict, and any older document is refused as
    stale. *)
Theorem SaveStream_contract `{!ProtocolLaws} db doc db' :
  rtc stream_step empty_db db -> SaveStream db doc = Ok db' ->
  (exists got, Stream db' (DStream doc) = Ok got /\ DVersion got = DVersion doc /\
     DETag got = DETag doc /\ DBody got = DBody doc) /\
  (forall s, s <> DStream doc -> stream_documents db' !! s = stream_documents db !! s) /\
  SaveStream db' doc = Ok db' /\
  forall doc', validateStreamDocument doc' = Ok tt -> DStream doc' = DStream doc ->
    (DVersion doc' = DVersion doc -> DBody doc' <> DBody doc -> SaveStream db' doc' = Err ErrVersionConflict) /\
    (Newer (DVersion doc) (DVersion doc') = true -> SaveStream db' doc' = Err ErrStaleVersion).
Proof.
  intros Hdb%stream_reachable_ok Hs. destruct (SaveStream_readback _ _ _ Hdb Hs) as (r & Hr & Hf & Hver & Het & Hb).
  pose proof (SaveStream_Ok _ _ _ Hs) as [Hv Hcase].
  pose proof (validateStreamDocument_ok _ Hv) as (Hst & Hcom & _).
  split_and!.
  - exists (document r). unfold Stream, readStream. rewrite Hr.
    destruct (validateStream (DStream doc)); [by split_and!|done].
  - intros s Hne. destruct Hcase as [(? & _ & -> & _)|[-> _]]; [done|]. simpl. by rewrite lookup_insert_ne.
  - unfold SaveStream, readStream. rewrite Hv, Hr. cbn [mbind res_bind].
    rewrite decide_False by lia. rewrite decide_True by done. rewrite decide_False by tauto. done.
  - intros doc' Hv' Hst'. unfold SaveStream, readStream. rewrite Hv', Hst', Hr. cbn [mbind res_bind]. split.
    + intros Hveq Hbne. rewrite decide_False by (rewrite Hveq; lia). rewrite decide_True by congruence.
      rewrite decide_True by (right; congruence). done.
    + intros Hn. case_decide; [done|]. rewrite decide_False.
      2: { intros Heq. rewrite <-Heq, Hver, Newer_irrefl in Hn. done. }
      rewrite Hver, (committed_not_zero _ Hcom), (Newer_asym _ _ Hn). done.
Qed.

End streams.

(** ** Concrete histories *)
Module streams_example.
Import sample.

Definition doc1 : StreamDocument := MkStreamDocument StreamConfig (MkPVersion 1 1) (sha256_hex "{}") "{}" 5.
Definition doc2 : StreamDocument := MkStreamDocument StreamConfig (MkPVersion 1 2) (sha256_hex "[]") "[]" 6.

Definition unwrap (r : res error DB) : DB := match r with Ok db => db | Err _ => empty_db end.

Definition db1 : DB := unwrap (SaveStream empty_db doc1).
Definition db2 : DB := unwrap (SaveStream db1 doc2).
Definition db3 : DB := unwrap (ClearStreamForHigherEpoch db2 StreamConfig 4).

Lemma reach1 : rtc stream_step empty_db db1.
Proof. apply rtc_once. apply (step_save _ doc1). vm_compute. reflexivity. Qed.

Lemma reach3 : rtc stream_step db1 db3.
Proof.
  apply (rtc_l _ _ db2); [apply (step_save _ doc2); vm_compute; reflexivity|].
  apply rtc_once. apply (step_clear _ StreamConfig 4). vm_compute. reflexivity.
Qed.

Lemma stream_history_witness : streams_ok db3 /\ db_progress db1 db3.
Proof. apply (stream_history_never_regresses db1 db3 reach1 reach3). Defined.

Lemma SaveStream_contract_witness :
  SaveStream db1 doc2 = Ok db2 /\ SaveStream db2 doc2 = Ok db2 /\ SaveStream db2 doc1 = Err ErrStaleVersion.
Proof.
  assert (SaveStream db1 doc2 = Ok db2) as Hs by (vm_compute; reflexivity).
  destruct (SaveStream_contract db1 doc2 db2 reach1 Hs) as (_ & _ & Hsame & Hold).
  split_and!; [exact Hs|exact Hsame|].
  apply (Hold doc1); vm_compute; reflexivity.
Defined.

End streams_example.
