(* ===== verification/Objects.v ===== *)
(** * Object convergence rows ([internal/state/sqlite/objects.go])

    One row per listener or client that the node could not simply apply.  The
    validation of the five loosely coupled columns is shown to accept exactly
    the encodings of a four-case type. *)
From S2P Require Import Prelude GoStrings Protocol Store Streams.

(** [ORDER BY stream, object_key]. *)
Definition row_le (a b : string * string) : Prop :=
  String.le a.1 b.1 /\ (a.1 = b.1 -> String.le a.2 b.2).

#[global] Instance row_le_dec a b : Decision (row_le a b).
Proof. unfold row_le. apply _. Defined.

Definition sorted_rows {A} (m : gmap (string * string) A) : list (string * string) :=
  merge_sort row_le (map_to_list m).*1.

#[global] Instance row_le_total : Total row_le.
Proof.
  intros [a1 a2] [b1 b2]. unfold row_le. simpl.
  destruct (decide (a1 = b1)) as [->|Hne].
  - destruct (total String.le a2 b2); [left|right]; split; try done; reflexivity.
  - destruct (total String.le a1 b1); [left|right]; split; try done; congruence.
Qed.

#[global] Instance row_le_trans : Transitive row_le.
Proof.
  intros [a1 a2] [b1 b2] [c1 c2] [H1 H2] [H3 H4]. simpl in *. split; simpl; [by etrans|].
  intros ->. assert (b1 = c1) as -> by (by apply (anti_symm String.le)). etrans; [by apply H2|by apply H4].
Qed.

Lemma sorted_rows_elem {A} (m : gmap (string * string) A) k : k ∈ sorted_rows m <-> is_Some (m !! k).
Proof.
  unfold sorted_rows. rewrite merge_sort_Permutation, list_elem_of_fmap. split.
  - intros ([k' x] & -> & Hx). apply elem_of_map_to_list in Hx. eauto.
  - intros [x Hx]. exists (k, x). split; [done|]. by apply elem_of_map_to_list.
Qed.

Lemma sorted_rows_NoDup {A} (m : gmap (string * string) A) : NoDup (sorted_rows m).
Proof. unfold sorted_rows. rewrite merge_sort_Permutation. apply NoDup_fst_map_to_list. Qed.

Lemma sorted_rows_sorted {A} (m : gmap (string * string) A) : StronglySorted row_le (sorted_rows m).
Proof. apply StronglySorted_merge_sort; apply _. Qed.

Section objects.
Context `{Protocol}.

(** ** Operations *)

Definition validateObject (status : ObjectStatus) (updatedAtMS : Z) : res error unit :=
  _ ← validateStream (OStream status);
  _ ← (if decide (OStream status = StreamConfig) then
         match ListenerRowID (OKey status) with Some _ => Ok tt | None => Err (Errorf "listener key") end
       else if decide (OStream status = StreamRoster) then
         match ClientRowID (OKey status) with Some _ => Ok tt | None => Err (Errorf "client key") end
       else Err (Errorf "stream cannot contain object convergence rows"));
  if negb (Committed (SinceVersion status)) then Err (Errorf "invalid since_version") else
  if decide (FirstFailedAtMS status < 0 \/ updatedAtMS < 0)
  then Err (Errorf "object timestamps must be non-negative") else
  if negb (utf8_ValidString (IssueCode status)) || bool_decide (MaxIssueCodeBytes < len (IssueCode status))
  then Err (Errorf "object issue code is invalid or too long") else
  _ ← (if decide (BlockedOn status <> "") then
         if negb (utf8_ValidString (BlockedOn status)) || bool_decide (MaxIssueKeyBytes < len (BlockedOn status))
         then Err (Errorf "object blocked_on is invalid or too long") else
         match ListenerRowID (BlockedOn status) with Some _ => Ok tt | None => Err (Errorf "object blocked_on") end
       else Ok tt);
  if decide (OState status = ObjectApplied) then
    if decide (FirstFailedAtMS status <> 0 \/ IssueCode status <> "" \/ BlockedOn status <> "")
    then Err (Errorf "applied object cannot retain failure metadata") else Ok tt
  else if decide (OState status = ObjectPending) then
    if decide (FirstFailedAtMS status = 0 \/ IssueCode status <> "" \/ BlockedOn status <> "")
    then Err (Errorf "pending object requires a start time and no terminal metadata") else Ok tt
  else if decide (OState status = ObjectRejected) then
    if decide (FirstFailedAtMS status = 0 \/ IssueCode status = "" \/ BlockedOn status <> "")
    then Err (Errorf "rejected object requires a start time and issue code") else Ok tt
  else if decide (OState status = ObjectBlocked) then
    if decide (FirstFailedAtMS status = 0 \/ IssueCode status <> "" \/ BlockedOn status = "")
    then Err (Errorf "blocked object requires a start time and blocked_on") else Ok tt
  else Err (Errorf "object has invalid state").

(** [Store.Object]. *)
Definition Object (db : DB) (stream key : string) : res error ObjectStatus :=
  _ ← validateStream stream;
  match object_status db !! (stream, key) with
  | Some (status, _) => Ok status
  | None => Err ErrNotFound
  end.

Definition Objects (db : DB) : list ObjectStatus :=
  omap (fun k => fst <$> object_status db !! k) (sorted_rows (object_status db)).

Definition SaveObject (db : DB) (status : ObjectStatus) (updatedAtMS : Z) : res error DB :=
  _ ← validateObject status updatedAtMS;
  Ok (set_object_status (<[(OStream status, OKey status) := (status, updatedAtMS)]> (object_status db)) db).

Definition DeleteObject (db : DB) (stream key : string) : res error DB :=
  _ ← validateStream stream;
  if decide (key = "") then Err (Errorf "object key is required") else
  Ok (set_object_status (delete (stream, key) (object_status db)) db).

(** ** The four cases a row stands for *)

Inductive Convergence :=
| CApplied
| CPending (since : Z)
| CRejected (since : Z) (code : string)
| CBlocked (since : Z) (listener : string).

Definition encodeConvergence (stream key : string) (v : PVersion) (c : Convergence) : ObjectStatus :=
  match c with
  | CApplied => MkObjectStatus stream key ObjectApplied v 0 "" ""
  | CPending t => MkObjectStatus stream key ObjectPending v t "" ""
  | CRejected t code => MkObjectStatus stream key ObjectRejected v t code ""
  | CBlocked t l => MkObjectStatus stream key ObjectBlocked v t "" l
  end.

Definition convergence_ok (c : Convergence) : Prop :=
  match c with
  | CApplied => True
  | CPending t => 0 < t
  | CRejected t code => 0 < t /\ code <> "" /\ utf8_ValidString code = true /\ len code ≤ MaxIssueCodeBytes
  | CBlocked t l => 0 < t /\ l <> "" /\ utf8_ValidString l = true /\ len l ≤ MaxIssueKeyBytes /\
                    is_Some (ListenerRowID l)
  end.

(** The rows a stream may hold: listeners in the config, clients in the roster. *)
Definition object_key_ok (stream key : string) : Prop :=
  (stream = StreamConfig /\ is_Some (ListenerRowID key)) \/
  (stream = StreamRoster /\ is_Some (ClientRowID key)).

(** ** Properties *)

Lemma validateObject_sound status at_ms :
  validateObject status at_ms = Ok tt ->
  object_key_ok (OStream status) (OKey status) /\ Committed (SinceVersion status) = true /\ 0 ≤ at_ms /\
  exists c, convergence_ok c /\
    status = encodeConvergence (OStream status) (OKey status) (SinceVersion status) c.
Proof.
  destruct status as [stream key st v t code dep]. unfold validateObject.
  cbn [OStream OKey OState SinceVersion FirstFailedAtMS IssueCode BlockedOn].
  intros (_ & (Hk & Hv)%bind_Ok_unit)%bind_Ok_unit. split.
  { clear Hv. unfold object_key_ok. case_decide; [left|case_decide; [right|done]].
    - destruct (ListenerRowID key); by eauto.
    - destruct (ClientRowID key); by eauto. }
  clear Hk. destruct (Committed v); simpl in Hv; [|done]. split; [done|].
  destruct (decide (t < 0 \/ at_ms < 0)) as [|Ht]; [done|]. split; [lia|].
  destruct (utf8_ValidString code) eqn:Hu; simpl in Hv; [|done].
  destruct (bool_decide (MaxIssueCodeBytes < len code)) eqn:Hl; [done|]. apply bool_decide_eq_false in Hl.
  apply bind_Ok_unit in Hv as [Hd Hv].
  assert (dep = "" \/ (dep <> "" /\ utf8_ValidString dep = true /\ len dep ≤ MaxIssueKeyBytes /\
    is_Some (ListenerRowID dep))) as Hdep.
  { clear Hv. case_decide as Hne; [|left; done]. right.
    destruct (utf8_ValidString dep); simpl in Hd; [|done]. case_bool_decide; [done|].
    destruct (ListenerRowID dep); [|done]. split_and!; eauto. lia. }
  clear Hd.
  repeat (case_decide; [case_decide; [done|]; subst|]); [..|done].
  - exists CApplied. simpl. split; [done|]. f_equal; apply dec_stable; tauto.
  - exists (CPending t). simpl. split; [lia|]. f_equal; apply dec_stable; tauto.
  - exists (CRejected t code). simpl. split; [split_and!; [lia|tauto|done|lia]|]. f_equal; apply dec_stable; tauto.
  - exists (CBlocked t dep). simpl. destruct Hdep as [?|(?&?&?&?)]; [tauto|].
    split; [split_and!; try done; lia|]. f_equal; apply dec_stable; tauto.
Qed.

Lemma validateObject_complete `{!ProtocolLaws} stream key v c at_ms :
  object_key_ok stream key -> Committed v = true -> 0 ≤ at_ms -> convergence_ok c ->
  validateObject (encodeConvergence stream key v c) at_ms = Ok tt.
Proof.
  intros Hk Hv Ht Hc. destruct limits_pos as (Hl1 & Hl2 & _).
  unfold validateObject.
  replace (OStream (encodeConvergence stream key v c)) with stream by (by destruct c).
  replace (OKey (encodeConvergence stream key v c)) with key by (by destruct c).
  replace (SinceVersion (encodeConvergence stream key v c)) with v by (by destruct c).
  rewrite Hv. apply bind_Ok_unit. split; [by destruct Hk as [[-> _]|[-> _]]|].
  apply bind_Ok_unit. split; [by destruct Hk as [[-> [i Hi]]|[-> [i Hi]]]; simpl; rewrite Hi|].
  destruct c as [|t|t code|t l]; simpl in *.
  - rewrite decide_False by lia. by rewrite bool_decide_eq_false_2 by (unfold len; simpl; lia).
  - rewrite decide_False by lia. rewrite bool_decide_eq_false_2 by (unfold len; simpl; lia).
    simpl. by rewrite decide_False by (intros [?|[?|?]]; [lia|done..]).
  - destruct Hc as (? & ? & -> & ?). rewrite decide_False by lia. rewrite bool_decide_eq_false_2 by lia.
    simpl. by rewrite decide_False by (intros [?|[?|?]]; [lia|done..]).
  - destruct Hc as (? & ? & Hu & ? & [i Hi]). rewrite decide_False by lia.
    rewrite bool_decide_eq_false_2 by (unfold len; simpl; lia). simpl.
    rewrite (decide_True (P := l <> "")) by done. rewrite Hu, bool_decide_eq_false_2, Hi by lia.
    simpl. by rewrite decide_False by (intros [?|[?|?]]; [lia|done..]).
Qed.

(** The row validation accepts exactly the encodings of the four
    convergence cases (applied; pending since a time; rejected with a reason;
    blocked on a listener), under a listener key in the config stream or a
    client key in the roster stream, at a committed version.  So an accepted
    save is read back as one of them, appears in the listing and changes no
    other row, and deletion removes that row and no other. *)
Theorem object_rows_refine_convergence `{!ProtocolLaws} db status at_ms :
  (is_Ok (validateObject status at_ms) = true <->
     object_key_ok (OStream status) (OKey status) /\ Committed (SinceVersion status) = true /\ 0 ≤ at_ms /\
     exists c, convergence_ok c /\
       status = encodeConvergence (OStream status) (OKey status) (SinceVersion status) c) /\
  (forall db', SaveObject db status at_ms = Ok db' ->
     Object db' (OStream status) (OKey status) = Ok status /\ status ∈ Objects db' /\
     (forall k, k <> (OStream status, OKey status) -> object_status db' !! k = object_status db !! k) /\
     forall db'', DeleteObject db' (OStream status) (OKey status) = Ok db'' ->
       Object db'' (OStream status) (OKey status) = Err ErrNotFound /\
       forall k, k <> (OStream status, OKey status) -> object_status db'' !! k = object_status db !! k).
Proof.
  split.
  - split.
    + intros Hok. destruct (validateObject status at_ms) as [[]|] eqn:Hv; [|done]. by apply validateObject_sound.
    + intros (Hk & Hc & Ht & c & Hcok & ->). rewrite validateObject_complete; try done; by destruct c.
  - unfold SaveObject. intros db' (Hv & [= <-])%bind_Ok_unit.
    assert (validateStream (OStream status) = Ok tt) as Hst.
    { unfold validateObject in Hv. by apply bind_Ok_unit in Hv as [? _]. }
    unfold Object, Objects, DeleteObject. rewrite Hst. simpl. rewrite lookup_insert_eq. split_and!.
    + done.
    + apply list_elem_of_omap. exists (OStream status, OKey status).
      rewrite sorted_rows_elem, lookup_insert_eq. simpl. by eauto.
    + intros k Hk. by rewrite lookup_insert_ne.
    + intros db''. case_decide; [done|]. intros [= <-]. simpl. rewrite lookup_delete_eq. split; [done|].
      intros k Hk. by rewrite lookup_delete_ne, lookup_insert_ne.
Qed.

End objects.

Module objects_example.
Import sample.

Definition blocked : ObjectStatus :=
  MkObjectStatus StreamRoster "cli_7" ObjectBlocked (MkPVersion 1 2) 9 "" "lst_3".

Lemma object_rows_witness :
  SaveObject empty_db blocked 10 = Ok (set_object_status {[("roster", "cli_7") := (blocked, 10)]} empty_db) /\
  Object (set_object_status {[("roster", "cli_7") := (blocked, 10)]} empty_db) "roster" "cli_7" = Ok blocked.
Proof.
  assert (SaveObject empty_db blocked 10 = Ok (set_object_status {[("roster", "cli_7") := (blocked, 10)]} empty_db)) as Hs
    by (vm_compute; reflexivity).
  split; [exact Hs|]. exact (proj1 (proj2 (object_rows_refine_convergence empty_db blocked 10) _ Hs)).
Defined.

End objects_example.
