(* ===== verification/NetIP.v ===== *)
(** * IP addresses ([net/netip] as the node uses it)

    The node canonicalises every online address with
    [netip.ParseAddr(value).Unmap().String()].  This file is that part of the
    standard library: the IPv4 and IPv6 readers, the unmapping of IPv4-in-IPv6
    addresses and the printer with its zero-run compression. *)
From S2P Require Import Prelude GoStrings Sha256.

(** An IPv4 address is four octets; an IPv6 address is eight 16-bit groups and a
    zone. *)
Inductive Addr :=
| Addr4 (octets : list Z)
| Addr6 (groups : list Z) (zone : string).

#[global] Instance Addr_eq_dec : EqDecision Addr.
Proof. solve_decision. Defined.

(** ** Reading *)

Definition dec_digit (a : ascii) : option Z :=
  if byte_in 48 57 a then Some (Z.of_nat (nat_of_ascii a) - 48) else None.

Definition hex_value (a : ascii) : option Z :=
  let n := Z.of_nat (nat_of_ascii a) in
  if byte_in 48 57 a then Some (n - 48) else
  if byte_in 97 102 a then Some (n - 87) else
  if byte_in 65 70 a then Some (n - 55) else None.

(** [parseIPv4Fields]: the octets read so far, newest first. *)
Fixpoint parseIPv4Fields (s : string) (val digLen : Z) (acc : list Z) : option (list Z) :=
  match s with
  | EmptyString => if decide (length acc = 3%nat) then Some (rev (val :: acc)) else None
  | String a s' =>
      match dec_digit a with
      | Some d =>
          if decide (digLen = 1 /\ val = 0) then None else
          let val' := val * 10 + d in
          if decide (255 < val') then None else parseIPv4Fields s' val' (digLen + 1) acc
      | None =>
          if decide (a = "."%char) then
            if decide (digLen = 0 \/ s' = "") then None else
            if decide (length acc = 3%nat) then None else parseIPv4Fields s' 0 0 (val :: acc)
          else None
      end
  end.

Definition parseIPv4 (s : string) : option (list Z) := parseIPv4Fields s 0 0 [].

(** The inner loop of [parseIPv6]: one group of at most four hex digits, with the
    number of digits read. *)
Fixpoint hex_group (s : string) (off : Z) (acc : Z) : option (Z * Z * string) :=
  match s with
  | EmptyString => Some (acc, off, s)
  | String a s' =>
      match hex_value a with
      | Some d => if decide (3 < off) then None else hex_group s' (off + 1) (acc * 16 + d)
      | None => Some (acc, off, s)
      end
  end.

(** The outer loop: [n] groups still fit, [acc] holds the groups read, newest
    first, [ell] the position of the ellipsis. *)
Fixpoint parse6_groups (n : nat) (s : string) (acc : list Z) (ell : option nat) : option (list Z * option nat) :=
  match n with
  | O => if decide (s = "") then Some (acc, ell) else None
  | S n' =>
      match hex_group s 0 0 with
      | None => None
      | Some (v, off, rest) =>
          if decide (off = 0) then None else
          if HasPrefix rest "." then
            if decide (ell = None /\ length acc <> 6%nat) then None else
            if decide (n = 1%nat) then None else
            match parseIPv4 s with
            | Some [a; b; c; d] => Some (c * 256 + d :: a * 256 + b :: acc, ell)
            | _ => None
            end
          else
          match rest with
          | EmptyString => Some (v :: acc, ell)
          | String c rest1 =>
              if decide (c <> ":"%char \/ rest1 = "") then None else
              match CutPrefix rest1 ":" with
              | Some rest2 =>
                  if decide (ell <> None) then None else
                  if decide (rest2 = "") then Some (v :: acc, Some (S (length acc)))
                  else parse6_groups n' rest2 (v :: acc) (Some (S (length acc)))
              | None => parse6_groups n' rest1 (v :: acc) ell
              end
          end
      end
  end.

Definition parseIPv6 (s : string) : option Addr :=
  let '(body, zone, found) := Cut "%" s in
  if decide (found = true /\ zone = "") then None else
  match (match CutPrefix body "::" with
         | Some rest => if decide (rest = "") then Some ([], Some O) else parse6_groups 8 rest [] (Some O)
         | None => parse6_groups 8 body [] None
         end) with
  | None => None
  | Some (acc, ell) =>
      let groups := rev acc in
      if decide (length groups < 8)%nat then
        match ell with
        | None => None
        | Some e => Some (Addr6 (firstn e groups ++ repeat 0 (8 - length groups)%nat ++ skipn e groups) zone)
        end
      else if decide (ell = None) then Some (Addr6 groups zone) else None
  end.

(** [netip.ParseAddr]: the first separator picks the reader. *)
Fixpoint first_separator (s : string) : option ascii :=
  match s with
  | EmptyString => None
  | String a s' =>
      if decide (a = "."%char \/ a = ":"%char \/ a = "%"%char) then Some a else first_separator s'
  end.

Definition ParseAddr (s : string) : option Addr :=
  match first_separator s with
  | Some a =>
      if decide (a = "."%char) then Addr4 <$> parseIPv4 s else
      if decide (a = ":"%char) then parseIPv6 s else None
  | None => None
  end.

(** ** Unmapping and printing *)

Definition Unmap (a : Addr) : Addr :=
  match a with
  | Addr6 [0; 0; 0; 0; 0; 65535; h; l] _ => Addr4 [h / 256; h mod 256; l / 256; l mod 256]
  | _ => a
  end.

Definition join (sep : string) (l : list string) : string :=
  match l with
  | [] => ""
  | x :: l' => foldl (fun acc y => acc +:+ sep +:+ y) x l'
  end.

Definition hex16 (v : Z) : string :=
  let d k := String (hex_digit (Z.land (Z.shiftr v k) 15)) "" in
  (if decide (4096 ≤ v) then d 12 else "") +:+ (if decide (256 ≤ v) then d 8 else "") +:+
  (if decide (16 ≤ v) then d 4 else "") +:+ d 0.

Fixpoint zero_run (l : list Z) : nat :=
  match l with 0 :: l' => S (zero_run l') | _ => O end.

(** The first longest run of at least two zero groups, as (start, end). *)
Definition longest_zero_run (l : list Z) : option (nat * nat) :=
  foldl (fun best i =>
    let n := zero_run (skipn i l) in
    if decide (2 ≤ n /\ match best with Some (s, e) => e - s | None => 0 end < n)%nat
    then Some (i, i + n)%nat else best) None (seq 0 (length l)).

Definition string4 (octets : list Z) : string := join "." (FormatInt <$> octets).

Definition string6 (groups : list Z) (zone : string) : string :=
  (match longest_zero_run groups with
   | Some (s, e) => join ":" (hex16 <$> firstn s groups) +:+ "::" +:+ join ":" (hex16 <$> skipn e groups)
   | None => join ":" (hex16 <$> groups)
   end) +:+ (if decide (zone = "") then "" else "%" +:+ zone).

Definition AddrString (a : Addr) : string :=
  match a, Unmap a with
  | Addr4 octets, _ => string4 octets
  | Addr6 _ zone, Addr4 octets => "::ffff:" +:+ string4 octets +:+ (if decide (zone = "") then "" else "%" +:+ zone)
  | Addr6 groups zone, Addr6 _ _ => string6 groups zone
  end.

(** [addr.Unmap().String()] of a parsed value. *)
Definition canonicalIP (value : string) : option string := AddrString ∘ Unmap <$> ParseAddr value.

(** ** On examples *)

Example canonicalIP_v4 : canonicalIP "192.0.2.10" = Some "192.0.2.10".
Proof. vm_compute. reflexivity. Qed.

Example canonicalIP_mapped : canonicalIP "::ffff:192.0.2.10" = Some "192.0.2.10".
Proof. vm_compute. reflexivity. Qed.

Example canonicalIP_v6 : canonicalIP "2001:DB8:0:0:1:0:0:1" = Some "2001:db8::1:0:0:1".
Proof. vm_compute. reflexivity. Qed.

Example canonicalIP_loopback : canonicalIP "0:0:0:0:0:0:0:1" = Some "::1".
Proof. vm_compute. reflexivity. Qed.

Example canonicalIP_zone : canonicalIP "fe80::1%eth0" = Some "fe80::1%eth0".
Proof. vm_compute. reflexivity. Qed.

Example canonicalIP_bad : canonicalIP <$> ["1.2.3"; "01.2.3.4"; "1::2::3"; "::1%"; "12345::"; "1:2:3:4:5:6:7:8::"] =
  [None; None; None; None; None; None].
Proof. vm_compute. reflexivity. Qed.
