(* ===== verification/Clients.v ===== *)
(** * Client ledger ([internal/state/sqlite/clients.go])

    One row per client: its cumulative traffic, the quota grant in force and the
    gate derived from the two. *)
From S2P Require Import Prelude GoStrings Sha256 GoJson NetIP Protocol Store.

(** ** The quota gate *)

Definition deriveGate (up down : Z) (baseline headroom : option Z) : res error GateState :=
  match baseline, headroom with
  | Some baseline, Some headroom =>
      match checked_add up down with
      | None => Err (Errorf "cumulative counter overflows int64")
      | Some current =>
          match checked_add baseline headroom with
          | None => Err (Errorf "quota ceiling overflows int64")
          | Some ceiling =>
              if decide (current < baseline) then Ok GateUnconfigured else
              if decide (ceiling ≤ current) then Ok GateClosed else
              Ok GateArmed
          end
      end
  | _, _ => Ok GateUnconfigured
  end.

Arguments deriveGate : simpl never.

(** ** Online addresses *)

Fixpoint normalizeIPs_loop (values : list string) (seen : gset string) (out : list string) : res error (list string) :=
  match values with
  | [] => Ok out
  | value :: values' =>
      match canonicalIP value with
      | None => Err (Errorf "invalid address")
      | Some canonical =>
          if decide (canonical ∈ seen) then normalizeIPs_loop values' seen out
          else normalizeIPs_loop values' ({[canonical]} ∪ seen) (out ++ [canonical])
      end
  end.

Definition normalizeIPs (values : list string) : res error (list string) :=
  out ← normalizeIPs_loop values ∅ [];
  Ok (merge_sort String.le out).

(** ** Rows *)

(** The row an [INSERT] with the schema's defaults creates. *)
Definition freshClient (subject : string) (atMS : Z) : ClientRuntime := {|
  Subject := subject; Present := false; UpBytes := 0; DownBytes := 0; CounterEpoch := 0; LiveIPs := [];
  Gate := GateUnconfigured; BaselineBytes := None; HeadroomBytes := None; PeriodEndsAtMS := 0;
  NextPeriodHeadroomBytes := None; QuotaFingerprint := ""; UpdatedAtMS := atMS
|}.

Definition EnsureClient (db : DB) (identity : ClientIdentity) (atMS : Z) : res error DB :=
  if decide (CKey identity = "" \/ CSubject identity = "") then Err (Errorf "client and subject keys are required") else
  if decide (atMS < 0) then Err (Errorf "client timestamp must be non-negative") else
  match client_runtime db !! CKey identity with
  | None => put_client (CKey identity) (freshClient (CSubject identity) atMS) db
  | Some c =>
      if decide (Subject c <> CSubject identity) then Err (Errorf "client already belongs to another subject")
      else Ok db
  end.

(** [Store.Client] and the reads inside the transactions. *)
Definition Client (db : DB) (key : string) : res error ClientRuntime :=
  match client_runtime db !! key with
  | Some c => Ok c
  | None => Err ErrNotFound
  end.

Definition Clients (db : DB) : list (string * ClientRuntime) :=
  omap (fun k => pair k <$> client_runtime db !! k) (sorted_keys (client_runtime db)).

Definition DeleteClient (db : DB) (key : string) : res error DB :=
  if decide (key = "") then Err (Errorf "client key is required") else
  Ok (set_client_runtime (delete key (client_runtime db))
       (set_object_status (delete (StreamRoster, key) (object_status db)) db)).

(** ** The [SET] lists of the three updates *)

Definition setCounters (c : ClientRuntime) (update : CounterUpdate) (gate : GateState) (ips : list string)
    (atMS : Z) : ClientRuntime := {|
  Subject := Subject c; Present := UPresent update;
  UpBytes := UUpBytes update; DownBytes := UDownBytes update; CounterEpoch := UCounterEpoch update;
  LiveIPs := ips; Gate := gate;
  BaselineBytes := BaselineBytes c; HeadroomBytes := HeadroomBytes c;
  PeriodEndsAtMS := PeriodEndsAtMS c; NextPeriodHeadroomBytes := NextPeriodHeadroomBytes c;
  QuotaFingerprint := QuotaFingerprint c; UpdatedAtMS := atMS
|}.

Definition setQuota (c : ClientRuntime) (gate : GateState) (baseline headroom : option Z) (periodEnds : Z)
    (next : option Z) (fingerprint : string) (atMS : Z) : ClientRuntime := {|
  Subject := Subject c; Present := Present c;
  UpBytes := UpBytes c; DownBytes := DownBytes c; CounterEpoch := CounterEpoch c;
  LiveIPs := LiveIPs c; Gate := gate;
  BaselineBytes := baseline; HeadroomBytes := headroom;
  PeriodEndsAtMS := periodEnds; NextPeriodHeadroomBytes := next;
  QuotaFingerprint := fingerprint; UpdatedAtMS := atMS
|}.

(** ** Counters *)

Definition applyClientCounter (db : DB) (update : CounterUpdate) (atMS : Z) : res error (bool * DB) :=
  if decide (UKey update = "" \/ UUpBytes update < 0 \/ UDownBytes update < 0 \/ atMS < 0)
  then Err (Errorf "counter update has invalid key, bytes, or timestamp") else
  current ← Client db (UKey update);
  if decide (UCounterEpoch update < CounterEpoch current \/
             (UCounterEpoch update = CounterEpoch current /\
              (UUpBytes update < UpBytes current \/ UDownBytes update < DownBytes current)))
  then Err ErrCounterRollback else
  gate ← deriveGate (UUpBytes update) (UDownBytes update) (BaselineBytes current) (HeadroomBytes current);
  liveIPs ← normalizeIPs (ULiveIPs update);
  db' ← put_client (UKey update) (setCounters current update gate (json_string <$> liveIPs) atMS) db;
  Ok (negb (bool_decide (gate = Gate current)), db').

Definition UpdateCounters (db : DB) (update : CounterUpdate) (atMS : Z) : res error DB :=
  '(_, db') ← applyClientCounter db update atMS;
  Ok db'.

(** ** Quota grants *)

(** [json.Marshal(grant)]: fields in declaration order. *)
Definition marshalGrant (g : QuotaGrant) : string :=
  json_encode_object [("BaselineBytes", FormatInt (GBaselineBytes g));
               ("HeadroomBytes", json_int_ptr (GHeadroomBytes g));
               ("PeriodEndsAtMS", FormatInt (GPeriodEndsAtMS g));
               ("NextPeriodHeadroomBytes", json_int_ptr (GNextPeriodHeadroomBytes g))].

Definition quotaFingerprint (grant : QuotaGrant) : string := sha256_hex (marshalGrant grant).

Definition pointerIfConfigured (value : Z) (configured : option Z) : option Z :=
  match configured with None => None | Some _ => Some value end.

Definition ApplyQuota (db : DB) (key : string) (grant : QuotaGrant) (atMS : Z) : res error DB :=
  if decide (key = "" \/ GBaselineBytes grant < 0 \/ atMS < 0)
  then Err (Errorf "quota grant has invalid key, baseline, or timestamp") else
  if decide (~ opt_nonneg (GHeadroomBytes grant)) then Err (Errorf "quota headroom must be non-negative") else
  if xorb (bool_decide (GPeriodEndsAtMS grant = 0)) (bool_decide (GNextPeriodHeadroomBytes grant = None))
  then Err (Errorf "next-period deadline and headroom must be present together") else
  if decide (GPeriodEndsAtMS grant < 0 \/ ~ opt_nonneg (GNextPeriodHeadroomBytes grant))
  then Err (Errorf "next-period grant must be non-negative") else
  current ← Client db key;
  let fingerprint := quotaFingerprint grant in
  if decide (QuotaFingerprint current = fingerprint) then Ok db else
  let baseline := pointerIfConfigured (GBaselineBytes grant) (GHeadroomBytes grant) in
  gate ← deriveGate (UpBytes current) (DownBytes current) baseline (GHeadroomBytes grant);
  put_client key (setQuota current gate baseline (GHeadroomBytes grant) (GPeriodEndsAtMS grant)
    (GNextPeriodHeadroomBytes grant) fingerprint atMS) db.

Section scheduled.
Context `{Protocol}.

Definition applyScheduledQuotaTx (db : DB) (key : string) (now : Z) : res error (bool * DB) :=
  current ← Client db key;
  if negb (RefreshDue (PeriodEndsAtMS current) (NextPeriodHeadroomBytes current) now) then Ok (false, db) else
  match checked_add (UpBytes current) (DownBytes current) with
  | None => Err (Errorf "cumulative counter overflows int64")
  | Some baseline =>
      match NextPeriodHeadroomBytes current with
      | None => Err ErrNilPointer
      | Some headroom =>
          gate ← deriveGate (UpBytes current) (DownBytes current) (Some baseline) (Some headroom);
          db' ← put_client key (setQuota current gate (Some baseline) (Some headroom) 0 None
                                  (QuotaFingerprint current) now) db;
          Ok (true, db')
      end
  end.

Definition ApplyScheduledQuota (db : DB) (key : string) (now : Z) : res error (bool * DB) :=
  applyScheduledQuotaTx db key now.

(** The candidate scan's [WHERE]. *)
Definition due_candidate (now : Z) (c : ClientRuntime) : Prop :=
  0 < PeriodEndsAtMS c /\ NextPeriodHeadroomBytes c <> None /\ PeriodEndsAtMS c ≤ now.

Definition dueKeys (db : DB) (now : Z) : list string :=
  filter (fun k => match client_runtime db !! k with
                   | Some c => bool_decide (due_candidate now c)
                   | None => false
                   end = true) (sorted_keys (client_runtime db)).

(** One turn of the batch's loop. *)
Definition refreshStep (now : Z) (s : Z * DB) (key : string) : res error (Z * DB) :=
  let '(applied, d) := s in
  '(changed, d') ← applyScheduledQuotaTx d key now;
  Ok ((if changed : bool then applied + 1 else applied), d').

Definition ApplyScheduledQuotas (db : DB) (now : Z) : res error (Z * DB) :=
  res_foldl (refreshStep now) (0, db) (dueKeys db now).

(** ** Invariant and histories *)

Definition opt_int64 (o : option Z) : Prop := match o with Some z => in_int64 z | None => True end.

(** A stored row satisfies the table's constraints and holds the gate derived
    from its own counters and grant. *)
Definition client_ok (c : ClientRuntime) : Prop :=
  client_check c = true /\ in_int64 (UpBytes c) /\ in_int64 (DownBytes c) /\
  opt_int64 (BaselineBytes c) /\ opt_int64 (HeadroomBytes c) /\ opt_int64 (NextPeriodHeadroomBytes c) /\
  deriveGate (UpBytes c) (DownBytes c) (BaselineBytes c) (HeadroomBytes c) = Ok (Gate c).

Definition clients_ok (db : DB) : Prop := map_Forall (fun _ => client_ok) (client_runtime db).

(** The arguments are int64 values. *)
Definition update_typed (u : CounterUpdate) : Prop := in_int64 (UUpBytes u) /\ in_int64 (UDownBytes u).

Definition grant_typed (g : QuotaGrant) : Prop :=
  in_int64 (GBaselineBytes g) /\ opt_int64 (GHeadroomBytes g) /\ opt_int64 (GNextPeriodHeadroomBytes g).

(** One successful call, labelled by the client it may remove or re-grant. *)
Inductive client_op :=
| OpEnsure (identity : ClientIdentity) (atMS : Z)
| OpCounters (update : CounterUpdate) (atMS : Z)
| OpQuota (key : string) (grant : QuotaGrant) (atMS : Z)
| OpScheduled (key : string) (now : Z)
| OpScheduledAll (now : Z)
| OpDelete (key : string).

Definition run_op (db : DB) (op : client_op) : res error DB :=
  match op with
  | OpEnsure identity atMS => EnsureClient db identity atMS
  | OpCounters update atMS => UpdateCounters db update atMS
  | OpQuota key grant atMS => ApplyQuota db key grant atMS
  | OpScheduled key now => snd <$> ApplyScheduledQuota db key now
  | OpScheduledAll now => snd <$> ApplyScheduledQuotas db now
  | OpDelete key => DeleteClient db key
  end.

Definition op_typed (op : client_op) : Prop :=
  match op with
  | OpCounters update _ => update_typed update
  | OpQuota _ grant _ => grant_typed grant
  | _ => True
  end.

(** A history runs calls in order; one that fails leaves the state alone. *)
Definition run_ops (db : DB) (ops : list client_op) : DB :=
  foldl (fun d op => match run_op d op with Ok d' => d' | Err _ => d end) db ops.

(** (counter epoch, up, down) only moves forward: a new epoch, or the same one
    with neither direction smaller. *)
Definition counters_forward (c c' : ClientRuntime) : Prop :=
  CounterEpoch c < CounterEpoch c' \/
  (CounterEpoch c = CounterEpoch c' /\ UpBytes c ≤ UpBytes c' /\ DownBytes c ≤ DownBytes c').

(** What one call may do to the row of client [k]. *)
Inductive key_step (k : string) (op : client_op) : option ClientRuntime -> option ClientRuntime -> Prop :=
| ks_fresh subject atMS : k <> "" -> 0 ≤ atMS -> key_step k op None (Some (freshClient subject atMS))
| ks_counters c u gate ips atMS :
    update_typed u -> counters_forward c (setCounters c u gate ips atMS) ->
    deriveGate (UUpBytes u) (UDownBytes u) (BaselineBytes c) (HeadroomBytes c) = Ok gate ->
    client_check (setCounters c u gate ips atMS) = true ->
    key_step k op (Some c) (Some (setCounters c u gate ips atMS))
| ks_quota c g gate atMS c' :
    op = OpQuota k g atMS -> grant_typed g ->
    let baseline := pointerIfConfigured (GBaselineBytes g) (GHeadroomBytes g) in
    deriveGate (UpBytes c) (DownBytes c) baseline (GHeadroomBytes g) = Ok gate ->
    c' = setQuota c gate baseline (GHeadroomBytes g) (GPeriodEndsAtMS g) (GNextPeriodHeadroomBytes g)
           (quotaFingerprint g) atMS ->
    client_check c' = true ->
    key_step k op (Some c) (Some c')
| ks_scheduled c baseline headroom gate now c' :
    checked_add (UpBytes c) (DownBytes c) = Some baseline -> NextPeriodHeadroomBytes c = Some headroom ->
    deriveGate (UpBytes c) (DownBytes c) (Some baseline) (Some headroom) = Ok gate ->
    c' = setQuota c gate (Some baseline) (Some headroom) 0 None (QuotaFingerprint c) now ->
    client_check c' = true ->
    key_step k op (Some c) (Some c')
| ks_delete o : op = OpDelete k -> key_step k op o None.

(** ** Lemmas on the operations *)

Lemma put_client_Ok key c db db' :
  put_client key c db = Ok db' <->
  client_check c = true /\ db' = set_client_runtime (<[key := c]> (client_runtime db)) db.
Proof. unfold put_client. destruct (client_check c); naive_solver. Qed.

Lemma Client_Ok db key c : Client db key = Ok c <-> client_runtime db !! key = Some c.
Proof. unfold Client. destruct (client_runtime db !! key); naive_solver. Qed.

(** A call that replaces one row changes that row and no other. *)
Lemma key_step_insert key op k c' db :
  key_step key op (client_runtime db !! key) (Some c') ->
  rtc (key_step k op) (client_runtime db !! k)
    (client_runtime (set_client_runtime (<[key := c']> (client_runtime db)) db) !! k).
Proof.
  intros Hs. simpl. destruct (decide (k = key)) as [->|Hne].
  - rewrite lookup_insert_eq. by apply rtc_once.
  - rewrite lookup_insert_ne by done. apply rtc_refl.
Qed.

Lemma EnsureClient_Ok db identity atMS db' :
  EnsureClient db identity atMS = Ok db' ->
  CKey identity <> "" /\ 0 ≤ atMS /\
  ((client_runtime db !! CKey identity = None /\
    db' = set_client_runtime (<[CKey identity := freshClient (CSubject identity) atMS]> (client_runtime db)) db) \/
   (exists c, client_runtime db !! CKey identity = Some c /\ Subject c = CSubject identity /\ db' = db)).
Proof.
  unfold EnsureClient. case_decide; [done|]. case_decide; [done|]. intros He. split; [tauto|]. split; [lia|].
  destruct (client_runtime db !! CKey identity) as [c|] eqn:Hc.
  - case_decide; [done|]. simplify_eq. right. eauto.
  - apply put_client_Ok in He as [_ ->]. by left.
Qed.

Lemma applyClientCounter_Ok db u atMS changed db' :
  applyClientCounter db u atMS = Ok (changed, db') ->
  exists c gate ips,
    client_runtime db !! UKey u = Some c /\ normalizeIPs (ULiveIPs u) = Ok ips /\
    deriveGate (UUpBytes u) (UDownBytes u) (BaselineBytes c) (HeadroomBytes c) = Ok gate /\
    counters_forward c (setCounters c u gate (json_string <$> ips) atMS) /\
    client_check (setCounters c u gate (json_string <$> ips) atMS) = true /\
    changed = negb (bool_decide (gate = Gate c)) /\
    db' = set_client_runtime (<[UKey u := setCounters c u gate (json_string <$> ips) atMS]> (client_runtime db)) db.
Proof.
  unfold applyClientCounter. case_decide; [done|].
  intros (c & Hc%Client_Ok & Hu)%bind_Ok. case_decide as Hroll; [done|].
  apply bind_Ok in Hu as (gate & Hg & Hu). apply bind_Ok in Hu as (ips & Hips & Hu).
  apply bind_Ok in Hu as (d & [Hck ->]%put_client_Ok & [= <- <-]).
  exists c, gate, ips. split_and!; try done. unfold counters_forward. simpl. lia.
Qed.

Lemma ApplyQuota_Ok db key g atMS db' :
  ApplyQuota db key g atMS = Ok db' ->
  exists c, client_runtime db !! key = Some c /\
    ((QuotaFingerprint c = quotaFingerprint g /\ db' = db) \/
     (exists gate, let baseline := pointerIfConfigured (GBaselineBytes g) (GHeadroomBytes g) in
        let c' := setQuota c gate baseline (GHeadroomBytes g) (GPeriodEndsAtMS g) (GNextPeriodHeadroomBytes g)
                    (quotaFingerprint g) atMS in
        QuotaFingerprint c <> quotaFingerprint g /\
        deriveGate (UpBytes c) (DownBytes c) baseline (GHeadroomBytes g) = Ok gate /\ client_check c' = true /\
        db' = set_client_runtime (<[key := c']> (client_runtime db)) db)).
Proof.
  unfold ApplyQuota. case_decide; [done|]. case_decide; [done|]. destruct (xorb _ _); [done|].
  case_decide; [done|]. intros (c & Hc%Client_Ok & Hu)%bind_Ok. exists c. split; [done|].
  case_decide; [left; naive_solver|]. right.
  apply bind_Ok in Hu as (gate & Hg & [Hck ->]%put_client_Ok). by exists gate.
Qed.

Lemma applyScheduledQuotaTx_Ok db key now changed db' :
  applyScheduledQuotaTx db key now = Ok (changed, db') ->
  exists c, client_runtime db !! key = Some c /\
    ((RefreshDue (PeriodEndsAtMS c) (NextPeriodHeadroomBytes c) now = false /\ changed = false /\ db' = db) \/
     (exists baseline headroom gate,
        let c' := setQuota c gate (Some baseline) (Some headroom) 0 None (QuotaFingerprint c) now in
        RefreshDue (PeriodEndsAtMS c) (NextPeriodHeadroomBytes c) now = true /\ changed = true /\
        checked_add (UpBytes c) (DownBytes c) = Some baseline /\ NextPeriodHeadroomBytes c = Some headroom /\
        deriveGate (UpBytes c) (DownBytes c) (Some baseline) (Some headroom) = Ok gate /\ client_check c' = true /\
        db' = set_client_runtime (<[key := c']> (client_runtime db)) db)).
Proof.
  unfold applyScheduledQuotaTx. intros (c & Hc%Client_Ok & Hu)%bind_Ok. exists c. split; [done|].
  destruct (RefreshDue _ _ now) eqn:Hdue; simpl in Hu; [right|left; naive_solver].
  destruct (checked_add (UpBytes c) (DownBytes c)) as [b|] eqn:Hb; [|done].
  destruct (NextPeriodHeadroomBytes c) as [h|] eqn:Hh; [|done].
  apply bind_Ok in Hu as (gate & Hg & Hu).
  apply bind_Ok in Hu as (d & [Hck ->]%put_client_Ok & [= <- <-]).
  exists b, h, gate. by split_and!.
Qed.

Lemma applyScheduledQuotaTx_keys op db key now changed db' k :
  applyScheduledQuotaTx db key now = Ok (changed, db') ->
  rtc (key_step k op) (client_runtime db !! k) (client_runtime db' !! k).
Proof.
  intros (c & Hc & [(_ & _ & ->)|(b & h & gate & _ & _ & ? & ? & ? & ? & ->)])%applyScheduledQuotaTx_Ok; [apply rtc_refl|].
  apply key_step_insert. rewrite Hc. by eapply ks_scheduled.
Qed.

Lemma ApplyScheduledQuotas_loop_keys op now keys k :
  forall n db n' db',
  res_foldl (refreshStep now) (n, db) keys = Ok (n', db') ->
  rtc (key_step k op) (client_runtime db !! k) (client_runtime db' !! k).
Proof.
  induction keys as [|key keys IH]; intros n db n' db' Hl; simpl in Hl; [simplify_eq; apply rtc_refl|].
  apply bind_Ok in Hl as ([n1 d1] & Hl1 & Hl2). apply bind_Ok in Hl1 as ([ch d2] & Ht & [= _ <-]).
  etrans; [by eapply applyScheduledQuotaTx_keys|by eapply IH].
Qed.

(** Every successful call moves every client's row by [key_step]. *)
Lemma run_op_keys db op db' k :
  op_typed op -> run_op db op = Ok db' ->
  rtc (key_step k op) (client_runtime db !! k) (client_runtime db' !! k).
Proof.
  destruct op as [identity atMS|u atMS|key g atMS|key now|now|key]; simpl; intros Ht Hr.
  - apply EnsureClient_Ok in Hr as (? & ? & [[Hn ->]|(c & _ & _ & ->)]); [|apply rtc_refl].
    apply key_step_insert. rewrite Hn. by apply ks_fresh.
  - apply bind_Ok in Hr as ([ch d] & Hu & [= <-]).
    apply applyClientCounter_Ok in Hu as (c & gate & ips & Hc & _ & Hg & Hf & Hck & _ & ->).
    apply key_step_insert. rewrite Hc. by apply ks_counters.
  - apply ApplyQuota_Ok in Hr as (c & Hc & [[_ ->]|(gate & _ & Hg & Hck & ->)]); [apply rtc_refl|].
    destruct (decide (k = key)) as [->|Hne]; [|simpl; rewrite lookup_insert_ne by done; apply rtc_refl].
    apply key_step_insert. rewrite Hc. by eapply ks_quota.
  - unfold ApplyScheduledQuota in Hr. destruct (applyScheduledQuotaTx db key now) as [[ch d]|] eqn:Hs; [|done].
    simpl in Hr. simplify_eq. by eapply applyScheduledQuotaTx_keys.
  - destruct (ApplyScheduledQuotas db now) as [[n d]|] eqn:Hs; [|done]. simpl in Hr. simplify_eq.
    by eapply ApplyScheduledQuotas_loop_keys.
  - unfold DeleteClient in Hr. case_decide; [done|]. simplify_eq. simpl.
    destruct (decide (k = key)) as [->|Hne]; [|rewrite lookup_delete_ne by done; apply rtc_refl].
    rewrite lookup_delete_eq. apply rtc_once. by apply ks_delete.
Qed.

(** ** Lemmas on rows *)

Lemma opt_nonneg_check c :
  client_check c = true ->
  0 ≤ UpBytes c /\ 0 ≤ DownBytes c /\ opt_nonneg (BaselineBytes c) /\ opt_nonneg (HeadroomBytes c) /\
  opt_nonneg (NextPeriodHeadroomBytes c).
Proof. unfold client_check. intros Hb%bool_decide_eq_true. tauto. Qed.

Lemma key_step_ok k op o o' :
  (forall c, o = Some c -> client_ok c) -> key_step k op o o' -> forall c, o' = Some c -> client_ok c.
Proof.
  intros Ho Hs c' Hc'.
  destruct Hs as [subject atMS _ Ht|c u gate ips atMS [Hu Hd] _ Hg Hck|c g gate atMS c1 _ (Hb & Hh & Hn) bl Hg -> Hck
                 |c b h gate now c1 Hadd Hh Hg -> Hck|]; simplify_eq; try pose proof (Ho _ eq_refl) as Hc.
  - split_and!; try (unfold in_int64, min_int64, max_int64; simpl; lia); try done.
    unfold client_check. apply bool_decide_eq_true_2. simpl. split_and!; try lia; auto.
  - destruct Hc as (_ & _ & _ & ? & ? & ? & _). by split_and!.
  - destruct Hc as (_ & ? & ? & _). split_and!; try done. subst bl. unfold pointerIfConfigured. by destruct (GHeadroomBytes g).
  - destruct Hc as (_ & Hu & Hd & _ & _ & Hnx & _). apply checked_add_Some in Hadd as Hadd'; [|done..].
    rewrite Hh in Hnx. split_and!; try done. simpl. unfold in_int64, min_int64. lia.
Qed.

Lemma key_steps_ok k op o o' :
  rtc (key_step k op) o o' -> (forall c, o = Some c -> client_ok c) -> forall c, o' = Some c -> client_ok c.
Proof. induction 1 as [|a b c Hab _ IH]; [done|]. intros Ha. by apply IH, (key_step_ok k op a). Qed.

(** The rollover writes the client ledger and nothing else. *)
Lemma ApplyScheduledQuotas_frame db now n db' :
  ApplyScheduledQuotas db now = Ok (n, db') -> db' = set_client_runtime (client_runtime db') db.
Proof.
  unfold ApplyScheduledQuotas. intros Hr.
  apply (res_foldl_inv _ (fun s => s.2 = set_client_runtime (client_runtime s.2) db)) in Hr; [done| |by destruct db].
  intros [k d] key [k' d'] Hd _ Hs. simpl in *. apply bind_Ok in Hs as ([changed d1] & Hs & [= _ <-]).
  unfold applyScheduledQuotaTx in Hs. apply bind_Ok in Hs as (c & _ & Hs). destruct (negb _); [by injection Hs as _ <-|].
  destruct (checked_add _ _) as [b|]; [|done]. destruct (NextPeriodHeadroomBytes c) as [h|]; [|done].
  apply bind_Ok in Hs as (gate & _ & Hs). apply bind_Ok in Hs as (d2 & Hp & [= _ <-]).
  unfold put_client in Hp. destruct (client_check _); [|done]. injection Hp as <-. by rewrite Hd.
Qed.

Lemma run_op_clients_ok db op db' : op_typed op -> clients_ok db -> run_op db op = Ok db' -> clients_ok db'.
Proof.
  intros Ht Hdb Hr k c Hc. eapply (key_steps_ok k op); [by apply run_op_keys|apply Hdb|done].
Qed.

Lemma run_ops_clients_ok db ops : Forall op_typed ops -> clients_ok db -> clients_ok (run_ops db ops).
Proof.
  unfold run_ops. revert db. induction ops as [|op ops IH]; intros db Ht Hdb; [done|]. simpl.
  inversion Ht; subst. apply IH; [done|]. destruct (run_op db op) eqn:Hr; [|done]. by eapply run_op_clients_ok.
Qed.

(** No client has the empty key. *)
Lemma run_ops_nonempty ops : Forall op_typed ops -> client_runtime (run_ops empty_db ops) !! "" = None.
Proof.
  intros Ht. assert (client_runtime empty_db !! "" = None) as H0 by done. revert H0. generalize empty_db.
  unfold run_ops. induction Ht as [|op ops Hop _ IH]; intros db H0; [done|]. simpl. apply IH.
  destruct (run_op db op) as [d|] eqn:Hr; [|done]. pose proof (run_op_keys db op d "" Hop Hr) as Hs. rewrite H0 in Hs.
  remember None as o eqn:Ho in Hs. induction Hs as [|a b c Hab _ IHs]; [done|]. subst a. inversion Hab; subst; auto; done.
Qed.

Lemma clients_ok_empty : clients_ok empty_db.
Proof. apply map_Forall_empty. Qed.

(** The machine-integer gate is the gate over unbounded integers. *)
Lemma deriveGate_Ok up down b h gate :
  in_int64 up -> in_int64 down -> in_int64 b -> in_int64 h ->
  deriveGate up down (Some b) (Some h) = Ok gate <->
  0 ≤ up /\ 0 ≤ down /\ 0 ≤ b /\ 0 ≤ h /\ up + down ≤ max_int64 /\ b + h ≤ max_int64 /\
  gate = (if decide (up + down < b) then GateUnconfigured
          else if decide (b + h ≤ up + down) then GateClosed else GateArmed).
Proof.
  intros Hu Hd Hb Hh. unfold deriveGate.
  pose proof (fun c => checked_add_Some up down c Hu Hd) as H1.
  pose proof (fun c => checked_add_Some b h c Hb Hh) as H2.
  destruct (checked_add up down) as [cur|] eqn:E1; [|split; [done|]; intros (?&?&?&?&?&?&?);
    assert (None = Some (up + down)) by (apply H1; lia); done].
  destruct (checked_add b h) as [ceil|] eqn:E2; [|split; [done|]; intros (?&?&?&?&?&?&?);
    assert (None = Some (b + h)) by (apply H2; lia); done].
  destruct (proj1 (H1 cur) eq_refl) as (?&?&->&?). destruct (proj1 (H2 ceil) eq_refl) as (?&?&->&?).
  repeat case_decide; (split; [intros [= <-]|intros (_&_&_&_&_&_&->); done]); split_and!; done.
Qed.

(** The gate a well-formed row holds, over unbounded integers. *)
Lemma client_ok_gate c :
  client_ok c ->
  (Gate c = GateClosed <-> exists b h, BaselineBytes c = Some b /\ HeadroomBytes c = Some h /\
     b + h ≤ UpBytes c + DownBytes c) /\
  (Gate c = GateArmed <-> exists b h, BaselineBytes c = Some b /\ HeadroomBytes c = Some h /\
     b ≤ UpBytes c + DownBytes c < b + h).
Proof.
  intros (_ & Hu & Hd & Hb & Hh & _ & Hg).
  destruct (BaselineBytes c) as [b|]; destruct (HeadroomBytes c) as [h|].
  1: apply deriveGate_Ok in Hg as (?&?&?&?&?&?&->); [|done..]; repeat case_decide; split; split; try done.
  all: try (injection Hg as <-); try (split; split; try done).
  all: try (intros (b' & h' & ? & ? & ?); simplify_eq; lia).
  all: intros _; exists b, h; split_and!; try done; lia.
Qed.

(** One step keeps a row that is not deleted, its subject and the direction of
    its counters; only a new grant touches the fingerprint. *)
Lemma key_step_keeps k op c o' :
  (forall key, op = OpDelete key -> key <> k) -> key_step k op (Some c) o' ->
  exists c', o' = Some c' /\ Subject c' = Subject c /\ counters_forward c c' /\
    ((forall g atMS, op <> OpQuota k g atMS) -> QuotaFingerprint c' = QuotaFingerprint c).
Proof.
  intros Hnd Hs. inversion Hs; subst; simpl in *.
  - eexists. by split_and!.
  - eexists. split_and!; [done|done|right; simpl; lia|]. intros Hn. exfalso. by eapply Hn.
  - eexists. split_and!; [done|done|right; simpl; lia|done].
  - exfalso. by eapply Hnd.
Qed.

Lemma counters_forward_trans a b c : counters_forward a b -> counters_forward b c -> counters_forward a c.
Proof. unfold counters_forward. lia. Qed.

Lemma key_steps_keep k op o o' c :
  (forall key, op = OpDelete key -> key <> k) -> rtc (key_step k op) o o' -> o = Some c ->
  exists c', o' = Some c' /\ Subject c' = Subject c /\ counters_forward c c' /\
    ((forall g atMS, op <> OpQuota k g atMS) -> QuotaFingerprint c' = QuotaFingerprint c).
Proof.
  intros Hnd Hs. revert c. induction Hs as [o|o1 o2 o3 H12 _ IH]; intros c ->.
  - exists c. split_and!; try done. right. lia.
  - destruct (key_step_keeps _ _ _ _ Hnd H12) as (c2 & -> & Hs2 & Hf2 & Hq2).
    destruct (IH c2 eq_refl) as (c3 & -> & Hs3 & Hf3 & Hq3). exists c3. split_and!; [done|congruence|..].
    + by eapply counters_forward_trans.
    + intros Hn. by rewrite Hq3, Hq2.
Qed.

(** Calls that leave client [k] registered, and those that also leave its grant. *)
Definition keeps_client (k : string) (op : client_op) : Prop := op <> OpDelete k.
Definition keeps_grant (k : string) (op : client_op) : Prop :=
  op <> OpDelete k /\ forall g atMS, op <> OpQuota k g atMS.

Lemma run_ops_keep db ops k c :
  Forall op_typed ops -> Forall (keeps_client k) ops -> client_runtime db !! k = Some c ->
  exists c', client_runtime (run_ops db ops) !! k = Some c' /\ Subject c' = Subject c /\ counters_forward c c' /\
    (Forall (keeps_grant k) ops -> QuotaFingerprint c' = QuotaFingerprint c).
Proof.
  revert db c. induction ops as [|op ops IH]; intros db c Ht Hk Hc; simpl.
  - exists c. split_and!; try done. right. lia.
  - inversion Ht; subst. inversion Hk; subst.
    assert (exists c1, client_runtime (match run_op db op with Ok d' => d' | Err _ => db end) !! k = Some c1 /\
      Subject c1 = Subject c /\ counters_forward c c1 /\
      (keeps_grant k op -> QuotaFingerprint c1 = QuotaFingerprint c)) as (c1 & Hc1 & Hs1 & Hf1 & Hq1).
    { destruct (run_op db op) as [d|] eqn:Hr; [|exists c; split_and!; try done; right; lia].
      edestruct (key_steps_keep k op) as (c1 & ? & ? & ? & Hq); [|by eapply run_op_keys|done|].
      { intros key -> ->. by unfold keeps_client in *. }
      exists c1. split_and!; try done. intros [_ Hn]. by apply Hq. }
    destruct (IH _ _ ltac:(done) ltac:(done) Hc1) as (c2 & Hc2 & Hs2 & Hf2 & Hq2).
    exists c2. split_and!; [done|congruence|by eapply counters_forward_trans|].
    intros Hg. inversion Hg; subst. rewrite Hq2, Hq1; done.
Qed.

(** ** Period rollover *)

(** The row a due client gets: the period opens at its current usage with the
    next headroom, and nothing further is scheduled. *)
Definition refreshedRow (now : Z) (c : ClientRuntime) : ClientRuntime :=
  let headroom := default 0 (NextPeriodHeadroomBytes c) in
  setQuota c (if decide (headroom = 0) then GateClosed else GateArmed)
    (Some (UpBytes c + DownBytes c)) (Some headroom) 0 None (QuotaFingerprint c) now.

Definition refresh_fits (c : ClientRuntime) : Prop :=
  UpBytes c + DownBytes c + default 0 (NextPeriodHeadroomBytes c) ≤ max_int64.

#[global] Instance due_candidate_dec now c : Decision (due_candidate now c).
Proof. unfold due_candidate. apply _. Defined.

Definition refreshIfDue (now : Z) (c : ClientRuntime) : ClientRuntime :=
  if decide (due_candidate now c) then refreshedRow now c else c.

Lemma refreshedRow_check now c : client_ok c -> due_candidate now c -> client_check (refreshedRow now c) = true.
Proof.
  intros (Hck & _) (? & ? & ?). unfold client_check in *. apply bool_decide_eq_true in Hck as (?&?&?&?&?&?&Hn&_).
  apply bool_decide_eq_true_2. simpl. destruct (NextPeriodHeadroomBytes c) as [h|]; [|done]. simpl in *.
  split_and!; try lia; try done; [right; done|left; done].
Qed.

(** One due client: the exact result, overflow included. *)
Lemma applyScheduledQuotaTx_due `{!ProtocolLaws} db key now c :
  client_runtime db !! key = Some c -> client_ok c -> due_candidate now c ->
  (refresh_fits c -> applyScheduledQuotaTx db key now =
     Ok (true, set_client_runtime (<[key := refreshedRow now c]> (client_runtime db)) db)) /\
  (is_Ok (applyScheduledQuotaTx db key now) = true -> refresh_fits c).
Proof.
  intros Hc Hok Hdue. pose proof (refreshedRow_check now c Hok Hdue) as Hck.
  destruct Hok as (Hck0 & Hu & Hd & _ & _ & Hn & _). apply opt_nonneg_check in Hck0 as (? & ? & _ & _ & Hn0).
  destruct Hdue as (Hp & Hnx & Hle). unfold applyScheduledQuotaTx, Client. rewrite Hc. cbn [mbind res_bind].
  assert (RefreshDue (PeriodEndsAtMS c) (NextPeriodHeadroomBytes c) now = true) as -> by (by apply RefreshDue_spec).
  cbn [negb]. unfold refresh_fits, refreshedRow in *.
  destruct (NextPeriodHeadroomBytes c) as [h|]; [|done]. simpl default in *. simpl in Hn, Hn0.
  pose proof (fun z => checked_add_Some (UpBytes c) (DownBytes c) z Hu Hd) as Hadd. split.
  - intros Hfit. rewrite (proj2 (Hadd (UpBytes c + DownBytes c))) by lia.
    assert (in_int64 (UpBytes c + DownBytes c)) as Hs by (unfold in_int64, min_int64; lia).
    erewrite (proj2 (deriveGate_Ok _ _ _ _ _ Hu Hd Hs Hn)) by (split_and!; try lia; done).
    rewrite decide_False by lia. cbn [mbind res_bind].
    replace (if decide (UpBytes c + DownBytes c + h ≤ UpBytes c + DownBytes c) then GateClosed else GateArmed)
      with (if decide (h = 0) then GateClosed else GateArmed) by (repeat case_decide; try done; lia).
    unfold put_client. by rewrite Hck.
  - destruct (checked_add (UpBytes c) (DownBytes c)) as [b|] eqn:Hb; [|done].
    destruct (proj1 (Hadd b) eq_refl) as (?&?&->&?).
    destruct (deriveGate _ _ _ _) as [gate|] eqn:Hg; [|done]. intros _.
    apply deriveGate_Ok in Hg; [lia|done..| |done]. unfold in_int64, min_int64. lia.
Qed.

Lemma refresh_loop `{!ProtocolLaws} now keys :
  forall n db,
  NoDup keys -> clients_ok db ->
  Forall (fun k => exists c, client_runtime db !! k = Some c /\ due_candidate now c) keys ->
  (Forall (fun k => forall c, client_runtime db !! k = Some c -> refresh_fits c) keys ->
   exists db', res_foldl (refreshStep now) (n, db) keys = Ok (n + Z.of_nat (length keys), db') /\
     forall k, client_runtime db' !! k =
       if decide (k ∈ keys) then refreshedRow now <$> client_runtime db !! k else client_runtime db !! k) /\
  (is_Ok (res_foldl (refreshStep now) (n, db) keys) = true ->
   Forall (fun k => forall c, client_runtime db !! k = Some c -> refresh_fits c) keys).
Proof.
  induction keys as [|key keys IH]; intros n db Hnd Hdb Hdue; simpl.
  { split; [|by constructor]. intros _. exists db. split; [by rewrite Z.add_0_r|]. intros k. done. }
  apply NoDup_cons in Hnd as [Hnk Hnd]. apply Forall_cons in Hdue as [(c & Hc & Hd) Hdue].
  destruct (applyScheduledQuotaTx_due db key now c Hc (Hdb _ _ Hc) Hd) as [Hfit Hconv].
  set (d1 := set_client_runtime (<[key := refreshedRow now c]> (client_runtime db)) db) in *.
  assert (forall k, k ∈ keys -> client_runtime d1 !! k = client_runtime db !! k) as Hsame.
  { intros k Hk. unfold d1. simpl. rewrite lookup_insert_ne; [done|]. by intros ->. }
  assert (refresh_fits c -> clients_ok d1) as Hd1.
  { intros Hf. assert (run_op db (OpScheduled key now) = Ok d1) as Hr.
    { simpl. unfold ApplyScheduledQuota. by rewrite Hfit. }
    by apply (run_op_clients_ok db (OpScheduled key now)). }
  assert (Forall (fun k => exists c, client_runtime d1 !! k = Some c /\ due_candidate now c) keys) as Hdue1.
  { apply Forall_forall. intros k Hk. rewrite Hsame by done. by eapply Forall_forall in Hdue. }
  split.
  - intros [Hfc Hfk]%Forall_cons. specialize (Hfc c Hc). rewrite Hfit by done. cbn [mbind res_bind].
    destruct (IH (n + 1) d1 Hnd (Hd1 Hfc) Hdue1) as [(db' & Hl & Hrow) _].
    { apply Forall_forall. intros k Hk. rewrite Hsame by done. by eapply Forall_forall in Hfk. }
    exists db'. split; [rewrite Hl; do 2 f_equal; lia|]. intros k. rewrite Hrow.
    destruct (decide (k = key)) as [->|Hne].
    + rewrite decide_False by done. rewrite decide_True by set_solver. unfold d1. simpl.
      by rewrite lookup_insert_eq, Hc.
    + unfold d1. simpl. rewrite lookup_insert_ne by done.
      destruct (decide (k ∈ keys)); [rewrite decide_True by set_solver|rewrite decide_False by set_solver]; done.
  - intros Hok. assert (refresh_fits c) as Hf.
    { apply Hconv. destruct (applyScheduledQuotaTx db key now); [done|by simpl in Hok]. }
    rewrite Hfit in Hok by done. cbn [mbind res_bind] in Hok.
    destruct (IH (n + 1) d1 Hnd (Hd1 Hf) Hdue1) as [_ Hback]. apply Forall_cons. split.
    + intros c' Hc'. by simplify_eq.
    + apply Hback in Hok. apply Forall_forall. intros k Hk c' Hc'. rewrite Forall_forall in Hok.
      apply (Hok k Hk). by rewrite Hsame.
Qed.

Lemma dueKeys_elem db now k :
  k ∈ dueKeys db now <-> exists c, client_runtime db !! k = Some c /\ due_candidate now c.
Proof.
  unfold dueKeys. rewrite list_elem_of_filter, sorted_keys_elem.
  destruct (client_runtime db !! k) as [c|].
  - rewrite bool_decide_eq_true. split; [naive_solver|]. intros (c' & [= <-] & ?). eauto.
  - split; [naive_solver|]. by intros (? & ? & _).
Qed.

Lemma dueKeys_NoDup db now : NoDup (dueKeys db now).
Proof. apply NoDup_filter, sorted_keys_NoDup. Qed.

(** ** Properties *)

(** C32. In every state the ledger's calls can reach from an empty
    database, whatever their order and whichever of them failed, each client's
    stored gate is the one its own stored numbers call for over unbounded
    integers: closed exactly when usage since the baseline has consumed the
    headroom, armed exactly when some of it is left. *)
Theorem gate_matches_ledger ops k c :
  Forall op_typed ops -> client_runtime (run_ops empty_db ops) !! k = Some c ->
  (Gate c = GateClosed <-> exists b h, BaselineBytes c = Some b /\ HeadroomBytes c = Some h /\
     b + h ≤ UpBytes c + DownBytes c) /\
  (Gate c = GateArmed <-> exists b h, BaselineBytes c = Some b /\ HeadroomBytes c = Some h /\
     b ≤ UpBytes c + DownBytes c < b + h).
Proof.
  intros Ht Hc. apply client_ok_gate. by eapply (run_ops_clients_ok empty_db ops Ht clients_ok_empty).
Qed.

(** C33. As long as a client is not deleted, no sequence of calls loses it,
    moves it to another subject or takes its counters back: the counter epoch
    grows, or stays with neither direction smaller. *)
Theorem counters_never_roll_back db ops k c :
  Forall op_typed ops -> Forall (keeps_client k) ops -> client_runtime db !! k = Some c ->
  exists c', client_runtime (run_ops db ops) !! k = Some c' /\ Subject c' = Subject c /\ counters_forward c c'.
Proof. intros Ht Hk Hc. destruct (run_ops_keep db ops k c Ht Hk Hc) as (c' & ? & ? & ? & _). eauto. Qed.

(** A grant is applied once.  After it was accepted, and after any
    calls other than a different grant for, or the removal of, that client
    (counter updates and the rollover into the next period included), sending
    the same grant again succeeds and changes nothing: a repeated directive
    cannot restore a period already consumed. *)
Theorem quota_grant_applied_once db key g atMS db1 ops atMS' :
  ApplyQuota db key g atMS = Ok db1 -> Forall op_typed ops -> Forall (keeps_grant key) ops -> 0 ≤ atMS' ->
  ApplyQuota (run_ops db1 ops) key g atMS' = Ok (run_ops db1 ops).
Proof.
  intros Hq Ht Hk Hat. pose proof (ApplyQuota_Ok _ _ _ _ _ Hq) as (c & Hc & Hcase).
  assert (exists c1, client_runtime db1 !! key = Some c1 /\ QuotaFingerprint c1 = quotaFingerprint g) as (c1 & Hc1 & Hf1).
  { destruct Hcase as [[? ->]|(gate & _ & _ & _ & ->)]; [eauto|]. simpl. rewrite lookup_insert_eq. eauto. }
  assert (Forall (keeps_client key) ops) as Hkc by (eapply Forall_impl; [exact Hk|]; by intros ? []).
  destruct (run_ops_keep db1 ops key c1 Ht Hkc Hc1) as (c2 & Hc2 & _ & _ & Hf2).
  unfold ApplyQuota in Hq |- *. case_decide as Hd; [done|].
  rewrite decide_False by (intros [?|[?|?]]; [tauto..|lia]).
  case_decide; [done|]. destruct (xorb _ _); [done|]. case_decide; [done|].
  unfold Client. rewrite Hc2. cbn [mbind res_bind]. by rewrite decide_True by (rewrite (Hf2 Hk); done).
Qed.

(** What a successful rollover of a well-formed ledger leaves. *)
Lemma rollover_rows `{!ProtocolLaws} db now n d :
  clients_ok db -> ApplyScheduledQuotas db now = Ok (n, d) ->
  n = Z.of_nat (length (dueKeys db now)) /\ (forall k, client_runtime d !! k = refreshIfDue now <$> client_runtime db !! k) /\ dueKeys d now = [].
Proof.
  intros Hdb Hr. assert (Forall (fun k => exists c, client_runtime db !! k = Some c /\ due_candidate now c) (dueKeys db now)) as Hdue
    by (apply Forall_forall; intros k; apply dueKeys_elem).
  destruct (refresh_loop now (dueKeys db now) 0 db (dueKeys_NoDup db now) Hdb Hdue) as [Hfit Hback]. unfold ApplyScheduledQuotas in Hr.
  destruct Hfit as (d' & Hd & Hrow); [by apply Hback; rewrite Hr|]. rewrite Hr in Hd. simplify_eq.
  assert (forall k, client_runtime d' !! k = refreshIfDue now <$> client_runtime db !! k) as Hrows.
  { intros k. rewrite Hrow. unfold refreshIfDue. destruct (client_runtime db !! k) as [c|] eqn:Hc; simpl.
    - case_decide as Hk; [apply dueKeys_elem in Hk as (c' & Hc' & ?); simplify_eq; by rewrite decide_True|].
      rewrite decide_False; [done|]. intros ?. apply Hk, dueKeys_elem. eauto.
    - by case_decide. }
  split_and!; [lia|done|]. destruct (dueKeys d' now) as [|k ks] eqn:Hks; [done|].
  assert (k ∈ dueKeys d' now) as (c & Hc & Hcd)%dueKeys_elem by (rewrite Hks; left).
  rewrite Hrows in Hc. destruct (client_runtime db !! k) as [c0|]; [|done]. simpl in Hc. simplify_eq.
  unfold refreshIfDue in Hcd. case_decide; [|done]. destruct Hcd as (Hp & _). simpl in Hp. lia.
Qed.

(** C34. The rollover batch over a reachable ledger: it succeeds exactly
    when every due client's usage plus next headroom fits in an int64; then it
    reports how many clients were due, opens each one's new period at its
    current usage, changes no other row, and leaves nobody due. *)
Theorem scheduled_quotas_rollover `{!ProtocolLaws} ops now :
  Forall op_typed ops ->
  let db := run_ops empty_db ops in
  (is_Ok (ApplyScheduledQuotas db now) = true <->
     forall k c, client_runtime db !! k = Some c -> due_candidate now c -> refresh_fits c) /\
  forall n db', ApplyScheduledQuotas db now = Ok (n, db') ->
    n = Z.of_nat (length (dueKeys db now)) /\
    (forall k, client_runtime db' !! k = refreshIfDue now <$> client_runtime db !! k) /\
    dueKeys db' now = [].
Proof.
  intros Ht db. assert (clients_ok db) as Hdb by apply (run_ops_clients_ok empty_db ops Ht clients_ok_empty).
  assert (Forall (fun k => exists c, client_runtime db !! k = Some c /\ due_candidate now c) (dueKeys db now)) as Hdue
    by (apply Forall_forall; intros k; apply dueKeys_elem).
  destruct (refresh_loop now (dueKeys db now) 0 db (dueKeys_NoDup db now) Hdb Hdue) as [Hfit Hback].
  unfold ApplyScheduledQuotas.
  assert (Forall (fun k => forall c, client_runtime db !! k = Some c -> refresh_fits c) (dueKeys db now) <->
    forall k c, client_runtime db !! k = Some c -> due_candidate now c -> refresh_fits c) as Hiff.
  { rewrite Forall_forall. split.
    - intros Hall k c Hc Hd. apply (Hall k); [|done]. apply dueKeys_elem. eauto.
    - intros Hall k (c & Hc & Hd)%dueKeys_elem c' Hc'. assert (c' = c) as -> by congruence. eauto. }
  split.
  - split; [by intros Hok%Hback; apply Hiff|]. intros Hall%Hiff. by destruct (Hfit Hall) as (db' & -> & _).
  - intros n db' Hr. by apply rollover_rows.
Qed.

End scheduled.

(** ** Online addresses *)

Lemma normalizeIPs_loop_Ok values : forall seen out res,
  normalizeIPs_loop values seen out = Ok res -> (forall x, x ∈ seen <-> x ∈ out) -> NoDup out ->
  NoDup res /\ (forall x, x ∈ res <-> x ∈ out \/ exists v, v ∈ values /\ canonicalIP v = Some x) /\
  Forall (fun v => is_Some (canonicalIP v)) values.
Proof.
  induction values as [|v values IH]; intros seen out res Hl Hseen Hnd; simpl in Hl.
  - simplify_eq. split_and!; [done| |done]. set_solver.
  - destruct (canonicalIP v) as [ip|] eqn:Hip; [|done]. case_decide as Hin.
    + apply IH in Hl as (? & Hset & ?); [|done..]. split_and!; [done| |by constructor]. intros x. rewrite Hset.
      apply Hseen in Hin. split; [set_solver|]. intros [?|(w & [->|?]%elem_of_cons & Hw)]; [by left| |set_solver].
      left. by simplify_eq.
    + apply IH in Hl as (? & Hset & ?).
      * split_and!; [done| |by constructor]. intros x. rewrite Hset, elem_of_app, list_elem_of_singleton. split.
        -- intros [[?| ->]|?]; [by left|right; exists v; set_solver|set_solver].
        -- intros [?|(w & [->|?]%elem_of_cons & Hw)]; [by left; left|simplify_eq; left; by right|set_solver].
      * intros x. rewrite elem_of_union, elem_of_singleton, elem_of_app, list_elem_of_singleton, Hseen. tauto.
      * apply NoDup_app. split_and!; [done| |apply NoDup_singleton]. intros x Hx ->%list_elem_of_singleton.
        by apply Hin, Hseen.
Qed.

(** Normalisation of online addresses yields the sorted, duplicate-free
    list of canonical forms: every reading is represented, nothing else is, and
    two observations with the same addresses in any order and spelling give the
    same list. *)
Theorem normalizeIPs_canonical values out :
  normalizeIPs values = Ok out ->
  StronglySorted String.le out /\ NoDup out /\
  (forall x, x ∈ out <-> exists v, v ∈ values /\ canonicalIP v = Some x) /\
  forall values' out', normalizeIPs values' = Ok out' ->
    (forall x, (exists v, v ∈ values /\ canonicalIP v = Some x) <-> (exists v, v ∈ values' /\ canonicalIP v = Some x)) ->
    out' = out.
Proof.
  assert (forall vs o, normalizeIPs vs = Ok o -> StronglySorted String.le o /\ NoDup o /\
    (forall x, x ∈ o <-> exists v, v ∈ vs /\ canonicalIP v = Some x)) as Hone.
  { unfold normalizeIPs. intros vs o (r & Hr & [= <-])%bind_Ok.
    apply normalizeIPs_loop_Ok in Hr as (? & Hset & _); [|set_solver|constructor].
    split_and!; [apply StronglySorted_merge_sort; apply _|by rewrite merge_sort_Permutation|].
    intros x. rewrite merge_sort_Permutation, Hset. set_solver. }
  intros Ho. destruct (Hone _ _ Ho) as (Hs & Hn & Hx). split_and!; try done.
  intros values' out' Ho' Hsame. destruct (Hone _ _ Ho') as (Hs' & Hn' & Hx').
  apply (StronglySorted_unique String.le); [done..|]. apply NoDup_Permutation; [done..|].
  intros x. rewrite Hx, Hx'. naive_solver.
Qed.

(** ** A concrete ledger *)
Module clients_example.
Import sample.

Definition grant : QuotaGrant := MkQuotaGrant 0 (Some 100) 50 (Some 10).
Definition use100 : CounterUpdate := MkCounterUpdate "cli_1" true 60 40 7 ["::ffff:192.0.2.1"; "192.0.2.1"].
Definition setup : list client_op :=
  [OpEnsure (MkClientIdentity "cli_1" "usr_1") 1; OpQuota "cli_1" grant 2; OpCounters use100 3].
Definition ledger : DB := run_ops empty_db setup.
Definition row : ClientRuntime :=
  MkClientRuntime "usr_1" true 60 40 7 ["192.0.2.1"] GateClosed (Some 0) (Some 100) 50 (Some 10)
    (quotaFingerprint grant) 3.

Lemma setup_typed : Forall op_typed setup.
Proof. repeat constructor; simpl; unfold min_int64, max_int64; lia. Qed.

Lemma ledger_row : client_runtime ledger !! "cli_1" = Some row.
Proof. vm_compute. reflexivity. Qed.

Lemma gate_matches_ledger_witness : Gate row = GateClosed.
Proof.
  apply (proj1 (gate_matches_ledger setup "cli_1" row setup_typed ledger_row)).
  exists 0, 100. vm_compute. intuition discriminate.
Defined.

Lemma counters_never_roll_back_witness :
  exists c', client_runtime (run_ops ledger [OpScheduled "cli_1" 60; OpDelete "cli_2"]) !! "cli_1" = Some c' /\
    Subject c' = Subject row /\ counters_forward row c'.
Proof.
  apply (counters_never_roll_back ledger [OpScheduled "cli_1" 60; OpDelete "cli_2"] "cli_1" row).
  - repeat constructor.
  - repeat constructor; done.
  - exact ledger_row.
Defined.

Definition registered : DB := run_ops empty_db [OpEnsure (MkClientIdentity "cli_1" "usr_1") 1].
Definition granted : DB := match ApplyQuota registered "cli_1" grant 2 with Ok d => d | Err _ => registered end.

Lemma quota_grant_applied_once_witness :
  let later := run_ops granted [OpCounters use100 3; OpScheduledAll 60] in
  (PeriodEndsAtMS <$> client_runtime later !! "cli_1") = Some 0 /\
  ApplyQuota later "cli_1" grant 70 = Ok later.
Proof.
  intros later. split; [vm_compute; reflexivity|].
  apply (quota_grant_applied_once registered "cli_1" grant 2 granted [OpCounters use100 3; OpScheduledAll 60] 70).
  - vm_compute. reflexivity.
  - repeat constructor; simpl; unfold min_int64, max_int64; lia.
  - repeat constructor; try done; intros ? ?; done.
  - lia.
Defined.

Lemma scheduled_quotas_rollover_witness :
  exists db', ApplyScheduledQuotas ledger 60 = Ok (1, db') /\ dueKeys db' 60 = [] /\
    client_runtime db' !! "cli_1" = Some (refreshedRow 60 row).
Proof.
  destruct (scheduled_quotas_rollover setup 60 setup_typed) as [_ Hall].
  assert (exists db', ApplyScheduledQuotas ledger 60 = Ok (1, db')) as [db' Hr]
    by (eexists; vm_compute; reflexivity).
  exists db'. destruct (Hall 1 db' Hr) as (_ & Hrow & Hnone). split; [exact Hr|]. split; [exact Hnone|].
  rewrite Hrow. fold ledger. rewrite ledger_row. vm_compute. reflexivity.
Defined.

Lemma normalizeIPs_canonical_witness :
  normalizeIPs ["10.0.0.2"; "::ffff:10.0.0.1"; "10.0.0.2"] = Ok ["10.0.0.1"; "10.0.0.2"] /\
  StronglySorted String.le ["10.0.0.1"; "10.0.0.2"].
Proof.
  assert (normalizeIPs ["10.0.0.2"; "::ffff:10.0.0.1"; "10.0.0.2"] = Ok ["10.0.0.1"; "10.0.0.2"]) as Hn
    by (vm_compute; reflexivity).
  split; [exact Hn|]. exact (proj1 (normalizeIPs_canonical _ _ Hn)).
Defined.

End clients_example.
