(* ===== verification/Listeners.v ===== *)
(** * Listener counters ([internal/state/sqlite/listeners.go])

    The same cumulative ledger per listener, without quotas. *)
From S2P Require Import Prelude GoStrings Protocol Store.

(** ** Operations *)

Definition freshListener (atMS : Z) : ListenerRuntime := MkListenerRuntime false 0 0 0 atMS.

Definition EnsureListener (db : DB) (key : string) (atMS : Z) : res error DB :=
  if decide (key = "" \/ atMS < 0) then Err (Errorf "listener key and non-negative timestamp are required") else
  match listener_runtime db !! key with
  | None => put_listener key (freshListener atMS) db
  | Some _ => Ok db
  end.

(** [Store.Listener] and the read inside the counter update. *)
Definition Listener (db : DB) (key : string) : res error ListenerRuntime :=
  match listener_runtime db !! key with
  | Some l => Ok l
  | None => Err ErrNotFound
  end.

Definition Listeners (db : DB) : list (string * ListenerRuntime) :=
  omap (fun k => pair k <$> listener_runtime db !! k) (sorted_keys (listener_runtime db)).

Definition setListenerCounters (update : ListenerCounterUpdate) (atMS : Z) : ListenerRuntime :=
  MkListenerRuntime (LUPresent update) (LUUpBytes update) (LUDownBytes update) (LUCounterEpoch update) atMS.

Definition applyListenerCounter (db : DB) (update : ListenerCounterUpdate) (atMS : Z) : res error DB :=
  if decide (LUKey update = "" \/ LUUpBytes update < 0 \/ LUDownBytes update < 0 \/ atMS < 0)
  then Err (Errorf "listener counter update has invalid key, bytes, or timestamp") else
  current ← Listener db (LUKey update);
  if decide (LUCounterEpoch update < LCounterEpoch current \/
             (LUCounterEpoch update = LCounterEpoch current /\
              (LUUpBytes update < LUpBytes current \/ LUDownBytes update < LDownBytes current)))
  then Err ErrCounterRollback else
  put_listener (LUKey update) (setListenerCounters update atMS) db.

Definition UpdateListenerCounters (db : DB) (update : ListenerCounterUpdate) (atMS : Z) : res error DB :=
  applyListenerCounter db update atMS.

Definition DeleteListener (db : DB) (key : string) : res error DB :=
  if decide (key = "") then Err (Errorf "listener key is required") else
  Ok (set_listener_runtime (delete key (listener_runtime db))
       (set_object_status (delete (StreamConfig, key) (object_status db)) db)).

(** ** Lemmas *)

(** The update as a function of the stored row alone. *)
Definition listenerSample (atMS : Z) (o : option ListenerRuntime) (u : ListenerCounterUpdate) : res error ListenerRuntime :=
  if decide (LUKey u = "" \/ LUUpBytes u < 0 \/ LUDownBytes u < 0 \/ atMS < 0)
  then Err (Errorf "listener counter update has invalid key, bytes, or timestamp") else
  match o with
  | None => Err ErrNotFound
  | Some current =>
      if decide (LUCounterEpoch u < LCounterEpoch current \/
             (LUCounterEpoch u = LCounterEpoch current /\
              (LUUpBytes u < LUpBytes current \/ LUDownBytes u < LDownBytes current)))
      then Err ErrCounterRollback else Ok (setListenerCounters u atMS)
  end.

Lemma applyListenerCounter_row db u atMS :
  applyListenerCounter db u atMS =
  (l ← listenerSample atMS (listener_runtime db !! LUKey u) u;
   Ok (set_listener_runtime (<[LUKey u := l]> (listener_runtime db)) db)).
Proof.
  unfold applyListenerCounter, listenerSample, Listener. case_decide as Hbad; [done|].
  destruct (listener_runtime db !! LUKey u) as [l|]; simpl; [|done]. case_decide; [done|].
  unfold put_listener. assert (listener_check (setListenerCounters u atMS) = true) as ->; [|done].
  apply bool_decide_eq_true_2. simpl. lia.
Qed.
