(* ===== verification/Counters.v ===== *)
(** * Core observations ([internal/state/sqlite/counters.go],
      [internal/state/sqlite/core_epoch.go])

    One complete sample of the core's counters is committed as one batch, in the
    counter namespace claimed for the running core process. *)
From S2P Require Import Prelude GoStrings Protocol Store Clients Listeners GoJson.

(** ** The batch *)

(** The duplicate check's loop over one slice of keys. *)
Fixpoint repeats (keys : list string) (seen : gset string) : bool :=
  match keys with
  | [] => false
  | k :: keys' => if decide (k ∈ seen) then true else repeats keys' ({[k]} ∪ seen)
  end.

Definition validateCounterBatch (batch : CounterBatch) : res error unit :=
  if repeats (UKey <$> BClients batch) ∅ then Err (Errorf "counter batch repeats client") else
  if repeats (LUKey <$> BListeners batch) ∅ then Err (Errorf "counter batch repeats listener") else
  Ok tt.

(** The two loops' bodies. *)
Definition batchClient (atMS : Z) (s : bool * DB) (update : CounterUpdate) : res error (bool * DB) :=
  let '(gateChanged, d) := s in
  '(changed, d') ← applyClientCounter d update atMS;
  Ok (gateChanged || changed, d').

Definition batchListener (atMS : Z) (d : DB) (update : ListenerCounterUpdate) : res error DB :=
  applyListenerCounter d update atMS.

(** The result is [CounterBatchResult.GateChanged]. *)
Definition ApplyCounterBatch (db : DB) (batch : CounterBatch) (atMS : Z) : res error (bool * DB) :=
  if decide (atMS < 0) then Err (Errorf "counter batch timestamp must be non-negative") else
  _ ← validateCounterBatch batch;
  '(gateChanged, d) ← res_foldl (batchClient atMS) (false, db) (BClients batch);
  d' ← res_foldl (batchListener atMS) d (BListeners batch);
  Ok (gateChanged, d').

(** ** The counter namespace *)

(** [binary.BigEndian.Uint64(seed) & ((1 << 62) - 1) + 1]; [seed] is the value
    of the eight bytes [rand.Read] produced. *)
Definition seedEpoch (seed : Z) : Z := Z.land seed (Z.shiftl 1 62 - 1) + 1.

Definition ClaimCoreCounterEpoch (seed : Z) (db : DB) (processIdentity : string) : res error (Z * DB) :=
  if decide (TrimSpace processIdentity = "" \/ 512 < len processIdentity)
  then Err (Errorf "core process identity must contain 1..512 bytes") else
  match core_counter_epoch db with
  | None =>
      let epoch := seedEpoch seed in
      Ok (epoch, set_core_counter_epoch (Some (processIdentity, epoch)) db)
  | Some (currentIdentity, epoch) =>
      if decide (epoch = 0) then Err (Errorf "stored core counter epoch is zero") else
      if decide (currentIdentity = processIdentity) then Ok (epoch, db) else
      if decide (epoch = max_uint64) then Err (Errorf "core counter epoch exhausted") else
      Ok (epoch + 1, set_core_counter_epoch (Some (processIdentity, epoch + 1)) db)
  end.

(** ** Independent row writes *)

Section row_writes.
Context {E R U : Type} (key : U -> string) (row : option R -> U -> res E R).

Definition write_row (m : gmap string R) (u : U) : res E (gmap string R) :=
  r ← row (m !! key u) u; Ok (<[key u := r]> m).

(** A loop of row writes under distinct keys succeeds exactly when each write
    would succeed alone on the initial table, and writes exactly those rows. *)
Lemma row_writes_spec us : forall m,
  NoDup (key <$> us) ->
  (is_Ok (res_foldl write_row m us) = true <-> Forall (fun u => is_Ok (row (m !! key u) u) = true) us) /\
  forall m', res_foldl write_row m us = Ok m' ->
    (forall u, u ∈ us -> exists r, row (m !! key u) u = Ok r /\ m' !! key u = Some r) /\
    (forall k, k ∉ key <$> us -> m' !! k = m !! k).
Proof.
  induction us as [|u us IH]; intros m Hnd; simpl.
  { split; [by split; intros; [constructor|]|]. intros m' [= <-]. split; [set_solver|done]. }
  apply NoDup_cons in Hnd as [Hu Hnd].
  assert (write_row m u = (r ← row (m !! key u) u; Ok (<[key u := r]> m))) as -> by done.
  destruct (row (m !! key u) u) as [r|e] eqn:Hr; simpl.
  2: { split; [|done]. split; [done|]. intros Hf%Forall_cons. rewrite Hr in Hf. naive_solver. }
  assert (forall v, v ∈ us -> (<[key u := r]> m) !! key v = m !! key v) as Hsame.
  { intros v Hv. rewrite lookup_insert_ne; [done|]. intros Heq. apply Hu. rewrite Heq. by apply list_elem_of_fmap_2. }
  destruct (IH (<[key u := r]> m) Hnd) as [Hok Hrows]. split.
  - rewrite Hok, Forall_cons, Hr, !Forall_forall. split.
    + intros Hf. split; [done|]. intros v Hv. rewrite <-(Hsame v Hv). by apply Hf.
    + intros [_ Hf] v Hv. rewrite (Hsame v Hv). by apply Hf.
  - intros m' Hm'. destruct (Hrows m' Hm') as [Hin Hout]. split.
    + intros v [->|Hv]%elem_of_cons.
      * exists r. split; [done|]. rewrite Hout by done. by rewrite lookup_insert_eq.
      * destruct (Hin v Hv) as (r' & Hr' & ?). rewrite Hsame in Hr' by done. eauto.
    + intros k Hk. rewrite Hout by set_solver. rewrite lookup_insert_ne; [done|]. set_solver.
Qed.

End row_writes.

(** ** The batch as independent row writes *)

(** A client update as a function of the stored row alone. *)
Definition clientSample (atMS : Z) (o : option ClientRuntime) (u : CounterUpdate) : res error ClientRuntime :=
  if decide (UKey u = "" \/ UUpBytes u < 0 \/ UDownBytes u < 0 \/ atMS < 0)
  then Err (Errorf "counter update has invalid key, bytes, or timestamp") else
  match o with
  | None => Err ErrNotFound
  | Some c =>
      if decide (UCounterEpoch u < CounterEpoch c \/
                 (UCounterEpoch u = CounterEpoch c /\ (UUpBytes u < UpBytes c \/ UDownBytes u < DownBytes c)))
      then Err ErrCounterRollback else
      gate ← deriveGate (UUpBytes u) (UDownBytes u) (BaselineBytes c) (HeadroomBytes c);
      ips ← normalizeIPs (ULiveIPs u);
      let c' := setCounters c u gate (json_string <$> ips) atMS in
      if client_check c' then Ok c' else Err ErrConstraint
  end.

Definition gateOf (m : gmap string ClientRuntime) (k : string) : option GateState := Gate <$> m !! k.

Lemma applyClientCounter_row db u atMS :
  applyClientCounter db u atMS =
  (c' ← clientSample atMS (client_runtime db !! UKey u) u;
   Ok (negb (bool_decide (Some (Gate c') = gateOf (client_runtime db) (UKey u))),
       set_client_runtime (<[UKey u := c']> (client_runtime db)) db)).
Proof.
  unfold applyClientCounter, clientSample, Client, gateOf. case_decide; [done|].
  destruct (client_runtime db !! UKey u) as [c|]; simpl; [|done]. case_decide; [done|].
  destruct (deriveGate _ _ _ _) as [gate|]; simpl; [|done].
  destruct (normalizeIPs _) as [ips|]; simpl; [|done].
  unfold put_client. destruct (client_check _); simpl; [|done].
  do 3 f_equal. apply bool_decide_ext. split; [by intros ->|by intros [= ->]].
Qed.

Lemma set_client_runtime_id db : set_client_runtime (client_runtime db) db = db.
Proof. by destruct db. Qed.

Lemma set_listener_runtime_id db : set_listener_runtime (listener_runtime db) db = db.
Proof. by destruct db. Qed.

Lemma batchClient_loop atMS us : forall b db,
  NoDup (UKey <$> us) ->
  match res_foldl (write_row UKey (clientSample atMS)) (client_runtime db) us with
  | Err e => res_foldl (batchClient atMS) (b, db) us = Err e
  | Ok m => exists b', res_foldl (batchClient atMS) (b, db) us = Ok (b', set_client_runtime m db) /\
              (b' = true <-> b = true \/ exists k, gateOf (client_runtime db) k <> gateOf m k)
  end.
Proof.
  induction us as [|u us IH]; intros b db Hnd; simpl.
  { exists b. rewrite set_client_runtime_id. split; [done|]. naive_solver. }
  apply NoDup_cons in Hnd as [Hu Hnd]. rewrite applyClientCounter_row.
  assert (write_row UKey (clientSample atMS) (client_runtime db) u =
    (r ← clientSample atMS (client_runtime db !! UKey u) u; Ok (<[UKey u := r]> (client_runtime db)))) as -> by done.
  destruct (clientSample atMS (client_runtime db !! UKey u) u) as [c'|e]; simpl; [|done].
  set (db1 := set_client_runtime (<[UKey u := c']> (client_runtime db)) db).
  set (ch := negb _). specialize (IH (b || ch) db1 Hnd). change (client_runtime db1) with (<[UKey u := c']> (client_runtime db)) in IH.
  destruct (res_foldl (write_row UKey (clientSample atMS)) (<[UKey u := c']> (client_runtime db)) us) as [m|e] eqn:Hm; [|done].
  destruct IH as (b' & -> & Hb'). exists b'. split; [done|].
  assert (gateOf m (UKey u) = Some (Gate c')) as Hgu.
  { destruct (row_writes_spec UKey (clientSample atMS) us (<[UKey u := c']> (client_runtime db)) Hnd) as [_ Hr].
    destruct (Hr m Hm) as [_ Hout]. unfold gateOf. rewrite Hout by done. by rewrite lookup_insert_eq. }
  assert (ch = true <-> gateOf (client_runtime db) (UKey u) <> gateOf m (UKey u)) as Hch.
  { unfold ch. rewrite negb_true_iff, bool_decide_eq_false, Hgu. naive_solver. }
  rewrite Hb', orb_true_iff, Hch. split.
  - intros [[?|?]|[k Hk]]; [by left|by right; eauto|]. destruct (decide (k = UKey u)) as [->|Hne].
    + unfold gateOf in Hk at 1. rewrite lookup_insert_eq in Hk. by rewrite Hgu in Hk.
    + right. exists k. unfold gateOf in Hk at 1. by rewrite lookup_insert_ne in Hk.
  - intros [?|[k Hk]]; [by left; left|]. destruct (decide (k = UKey u)) as [->|Hne]; [by left; right|].
    right. exists k. unfold gateOf at 1. by rewrite lookup_insert_ne.
Qed.

Lemma batchListener_loop atMS us : forall db,
  res_foldl (batchListener atMS) db us =
  (m ← res_foldl (write_row LUKey (listenerSample atMS)) (listener_runtime db) us; Ok (set_listener_runtime m db)).
Proof.
  induction us as [|u us IH]; intros db; simpl; [by rewrite set_listener_runtime_id|].
  change (batchListener atMS db u) with (applyListenerCounter db u atMS). rewrite applyListenerCounter_row.
  assert (write_row LUKey (listenerSample atMS) (listener_runtime db) u =
    (r ← listenerSample atMS (listener_runtime db !! LUKey u) u; Ok (<[LUKey u := r]> (listener_runtime db)))) as -> by done.
  destruct (listenerSample atMS (listener_runtime db !! LUKey u) u); simpl; [|done]. by rewrite IH.
Qed.

Lemma repeats_spec keys : forall seen,
  repeats keys seen = false <-> NoDup keys /\ forall k, k ∈ keys -> k ∉ seen.
Proof.
  induction keys as [|k keys IH]; intros seen; simpl; [split; [split; [constructor|set_solver]|done]|].
  rewrite NoDup_cons. case_decide as Hk; [split; [done|]; set_solver|]. rewrite IH. set_solver.
Qed.

Lemma validateCounterBatch_spec batch :
  validateCounterBatch batch = Ok tt <-> NoDup (UKey <$> BClients batch) /\ NoDup (LUKey <$> BListeners batch).
Proof.
  unfold validateCounterBatch. pose proof (repeats_spec (UKey <$> BClients batch) ∅) as H1.
  pose proof (repeats_spec (LUKey <$> BListeners batch) ∅) as H2.
  destruct (repeats (UKey <$> BClients batch) ∅).
  { split; [done|]. intros [? _]. assert (true = false) by (apply H1; split; [done|set_solver]). done. }
  destruct (repeats (LUKey <$> BListeners batch) ∅).
  { split; [done|]. intros [_ ?]. assert (true = false) by (apply H2; split; [done|set_solver]). done. }
  naive_solver.
Qed.

(** The batch past its guards, or its refusal. *)
Lemma ApplyCounterBatch_guards db batch atMS :
  ApplyCounterBatch db batch atMS =
    ('(ch, d) ← res_foldl (batchClient atMS) (false, db) (BClients batch);
     d' ← res_foldl (batchListener atMS) d (BListeners batch); Ok (ch, d')) /\
  0 ≤ atMS /\ NoDup (UKey <$> BClients batch) /\ NoDup (LUKey <$> BListeners batch) \/
  is_Ok (ApplyCounterBatch db batch atMS) = false /\
  ~ (0 ≤ atMS /\ NoDup (UKey <$> BClients batch) /\ NoDup (LUKey <$> BListeners batch)).
Proof.
  unfold ApplyCounterBatch. case_decide; [right; split; [done|lia]|].
  destruct (validateCounterBatch batch) as [[]|] eqn:Hv.
  - apply validateCounterBatch_spec in Hv as [? ?]. left. split; [done|]. split; [lia|done].
  - right. split; [done|]. intros (_ & Hn). apply validateCounterBatch_spec in Hn. congruence.
Qed.

Lemma UpdateCounters_row db u atMS :
  UpdateCounters db u atMS =
  (c' ← clientSample atMS (client_runtime db !! UKey u) u;
   Ok (set_client_runtime (<[UKey u := c']> (client_runtime db)) db)).
Proof. unfold UpdateCounters. rewrite applyClientCounter_row. by destruct (clientSample _ _ _). Qed.

(** An accepted batch: the two tables its loops produce. *)
Lemma ApplyCounterBatch_Ok db batch atMS changed db' :
  ApplyCounterBatch db batch atMS = Ok (changed, db') ->
  exists clients listeners,
    NoDup (UKey <$> BClients batch) /\ NoDup (LUKey <$> BListeners batch) /\
    res_foldl (write_row UKey (clientSample atMS)) (client_runtime db) (BClients batch) = Ok clients /\
    res_foldl (write_row LUKey (listenerSample atMS)) (listener_runtime db) (BListeners batch) = Ok listeners /\
    db' = set_listener_runtime listeners (set_client_runtime clients db) /\
    (changed = true <-> exists k, gateOf (client_runtime db) k <> gateOf clients k).
Proof.
  intros Hr. destruct (ApplyCounterBatch_guards db batch atMS) as [(He & _ & Hnc & Hnl)|[Hno _]]; [|by rewrite Hr in Hno].
  rewrite He in Hr. pose proof (batchClient_loop atMS (BClients batch) false db Hnc) as Hloop.
  destruct (res_foldl (write_row UKey _) _ _) as [m|e]; [destruct Hloop as (b & Hb & Hg)|rewrite Hloop in Hr; done].
  rewrite Hb in Hr. cbn [mbind res_bind] in Hr. rewrite batchListener_loop in Hr. change (listener_runtime (set_client_runtime m db)) with (listener_runtime db) in Hr.
  destruct (res_foldl (write_row LUKey _) _ _) as [l|e]; cbn [mbind res_bind] in Hr; [|done]. injection Hr as <- <-.
  exists m, l. split_and!; try done. rewrite Hg. naive_solver.
Qed.

(** It writes the two ledgers and nothing else. *)
Lemma ApplyCounterBatch_frame db batch atMS changed db' :
  ApplyCounterBatch db batch atMS = Ok (changed, db') ->
  db' = set_listener_runtime (listener_runtime db') (set_client_runtime (client_runtime db') db).
Proof. by intros (m & l & _ & _ & _ & _ & -> & _)%ApplyCounterBatch_Ok. Qed.

Lemma ApplyCounterBatch_gates db batch atMS changed db' :
  ApplyCounterBatch db batch atMS = Ok (changed, db') ->
  changed = true <-> exists k, gateOf (client_runtime db) k <> gateOf (client_runtime db') k.
Proof. by intros (m & l & _ & _ & _ & _ & -> & Hg)%ApplyCounterBatch_Ok. Qed.

Lemma ApplyCounterBatch_client db batch atMS changed db' u :
  ApplyCounterBatch db batch atMS = Ok (changed, db') -> u ∈ BClients batch ->
  exists row, client_runtime db' !! UKey u = Some row /\ UpBytes row = UUpBytes u /\ DownBytes row = UDownBytes u.
Proof.
  intros (m & l & Hn & _ & Hm & _ & -> & _)%ApplyCounterBatch_Ok Hu.
  destruct (row_writes_spec UKey (clientSample atMS) _ (client_runtime db) Hn) as [_ Hw]. destruct (Hw m Hm) as [Hin _].
  destruct (Hin u Hu) as (row & Hs & Hrow). exists row. split; [done|]. unfold clientSample in Hs. case_decide; [done|].
  destruct (client_runtime db !! UKey u); [|done]. case_decide; [done|]. apply bind_Ok in Hs as (gate & _ & Hs).
  apply bind_Ok in Hs as (ips & _ & Hs). destruct (client_check _); [|done]. by injection Hs as <-.
Qed.

(** ** Properties *)

(** C35. One core observation is atomic and unordered.  The batch succeeds
    exactly when its keys are distinct and each of its updates, alone on the
    stored state, would; then each row is what its own update alone would have
    written, no other row changes, and the result says whether any client's
    gate differs from before.  One bad row keeps every other row out. *)
Theorem counter_batch_atomic db batch atMS :
  (is_Ok (ApplyCounterBatch db batch atMS) = true <->
     0 ≤ atMS /\ NoDup (UKey <$> BClients batch) /\ NoDup (LUKey <$> BListeners batch) /\
     Forall (fun u => is_Ok (UpdateCounters db u atMS) = true) (BClients batch) /\
     Forall (fun u => is_Ok (UpdateListenerCounters db u atMS) = true) (BListeners batch)) /\
  forall changed db', ApplyCounterBatch db batch atMS = Ok (changed, db') ->
    (forall u, u ∈ BClients batch -> exists d, UpdateCounters db u atMS = Ok d /\
       client_runtime db' !! UKey u = client_runtime d !! UKey u) /\
    (forall u, u ∈ BListeners batch -> exists d, UpdateListenerCounters db u atMS = Ok d /\
       listener_runtime db' !! LUKey u = listener_runtime d !! LUKey u) /\
    (forall k, k ∉ UKey <$> BClients batch -> client_runtime db' !! k = client_runtime db !! k) /\
    (forall k, k ∉ LUKey <$> BListeners batch -> listener_runtime db' !! k = listener_runtime db !! k) /\
    (changed = true <-> exists k, gateOf (client_runtime db) k <> gateOf (client_runtime db') k).
Proof.
  destruct (ApplyCounterBatch_guards db batch atMS) as [(-> & Hat & Hnc & Hnl)|[Hno Hbad]].
  2: { rewrite Hno. split; [split; [done|tauto]|]. intros ch db' Hr. by rewrite Hr in Hno. }
  pose proof (row_writes_spec UKey (clientSample atMS) (BClients batch) (client_runtime db) Hnc) as [Hc1 Hc2].
  pose proof (row_writes_spec LUKey (listenerSample atMS) (BListeners batch) (listener_runtime db) Hnl) as [Hl1 Hl2].
  pose proof (batchClient_loop atMS (BClients batch) false db Hnc) as Hloop.
  assert (Forall (fun u => is_Ok (UpdateCounters db u atMS) = true) (BClients batch) <->
          Forall (fun u => is_Ok (clientSample atMS (client_runtime db !! UKey u) u) = true) (BClients batch)) as ->.
  { apply Forall_iff. intros u. rewrite UpdateCounters_row. by destruct (clientSample _ _ _). }
  assert (Forall (fun u => is_Ok (UpdateListenerCounters db u atMS) = true) (BListeners batch) <->
          Forall (fun u => is_Ok (listenerSample atMS (listener_runtime db !! LUKey u) u) = true) (BListeners batch)) as ->.
  { apply Forall_iff. intros u. unfold UpdateListenerCounters. rewrite applyListenerCounter_row.
    by destruct (listenerSample _ _ _). }
  rewrite <-Hc1, <-Hl1. clear Hc1 Hl1.
  destruct (res_foldl (write_row UKey (clientSample atMS)) _ _) as [m|e]; simpl.
  2: { rewrite Hloop. split; [naive_solver|]. by intros. }
  destruct Hloop as (b' & -> & Hb'). simpl. rewrite batchListener_loop. simpl.
  destruct (res_foldl (write_row LUKey (listenerSample atMS)) _ _) as [lm|e]; simpl.
  2: { split; [naive_solver|]. by intros. }
  split; [done|]. intros ch db' [= <- <-]. simpl.
  destruct (Hc2 m eq_refl) as [Hin Hout]. destruct (Hl2 lm eq_refl) as [Hlin Hlout].
  split_and!; [| |done|done|by rewrite Hb'; naive_solver].
  - intros u Hu. destruct (Hin u Hu) as (r & Hr & Hm). rewrite UpdateCounters_row, Hr. simpl. eexists. split; [done|].
    simpl. by rewrite lookup_insert_eq.
  - intros u Hu. destruct (Hlin u Hu) as (r & Hr & Hm). unfold UpdateListenerCounters.
    rewrite applyListenerCounter_row, Hr. simpl. eexists. split; [done|]. simpl. by rewrite lookup_insert_eq.
Qed.

(** ** Counter namespaces *)

Definition epoch_row_ok (db : DB) : Prop :=
  match core_counter_epoch db with Some (_, e) => 0 < e ≤ max_uint64 | None => True end.

(** A sequence of claims, each with the randomness it would draw; a refused one
    changes nothing. *)
Definition claims (db : DB) (cs : list (Z * string)) : DB :=
  foldl (fun d '(seed, p) => match ClaimCoreCounterEpoch seed d p with Ok (_, d') => d' | Err _ => d end) db cs.

Lemma seedEpoch_range seed : 1 ≤ seedEpoch seed ≤ 2 ^ 62.
Proof.
  unfold seedEpoch. change (Z.shiftl 1 62 - 1) with (Z.ones 62). rewrite Z.land_ones by lia.
  pose proof (Z.mod_pos_bound seed (2 ^ 62)). lia.
Qed.

Lemma claim_Ok seed db p e db' :
  epoch_row_ok db -> ClaimCoreCounterEpoch seed db p = Ok (e, db') ->
  0 < e ≤ max_uint64 /\ core_counter_epoch db' = Some (p, e) /\
  forall q f, core_counter_epoch db = Some (q, f) -> if decide (q = p) then e = f /\ db' = db else e = f + 1.
Proof.
  unfold epoch_row_ok, ClaimCoreCounterEpoch. intros Hok. case_decide; [done|].
  destruct (core_counter_epoch db) as [[q f]|] eqn:Hrow.
  - case_decide; [done|]. case_decide as Hq.
    + intros [= -> ->]. subst. split_and!; try done; [lia|lia|]. intros ? ? [= <- <-]. by rewrite decide_True.
    + case_decide; [done|]. intros [= <- <-]. split_and!; try done; [lia|unfold max_uint64 in *; lia|].
      intros ? ? [= <- <-]. by rewrite decide_False.
  - intros [= <- <-]. pose proof (seedEpoch_range seed). split_and!; try done; [lia|unfold max_uint64; lia].
Qed.

Lemma claims_monotone cs : forall db q f,
  epoch_row_ok db -> core_counter_epoch db = Some (q, f) ->
  epoch_row_ok (claims db cs) /\
  exists q' f', core_counter_epoch (claims db cs) = Some (q', f') /\ f ≤ f' /\ (f' = f -> q' = q).
Proof.
  induction cs as [|[seed p] cs IH]; intros db q f Hok Hrow; simpl; [naive_solver|].
  destruct (ClaimCoreCounterEpoch seed db p) as [[e d]|] eqn:Hc; [|by apply IH].
  apply claim_Ok in Hc as (He & Hd & Hrel); [|done]. specialize (Hrel q f Hrow).
  assert (epoch_row_ok d) as Hdok by (unfold epoch_row_ok; by rewrite Hd).
  destruct (IH d p e Hdok Hd) as (? & q' & f' & Hr' & Hle & Heq). split; [done|]. exists q', f'. split; [done|].
  case_decide; [destruct Hrel as [-> ->]; subst; naive_solver|]. split; [lia|]. intros. lia.
Qed.

(** Counter namespaces are claimed in increasing order: a claim that
    succeeds returns a positive uint64 and repeating it at once returns the same
    one; a later claim, whatever claims came between, never returns a smaller
    epoch, and returns a strictly larger one when it is made by another process.
    A fresh store draws from 1..2^62. *)
Theorem counter_epochs_increase seed db p e db' cs seed' p' e' db'' :
  epoch_row_ok db -> ClaimCoreCounterEpoch seed db p = Ok (e, db') ->
  ClaimCoreCounterEpoch seed' (claims db' cs) p' = Ok (e', db'') ->
  0 < e ≤ e' /\ e' ≤ max_uint64 /\ (p <> p' -> e < e') /\
  (forall s, ClaimCoreCounterEpoch s db' p = Ok (e, db')) /\
  (core_counter_epoch db = None -> e ≤ 2 ^ 62).
Proof.
  intros Hok H1 H2. pose proof (claim_Ok _ _ _ _ _ Hok H1) as (He & Hrow & _).
  assert (epoch_row_ok db') as Hok' by (unfold epoch_row_ok; by rewrite Hrow).
  destruct (claims_monotone cs db' p e Hok' Hrow) as (Hok2 & q & f & Hq & Hle & Hsame).
  pose proof (claim_Ok _ _ _ _ _ Hok2 H2) as (He' & _ & Hrel). specialize (Hrel q f Hq).
  split_and!; try lia.
  - case_decide; lia.
  - intros Hne. case_decide as Hqp; [|lia]. destruct Hrel as [-> _].
    destruct (decide (f = e)) as [Hfe|]; [|lia]. specialize (Hsame Hfe). congruence.
  - clear Hrel. intros s. unfold ClaimCoreCounterEpoch in H1 |- *. case_decide; [done|]. rewrite Hrow.
    rewrite decide_False by lia. by rewrite decide_True.
  - clear Hrel. intros Hn. unfold ClaimCoreCounterEpoch in H1. case_decide; [done|]. rewrite Hn in H1. simplify_eq.
    apply seedEpoch_range.
Qed.

Lemma counter_epochs_increase_witness :
  let first := set_core_counter_epoch (Some ("pid:1", 42)) empty_db in
  let third := set_core_counter_epoch (Some ("pid:3", 44)) empty_db in
  ClaimCoreCounterEpoch 41 empty_db "pid:1" = Ok (42, first) /\
  ClaimCoreCounterEpoch 0 (claims first [(0, "pid:2")]) "pid:3" = Ok (44, third) /\ 42 < 44.
Proof.
  intros first third.
  assert (ClaimCoreCounterEpoch 41 empty_db "pid:1" = Ok (42, first)) as H1 by (vm_compute; reflexivity).
  assert (ClaimCoreCounterEpoch 0 (claims first [(0, "pid:2")]) "pid:3" = Ok (44, third)) as H3 by (vm_compute; reflexivity).
  split; [exact H1|]. split; [exact H3|].
  apply (counter_epochs_increase 41 empty_db "pid:1" 42 first [(0, "pid:2")] 0 "pid:3" 44 third I H1 H3). discriminate.
Defined.
