(* ===== verification/Outbox.v ===== *)
(** * Report outbox ([internal/state/sqlite/outbox.go],
      [internal/state/sqlite/diagnostics.go])

    Issues and task results wait here until a sync response acknowledges them.
    Rows get increasing ids; a dedupe key is unique per kind. *)
From S2P Require Import Prelude GoStrings Protocol Store.

Definition maxOutboxBatch : Z := 1000.

(** ** Rows *)

Definition outbox_is (kind : OutboxKind) (dedupe : string) (r : OutboxRow) : Prop :=
  obKind r = kind /\ obDedupe r = dedupe.

#[global] Instance outbox_is_dec kind dedupe r : Decision (outbox_is kind dedupe r).
Proof. unfold outbox_is. apply _. Defined.

(** [SELECT ... WHERE kind = ? AND dedupe_key = ?]. *)
Definition outbox_find (kind : OutboxKind) (dedupe : string) (rows : list OutboxRow) : option OutboxRow :=
  head (filter (outbox_is kind dedupe) rows).

Definition setObDelivered (b : bool) (r : OutboxRow) : OutboxRow :=
  MkOutboxRow (obID r) (obKind r) (obDedupe r) (obPayload r) (obCreatedAtMS r) b.

Definition setResultDelivered (b : bool) (t : TaskExecution) : TaskExecution :=
  MkTaskExecution (XID t) (XKind t) (XArgs t) (XInputSHA256 t) (XNotAfterMS t) (XClaimToken t) (XState t)
    (XResult t) (XErrorCode t) (XError t) (XReceivedAtMS t) (XStartedAtMS t) (XFinishedAtMS t) b.

(** [INSERT INTO report_outbox ... delivered 0] under the next AUTOINCREMENT id. *)
Definition outbox_insert (kind : OutboxKind) (dedupe payload : string) (atMS : Z) (db : DB) : DB :=
  let id := outbox_seq db + 1 in
  set_outbox_seq id (set_report_outbox (report_outbox db ++ [MkOutboxRow id kind dedupe payload atMS false]) db).

(** ** Operations *)

Definition enqueue (db : DB) (kind : OutboxKind) (dedupeKey body : string) (atMS : Z) : res error (bool * DB) :=
  match outbox_find kind dedupeKey (report_outbox db) with
  | Some _ => Ok (false, db)
  | None => Ok (true, outbox_insert kind dedupeKey body atMS db)
  end.

(** [OutboxPending] and [TasksQueued] of the diagnostics. *)
Definition OutboxPending (db : DB) : Z :=
  Z.of_nat (length (filter (fun r => obDelivered r = false) (report_outbox db))).

Definition TasksQueued (db : DB) : Z :=
  Z.of_nat (size (filter (fun kv => XState kv.2 = TaskReceived \/ XState kv.2 = TaskRunning) (task_executions db))).

(** The order of the pending scan: results first, then age, then id. *)
Definition pending_le (a b : OutboxRow) : Prop :=
  let rank r := if decide (obKind r = outboxTaskResult) then 0 else 1 in
  rank a < rank b \/ (rank a = rank b /\
    (obCreatedAtMS a < obCreatedAtMS b \/ (obCreatedAtMS a = obCreatedAtMS b /\ obID a ≤ obID b))).

#[global] Instance pending_le_dec a b : Decision (pending_le a b).
Proof. unfold pending_le. apply _. Defined.

Record OutboxBatch := MkOutboxBatch {
  batchIDs : list Z;
  batchIssues : list Issue;
  batchTaskResults : list TaskResult
}.

Section outbox.
Context `{Protocol}.

Definition EnqueueIssue (db : DB) (dedupeKey : string) (issue : Issue) (atMS : Z) : res error (bool * DB) :=
  if decide (TrimSpace dedupeKey = "" \/ TrimSpace (ICode issue) = "" \/ atMS < 0)
  then Err (Errorf "issue requires a dedupe key, code, and non-negative timestamp") else
  if decide (MaxIssueCodeBytes < len (ICode issue) \/ MaxIssueKeyBytes < len (IKey issue) \/
             MaxIssueDetailBytes < len (IDetail issue))
  then Err (Errorf "issue exceeds protocol field size limits") else
  enqueue db outboxIssue dedupeKey (MarshalIssue issue) atMS.

(** One row of the scan; the second component is [taskResultBytes]. *)
Definition pendingStep (s : OutboxBatch * Z) (r : OutboxRow) : res error (OutboxBatch * Z) :=
  let '(batch, taskResultBytes) := s in
  match obKind r with
  | outboxIssue =>
      if decide (MaxIssuesPerReport ≤ Z.of_nat (length (batchIssues batch))) then Ok s else
      match UnmarshalIssue (obPayload r) with
      | None => Err (Errorf "decode issue outbox row")
      | Some issue =>
          Ok (MkOutboxBatch (batchIDs batch ++ [obID r]) (batchIssues batch ++ [issue]) (batchTaskResults batch),
              taskResultBytes)
      end
  | outboxTaskResult =>
      if decide (MaxTaskResultsPerReport ≤ Z.of_nat (length (batchTaskResults batch))) then Ok s else
      match UnmarshalTaskResult (obPayload r) with
      | None => Err (Errorf "decode task result outbox row")
      | Some result =>
          if decide (MaxTaskResultBytesPerReport - taskResultBytes < len (RResult result)) then Ok s else
          Ok (MkOutboxBatch (batchIDs batch ++ [obID r]) (batchIssues batch) (batchTaskResults batch ++ [result]),
              taskResultBytes + len (RResult result))
      end
  end.

Definition pendingRows (db : DB) (limit : Z) : list OutboxRow :=
  firstn (Z.to_nat limit) (merge_sort pending_le (filter (fun r => obDelivered r = false) (report_outbox db))).

Definition PendingOutbox (db : DB) (limit : Z) : res error OutboxBatch :=
  if decide (limit ≤ 0 \/ maxOutboxBatch < limit) then Err (Errorf "outbox limit must be between 1 and 1000") else
  '(batch, _) ← res_foldl pendingStep (MkOutboxBatch [] [] [], 0) (pendingRows db limit);
  Ok batch.

(** One acknowledged id: flag the row, flag its journalled task, drop the copy
    the journal already holds. *)
Definition ackOne (db : DB) (id : Z) : res error DB :=
  if decide (id ≤ 0) then Err (Errorf "outbox id must be positive") else
  let flagged := (fun r => if decide (obID r = id) then setObDelivered true r else r) <$> report_outbox db in
  let tasks := match head (filter (fun r => obID r = id /\ obKind r = outboxTaskResult) flagged) with
               | Some r => alter (setResultDelivered true) (obDedupe r) (task_executions db)
               | None => task_executions db
               end in
  let kept := filter (fun r => ~ (obID r = id /\ obKind r = outboxTaskResult /\ is_Some (tasks !! obDedupe r))) flagged in
  Ok (set_task_executions tasks (set_report_outbox kept db)).

Definition AckOutbox (db : DB) (ids : list Z) : res error DB := res_foldl ackOne db ids.

End outbox.

(** ** Lemmas *)

Lemma outbox_find_Some kind dedupe rows r :
  outbox_find kind dedupe rows = Some r -> r ∈ rows /\ outbox_is kind dedupe r.
Proof. apply head_filter_elem. Qed.

Lemma outbox_find_None kind dedupe rows :
  outbox_find kind dedupe rows = None <-> forall r, r ∈ rows -> ~ outbox_is kind dedupe r.
Proof. apply head_filter_None. Qed.

(** *** The outbox table's own constraints *)

Definition ob_key (r : OutboxRow) : OutboxKind * string := (obKind r, obDedupe r).

Record outbox_wf (rows : list OutboxRow) (seq : Z) : Prop := {
  ow_seq : 0 ≤ seq;
  ow_ids : Forall (fun r => 0 < obID r ≤ seq) rows;
  ow_ids_nodup : NoDup (obID <$> rows);
  ow_keys_nodup : NoDup (ob_key <$> rows)
}.

Lemma outbox_wf_insert kind dedupe payload atMS db :
  outbox_wf (report_outbox db) (outbox_seq db) ->
  (forall r, r ∈ report_outbox db -> ~ outbox_is kind dedupe r) ->
  outbox_wf (report_outbox (outbox_insert kind dedupe payload atMS db)) (outbox_seq (outbox_insert kind dedupe payload atMS db)).
Proof.
  intros [Hs Hi Hn Hk] Hno. unfold outbox_insert. simpl. split.
  - lia.
  - apply Forall_app. split; [|by constructor; [simpl; lia|constructor]].
    eapply Forall_impl; [exact Hi|]. simpl. lia.
  - rewrite fmap_app. simpl. apply NoDup_app. split_and!; [done| |apply NoDup_singleton].
    intros x (r & -> & Hr)%list_elem_of_fmap Hx%list_elem_of_singleton.
    rewrite Forall_forall in Hi. specialize (Hi r Hr). lia.
  - rewrite fmap_app. simpl. apply NoDup_app. split_and!; [done| |apply NoDup_singleton].
    intros x (r & -> & Hr)%list_elem_of_fmap Hx%list_elem_of_singleton.
    unfold ob_key in Hx. simplify_eq/=. by apply (Hno r Hr).
Qed.

(** Rewriting the delivered flag of some rows keeps ids and keys. *)
Lemma outbox_wf_flags (f : OutboxRow -> OutboxRow) rows seq :
  (forall r, obID (f r) = obID r /\ ob_key (f r) = ob_key r) -> outbox_wf rows seq -> outbox_wf (f <$> rows) seq.
Proof.
  intros Hf [Hs Hi Hn Hk]. split; [done|..].
  - apply Forall_fmap. eapply Forall_impl; [exact Hi|]. intros r. simpl. destruct (Hf r). lia.
  - rewrite <-list_fmap_compose. erewrite list_fmap_ext; [exact Hn|]. intros ? r _. apply Hf.
  - rewrite <-list_fmap_compose. erewrite list_fmap_ext; [exact Hk|]. intros ? r _. apply Hf.
Qed.

Lemma NoDup_fmap_filter {A B} (f : A -> B) (P : A -> Prop) `{forall x, Decision (P x)} l :
  NoDup (f <$> l) -> NoDup (f <$> filter P l).
Proof. intros Hn. eapply sublist_NoDup; [exact Hn|]. apply fmap_sublist, sublist_filter. Qed.

Lemma outbox_wf_filter (P : OutboxRow -> Prop) `{forall r, Decision (P r)} rows seq :
  outbox_wf rows seq -> outbox_wf (filter P rows) seq.
Proof.
  intros [Hs Hi Hn Hk]. split; [done|..].
  - apply Forall_forall. intros r [_ Hr]%list_elem_of_filter. by eapply Forall_forall in Hi.
  - by apply NoDup_fmap_filter.
  - by apply NoDup_fmap_filter.
Qed.
