(* ===== verification/Tasks.v ===== *)
(** * Task journal ([internal/state/sqlite/tasks.go])

    A task is accepted, claimed and completed; its result waits in the outbox
    until it is acknowledged.  A protected task carries a deadline, compared with
    an interval that contains the control plane's time. *)
From S2P Require Import Prelude GoStrings Sha256 Protocol Store Outbox.

(** ** The start clock

    [state.TaskStartClock]: [None] is the nil interface; otherwise the [n]-th
    reading, an error ([None]) or an interval. *)
Definition TaskStartClock : Type := option (nat -> option TaskTimeBounds).

(** [taskBounds(clock)] at the [n]-th reading: [None] is [valid == false]. *)
Definition taskBounds (clock : TaskStartClock) (n : nat) : option TaskTimeBounds :=
  match clock with
  | None => None
  | Some read =>
      match read n with
      | Some bounds => if ValidateBounds bounds then Some bounds else None
      | None => None
      end
  end.

(** ** Rows *)

Definition setRunning (t : TaskExecution) (atMS : Z) (token : string) : TaskExecution :=
  MkTaskExecution (XID t) (XKind t) (XArgs t) (XInputSHA256 t) (XNotAfterMS t) token TaskRunning
    (XResult t) (XErrorCode t) (XError t) (XReceivedAtMS t) atMS (XFinishedAtMS t) (XResultDelivered t).

Definition setReleased (t : TaskExecution) : TaskExecution :=
  MkTaskExecution (XID t) (XKind t) (XArgs t) (XInputSHA256 t) (XNotAfterMS t) "" TaskReceived
    (XResult t) (XErrorCode t) (XError t) (XReceivedAtMS t) 0 (XFinishedAtMS t) (XResultDelivered t).

Definition setTerminal (t : TaskExecution) (terminal : TaskState) (result errorCode error_ : string) (atMS : Z) : TaskExecution :=
  MkTaskExecution (XID t) (XKind t) (XArgs t) (XInputSHA256 t) (XNotAfterMS t) (XClaimToken t) terminal
    result errorCode error_ (XReceivedAtMS t) (XStartedAtMS t) atMS false.

Definition freshTask (task : Task) (atMS : Z) : TaskExecution :=
  MkTaskExecution (TID task) (TKind task) (TArgs task) (TInputSHA256 task) (TNotAfterMS task) "" TaskReceived
    "" "" "" atMS 0 0 false.

Definition taskByID (db : DB) (id : string) : res error TaskExecution :=
  match task_executions db !! id with
  | Some t => Ok t
  | None => Err ErrNotFound
  end.

(** [Store.Task]. *)
Definition TaskOf (db : DB) (id : string) : res error TaskExecution :=
  if decide (id = "") then Err (Errorf "task id is required") else taskByID db id.

(** [ORDER BY <time>, task_id]. *)
Definition task_le (time : TaskExecution -> Z) (a b : TaskExecution) : Prop :=
  time a < time b \/ (time a = time b /\ String.le (XID a) (XID b)).

#[global] Instance task_le_dec time a b : Decision (task_le time a b).
Proof. unfold task_le. apply _. Defined.

Definition tasks_in (db : DB) (s : TaskState) : list TaskExecution :=
  filter (fun t => XState t = s) (map_to_list (task_executions db)).*2.

Definition RunningTasks (db : DB) : list TaskExecution := merge_sort (task_le XStartedAtMS) (tasks_in db TaskRunning).

Definition received_order (db : DB) : list TaskExecution := merge_sort (task_le XReceivedAtMS) (tasks_in db TaskReceived).

(** ** Results *)

Definition taskResult (t : TaskExecution) : TaskResult :=
  MkTaskResult (XID t) (XKind t) (XInputSHA256 t) (XNotAfterMS t)
    (bool_decide (XState t = TaskSucceeded)) (bool_decide (XState t = TaskIndeterminate))
    (XResult t) (XErrorCode t) (XError t).

Definition resultMatchesState (terminal : TaskState) (result : TaskResult) : bool :=
  match terminal with
  | TaskSucceeded => ROK result && negb (RIndeterminate result)
  | TaskFailed => negb (ROK result) && negb (RIndeterminate result)
  | TaskIndeterminate => negb (ROK result) && RIndeterminate result
  | _ => false
  end.

Definition sameTerminal (current : TaskExecution) (terminal : TaskState) (result : TaskResult) : bool :=
  bool_decide (XState current = terminal /\ XResult current = RResult result /\
               XErrorCode current = RErrorCode result /\ XError current = RError result).

Definition expiredError : string := "task authorization expired before execution started".

Section tasks.
Context `{Protocol}.

Definition putImmutableTaskResult (db : DB) (id body : string) (atMS : Z) : res error DB :=
  match outbox_find outboxTaskResult id (report_outbox db) with
  | None => Ok (outbox_insert outboxTaskResult id body atMS db)
  | Some existing =>
      if decide (obPayload existing <> body) then Err ErrTaskTerminalConflict else
      Ok (set_report_outbox ((fun r => if decide (outbox_is outboxTaskResult id r) then setObDelivered false r else r)
                               <$> report_outbox db) db)
  end.

Definition rearmTaskResult (db : DB) (t : TaskExecution) (atMS : Z) : res error DB :=
  d ← putImmutableTaskResult db (XID t) (MarshalTaskResult (taskResult t)) atMS;
  Ok (set_task_executions (alter (setResultDelivered false) (XID t) (task_executions d)) d).

(** ** Acceptance *)

Record TaskAcceptance := MkTaskAcceptance {
  WorkAvailable : bool;
  ResultAvailable : bool;
  ReplayFenced : list Task
}.

(** One task of the loop; the last component counts the readings of the clock. *)
Definition acceptOne (clock : TaskStartClock) (atMS : Z) (s : TaskAcceptance * DB * nat) (task : Task)
    : res error (TaskAcceptance * DB * nat) :=
  let '(accepted, d, n) := s in
  match task_executions d !! TID task with
  | None =>
      let insert n' :=
        d' ← put_task (freshTask task atMS) d;
        Ok (MkTaskAcceptance true (ResultAvailable accepted) (ReplayFenced accepted), d', n') in
      if decide (0 < TNotAfterMS task) then
        match taskBounds clock n with
        | Some bounds =>
            if decide (TNotAfterMS task ≤ UpperMS bounds)
            then Ok (MkTaskAcceptance (WorkAvailable accepted) (ResultAvailable accepted)
                       (ReplayFenced accepted ++ [task]), d, S n)
            else insert (S n)
        | None => Ok (MkTaskAcceptance (WorkAvailable accepted) (ResultAvailable accepted)
                        (ReplayFenced accepted ++ [task]), d, S n)
        end
      else insert n
  | Some current =>
      if decide (XKind current <> TKind task \/ XInputSHA256 current <> TInputSHA256 task \/
                 XNotAfterMS current <> TNotAfterMS task \/ XArgs current <> TArgs task)
      then Err (ErrTaskIdentityConflict (TID task) (TInputSHA256 task)) else
      if Terminal (XState current) then
        d' ← rearmTaskResult d current atMS;
        Ok (MkTaskAcceptance (WorkAvailable accepted) true (ReplayFenced accepted), d', n)
      else Ok (accepted, d, n)
  end.

Definition AcceptTasksFenced (db : DB) (tasks : list Task) (atMS : Z) (clock : TaskStartClock)
    : res error (TaskAcceptance * DB) :=
  if decide (atMS ≤ 0) then Err (Errorf "task acceptance timestamp must be after Unix epoch") else
  if negb (ValidateTasks tasks) then Err (Errorf "invalid tasks") else
  '(accepted, d, _) ← res_foldl (acceptOne clock atMS) (MkTaskAcceptance false false [], db, O) tasks;
  Ok (accepted, d).

Definition AcceptTasks (db : DB) (tasks : list Task) (atMS : Z) : res error (TaskAcceptance * DB) :=
  AcceptTasksFenced db tasks atMS None.

(** ** Claims *)

(** [newTaskClaimToken]: the 32 bytes the entropy source yields, or its error. *)
Definition newTaskClaimToken (entropy : option (list Z)) : res error string :=
  match entropy with
  | Some random => Ok (EncodeToString random)
  | None => Err (Errorf "generate task claim token")
  end.

Definition claimCandidates (db : DB) (clock : TaskStartClock) : list TaskExecution :=
  let legacy := filter (fun t => XNotAfterMS t = 0) (received_order db) in
  match clock with
  | None => firstn 64 legacy
  | Some _ =>
      let page := firstn 64 (received_order db) in
      if decide (length page = 64%nat /\ Forall (fun t => XNotAfterMS t <> 0) page)
      then page ++ firstn 1 legacy else page
  end.

Definition expiryResult (t : TaskExecution) : TaskResult :=
  MkTaskResult (XID t) (XKind t) (XInputSHA256 t) (XNotAfterMS t) false false "" TaskErrorExpiredBeforeStart expiredError.

Definition claimTask (db : DB) (t : TaskExecution) (atMS : Z) (entropy : option (list Z)) : res error (TaskExecution * DB) :=
  token ← newTaskClaimToken entropy;
  let t' := setRunning t atMS token in
  d ← put_task t' db;
  Ok (t', d).

Definition expireTask (db : DB) (t : TaskExecution) (atMS : Z) : res error (TaskExecution * DB) :=
  let result := expiryResult t in
  if negb (ValidateTaskResults [result]) then Err (Errorf "invalid task result") else
  let t' := setTerminal t TaskFailed (XResult t) (RErrorCode result) (RError result) atMS in
  d ← put_task t' db;
  d' ← putImmutableTaskResult d (XID t) (MarshalTaskResult result) atMS;
  Ok (t', d').

Fixpoint claimLoop (db : DB) (clock : TaskStartClock) (n : nat) (atMS : Z) (entropy : option (list Z))
    (candidates : list TaskExecution) : res error (TaskExecution * DB) :=
  match candidates with
  | [] => Err ErrNotFound
  | t :: rest =>
      if decide (0 < XNotAfterMS t) then
        match taskBounds clock n with
        | None => claimLoop db clock (S n) atMS entropy rest
        | Some bounds =>
            if decide (XNotAfterMS t ≤ LowerMS bounds) then expireTask db t atMS else
            if decide (XNotAfterMS t ≤ UpperMS bounds) then claimLoop db clock (S n) atMS entropy rest else
            claimTask db t atMS entropy
        end
      else claimTask db t atMS entropy
  end.

Definition ClaimNextTaskFenced (db : DB) (atMS : Z) (clock : TaskStartClock) (entropy : option (list Z))
    : res error (TaskExecution * DB) :=
  if decide (atMS ≤ 0) then Err (Errorf "task claim timestamp must be after Unix epoch") else
  claimLoop db clock O atMS entropy (claimCandidates db clock).

Definition ClaimNextTask (db : DB) (atMS : Z) (entropy : option (list Z)) : res error (TaskExecution * DB) :=
  ClaimNextTaskFenced db atMS None entropy.

Definition ReleaseTaskClaim (db : DB) (task : TaskExecution) : res error DB :=
  if decide (XID task = "" \/ XState task <> TaskRunning \/ XStartedAtMS task ≤ 0 \/ XClaimToken task = "")
  then Err ErrInvalidState else
  match task_executions db !! XID task with
  | Some row =>
      if decide (XKind row = XKind task /\ XInputSHA256 row = XInputSHA256 task /\ XNotAfterMS row = XNotAfterMS task /\
                 XState row = TaskRunning /\ XStartedAtMS row = XStartedAtMS task /\ XClaimToken row = XClaimToken task)
      then put_task (setReleased row) db else Err ErrInvalidState
  | None => Err ErrInvalidState
  end.

(** ** Completion *)

Definition CompleteTask (db : DB) (id : string) (terminal : TaskState) (result : TaskResult) (atMS : Z) : res error DB :=
  if decide (Terminal terminal = false \/ atMS ≤ 0)
  then Err (Errorf "task completion requires a terminal state and timestamp after Unix epoch") else
  if negb (ValidateTaskResults [result]) then Err (Errorf "invalid task result") else
  if decide (id <> RID result \/ resultMatchesState terminal result = false)
  then Err (Errorf "task completion state and result do not agree") else
  current ← taskByID db id;
  if decide (XKind current <> RKind result \/ XInputSHA256 current <> RInputSHA256 result \/
             XNotAfterMS current <> RNotAfterMS result)
  then Err (ErrTaskIdentityConflict id (RInputSHA256 result)) else
  if Terminal (XState current) then
    if negb (sameTerminal current terminal result) then Err ErrTaskTerminalConflict else
    rearmTaskResult db current atMS
  else if decide (XState current <> TaskRunning) then Err ErrInvalidState else
    d ← put_task (setTerminal current terminal (RResult result) (RErrorCode result) (RError result) atMS) db;
    putImmutableTaskResult d id (MarshalTaskResult result) atMS.

End tasks.
