(* ===== verification/Journal.v ===== *)
(** * Properties of the task journal and its outbox

    The invariant that ties the two tables together, its preservation by every
    call of [tasks.go] and [outbox.go], and what follows from it. *)
From S2P Require Import Prelude GoStrings Sha256 Protocol Store Outbox Tasks.

Section journal.
Context `{Protocol}.

(** ** The invariant

    Result rows and owed results correspond one to one: a terminal task whose
    result was not acknowledged has a pending row with exactly its result, and a
    result row belongs to such a task. *)
Record journal_ok (db : DB) : Prop := {
  jo_outbox : outbox_wf (report_outbox db) (outbox_seq db);
  jo_issues : forall r, r ∈ report_outbox db -> obKind r = outboxIssue -> exists i, obPayload r = MarshalIssue i;
  jo_tasks : forall id t, task_executions db !! id = Some t -> XID t = id /\ task_check t = true;
  jo_results : forall r, r ∈ report_outbox db -> obKind r = outboxTaskResult ->
    obDelivered r = false /\
    exists t, task_executions db !! obDedupe r = Some t /\ Terminal (XState t) = true /\
      XResultDelivered t = false /\ obPayload r = MarshalTaskResult (taskResult t);
  jo_owed : forall id t, task_executions db !! id = Some t -> Terminal (XState t) = true ->
    XResultDelivered t = false -> exists r, r ∈ report_outbox db /\ outbox_is outboxTaskResult id r
}.

Lemma journal_ok_empty : journal_ok empty_db.
Proof. split; simpl; try set_solver. split; simpl; [lia|constructor..]. Qed.

Lemma put_task_Ok t db db' :
  put_task t db = Ok db' <-> task_check t = true /\ db' = set_task_executions (<[XID t := t]> (task_executions db)) db.
Proof. unfold put_task. destruct (task_check t); naive_solver. Qed.

(** A task that is not terminal has no result row. *)
Lemma open_task_no_row db id :
  journal_ok db -> (forall t, task_executions db !! id = Some t -> Terminal (XState t) = false) ->
  forall r, r ∈ report_outbox db -> ~ outbox_is outboxTaskResult id r.
Proof.
  intros Hj Ho r Hr [Hk Hd]. destruct (jo_results db Hj r Hr Hk) as (_ & t & Ht & Hterm & _).
  rewrite Hd in Ht. rewrite (Ho t Ht) in Hterm. done.
Qed.

(** Open tasks may change freely. *)
Lemma journal_open_write db id t :
  journal_ok db -> XID t = id -> task_check t = true -> Terminal (XState t) = false ->
  (forall t0, task_executions db !! id = Some t0 -> Terminal (XState t0) = false) ->
  journal_ok (set_task_executions (<[id := t]> (task_executions db)) db).
Proof.
  intros Hj Hid Hck Ht Hopen. pose proof (open_task_no_row db id Hj Hopen) as Hno.
  destruct Hj as [Hw Hi Htk Hr Ho]. split; simpl; try done.
  - intros id' t' [[<- <-]|[_ ?]]%lookup_insert_Some; [done|by apply Htk].
  - intros r Hin Hk. destruct (Hr r Hin Hk) as (? & t1 & Ht1 & ?). split; [done|]. exists t1.
    rewrite lookup_insert_ne; [done|]. intros ->. by apply (Hno r Hin).
  - intros id' t' [[<- <-]|[_ ?]]%lookup_insert_Some Hterm; [by rewrite Ht in Hterm|by apply Ho].
Qed.

(** A terminal row without a result row is published. *)
Lemma journal_publish db id t atMS :
  journal_ok db -> XID t = id -> task_check t = true -> Terminal (XState t) = true -> XResultDelivered t = false ->
  (forall r, r ∈ report_outbox db -> ~ outbox_is outboxTaskResult id r) ->
  let d := set_task_executions (<[id := t]> (task_executions db)) db in
  let db' := outbox_insert outboxTaskResult id (MarshalTaskResult (taskResult t)) atMS d in
  putImmutableTaskResult d id (MarshalTaskResult (taskResult t)) atMS = Ok db' /\ journal_ok db'.
Proof.
  intros Hj Hid Hck Ht Hdel Hno d db'. destruct Hj as [Hw Hi Htk Hr Ho]. split.
  { unfold putImmutableTaskResult. simpl. by rewrite (proj2 (outbox_find_None _ _ _) Hno). }
  split; simpl.
  - by apply outbox_wf_insert.
  - intros r [Hin| ->%list_elem_of_singleton]%elem_of_app Hk; [by apply Hi|done].
  - intros id' t' [[<- <-]|[_ ?]]%lookup_insert_Some; [done|by apply Htk].
  - intros r [Hin| ->%list_elem_of_singleton]%elem_of_app Hk; simpl.
    + destruct (Hr r Hin Hk) as (? & t1 & Ht1 & ?). split; [done|]. exists t1.
      rewrite lookup_insert_ne; [done|]. intros ->. by apply (Hno r Hin).
    + split; [done|]. exists t. by rewrite lookup_insert_eq.
  - intros id' t' [[<- <-]|[_ Ht']]%lookup_insert_Some Hterm Hd.
    + eexists. split; [apply elem_of_app; right; by apply list_elem_of_singleton|done].
    + destruct (Ho id' t' Ht' Hterm Hd) as (r & Hin & Hr'). exists r. split; [|done]. apply elem_of_app. by left.
Qed.

Lemma taskResult_delivered b t : taskResult (setResultDelivered b t) = taskResult t.
Proof. done. Qed.

(** A terminal task can always be re-armed. *)
Lemma journal_rearm db id t atMS :
  journal_ok db -> task_executions db !! id = Some t -> Terminal (XState t) = true ->
  exists db', rearmTaskResult db t atMS = Ok db' /\ journal_ok db' /\
    task_executions db' = <[id := setResultDelivered false t]> (task_executions db).
Proof.
  intros Hj Ht Hterm. destruct (jo_tasks db Hj id t Ht) as [Hid Hck].
  assert (alter (setResultDelivered false) id (task_executions db) =
    <[id := setResultDelivered false t]> (task_executions db)) as Halter by (by apply alter_as_insert).
  unfold rearmTaskResult. rewrite Hid. destruct (XResultDelivered t) eqn:Hdel.
  - assert (forall r, r ∈ report_outbox db -> ~ outbox_is outboxTaskResult id r) as Hno.
    { intros r Hr [Hk Hd]. destruct (jo_results db Hj r Hr Hk) as (_ & t' & Ht' & _ & Hf & _).
      rewrite Hd in Ht'. simplify_eq. congruence. }
    destruct (journal_publish db id (setResultDelivered false t) atMS Hj) as [_ Hok]; try done.
    unfold putImmutableTaskResult. rewrite (proj2 (outbox_find_None _ _ _) Hno). simpl.
    eexists. split; [done|]. rewrite Halter. split; [exact Hok|done].
  - destruct (jo_owed db Hj id t Ht Hterm Hdel) as (r0 & Hr0 & Hi0).
    destruct (outbox_find outboxTaskResult id (report_outbox db)) as [r|] eqn:Hf.
    2: { exfalso. by eapply (proj1 (outbox_find_None _ _ _) Hf). }
    apply outbox_find_Some in Hf as Hf'. destruct Hf' as [Hr [Hk Hd]].
    destruct (jo_results db Hj r Hr Hk) as (_ & t' & Ht' & _ & _ & Hp). rewrite Hd in Ht'. simplify_eq.
    unfold putImmutableTaskResult. rewrite Hf, decide_False by tauto.
    eexists. split; [done|]. simpl.
    assert (((fun r1 => if decide (outbox_is outboxTaskResult (XID t) r1) then setObDelivered false r1 else r1)
              <$> report_outbox db) = report_outbox db) as Hsame.
    { etrans; [|apply list_fmap_id]. apply list_fmap_ext. intros i r1 Hl. case_decide as Hi; [|done].
      destruct (jo_results db Hj r1) as [Hz _]; [by eapply list_elem_of_lookup_2|apply Hi|]. destruct r1; simpl in *. by subst. }
    rewrite Hsame, Halter.
    assert (setResultDelivered false t = t) as Hst by (destruct t; simpl in *; by subst).
    rewrite Hst, insert_id by done. split; [|done]. by destruct db, Hj.
Qed.

(** ** Acknowledgement *)

Definition ackFlag (id : Z) (r : OutboxRow) : OutboxRow := if decide (obID r = id) then setObDelivered true r else r.

Lemma ackFlag_same id r : obID (ackFlag id r) = obID r /\ ob_key (ackFlag id r) = ob_key r.
Proof. unfold ackFlag. by case_decide. Qed.

(** What one acknowledged id does: its row becomes a delivered issue, or a result
    row goes and its task is marked. *)
Lemma ackOne_Ok db id db' :
  journal_ok db -> ackOne db id = Ok db' ->
  0 < id /\
  ((forall r, r ∈ report_outbox db -> obID r = id -> obKind r = outboxIssue) /\
   db' = set_report_outbox (ackFlag id <$> report_outbox db) db \/
   exists r t, r ∈ report_outbox db /\ obID r = id /\ obKind r = outboxTaskResult /\
     task_executions db !! obDedupe r = Some t /\ Terminal (XState t) = true /\
     db' = set_task_executions (<[obDedupe r := setResultDelivered true t]> (task_executions db))
            (set_report_outbox (filter (fun r' => obID r' <> id) (report_outbox db)) db)).
Proof.
  intros Hj. unfold ackOne. case_decide; [done|]. fold (ackFlag id). intros [= <-]. split; [lia|].
  destruct (head (filter _ (ackFlag id <$> report_outbox db))) as [r|] eqn:Hh.
  - right. apply head_filter_elem in Hh as [(r0 & -> & Hr0)%list_elem_of_fmap [Hid Hk]].
    destruct (ackFlag_same id r0) as [Hsid Hskey]. rewrite Hsid in Hid.
    assert (obKind r0 = outboxTaskResult) as Hk0 by (unfold ob_key in Hskey; congruence).
    assert (obDedupe (ackFlag id r0) = obDedupe r0) as Hd0 by (unfold ob_key in Hskey; congruence).
    destruct (jo_results db Hj r0 Hr0 Hk0) as (_ & t & Ht & Hterm & _).
    exists r0, t. rewrite Hd0. split_and!; try done.
    rewrite (alter_as_insert _ _ _ _ Ht). f_equal. f_equal.
    assert (forall r', r' ∈ report_outbox db -> obID r' = id -> r' = r0) as Huniq.
    { intros r' Hr' Hid'. eapply (NoDup_fmap_elem obID); [apply (ow_ids_nodup _ _ (jo_outbox db Hj))|done..|congruence]. }
    assert (forall rows : list OutboxRow, (forall r', r' ∈ rows -> r' ∈ report_outbox db) ->
      filter (fun r => ~ (obID r = id /\ obKind r = outboxTaskResult /\
        is_Some (<[obDedupe r0 := setResultDelivered true t]> (task_executions db) !! obDedupe r))) (ackFlag id <$> rows) =
      filter (fun r' => obID r' <> id) rows) as Hgen; [|by apply Hgen].
    induction rows as [|r1 rows IH]; intros Hsub; [done|]. rewrite fmap_cons, !filter_cons.
    rewrite IH by set_solver. destruct (decide (obID r1 = id)) as [H1|H1].
    + rewrite (Huniq r1) by set_solver. rewrite (decide_False (P := obID r0 <> id)) by tauto.
      rewrite decide_False; [done|]. intros Hc. apply Hc. rewrite Hd0, lookup_insert_eq. split; [congruence|]. eauto.
    + replace (ackFlag id r1) with r1 by (unfold ackFlag; by rewrite decide_False). by rewrite !decide_True by tauto.
  - left. pose proof (proj1 (head_filter_None _ _) Hh) as Hno.
    assert (forall r, r ∈ report_outbox db -> obID r = id -> obKind r = outboxIssue) as Hiss.
    { intros r Hr Hid. destruct (obKind r) eqn:Hk; [done|]. exfalso.
      destruct (ackFlag_same id r) as [Hsid Hskey].
      apply (Hno (ackFlag id r)); [by apply list_elem_of_fmap_2|]. unfold ob_key in Hskey. split; congruence. }
    split; [done|]. rewrite filter_keeps_all; [by destruct db|].
    intros r (r0 & -> & Hr0)%list_elem_of_fmap (Hid & Hk & _).
    apply (Hno (ackFlag id r0)); [by apply list_elem_of_fmap_2|done].
Qed.

Lemma journal_ackOne db id db' : journal_ok db -> ackOne db id = Ok db' -> journal_ok db'.
Proof.
  intros Hj Ha. destruct (ackOne_Ok db id db' Hj Ha) as (_ & [[Hiss ->]|(r & t & Hr & Hid & Hk & Ht & Hterm & ->)]).
  - assert (forall r', r' ∈ ackFlag id <$> report_outbox db -> obKind r' = outboxTaskResult -> r' ∈ report_outbox db) as Hres.
    { intros r' (r & -> & Hr)%list_elem_of_fmap Hk. unfold ackFlag in *. case_decide; [|done].
      specialize (Hiss r Hr ltac:(done)). simpl in Hk. congruence. }
    destruct Hj as [Hw Hi Htk Hrs Ho]. split; simpl; try done.
    + apply outbox_wf_flags; [apply ackFlag_same|done].
    + intros r' (r & -> & Hr)%list_elem_of_fmap Hk. unfold ackFlag in *. case_decide; by apply (Hi r).
    + intros r' Hr' Hk. apply Hrs; [by apply Hres|done].
    + intros i' t' Ht' Hterm Hd. destruct (Ho i' t' Ht' Hterm Hd) as (r & Hr & [Hk Hdd]). exists (ackFlag id r).
      split; [by apply list_elem_of_fmap_2|]. unfold ackFlag. by case_decide.
  - assert (forall r', r' ∈ report_outbox db -> obKind r' = outboxTaskResult -> obID r' <> id -> obDedupe r' <> obDedupe r) as Hne.
    { intros r' Hr' Hk' Hid' Hdd. apply Hid'. rewrite <-Hid. f_equal.
      eapply (NoDup_fmap_elem ob_key); [apply (ow_keys_nodup _ _ (jo_outbox db Hj))|done..|]. unfold ob_key. congruence. }
    destruct Hj as [Hw Hi Htk Hrs Ho]. split; simpl.
    + by apply outbox_wf_filter.
    + intros r' [_ Hr']%list_elem_of_filter. by apply Hi.
    + intros i' t' [[<- <-]|[_ Ht']]%lookup_insert_Some; [|by apply Htk]. by apply Htk in Ht.
    + intros r' [Hid' Hr']%list_elem_of_filter Hk'. rewrite lookup_insert_ne by (apply not_eq_sym; by apply Hne). by apply Hrs.
    + intros i' t' [[<- <-]|[Hni Ht']]%lookup_insert_Some Hterm' Hd'; [done|].
      destruct (Ho i' t' Ht' Hterm' Hd') as (r' & Hr' & [Hk' Hdd]). exists r'. split; [|done].
      apply list_elem_of_filter. split; [|done]. intros Hid'. apply Hni. rewrite <-Hdd. f_equal.
      eapply (NoDup_fmap_elem obID); [apply (ow_ids_nodup _ _ Hw)|done..|congruence].
Qed.

(** ** The life of a task *)

(** The delivered mark of a finished task. *)
Inductive task_flag : TaskExecution -> TaskExecution -> Prop :=
| tn_flag b t : Terminal (XState t) = true -> task_flag t (setResultDelivered b t).

(** What moves a task forward. *)
Inductive task_forward : TaskExecution -> TaskExecution -> Prop :=
| tn_mark t t' : task_flag t t' -> task_forward t t'
| tn_claim t atMS token : XState t = TaskReceived -> 0 < atMS -> task_forward t (setRunning t atMS token)
| tn_finish t terminal result code detail atMS :
    XState t = TaskRunning -> Terminal terminal = true ->
    task_forward t (setTerminal t terminal result code detail atMS)
| tn_expire t atMS :
    XState t = TaskReceived -> 0 < XNotAfterMS t ->
    task_forward t (setTerminal t TaskFailed (XResult t) TaskErrorExpiredBeforeStart expiredError atMS).

(** The one step back: the holder of a claim gives it up. *)
Inductive task_next : TaskExecution -> TaskExecution -> Prop :=
| tn_forward t t' : task_forward t t' -> task_next t t'
| tn_release t : XState t = TaskRunning -> XClaimToken t <> "" -> task_next t (setReleased t).

(** Rows evolve by [R]; none disappears. *)
Definition tasks_evolve (R : TaskExecution -> TaskExecution -> Prop) (db db' : DB) : Prop :=
  forall id t, task_executions db !! id = Some t ->
  exists t', task_executions db' !! id = Some t' /\ rtc R t t'.

Lemma tasks_evolve_refl R db : tasks_evolve R db db.
Proof. intros id t Ht. exists t. split; [done|apply rtc_refl]. Qed.

Lemma tasks_evolve_trans R a b c : tasks_evolve R a b -> tasks_evolve R b c -> tasks_evolve R a c.
Proof.
  intros Hab Hbc id t Ht. destruct (Hab id t Ht) as (t1 & Ht1 & ?). destruct (Hbc id t1 Ht1) as (t2 & Ht2 & ?).
  exists t2. split; [done|]. by etrans.
Qed.

Lemma tasks_evolve_mono (R R' : TaskExecution -> TaskExecution -> Prop) db db' :
  (forall t t', R t t' -> R' t t') -> tasks_evolve R db db' -> tasks_evolve R' db db'.
Proof.
  intros HR He id t Ht. destruct (He id t Ht) as (t' & Ht' & Hs). exists t'. split; [done|].
  eapply rtc_subrel; [|exact Hs]. exact HR.
Qed.

(** One row replaced by a successor, or a new row. *)
Lemma tasks_evolve_insert R db db' id t :
  task_executions db' = <[id := t]> (task_executions db) ->
  (forall t0, task_executions db !! id = Some t0 -> R t0 t) -> tasks_evolve R db db'.
Proof.
  intros Heq Hnext i t0 Ht0. rewrite Heq. destruct (decide (i = id)) as [->|Hne].
  - exists t. rewrite lookup_insert_eq. split; [done|]. by apply rtc_once, Hnext.
  - exists t0. rewrite lookup_insert_ne by done. split; [done|apply rtc_refl].
Qed.

Lemma ackOne_evolve db id db' : journal_ok db -> ackOne db id = Ok db' -> tasks_evolve task_flag db db'.
Proof.
  intros Hj Ha. destruct (ackOne_Ok db id db' Hj Ha) as (_ & [[_ ->]|(r & t & _ & _ & _ & Ht & Hterm & ->)]);
    [intros i t Ht; exists t; split; [done|apply rtc_refl]|].
  eapply tasks_evolve_insert; [done|]. intros t0 Ht0. simplify_eq. by apply tn_flag.
Qed.

(** ** Every call keeps the journal *)

Definition journal_step (R : TaskExecution -> TaskExecution -> Prop) (db db' : DB) : Prop :=
  journal_ok db' /\ tasks_evolve R db db'.

Lemma journal_step_refl R db : journal_ok db -> journal_step R db db.
Proof. intros Hj. split; [done|apply tasks_evolve_refl]. Qed.

Lemma journal_step_trans R a b c : journal_step R a b -> journal_step R b c -> journal_step R a c.
Proof. intros [_ H1] [H2 H3]. split; [done|]. by eapply tasks_evolve_trans. Qed.

Lemma flag_step_forward db db' : journal_step task_flag db db' -> journal_step task_forward db db'.
Proof. intros [Hj He]. split; [done|]. eapply tasks_evolve_mono; [|exact He]. apply tn_mark. Qed.

Lemma forward_step_next db db' : journal_step task_forward db db' -> journal_step task_next db db'.
Proof. intros [Hj He]. split; [done|]. eapply tasks_evolve_mono; [|exact He]. apply tn_forward. Qed.

Lemma EnqueueIssue_step db dedupe issue atMS ok db' :
  journal_ok db -> EnqueueIssue db dedupe issue atMS = Ok (ok, db') -> journal_step task_flag db db'.
Proof.
  intros Hj. unfold EnqueueIssue, enqueue. case_decide; [done|]. case_decide; [done|].
  destruct (outbox_find outboxIssue dedupe (report_outbox db)) as [r|] eqn:Hf; intros [= <- <-]; [by apply journal_step_refl|].
  pose proof (proj1 (outbox_find_None _ _ _) Hf) as Hno. split; [|by intros id t Ht; exists t; split; [|apply rtc_refl]].
  destruct Hj as [Hw Hi Htk Hr Ho]. split; simpl; try done.
  - by apply outbox_wf_insert.
  - intros r [Hin| ->%list_elem_of_singleton]%elem_of_app Hk; [by apply Hi|]. simpl. eauto.
  - intros r [Hin| ->%list_elem_of_singleton]%elem_of_app Hk; [by apply Hr|done].
  - intros id t Ht Hterm Hd. destruct (Ho id t Ht Hterm Hd) as (r & Hr' & ?). exists r. split; [|done].
    apply elem_of_app. by left.
Qed.

Lemma AckOutbox_step ids : forall db db', journal_ok db -> AckOutbox db ids = Ok db' -> journal_step task_flag db db'.
Proof.
  unfold AckOutbox. induction ids as [|id ids IH]; intros db db' Hj Ha; simpl in Ha.
  - simplify_eq. by apply journal_step_refl.
  - apply bind_Ok in Ha as (d & Hd & Ha). pose proof (journal_ackOne _ _ _ Hj Hd) as Hjd.
    eapply journal_step_trans; [split; [exact Hjd|by eapply ackOne_evolve]|by apply IH].
Qed.

(** Re-arming a journalled result. *)
Lemma rearm_step db t atMS db' :
  journal_ok db -> task_executions db !! XID t = Some t -> Terminal (XState t) = true ->
  rearmTaskResult db t atMS = Ok db' -> journal_step task_flag db db'.
Proof.
  intros Hj Ht Hterm Hr. destruct (journal_rearm db (XID t) t atMS Hj Ht Hterm) as (d & Hd & Hok & Htasks).
  rewrite Hd in Hr. simplify_eq. split; [done|]. eapply tasks_evolve_insert; [exact Htasks|].
  intros t0 Ht0. simplify_eq. by apply tn_flag.
Qed.

Lemma journal_row db id t : journal_ok db -> task_executions db !! id = Some t -> XID t = id /\ task_executions db !! XID t = Some t.
Proof. intros Hj Ht. destruct (jo_tasks db Hj id t Ht) as [-> _]. done. Qed.

Lemma acceptOne_step clock atMS acc db n task acc' db' n' :
  journal_ok db -> acceptOne clock atMS (acc, db, n) task = Ok (acc', db', n') -> journal_step task_flag db db'.
Proof.
  intros Hj. unfold acceptOne. destruct (task_executions db !! TID task) as [t|] eqn:Ht.
  - case_decide; [done|]. destruct (Terminal (XState t)) eqn:Hterm.
    + intros (d & Hr & [= _ <- _])%bind_Ok. destruct (journal_row _ _ _ Hj Ht) as [_ Ht']. by eapply rearm_step.
    + intros [= _ <- _]. by apply journal_step_refl.
  - assert (forall m acc0 acc1 d1 m1, (d' ← put_task (freshTask task atMS) db; Ok (acc0, d', m)) =
      @Ok error (TaskAcceptance * DB * nat) (acc1, d1, m1) -> journal_step task_flag db d1) as Hins.
    { intros m acc0 acc1 d1 m1 (d' & [Hck ->]%put_task_Ok & [= _ <- _])%bind_Ok. simpl. split.
      - apply journal_open_write; try done. intros t0. by rewrite Ht.
      - eapply tasks_evolve_insert; [done|]. intros t0. by rewrite Ht. }
    case_decide; [|apply Hins]. destruct (taskBounds clock n) as [b|].
    + case_decide; [|apply Hins]. intros [= _ <- _]. by apply journal_step_refl.
    + intros [= _ <- _]. by apply journal_step_refl.
Qed.

Lemma accept_loop_step clock atMS tasks : forall acc db n acc' db' n',
  journal_ok db -> res_foldl (acceptOne clock atMS) (acc, db, n) tasks = Ok (acc', db', n') -> journal_step task_flag db db'.
Proof.
  induction tasks as [|task tasks IH]; intros acc db n acc' db' n' Hj Hl; simpl res_foldl in Hl.
  - simplify_eq. by apply journal_step_refl.
  - apply bind_Ok in Hl as ([[acc1 d1] n1] & H1 & Hl). apply acceptOne_step in H1 as Hs; [|done].
    eapply journal_step_trans; [done|]. eapply IH; [apply Hs|done].
Qed.

Lemma AcceptTasksFenced_step db tasks atMS clock acc db' :
  journal_ok db -> AcceptTasksFenced db tasks atMS clock = Ok (acc, db') -> journal_step task_flag db db'.
Proof.
  intros Hj. unfold AcceptTasksFenced. case_decide; [done|]. destruct (ValidateTasks tasks); [|done]. cbn [negb].
  intros ([[acc1 d1] n1] & Hl & [= _ <-])%bind_Ok. by eapply accept_loop_step.
Qed.

Lemma tasks_in_elem db s t : t ∈ tasks_in db s <-> XState t = s /\ exists id, task_executions db !! id = Some t.
Proof.
  unfold tasks_in. rewrite list_elem_of_filter, list_elem_of_fmap. split.
  - intros (? & [id x] & -> & Hx%elem_of_map_to_list). eauto.
  - intros (? & id & Ht). split; [done|]. exists (id, t). split; [done|]. by apply elem_of_map_to_list.
Qed.

Lemma received_order_elem db t : t ∈ received_order db <-> XState t = TaskReceived /\ exists id, task_executions db !! id = Some t.
Proof. unfold received_order. rewrite merge_sort_Permutation. apply tasks_in_elem. Qed.

Lemma elem_of_firstn {A} n (l : list A) x : x ∈ firstn n l -> x ∈ l.
Proof. intros Hx. rewrite <-(take_drop n l). apply elem_of_app. by left. Qed.

Lemma claimCandidates_received db clock t : t ∈ claimCandidates db clock -> t ∈ received_order db.
Proof.
  unfold claimCandidates. destruct clock as [read|].
  - case_decide; [intros [?%elem_of_firstn|[_ ?]%elem_of_firstn%list_elem_of_filter]%elem_of_app; done|apply elem_of_firstn].
  - intros [_ ?]%elem_of_firstn%list_elem_of_filter. done.
Qed.

(** The reading that decided one candidate. *)
Definition authorized (clock : TaskStartClock) (t : TaskExecution) : Prop :=
  XNotAfterMS t ≤ 0 \/ exists n b, taskBounds clock n = Some b /\ UpperMS b < XNotAfterMS t.

Definition expired (clock : TaskStartClock) (t : TaskExecution) : Prop :=
  0 < XNotAfterMS t /\ exists n b, taskBounds clock n = Some b /\ XNotAfterMS t ≤ LowerMS b.

Lemma claimLoop_Ok db clock atMS entropy cands : forall n t' db',
  claimLoop db clock n atMS entropy cands = Ok (t', db') ->
  exists t, t ∈ cands /\
    ((authorized clock t /\ claimTask db t atMS entropy = Ok (t', db')) \/
     (expired clock t /\ expireTask db t atMS = Ok (t', db'))).
Proof.
  induction cands as [|t cands IH]; intros n t' db' Hl; simpl in Hl; [done|].
  assert (forall m, claimLoop db clock m atMS entropy cands = Ok (t', db') -> exists t0, t0 ∈ t :: cands /\
    ((authorized clock t0 /\ claimTask db t0 atMS entropy = Ok (t', db')) \/
     (expired clock t0 /\ expireTask db t0 atMS = Ok (t', db')))) as Hrest.
  { intros m Hm. destruct (IH m t' db' Hm) as (t0 & ? & ?). exists t0. split; [by right|done]. }
  destruct (decide (0 < XNotAfterMS t)) as [Hp|Hp].
  - destruct (taskBounds clock n) as [b|] eqn:Hb; [|by eapply Hrest].
    case_decide; [exists t; split; [left|]; right; split; [split; [done|]; eauto|done]|].
    case_decide; [by eapply Hrest|]. exists t. split; [left|]. left. split; [|done]. right. exists n, b. split; [done|lia].
  - exists t. split; [left|]. left. split; [left; lia|done].
Qed.

Lemma received_row_check t : task_check t = true -> XState t = TaskReceived ->
  XStartedAtMS t = 0 /\ XFinishedAtMS t = 0 /\ XClaimToken t = "" /\ XResult t = "" /\ XErrorCode t = "" /\ XError t = "".
Proof.
  unfold task_check. intros Hb%bool_decide_eq_true Hs. destruct Hb as (_ & _ & _ & _ & _ & H1 & H2).
  rewrite Hs in H1, H2. unfold Terminal in H1. rewrite bool_decide_eq_false_2 in H1 by naive_solver. naive_solver.
Qed.

Lemma claimTask_step db t atMS entropy t' db' :
  journal_ok db -> t ∈ received_order db -> 0 < atMS -> claimTask db t atMS entropy = Ok (t', db') ->
  journal_step task_forward db db' /\ task_executions db !! XID t = Some t /\ task_executions db' !! XID t = Some t' /\
  exists random, entropy = Some random /\ t' = setRunning t atMS (EncodeToString random).
Proof.
  intros Hj [Hs [id Ht]]%received_order_elem Hat. destruct (journal_row _ _ _ Hj Ht) as [Hid Ht'].
  unfold claimTask, newTaskClaimToken. destruct entropy as [random|]; [|done]. cbn [mbind res_bind].
  intros (d & [Hck ->]%put_task_Ok & [= <- <-])%bind_Ok. simpl. split_and!.
  - split.
    + apply journal_open_write; try done. intros t0 Ht0. simplify_eq. by rewrite Hs.
    + eapply tasks_evolve_insert; [done|]. intros t0 Ht0. simpl in Ht0. simplify_eq. by apply tn_claim.
  - done.
  - by rewrite lookup_insert_eq.
  - eauto.
Qed.

Lemma expireTask_step db t atMS t' db' :
  journal_ok db -> t ∈ received_order db -> 0 < XNotAfterMS t -> expireTask db t atMS = Ok (t', db') ->
  journal_step task_forward db db' /\ task_executions db !! XID t = Some t /\ task_executions db' !! XID t = Some t' /\
  t' = setTerminal t TaskFailed "" TaskErrorExpiredBeforeStart expiredError atMS.
Proof.
  intros Hj [Hs [id Ht]]%received_order_elem Hp. destruct (journal_row _ _ _ Hj Ht) as [Hid Ht'].
  pose proof (received_row_check t (proj2 (jo_tasks db Hj id t Ht)) Hs) as (_ & _ & _ & Hres & _).
  unfold expireTask. destruct (ValidateTaskResults _); [|done]. cbn [negb].
  intros (d & [Hck ->]%put_task_Ok & Hp')%bind_Ok. apply bind_Ok in Hp' as (d' & Hput & [= <- <-]).
  set (t1 := setTerminal t TaskFailed (XResult t) TaskErrorExpiredBeforeStart expiredError atMS) in *.
  assert (expiryResult t = taskResult t1) as He by (unfold expiryResult, taskResult; simpl; by rewrite Hres).
  rewrite He in Hput.
  destruct (journal_publish db (XID t) t1 atMS Hj) as [Hput' Hok]; try done.
  { apply (open_task_no_row db (XID t) Hj). intros t0 Ht0. simplify_eq. by rewrite Hs. }
  pose proof (eq_trans (eq_sym Hput') Hput) as [= <-]. simpl. split_and!.
  - split; [done|]. eapply tasks_evolve_insert; [done|]. intros t0 Ht0. simpl in Ht0. simplify_eq. by apply tn_expire.
  - done.
  - by rewrite lookup_insert_eq.
  - unfold t1. by rewrite Hres.
Qed.

Lemma ClaimNextTaskFenced_step db atMS clock entropy t' db' :
  journal_ok db -> ClaimNextTaskFenced db atMS clock entropy = Ok (t', db') -> journal_step task_forward db db'.
Proof.
  intros Hj. unfold ClaimNextTaskFenced. case_decide; [done|].
  intros (t & Hin%claimCandidates_received & [[_ Hc]|[[Hp _] Hc]])%claimLoop_Ok.
  - eapply claimTask_step in Hc as [? _]; try done. lia.
  - by eapply expireTask_step in Hc as [? _].
Qed.

Lemma ReleaseTaskClaim_step db task db' :
  journal_ok db -> ReleaseTaskClaim db task = Ok db' -> journal_step task_next db db'.
Proof.
  intros Hj. unfold ReleaseTaskClaim. case_decide as Hg; [done|].
  destruct (task_executions db !! XID task) as [row|] eqn:Hrow; [|done]. case_decide as Hm; [|done].
  destruct Hm as (_ & _ & _ & Hs & _ & Htok). destruct (journal_row _ _ _ Hj Hrow) as [Hid Hrow'].
  intros [Hck ->]%put_task_Ok. split.
  - apply journal_open_write; try done. intros t0 Ht0. simpl in Ht0. simplify_eq. by rewrite Hs.
  - eapply tasks_evolve_insert; [done|]. intros t0 Ht0. simpl in Ht0. simplify_eq. apply tn_release; [done|].
    rewrite Htok. tauto.
Qed.

(** The result a completed row stands for is the one that completed it. *)
Lemma finished_result t terminal result atMS :
  resultMatchesState terminal result = true ->
  XID t = RID result -> XKind t = RKind result -> XInputSHA256 t = RInputSHA256 result ->
  XNotAfterMS t = RNotAfterMS result ->
  taskResult (setTerminal t terminal (RResult result) (RErrorCode result) (RError result) atMS) = result.
Proof.
  destruct result as [a b c d ok ind e f g]. unfold taskResult. simpl. intros Hm -> -> -> ->. f_equal.
  - by destruct terminal, ok, ind.
  - by destruct terminal, ok, ind.
Qed.

Lemma CompleteTask_step db id terminal result atMS db' :
  journal_ok db -> CompleteTask db id terminal result atMS = Ok db' -> journal_step task_forward db db'.
Proof.
  intros Hj. unfold CompleteTask. case_decide as Hg; [done|]. destruct (ValidateTaskResults _); [|done]. cbn [negb].
  case_decide as Hm; [done|]. unfold taskByID. intros (t & Ht & Hc)%bind_Ok.
  destruct (task_executions db !! id) as [t0|] eqn:Ht0; simplify_eq.
  destruct (journal_row _ _ _ Hj Ht0) as [<- Ht'].
  case_decide as Hi; [done|]. destruct (Terminal (XState t)) eqn:Hterm.
  - destruct (sameTerminal _ _ _); [|done]. cbn [negb] in Hc. apply flag_step_forward. by eapply rearm_step.
  - case_decide as Hs; [done|]. apply bind_Ok in Hc as (d & [Hck ->]%put_task_Ok & Hput).
    set (t1 := setTerminal t terminal (RResult result) (RErrorCode result) (RError result) atMS) in *.
    assert (Terminal terminal = true) as Hterm1 by (destruct (Terminal terminal); naive_solver).
    assert (result = taskResult t1) as He.
    { assert (XID t = RID result /\ resultMatchesState terminal result = true) as [Hid Hmatch].
      { split; [apply dec_stable; tauto|]. destruct (resultMatchesState terminal result); tauto. }
      symmetry. apply finished_result; try done; apply dec_stable; tauto. }
    rewrite He in Hput. destruct (journal_publish db (XID t) t1 atMS Hj) as [Hput' Hok]; try done.
    { apply (open_task_no_row db (XID t) Hj). intros t0 Hx. simplify_eq. done. }
    pose proof (eq_trans (eq_sym Hput') Hput) as [= <-]. split; [done|].
    eapply tasks_evolve_insert; [done|]. intros t0 Hx. simpl in Hx. simplify_eq. by apply tn_finish.
Qed.

(** ** Histories *)

Inductive task_op :=
| OpAccept (tasks : list Task) (atMS : Z) (clock : TaskStartClock)
| OpClaim (atMS : Z) (clock : TaskStartClock) (entropy : option (list Z))
| OpRelease (task : TaskExecution)
| OpComplete (id : string) (terminal : TaskState) (result : TaskResult) (atMS : Z)
| OpIssue (dedupe : string) (issue : Issue) (atMS : Z)
| OpAck (ids : list Z).

Definition run_task_op (db : DB) (op : task_op) : res error DB :=
  match op with
  | OpAccept tasks atMS clock => snd <$> AcceptTasksFenced db tasks atMS clock
  | OpClaim atMS clock entropy => snd <$> ClaimNextTaskFenced db atMS clock entropy
  | OpRelease task => ReleaseTaskClaim db task
  | OpComplete id terminal result atMS => CompleteTask db id terminal result atMS
  | OpIssue dedupe issue atMS => snd <$> EnqueueIssue db dedupe issue atMS
  | OpAck ids => AckOutbox db ids
  end.

(** Calls in any order; a refused one leaves the store alone. *)
Definition run_task_ops (db : DB) (ops : list task_op) : DB :=
  foldl (fun d op => match run_task_op d op with Ok d' => d' | Err _ => d end) db ops.

Lemma fmap_Ok {E A B} (f : A -> B) (m : res E A) b : f <$> m = Ok b <-> exists a, m = Ok a /\ b = f a.
Proof. destruct m; simpl; naive_solver. Qed.

Lemma run_task_op_step db op db' : journal_ok db -> run_task_op db op = Ok db' -> journal_step task_next db db'.
Proof.
  intros Hj. destruct op; simpl.
  - intros ([acc d] & Ha & ->)%fmap_Ok. by eapply forward_step_next, flag_step_forward, AcceptTasksFenced_step.
  - intros ([t d] & Ha & ->)%fmap_Ok. by eapply forward_step_next, ClaimNextTaskFenced_step.
  - by apply ReleaseTaskClaim_step.
  - intros Hc. by eapply forward_step_next, CompleteTask_step.
  - intros ([ok d] & Ha & ->)%fmap_Ok. by eapply forward_step_next, flag_step_forward, EnqueueIssue_step.
  - intros Hc. by eapply forward_step_next, flag_step_forward, AckOutbox_step.
Qed.

Lemma run_task_ops_step ops : forall db, journal_ok db -> journal_step task_next db (run_task_ops db ops).
Proof.
  induction ops as [|op ops IH]; intros db Hj; simpl; [by apply journal_step_refl|].
  destruct (run_task_op db op) as [d|] eqn:Hr; [|by apply IH].
  pose proof (run_task_op_step db op d Hj Hr) as Hs. eapply journal_step_trans; [exact Hs|]. apply IH, Hs.
Qed.

Lemma reachable_journal ops : journal_ok (run_task_ops empty_db ops).
Proof. apply (run_task_ops_step ops empty_db journal_ok_empty). Qed.

(** What never changes along [task_next]. *)
Definition same_identity (t t' : TaskExecution) : Prop :=
  XID t' = XID t /\ XKind t' = XKind t /\ XArgs t' = XArgs t /\ XInputSHA256 t' = XInputSHA256 t /\
  XNotAfterMS t' = XNotAfterMS t /\ XReceivedAtMS t' = XReceivedAtMS t.

Lemma task_next_identity t t' : rtc task_next t t' -> same_identity t t'.
Proof.
  induction 1 as [|a b c Hab _ IH]; [by split_and!|]. unfold same_identity in *.
  assert (XID b = XID a /\ XKind b = XKind a /\ XArgs b = XArgs a /\ XInputSHA256 b = XInputSHA256 a /\
    XNotAfterMS b = XNotAfterMS a /\ XReceivedAtMS b = XReceivedAtMS a)
    by (destruct Hab as [? ? [? ? []| | |]|]; by split_and!).
  intuition congruence.
Qed.

Lemma task_next_terminal t t' : rtc task_next t t' -> Terminal (XState t) = true -> exists b, t' = setResultDelivered b t.
Proof.
  induction 1 as [t|a b c Hab _ IH]; intros Ht; [exists (XResultDelivered t); by destruct t|].
  destruct Hab as [t t' [? ? [d ? ?]|? ? ? Hs _|? ? ? ? ? ? Hs _|? ? Hs _]|t Hs _]; try (by rewrite Hs in Ht).
  destruct (IH Ht) as [b' ->]. by exists b'.
Qed.

(** ** Properties *)

(** C29. Nothing owed is lost and nothing else is sent.  In every state the
    journal and outbox calls can reach, in any order and with any failures, the
    undelivered results of terminal tasks and the result rows waiting in the
    outbox correspond: such a task has a pending row holding exactly its
    recorded result, and every result row is one of these. *)
Theorem owed_results_are_pending ops :
  let db := run_task_ops empty_db ops in
  (forall id t, task_executions db !! id = Some t -> Terminal (XState t) = true -> XResultDelivered t = false ->
     exists r, r ∈ report_outbox db /\ outbox_is outboxTaskResult id r /\ obDelivered r = false /\
       obPayload r = MarshalTaskResult (taskResult t)) /\
  (forall r, r ∈ report_outbox db -> obKind r = outboxTaskResult ->
     exists t, task_executions db !! obDedupe r = Some t /\ Terminal (XState t) = true /\
       XResultDelivered t = false /\ obPayload r = MarshalTaskResult (taskResult t)).
Proof.
  intros db. pose proof (reachable_journal ops) as Hj. fold db in Hj. split.
  - intros id t Ht Hterm Hd. destruct (jo_owed db Hj id t Ht Hterm Hd) as (r & Hr & Hi). exists r.
    destruct (jo_results db Hj r Hr (proj1 Hi)) as (? & t' & Ht' & _ & _ & Hp).
    rewrite (proj2 Hi) in Ht'. simplify_eq. done.
  - intros r Hr Hk. by apply (jo_results db Hj r Hr Hk).
Qed.

(** C30. A journalled task is never forgotten and never rewritten: after any
    further calls the row is still there with the same kind, arguments, digest
    and deadline, and once it is terminal its outcome is frozen; only the
    delivered mark may still change. *)
Theorem task_record_immutable ops ops' id t :
  let db := run_task_ops empty_db ops in
  task_executions db !! id = Some t ->
  exists t', task_executions (run_task_ops db ops') !! id = Some t' /\ same_identity t t' /\
    (Terminal (XState t) = true -> exists b, t' = setResultDelivered b t).
Proof.
  intros db Ht. destruct (run_task_ops_step ops' db (reachable_journal ops)) as [_ Hev].
  destruct (Hev id t Ht) as (t' & Ht' & Hn). exists t'. split_and!; [done|by apply task_next_identity|].
  by apply task_next_terminal.
Qed.

(** The start fence.  A claim that succeeds returns a task that was
    waiting, and either starts it or expires it.  It starts a protected task
    only on a reading whose upper bound is before the deadline, under the drawn
    token; it expires one only on a reading whose lower bound is past the
    deadline, with no start recorded. *)
Theorem claim_respects_deadline ops atMS clock entropy t' db' :
  let db := run_task_ops empty_db ops in
  ClaimNextTaskFenced db atMS clock entropy = Ok (t', db') ->
  exists t, task_executions db !! XID t = Some t /\ XState t = TaskReceived /\
    task_executions db' !! XID t = Some t' /\
    ((authorized clock t /\ exists random, entropy = Some random /\ t' = setRunning t atMS (EncodeToString random)) \/
     (expired clock t /\ t' = setTerminal t TaskFailed "" TaskErrorExpiredBeforeStart expiredError atMS /\
      XStartedAtMS t' = 0)).
Proof.
  intros db. pose proof (reachable_journal ops) as Hj. fold db in Hj. unfold ClaimNextTaskFenced. case_decide; [done|].
  intros (t & Hin%claimCandidates_received & Hcase)%claimLoop_Ok. exists t.
  pose proof (proj1 (received_order_elem db t) Hin) as [Hs [id Ht]].
  pose proof (received_row_check t (proj2 (jo_tasks db Hj id t Ht)) Hs) as (Hst & _).
  destruct Hcase as [[Hau Hc]|[Hex Hc]].
  - apply claimTask_step in Hc as (_ & ? & ? & ?); try done; [|lia]. split_and!; try done. by left.
  - pose proof Hex as [Hp _]. apply expireTask_step in Hc as (_ & ? & ? & Ht'); try done.
    split_and!; try done. right. split_and!; try done. by rewrite Ht'.
Qed.

(** Sending a finished task again never executes it: it is accepted,
    offers no work, and its recorded result is pending once more. *)
Theorem finished_task_is_redelivered ops task t atMS clock :
  let db := run_task_ops empty_db ops in
  task_executions db !! TID task = Some t -> Terminal (XState t) = true ->
  XKind t = TKind task -> XInputSHA256 t = TInputSHA256 task -> XNotAfterMS t = TNotAfterMS task -> XArgs t = TArgs task ->
  ValidateTasks [task] = true -> 0 < atMS ->
  exists db', AcceptTasksFenced db [task] atMS clock = Ok (MkTaskAcceptance false true [], db') /\
    task_executions db' !! TID task = Some (setResultDelivered false t) /\
    exists r, r ∈ report_outbox db' /\ outbox_is outboxTaskResult (TID task) r /\ obDelivered r = false /\
      obPayload r = MarshalTaskResult (taskResult t).
Proof.
  intros db Ht Hterm Hk Hi Hn Ha Hv Hat. pose proof (reachable_journal ops) as Hj. fold db in Hj.
  destruct (journal_rearm db _ t atMS Hj Ht Hterm) as (d & Hd & Hok & Htasks). exists d.
  assert (task_executions d !! TID task = Some (setResultDelivered false t)) as Htd by (by rewrite Htasks, lookup_insert_eq).
  split_and!.
  - unfold AcceptTasksFenced. rewrite decide_False by lia. rewrite Hv. cbn [negb res_foldl acceptOne].
    rewrite Ht. rewrite decide_False by (intros [?|[?|[?|?]]]; done). rewrite Hterm, Hd. done.
  - done.
  - destruct (jo_owed d Hok _ _ Htd Hterm eq_refl) as (r & Hr & Hri). exists r.
    destruct (jo_results d Hok r Hr (proj1 Hri)) as (? & t1 & Ht1 & _ & _ & Hp).
    rewrite (proj2 Hri), Htd in Ht1. simplify_eq. done.
Qed.

(** ** Claims make progress *)

Lemma claim_check t atMS token :
  task_check t = true -> XState t = TaskReceived -> 0 < atMS -> task_check (setRunning t atMS token) = true.
Proof.
  intros Hck Hs Hat. pose proof (received_row_check t Hck Hs) as (Hst & Hf & _ & Hr & Hc & He).
  unfold task_check in *. apply bool_decide_eq_true in Hck as (?&?&?&_). apply bool_decide_eq_true_2. simpl.
  split_and!; try done; try lia; [right; left; split_and!; done|right; right; split_and!; try done; by right].
Qed.

Lemma expire_check t atMS :
  task_check t = true -> XState t = TaskReceived -> 0 < atMS -> 0 < XNotAfterMS t ->
  task_check (setTerminal t TaskFailed (XResult t) TaskErrorExpiredBeforeStart expiredError atMS) = true.
Proof.
  intros Hck Hs Hat Hn. pose proof (received_row_check t Hck Hs) as (Hst & Hf & Htok & Hr & Hc & He).
  unfold task_check in *. apply bool_decide_eq_true in Hck as (?&?&?&_). apply bool_decide_eq_true_2. simpl.
  split_and!; try done; try lia.
  - right. right. split_and!; try done. right. by split_and!.
  - right. left. split_and!; try done. by left.
Qed.

(** In a reachable journal a candidate can be started, and expired. *)
Lemma claimTask_total db t atMS random :
  journal_ok db -> t ∈ received_order db -> 0 < atMS -> is_Ok (claimTask db t atMS (Some random)) = true.
Proof.
  intros Hj [Hs [id Ht]]%received_order_elem Hat. destruct (jo_tasks db Hj id t Ht) as [_ Hck].
  unfold claimTask. simpl. unfold put_task. by rewrite claim_check.
Qed.

Lemma expireTask_total db t atMS :
  journal_ok db -> t ∈ received_order db -> 0 < atMS -> 0 < XNotAfterMS t ->
  ValidateTaskResults [expiryResult t] = true -> is_Ok (expireTask db t atMS) = true.
Proof.
  intros Hj [Hs [id Ht]]%received_order_elem Hat Hn Hv. destruct (jo_tasks db Hj id t Ht) as [Hid Hck].
  unfold expireTask. rewrite Hv. cbn [negb]. unfold put_task. cbn [RErrorCode RError expiryResult]. rewrite expire_check by done. cbn [mbind res_bind].
  set (t1 := setTerminal t TaskFailed (XResult t) TaskErrorExpiredBeforeStart expiredError atMS).
  pose proof (received_row_check t Hck Hs) as (_ & _ & _ & Hres & _).
  assert (expiryResult t = taskResult t1) as He by (unfold expiryResult, taskResult; simpl; by rewrite Hres).
  destruct (journal_publish db (XID t) t1 atMS Hj) as [Hput _]; try done.
  { by apply expire_check. }
  { apply (open_task_no_row db (XID t) Hj). intros t0 Ht0. rewrite Hid in Ht0. simplify_eq. by rewrite Hs. }
  rewrite He. unfold t1 in Hput |- *. cbn [XID setTerminal]. rewrite Hput. done.
Qed.

Lemma claimLoop_progress db clock atMS random cands : forall n,
  journal_ok db -> 0 < atMS -> (forall t, t ∈ cands -> t ∈ received_order db) ->
  (forall t, t ∈ cands -> ValidateTaskResults [expiryResult t] = true) ->
  (exists t, t ∈ cands /\ XNotAfterMS t ≤ 0) ->
  is_Ok (claimLoop db clock n atMS (Some random) cands) = true.
Proof.
  induction cands as [|t cands IH]; intros n Hj Hat Hin Hv (t0 & Ht0 & Hl); [set_solver|]. simpl.
  pose proof (claimTask_total db t atMS random Hj ltac:(set_solver) Hat) as Hclaim.
  case_decide as Hp; [|done].
  assert (forall m, is_Ok (claimLoop db clock m atMS (Some random) cands) = true) as Hrest.
  { intros m. apply IH; try done; [set_solver..|]. exists t0. split; [|done].
    apply elem_of_cons in Ht0 as [->|?]; [lia|done]. }
  destruct (taskBounds clock n) as [b|]; [|done].
  case_decide; [apply expireTask_total; set_solver|]. case_decide; [apply Hrest|done].
Qed.

Lemma claimCandidates_legacy db clock :
  (exists t, t ∈ received_order db /\ XNotAfterMS t = 0) ->
  exists t, t ∈ claimCandidates db clock /\ XNotAfterMS t ≤ 0.
Proof.
  intros (t & Hin & H0). unfold claimCandidates.
  assert (t ∈ filter (fun t => XNotAfterMS t = 0) (received_order db)) as Hl by (by apply list_elem_of_filter).
  destruct (filter _ (received_order db)) as [|t1 l] eqn:Hf; [set_solver|].
  assert (XNotAfterMS t1 = 0) as H1.
  { assert (t1 ∈ filter (fun t => XNotAfterMS t = 0) (received_order db)) as Hx by (rewrite Hf; left).
    by apply list_elem_of_filter in Hx as [? _]. }
  destruct clock as [read|].
  - case_decide as Hc; [exists t1; split; [|lia]; apply elem_of_app; right; left|].
    destruct (decide (Forall (fun t => XNotAfterMS t <> 0) (firstn 64 (received_order db)))) as [Hall|Hex].
    + assert (length (firstn 64 (received_order db)) <> 64%nat) as Hlen by tauto.
      rewrite length_take in Hlen. exists t. rewrite take_ge by lia. split; [done|lia].
    + apply not_Forall_Exists in Hex; [|apply _]. apply Exists_exists in Hex as (t2 & Hin2 & H2). exists t2.
      split; [done|]. apply dec_stable in H2. lia.
  - exists t1. split; [left|lia].
Qed.

(** Protected tasks that cannot start yet never block the others: as
    long as a task without a deadline is waiting and entropy is available, a
    claim hands out a task, whatever the clock says, even when there is no
    clock, and however many held tasks come first. *)
Theorem legacy_task_not_starved ops atMS clock random :
  let db := run_task_ops empty_db ops in
  0 < atMS ->
  (exists id t, task_executions db !! id = Some t /\ XState t = TaskReceived /\ XNotAfterMS t = 0) ->
  (forall id t, task_executions db !! id = Some t -> ValidateTaskResults [expiryResult t] = true) ->
  exists t' db', ClaimNextTaskFenced db atMS clock (Some random) = Ok (t', db').
Proof.
  intros db Hat (id & t & Ht & Hs & H0) Hv. pose proof (reachable_journal ops) as Hj. fold db in Hj.
  assert (is_Ok (ClaimNextTaskFenced db atMS clock (Some random)) = true) as Hok.
  { unfold ClaimNextTaskFenced. rewrite decide_False by lia. apply claimLoop_progress; try done.
    - apply claimCandidates_received.
    - intros t1 [_ [id1 Ht1]]%claimCandidates_received%received_order_elem. by eapply Hv.
    - apply claimCandidates_legacy. exists t. split; [|done]. apply received_order_elem. eauto. }
  destruct (ClaimNextTaskFenced db atMS clock (Some random)) as [[t' db']|]; [eauto|done].
Qed.

(** ** Reports *)

Definition resultBytes (rs : list TaskResult) : Z := foldr (fun r acc => len (RResult r) + acc) 0 rs.

Lemma resultBytes_app a b : resultBytes (a ++ b) = resultBytes a + resultBytes b.
Proof. induction a as [|r a IH]; simpl; [done|]. rewrite IH. lia. Qed.

(** What the scan keeps while it runs. *)
Record batch_ok (done_rows : list OutboxRow) (batch : OutboxBatch) (bytes : Z) : Prop := {
  bo_ids : sublist (batchIDs batch) (obID <$> done_rows);
  bo_count : length (batchIDs batch) = (length (batchIssues batch) + length (batchTaskResults batch))%nat;
  bo_issues : Z.of_nat (length (batchIssues batch)) ≤ MaxIssuesPerReport;
  bo_results : Z.of_nat (length (batchTaskResults batch)) ≤ MaxTaskResultsPerReport;
  bo_sum : bytes = resultBytes (batchTaskResults batch);
  bo_bytes : bytes ≤ MaxTaskResultBytesPerReport
}.

Definition decodable (r : OutboxRow) : Prop :=
  match obKind r with
  | outboxIssue => is_Some (UnmarshalIssue (obPayload r))
  | outboxTaskResult => is_Some (UnmarshalTaskResult (obPayload r))
  end.

Lemma pendingStep_ok done_rows batch bytes r :
  batch_ok done_rows batch bytes -> decodable r ->
  exists batch' bytes', pendingStep (batch, bytes) r = Ok (batch', bytes') /\ batch_ok (done_rows ++ [r]) batch' bytes'.
Proof.
  intros [Hids Hcnt Hiss Hres Hsum Hby] Hdec.
  assert (forall l, sublist l (obID <$> done_rows) -> sublist l (obID <$> (done_rows ++ [r]))) as Hskip.
  { intros l Hl. rewrite fmap_app. by apply sublist_inserts_r. }
  assert (sublist (batchIDs batch ++ [obID r]) (obID <$> (done_rows ++ [r]))) as Htake.
  { rewrite fmap_app. by apply sublist_app. }
  unfold pendingStep, decodable in *. destruct (obKind r).
  - case_decide; [exists batch, bytes; split; [done|]; split; auto|].
    destruct Hdec as [issue ->]. eexists _, _. split; [done|].
    split; simpl; try done; rewrite ?length_app; simpl; lia.
  - case_decide; [exists batch, bytes; split; [done|]; split; auto|].
    destruct Hdec as [result ->]. case_decide; [exists batch, bytes; split; [done|]; split; auto|].
    eexists _, _. split; [done|].
    split; simpl; try done; rewrite ?length_app, ?resultBytes_app; simpl; try lia.
Qed.

Lemma pending_loop rows : forall done_rows batch bytes,
  batch_ok done_rows batch bytes -> Forall decodable rows ->
  exists batch' bytes', res_foldl pendingStep (batch, bytes) rows = Ok (batch', bytes') /\
    batch_ok (done_rows ++ rows) batch' bytes'.
Proof.
  induction rows as [|r rows IH]; intros done_rows batch bytes Hb Hd.
  - exists batch, bytes. by rewrite app_nil_r.
  - inversion Hd; subst. destruct (pendingStep_ok _ _ _ r Hb) as (b1 & y1 & Hs & Hb1); [done|].
    cbn [res_foldl]. rewrite Hs. cbn [mbind res_bind].
    destruct (IH _ _ _ Hb1) as (b2 & y2 & Hl & Hb2); [done|]. exists b2, y2. split; [done|].
    by rewrite <-app_assoc in Hb2.
Qed.

Lemma journal_decodable `{!ProtocolLaws} db r : journal_ok db -> r ∈ report_outbox db -> decodable r.
Proof.
  intros Hj Hr. unfold decodable. destruct (obKind r) eqn:Hk.
  - destruct (jo_issues db Hj r Hr Hk) as [i ->]. apply UnmarshalIssue_Marshal.
  - destruct (jo_results db Hj r Hr Hk) as (_ & t & _ & _ & _ & ->). apply UnmarshalTaskResult_Marshal.
Qed.

(** The ids still pending. *)
Definition pendingIDs (db : DB) : list Z := obID <$> filter (fun r => obDelivered r = false) (report_outbox db).

Lemma ackOne_pending db id db' :
  journal_ok db -> ackOne db id = Ok db' -> pendingIDs db' = filter (fun i => i <> id) (pendingIDs db).
Proof.
  intros Hj Ha. unfold pendingIDs.
  destruct (ackOne_Ok db id db' Hj Ha) as (_ & [[_ ->]|(r & t & _ & _ & _ & _ & _ & ->)]); simpl; clear Ha.
  - induction (report_outbox db) as [|r rows IH]; [done|]. rewrite fmap_cons, !filter_cons.
    destruct (decide (obID r = id)) as [Heq|Hne].
    + rewrite (decide_False (P := obDelivered (ackFlag id r) = false)) by (unfold ackFlag; by rewrite decide_True).
      rewrite IH. case_decide; [|done]. rewrite fmap_cons, filter_cons, decide_False by tauto. done.
    + replace (ackFlag id r) with r by (unfold ackFlag; by rewrite decide_False).
      case_decide; [|done]. rewrite !fmap_cons, filter_cons, decide_True by done. by rewrite IH.
  - induction (report_outbox db) as [|r' rows IH]; [done|]. rewrite !filter_cons.
    destruct (decide (obID r' <> id)) as [Hne|Heq].
    + rewrite filter_cons. case_decide; [|done]. rewrite !fmap_cons, filter_cons, decide_True by done. by rewrite IH.
    + rewrite IH. case_decide; [|done]. rewrite fmap_cons, filter_cons, decide_False by tauto. done.
Qed.

Lemma ack_loop ids : forall db,
  journal_ok db -> Forall (fun i => 0 < i) ids ->
  exists db', AckOutbox db ids = Ok db' /\ pendingIDs db' = filter (fun i => i ∉ ids) (pendingIDs db).
Proof.
  unfold AckOutbox. induction ids as [|id ids IH]; intros db Hj Hpos.
  - exists db. split; [done|]. rewrite filter_keeps_all; [done|]. set_solver.
  - inversion Hpos; subst. assert (exists d, ackOne db id = Ok d) as [d Hd].
    { unfold ackOne. rewrite decide_False by lia. eauto. }
    destruct (IH d) as (db' & Ha & Hp); [by eapply journal_ackOne|done|]. exists db'. cbn [res_foldl]. rewrite Hd. split; [done|].
    rewrite Hp, (ackOne_pending db id d) by done. rewrite list_filter_filter. apply list_filter_iff. set_solver.
Qed.

Lemma filter_notin_length (ids l : list Z) :
  NoDup l -> NoDup ids -> (forall i, i ∈ ids -> i ∈ l) -> (length (filter (fun i => i ∉ ids) l) + length ids = length l)%nat.
Proof.
  intros Hl Hi Hsub. pose proof (Permutation_length (filter_app_complement (fun i => i ∈ ids) l)) as Hc.
  rewrite length_app in Hc. assert (filter (fun i => i ∈ ids) l ≡ₚ ids) as Hp%Permutation_length; [|lia].
  apply NoDup_Permutation; [by apply NoDup_filter|done|]. intros i. rewrite list_elem_of_filter. set_solver.
Qed.

(** A report never overruns and never loses anything.  On a reachable
    store reading the outbox succeeds for every limit in 1..1000; the batch
    respects the wire limits on counts and result bytes and names distinct
    pending rows, one per item; acknowledging those ids succeeds and leaves
    exactly the other pending rows pending. *)
Theorem outbox_report_and_ack `{!ProtocolLaws} ops limit :
  let db := run_task_ops empty_db ops in
  1 ≤ limit ≤ maxOutboxBatch ->
  exists batch db', PendingOutbox db limit = Ok batch /\
    Z.of_nat (length (batchIssues batch)) ≤ MaxIssuesPerReport /\
    Z.of_nat (length (batchTaskResults batch)) ≤ MaxTaskResultsPerReport /\
    resultBytes (batchTaskResults batch) ≤ MaxTaskResultBytesPerReport /\
    length (batchIDs batch) = (length (batchIssues batch) + length (batchTaskResults batch))%nat /\
    NoDup (batchIDs batch) /\
    AckOutbox db (batchIDs batch) = Ok db' /\
    pendingIDs db' = filter (fun i => i ∉ batchIDs batch) (pendingIDs db) /\
    OutboxPending db' = OutboxPending db - Z.of_nat (length (batchIDs batch)).
Proof.
  intros db Hlim. pose proof (reachable_journal ops) as Hj. fold db in Hj.
  assert (forall r, r ∈ pendingRows db limit -> r ∈ filter (fun r => obDelivered r = false) (report_outbox db)) as Hrows.
  { intros r Hr%elem_of_firstn. by rewrite merge_sort_Permutation in Hr. }
  assert (Forall decodable (pendingRows db limit)) as Hdec.
  { apply Forall_forall. intros r [_ Hr]%Hrows%list_elem_of_filter. by eapply journal_decodable. }
  destruct limits_pos as (_ & _ & _ & ? & ? & ?).
  destruct (pending_loop (pendingRows db limit) [] (MkOutboxBatch [] [] []) 0) as (batch & bytes & Hl & Hb);
    [split; simpl; try done; lia|done|].
  destruct Hb as [Hids Hcnt Hiss Hres Hsum Hby]. simpl app in Hids.
  destruct (jo_outbox db Hj) as [_ Hpos Hnd _].
  assert (NoDup (pendingIDs db)) as Hndp by (by apply NoDup_fmap_filter).
  assert (sublist (batchIDs batch) (obID <$> merge_sort pending_le (filter (fun r => obDelivered r = false) (report_outbox db)))) as Hsub.
  { etrans; [exact Hids|]. apply fmap_sublist, sublist_take. }
  assert (NoDup (batchIDs batch)) as Hnb.
  { eapply sublist_NoDup; [|exact Hsub]. by rewrite merge_sort_Permutation. }
  assert (forall i, i ∈ batchIDs batch -> i ∈ pendingIDs db) as Hin.
  { intros i Hi. unfold pendingIDs. rewrite <-(merge_sort_Permutation pending_le). eapply elem_of_submseteq; [exact Hi|].
    by apply sublist_submseteq. }
  destruct (ack_loop (batchIDs batch) db Hj) as (db' & Hack & Hpend).
  { apply Forall_forall. intros i (r & -> & [_ Hr]%list_elem_of_filter)%Hin%list_elem_of_fmap.
    eapply Forall_forall in Hpos; [|exact Hr]. lia. }
  exists batch, db'. split_and!; try done; [|lia|].
  - unfold PendingOutbox. rewrite decide_False by (unfold maxOutboxBatch in *; lia). by rewrite Hl.
  - pose proof (filter_notin_length (batchIDs batch) (pendingIDs db) Hndp Hnb Hin) as Hlen. rewrite <-Hpend in Hlen.
    unfold OutboxPending. unfold pendingIDs in Hlen. rewrite !length_fmap in Hlen. lia.
Qed.

End journal.

(** ** A concrete journal *)
Module journal_example.
Import sample.

Definition guarded : Task := MkTask "t1" "restart" "{}" (sha256_hex "{}") 100.
Definition plain : Task := MkTask "t2" "upgrade" "{}" (sha256_hex "{}") 0.
Definition clock : TaskStartClock := Some (fun _ => Some (MkTaskTimeBounds 10 20)).
Definition done1 : TaskResult := MkTaskResult "t1" "restart" (sha256_hex "{}") 100 true false "ok" "" "".

Definition accepted : list task_op := [OpAccept [guarded; plain] 1 clock].
Definition finished : list task_op :=
  accepted ++ [OpClaim 2 clock (Some [1; 2; 3]); OpComplete "t1" TaskSucceeded done1 3;
               OpIssue "disk" (MkIssue "disk_low" "/" "5%") 4; OpAck [1]].

Definition row1 : TaskExecution :=
  MkTaskExecution "t1" "restart" "{}" (sha256_hex "{}") 100 "010203" TaskSucceeded "ok" "" "" 1 2 3 true.

Lemma finished_row : task_executions (run_task_ops empty_db finished) !! "t1" = Some row1.
Proof. vm_compute. reflexivity. Qed.

Lemma task_record_immutable_witness :
  exists t', task_executions (run_task_ops (run_task_ops empty_db finished) [OpAccept [guarded] 9 None]) !! "t1" = Some t' /\
    same_identity row1 t' /\ (Terminal (XState row1) = true -> exists b, t' = setResultDelivered b row1).
Proof. apply (task_record_immutable finished [OpAccept [guarded] 9 None] "t1" row1 finished_row). Defined.

Definition claimed : TaskExecution * DB :=
  match ClaimNextTaskFenced (run_task_ops empty_db accepted) 2 clock (Some [7]) with
  | Ok p => p
  | Err _ => (row1, empty_db)
  end.

Lemma claim_respects_deadline_witness :
  XState (fst claimed) = TaskRunning /\
  exists t, task_executions (run_task_ops empty_db accepted) !! XID t = Some t /\ XState t = TaskReceived.
Proof.
  assert (ClaimNextTaskFenced (run_task_ops empty_db accepted) 2 clock (Some [7]) = Ok (fst claimed, snd claimed)) as Hc
    by (vm_compute; reflexivity).
  split; [vm_compute; reflexivity|].
  destruct (claim_respects_deadline accepted 2 clock (Some [7]) (fst claimed) (snd claimed) Hc) as (t & Ht & Hs & _).
  exists t. split; [exact Ht|exact Hs].
Defined.

Lemma finished_task_is_redelivered_witness :
  exists db', AcceptTasksFenced (run_task_ops empty_db finished) [guarded] 9 None = Ok (MkTaskAcceptance false true [], db').
Proof.
  destruct (finished_task_is_redelivered finished guarded row1 9 None finished_row) as (db' & Ha & _);
    [vm_compute; reflexivity..|lia|].
  exists db'. exact Ha.
Defined.

Lemma legacy_task_not_starved_witness :
  exists t' db', ClaimNextTaskFenced (run_task_ops empty_db accepted) 5 None (Some [1]) = Ok (t', db').
Proof.
  apply (legacy_task_not_starved accepted 5 None [1]); [lia| |].
  - exists "t2", (freshTask plain 1). vm_compute. intuition reflexivity.
  - intros id t Ht. change (bool_decide (Forall (fun r => RID r <> "") [expiryResult t]) = true).
    apply bool_decide_eq_true_2. repeat constructor. simpl.
    destruct (jo_tasks _ (reachable_journal accepted) id t Ht) as [Hid _]. rewrite Hid. intros ->.
    vm_compute in Ht. discriminate Ht.
Defined.

Lemma outbox_report_and_ack_witness :
  exists batch db', PendingOutbox (run_task_ops empty_db finished) 10 = Ok batch /\
    AckOutbox (run_task_ops empty_db finished) (batchIDs batch) = Ok db' /\
    OutboxPending db' = OutboxPending (run_task_ops empty_db finished) - Z.of_nat (length (batchIDs batch)).
Proof.
  destruct (outbox_report_and_ack finished 10) as (batch & db' & Hp & _ & _ & _ & _ & _ & Ha & _ & Hn);
    [unfold maxOutboxBatch; lia|].
  exists batch, db'. split; [exact Hp|]. split; [exact Ha|exact Hn].
Defined.

End journal_example.
