(* ===== verification/TaskClock.v ===== *)
(** * The control-plane task clock ([internal/agent/task_clock.go])

    Interval arithmetic on nanosecond durations and millisecond instants that
    bounds the control plane's time from complete sync round trips. *)
From S2P Require Import Prelude GoStrings Protocol Store Outbox Tasks Journal Sha256.

(** [ErrTaskClockUnavailable] with its reason. *)
Inductive clockError := ErrTaskClockUnavailable (reason : string) | ErrClockPolicy.

Definition Millisecond : Z := 1000000.

(** What one call of the elapsed reader yields: the reader may be absent, fail,
    or return nanoseconds. *)
Inductive reading := NoReader | ReadError | Raw (ns : Z).

Record ControlPlaneTaskClock := MkClock {
  maxAnchorAge : Z;
  maxRoundTrip : Z;
  uncertaintyMS : Z;
  hasRawFloor : bool;
  rawFloor : Z;
  computedHighwater : Z;
  trustedLowerFloor : Z;
  hasAnchor : bool;
  anchorAt : Z;
  anchorLowerMS : Z;
  anchorUpperMS : Z
}.

(** ** Operations

    A failed call still changes the clock, so each returns the result with the
    clock it leaves behind. *)

Definition ceilTaskClockMS (duration : Z) : Z :=
  let ms := Z.quot duration Millisecond in
  if decide (Z.rem duration Millisecond <> 0) then ms + 1 else ms.

Definition addTaskClockMS (a b : Z) : option Z := checked_add a b.

Definition dropAnchor (c : ControlPlaneTaskClock) : ControlPlaneTaskClock :=
  MkClock (maxAnchorAge c) (maxRoundTrip c) (uncertaintyMS c) (hasRawFloor c) (rawFloor c) (computedHighwater c)
    (trustedLowerFloor c) false (anchorAt c) (anchorLowerMS c) (anchorUpperMS c).

Definition setLowerFloor (c : ControlPlaneTaskClock) (floor : Z) : ControlPlaneTaskClock :=
  MkClock (maxAnchorAge c) (maxRoundTrip c) (uncertaintyMS c) (hasRawFloor c) (rawFloor c) (computedHighwater c)
    floor (hasAnchor c) (anchorAt c) (anchorLowerMS c) (anchorUpperMS c).

Definition setRawFloor (c : ControlPlaneTaskClock) (raw : Z) : ControlPlaneTaskClock :=
  MkClock (maxAnchorAge c) (maxRoundTrip c) (uncertaintyMS c) true raw (computedHighwater c)
    (trustedLowerFloor c) (hasAnchor c) (anchorAt c) (anchorLowerMS c) (anchorUpperMS c).

Definition setAnchor (c : ControlPlaneTaskClock) (at_ lower upper computed : Z) : ControlPlaneTaskClock :=
  MkClock (maxAnchorAge c) (maxRoundTrip c) (uncertaintyMS c) (hasRawFloor c) (rawFloor c) computed
    lower true at_ lower upper.

Definition unavailableLocked {A} (c : ControlPlaneTaskClock) (reason : string) : res clockError A * ControlPlaneTaskClock :=
  (Err (ErrTaskClockUnavailable reason), dropAnchor c).

Definition boundsAtLocked (c : ControlPlaneTaskClock) (now : Z) : res clockError TaskTimeBounds * ControlPlaneTaskClock :=
  if negb (hasAnchor c) then (Err (ErrTaskClockUnavailable ""), c) else
  let age := now - anchorAt c in
  if decide (age < 0) then unavailableLocked c "anchor is stale or elapsed time regressed" else
  let historicalAge := Z.min age (maxAnchorAge c - 1) in
  match addTaskClockMS (anchorLowerMS c) (Z.quot historicalAge Millisecond) with
  | None => unavailableLocked c "lower bound overflows"
  | Some lower =>
      let c := setLowerFloor c (Z.max (trustedLowerFloor c) lower) in
      if decide (maxAnchorAge c ≤ age) then unavailableLocked c "anchor is stale or elapsed time regressed" else
      match addTaskClockMS (anchorUpperMS c) (ceilTaskClockMS age) with
      | None => unavailableLocked c "upper bound overflows"
      | Some upper =>
          let bounds := MkTaskTimeBounds lower upper in
          if negb (ValidateBounds bounds) then unavailableLocked c "time bounds are invalid" else (Ok bounds, c)
      end
  end.

Definition captureLocked (c : ControlPlaneTaskClock) (r : reading) : res clockError Z * ControlPlaneTaskClock :=
  match r with
  | NoReader => unavailableLocked c "elapsed reader is absent"
  | ReadError => (Err (ErrTaskClockUnavailable "read elapsed counter"), dropAnchor c)
  | Raw raw =>
      if decide (raw < 0 \/ (hasRawFloor c = true /\ raw < rawFloor c))
      then unavailableLocked c "elapsed counter is negative or regressed" else
      let c := setRawFloor c raw in
      (Ok raw, if hasAnchor c then snd (boundsAtLocked c raw) else c)
  end.

(** The exported methods on a non-nil receiver. *)
Definition Capture (c : ControlPlaneTaskClock) (r : reading) : res clockError Z * ControlPlaneTaskClock :=
  captureLocked c r.

Definition TaskTimeBoundsOf (c : ControlPlaneTaskClock) (r : reading) : res clockError TaskTimeBounds * ControlPlaneTaskClock :=
  match captureLocked c r with
  | (Err e, c) => (Err e, c)
  | (Ok now, c) => boundsAtLocked c now
  end.

Definition Observe (c : ControlPlaneTaskClock) (computedAtMS start : Z) (r : reading) : res clockError unit * ControlPlaneTaskClock :=
  match captureLocked c r with
  | (Err e, c) => (Err e, c)
  | (Ok end_, c) =>
      let '(old, c) := boundsAtLocked c end_ in
      if decide (computedAtMS ≤ 0 \/ computedAtMS < computedHighwater c)
      then unavailableLocked c "control-plane timestamp is zero or regressed" else
      if decide (start < 0 \/ end_ < start \/ maxRoundTrip c < end_ - start)
      then unavailableLocked c "round trip is invalid or exceeds policy" else
      if decide (computedAtMS ≤ uncertaintyMS c) then unavailableLocked c "uncertainty reaches the Unix epoch" else
      let lower := computedAtMS - uncertaintyMS c in
      match addTaskClockMS computedAtMS (ceilTaskClockMS (end_ - start)) with
      | None => unavailableLocked c "round-trip upper bound overflows"
      | Some upper =>
          match addTaskClockMS upper (uncertaintyMS c) with
          | None => unavailableLocked c "uncertainty upper bound overflows"
          | Some upper =>
              let '(lower, upper) := match old with
                                     | Ok o => (Z.max lower (LowerMS o), Z.min upper (UpperMS o))
                                     | Err _ => (lower, upper)
                                     end in
              let lower := Z.max lower (trustedLowerFloor c) in
              if decide (upper < lower) then unavailableLocked c "control-plane time intervals are inconsistent" else
              (Ok tt, setAnchor c end_ lower upper computedAtMS)
          end
      end
  end.

Definition NewControlPlaneTaskClock (maxAge maxRTT uncertainty : Z) (r : reading) : res clockError ControlPlaneTaskClock :=
  if decide (maxAge ≤ 0 \/ maxRTT ≤ 0 \/ uncertainty ≤ 0) then Err ErrClockPolicy else
  let c := MkClock maxAge maxRTT (ceilTaskClockMS uncertainty) false 0 0 0 false 0 0 0 in
  match captureLocked c r with
  | (Ok _, c) => Ok c
  | (Err e, _) => Err e
  end.

Definition Second : Z := 1000000000.

(** [taskElapsedTimespec]: seconds and nanoseconds of the kernel counter. *)
Definition taskElapsedTimespec (sec nsec : Z) : option Z :=
  if decide (sec < 0 \/ nsec < 0 \/ Second ≤ nsec \/ Z.quot (sub64 max_int64 nsec) Second < sec) then None
  else Some (add64 (wrap64 (sec * Second)) nsec).

(** ** Faults revoke authorization *)

Lemma boundsAt_no_anchor c now : hasAnchor c = false -> boundsAtLocked c now = (Err (ErrTaskClockUnavailable ""), c).
Proof. unfold boundsAtLocked. by intros ->. Qed.

Lemma boundsAt_Err c now e c' : boundsAtLocked c now = (Err e, c') -> hasAnchor c' = false.
Proof.
  unfold boundsAtLocked. destruct (hasAnchor c) eqn:Ha; simpl; [|by intros [= <- <-]].
  case_decide; [by intros [= <- <-]|]. destruct (addTaskClockMS _ _); [|by intros [= <- <-]].
  case_decide; [by intros [= <- <-]|]. simpl. destruct (addTaskClockMS _ _); [|by intros [= <- <-]].
  destruct (ValidateBounds _); [done|]. by intros [= <- <-].
Qed.

Lemma capture_Err c r e c' : captureLocked c r = (Err e, c') -> hasAnchor c' = false.
Proof. unfold captureLocked. destruct r; [by intros [= <- <-]..|]. case_decide; [by intros [= <- <-]|done]. Qed.

Lemma capture_no_anchor c r res c' : hasAnchor c = false -> captureLocked c r = (res, c') -> hasAnchor c' = false.
Proof.
  intros Ha. unfold captureLocked. destruct r; [by intros [= <- <-]..|]. case_decide; [by intros [= <- <-]|].
  simpl. rewrite Ha. by intros [= <- <-].
Qed.

Lemma no_anchor_no_bounds c r : hasAnchor c = false -> is_Ok (fst (TaskTimeBoundsOf c r)) = false.
Proof.
  intros Ha. unfold TaskTimeBoundsOf. destruct (captureLocked c r) as [[now|e] c1] eqn:Hc; [|done].
  apply capture_no_anchor in Hc; [|done]. by rewrite boundsAt_no_anchor.
Qed.

(** ** The ghost control plane

    [cp e] is the control plane's time in milliseconds when the local counter
    shows [e] nanoseconds: both run at the same rate, and the control plane's
    clock is past the Unix epoch. *)
Section soundness.
Context (cp : Z -> Z).

Record control_plane : Prop := {
  cp_rate : forall e e', 0 ≤ e ≤ e' -> Z.quot (e' - e) Millisecond ≤ cp e' - cp e ≤ ceilTaskClockMS (e' - e);
  cp_pos : forall e, 0 ≤ e -> 0 ≤ cp e
}.

Context (Hcp : control_plane).

Definition nonneg64 (z : Z) : Prop := 0 ≤ z ≤ max_int64.

(** The anchor and the lower floor are true statements about [cp]. *)
Record clock_inv (c : ControlPlaneTaskClock) : Prop := {
  ci_age : 0 < maxAnchorAge c ≤ max_int64;
  ci_unc : 0 < uncertaintyMS c ≤ max_int64;
  ci_raw : hasRawFloor c = true /\ nonneg64 (rawFloor c);
  ci_floor : nonneg64 (trustedLowerFloor c) /\ trustedLowerFloor c ≤ cp (rawFloor c);
  ci_anchor : hasAnchor c = true ->
    0 ≤ anchorAt c ≤ rawFloor c /\ 0 < anchorLowerMS c /\ nonneg64 (anchorLowerMS c) /\ nonneg64 (anchorUpperMS c) /\
    anchorLowerMS c ≤ cp (anchorAt c) ≤ anchorUpperMS c
}.

Lemma nonneg64_int64 z : nonneg64 z -> in_int64 z.
Proof. unfold nonneg64, in_int64, min_int64. lia. Qed.

Lemma quot_ms_bounds d : 0 ≤ d -> 0 ≤ Z.quot d Millisecond ≤ d.
Proof.
  intros Hd. rewrite Z.quot_div_nonneg by (unfold Millisecond; lia). unfold Millisecond.
  pose proof (Z.div_pos d 1000000). pose proof (Z.div_le_upper_bound d 1000000 d). lia.
Qed.

Lemma ceil_ms_bounds d : 0 ≤ d -> 0 ≤ ceilTaskClockMS d ≤ d.
Proof.
  intros Hd. unfold ceilTaskClockMS. pose proof (quot_ms_bounds d Hd). case_decide as Hr; [|lia].
  pose proof (Z.quot_rem d Millisecond ltac:(unfold Millisecond; lia)) as Hq.
  pose proof (Z.rem_nonneg d Millisecond ltac:(unfold Millisecond; lia) Hd). unfold Millisecond in *. lia.
Qed.

Lemma ceil_ms_mono a b : 0 ≤ a ≤ b -> ceilTaskClockMS a ≤ ceilTaskClockMS b.
Proof.
  intros Hab. unfold ceilTaskClockMS.
  pose proof (Z.quot_rem a Millisecond ltac:(unfold Millisecond; lia)) as Ha.
  pose proof (Z.quot_rem b Millisecond ltac:(unfold Millisecond; lia)) as Hb.
  pose proof (Z.rem_bound_pos a Millisecond ltac:(lia) ltac:(unfold Millisecond; lia)).
  pose proof (Z.rem_bound_pos b Millisecond ltac:(lia) ltac:(unfold Millisecond; lia)).
  unfold Millisecond in *. repeat case_decide; lia.
Qed.

Lemma cp_mono e e' : 0 ≤ e ≤ e' -> cp e ≤ cp e'.
Proof. intros He. pose proof (cp_rate Hcp e e' He). pose proof (quot_ms_bounds (e' - e)). lia. Qed.

Lemma dropAnchor_inv c : clock_inv c -> clock_inv (dropAnchor c).
Proof. intros [H1 H2 H3 H4 H5]. by split. Qed.

Lemma setLowerFloor_inv c z : clock_inv c -> nonneg64 z -> z ≤ cp (rawFloor c) -> clock_inv (setLowerFloor c z).
Proof. intros [H1 H2 H3 H4 H5] Hz Hle. by split. Qed.

(** Bounds taken at the current counter value bracket [cp]. *)
Lemma boundsAt_sound c res c' :
  clock_inv c -> boundsAtLocked c (rawFloor c) = (res, c') ->
  clock_inv c' /\ rawFloor c' = rawFloor c /\ uncertaintyMS c' = uncertaintyMS c /\
  trustedLowerFloor c ≤ trustedLowerFloor c' /\
  forall b, res = Ok b -> LowerMS b ≤ cp (rawFloor c) ≤ UpperMS b /\ ValidateBounds b = true /\ UpperMS b ≤ max_int64.
Proof.
  intros Hi. unfold boundsAtLocked. destruct (hasAnchor c) eqn:Ha; cbn [negb]; [|by intros [= <- <-]].
  destruct (ci_anchor c Hi Ha) as (Hat & Hpos & Hl & Hu & Hbr). destruct (ci_raw c Hi) as [_ Hraw].
  pose proof (ci_age c Hi) as Hage. pose proof (ci_floor c Hi) as [Hf Hfcp].
  rewrite decide_False by lia.
  set (hist := Z.min (rawFloor c - anchorAt c) (maxAnchorAge c - 1)).
  assert (0 ≤ hist) as Hh by lia. pose proof (quot_ms_bounds hist Hh) as Hq.
  pose proof (cp_rate Hcp (anchorAt c) (rawFloor c) Hat) as Hrate.
  assert (Z.quot hist Millisecond ≤ Z.quot (rawFloor c - anchorAt c) Millisecond) as Hqm.
  { apply Z.quot_le_mono; unfold Millisecond; lia. }
  assert (in_int64 (Z.quot hist Millisecond)) as Hqi by (apply nonneg64_int64; unfold nonneg64 in *; lia).
  unfold addTaskClockMS. destruct (checked_add (anchorLowerMS c) _) as [lower|] eqn:Hadd.
  2: { intros [= <- <-]. split_and!; try done; by apply dropAnchor_inv. }
  apply checked_add_Some in Hadd as (_ & _ & -> & Hmax); [|by apply nonneg64_int64|done].
  assert (clock_inv (setLowerFloor c (Z.max (trustedLowerFloor c) (anchorLowerMS c + Z.quot hist Millisecond)))) as Hi'.
  { apply setLowerFloor_inv; [done|unfold nonneg64 in *; lia|lia]. }
  cbn [maxAnchorAge setLowerFloor anchorUpperMS]. case_decide as Hold.
  { intros [= <- <-]. split_and!; try done; [by apply dropAnchor_inv|simpl; lia]. }
  pose proof (ceil_ms_bounds (rawFloor c - anchorAt c) ltac:(lia)) as Hc.
  destruct (checked_add (anchorUpperMS c) _) as [upper|] eqn:Hadd2.
  2: { intros [= <- <-]. split_and!; try done; [by apply dropAnchor_inv|simpl; lia]. }
  apply checked_add_Some in Hadd2 as (_ & _ & -> & Hmax2);
    [|by apply nonneg64_int64|apply nonneg64_int64; unfold nonneg64 in *; lia].
  destruct (ValidateBounds _) eqn:Hv; cbn [negb].
  2: { intros [= <- <-]. split_and!; try done; [by apply dropAnchor_inv|simpl; lia]. }
  intros [= <- <-]. split_and!; try done; [simpl; lia|]. intros b [= <-]. simpl. split_and!; [lia|lia|done|lia].
Qed.

Definition reading_typed (r : reading) : Prop := match r with Raw ns => in_int64 ns | _ => True end.

Lemma setRawFloor_inv c raw : clock_inv c -> nonneg64 raw -> rawFloor c ≤ raw -> clock_inv (setRawFloor c raw).
Proof.
  intros [H1 H2 [H3 H3'] [H4 H4'] H5] Hraw Hle. pose proof (cp_mono (rawFloor c) raw ltac:(unfold nonneg64 in *; lia)).
  split; simpl; try done; [split; [done|lia]|]. intros Ha. destruct (H5 Ha) as (? & ?). split; [lia|done].
Qed.

Lemma capture_sound c r res c' :
  clock_inv c -> reading_typed r -> captureLocked c r = (res, c') ->
  clock_inv c' /\ uncertaintyMS c' = uncertaintyMS c /\ trustedLowerFloor c ≤ trustedLowerFloor c' /\
  forall now, res = Ok now -> r = Raw now /\ rawFloor c' = now /\ rawFloor c ≤ now.
Proof.
  intros Hi Ht. unfold captureLocked, unavailableLocked. destruct r as [| |raw].
  1,2: intros [= <- <-]; split_and!; try done; by apply dropAnchor_inv.
  case_decide as Hbad; [intros [= <- <-]; split_and!; try done; by apply dropAnchor_inv|].
  destruct (ci_raw c Hi) as [Hr Hraw].
  assert (clock_inv (setRawFloor c raw)) as Hi'.
  { apply setRawFloor_inv; [done|unfold nonneg64; simpl in Ht; unfold in_int64 in Ht; lia|].
    rewrite Hr in Hbad. lia. }
  destruct (hasAnchor (setRawFloor c raw)) eqn:Ha.
  - destruct (boundsAtLocked (setRawFloor c raw) raw) as [res1 c1] eqn:Hb. intros [= <- <-]. simpl.
    change raw with (rawFloor (setRawFloor c raw)) in Hb at 2.
    destruct (boundsAt_sound _ _ _ Hi' Hb) as (? & Hrf & Hun & Hfl & _). simpl in *. split_and!; try done.
    intros now [= <-]. split_and!; try done. rewrite Hr in Hbad. lia.
  - intros [= <- <-]. split_and!; try done. intros now [= <-]. split_and!; try done. rewrite Hr in Hbad. lia.
Qed.

(** An honest sample: the control plane read its clock at some instant between
    the request and the end of the response, up to the uncertainty allowance. *)
Definition honest_sample (c : ControlPlaneTaskClock) (computed start : Z) (r : reading) : Prop :=
  forall end_, r = Raw end_ -> 0 ≤ start ≤ end_ ->
  exists es, start ≤ es ≤ end_ /\ computed - uncertaintyMS c ≤ cp es ≤ computed + uncertaintyMS c.

(** The interval an honest sample gives, at the end of the round trip. *)
Lemma honest_interval c computed start end_ :
  honest_sample c computed start (Raw end_) -> 0 ≤ start ≤ end_ ->
  computed - uncertaintyMS c ≤ cp end_ ≤ computed + ceilTaskClockMS (end_ - start) + uncertaintyMS c.
Proof.
  intros Hh Hs. destruct (Hh end_ eq_refl Hs) as (es & Hes & Hcp1).
  pose proof (cp_rate Hcp es end_ ltac:(lia)) as Hr. pose proof (quot_ms_bounds (end_ - es) ltac:(lia)).
  pose proof (ceil_ms_mono (end_ - es) (end_ - start) ltac:(lia)). lia.
Qed.

Lemma observe_sound c computed start r res c' :
  clock_inv c -> reading_typed r -> in_int64 computed -> honest_sample c computed start r ->
  Observe c computed start r = (res, c') ->
  clock_inv c' /\ trustedLowerFloor c ≤ trustedLowerFloor c' /\
  res <> Err (ErrTaskClockUnavailable "control-plane time intervals are inconsistent").
Proof.
  intros Hi Ht Hci Hh. unfold Observe. destruct (captureLocked c r) as [[end_|e] c1] eqn:Hc.
  2: { destruct (capture_sound _ _ _ _ Hi Ht Hc) as (? & _ & ? & _). intros [= <- <-]. split_and!; try done.
       unfold captureLocked, unavailableLocked in Hc. destruct r; [by simplify_eq..|]. case_decide; by simplify_eq. }
  destruct (capture_sound _ _ _ _ Hi Ht Hc) as (Hi1 & Hu1 & Hf1 & Hnow).
  destruct (Hnow end_ eq_refl) as (-> & Hr1 & Hle). clear Hnow.
  destruct (boundsAtLocked c1 end_) as [old c2] eqn:Hb. rewrite <-Hr1 in Hb.
  destruct (boundsAt_sound _ _ _ Hi1 Hb) as (Hi2 & Hr2 & Hu2 & Hf2 & Hold). rewrite Hr1 in *.
  assert (forall reason, reason <> "control-plane time intervals are inconsistent" ->
    (@unavailableLocked unit c2 reason) = (res, c') ->
    clock_inv c' /\ trustedLowerFloor c ≤ trustedLowerFloor c' /\
    res <> Err (ErrTaskClockUnavailable "control-plane time intervals are inconsistent")) as Hun.
  { intros reason Hne [= <- <-]. split_and!; [by apply dropAnchor_inv|simpl; lia|congruence]. }
  case_decide; [by apply Hun|]. case_decide as Hrt; [by apply Hun|]. case_decide; [by apply Hun|].
  pose proof (ci_unc c2 Hi2) as Hunc. destruct (ci_raw c2 Hi2) as [_ Hrw]. destruct (ci_floor c2 Hi2) as [Hfl Hflcp].
  pose proof (honest_interval c computed start end_ Hh ltac:(lia)) as Hint.
  pose proof (ceil_ms_bounds (end_ - start) ltac:(lia)) as Hceil. unfold addTaskClockMS.
  assert (in_int64 (ceilTaskClockMS (end_ - start))) by (apply nonneg64_int64; unfold nonneg64 in *; lia).
  destruct (checked_add computed _) as [up1|] eqn:Ha1; [|by apply Hun].
  apply checked_add_Some in Ha1 as (_ & _ & -> & Hm1); [|done..].
  destruct (checked_add _ (uncertaintyMS c2)) as [up2|] eqn:Ha2; [|by apply Hun].
  apply checked_add_Some in Ha2 as (_ & _ & -> & Hm2); [|apply nonneg64_int64; unfold nonneg64; lia..].
  set (lu := match old with Ok o => _ | Err _ => _ end).
  assert (0 < fst lu ≤ cp end_ /\ cp end_ ≤ snd lu ≤ max_int64 /\ computed - uncertaintyMS c2 ≤ fst lu) as (Hlo & Hup & _).
  { unfold lu. destruct old as [o|]; simpl; [destruct (Hold o eq_refl) as (? & _ & ?)|]; lia. }
  destruct lu as [lower upper]. simpl in Hlo, Hup. rewrite Hr2 in Hflcp.
  rewrite decide_False by lia. intros [= <- <-]. split_and!; [|simpl; lia|done].
  split; simpl; try apply Hi2; try (rewrite Hr2; unfold nonneg64 in *; lia).
Qed.

(** ** Histories of one clock *)

Inductive clock_reach : ControlPlaneTaskClock -> Prop :=
| cr_new age rtt uncertainty r c :
    in_int64 age -> in_int64 uncertainty -> reading_typed r ->
    NewControlPlaneTaskClock age rtt uncertainty r = Ok c -> clock_reach c
| cr_capture c r : clock_reach c -> reading_typed r -> clock_reach (snd (Capture c r))
| cr_observe c computed start r :
    clock_reach c -> reading_typed r -> in_int64 computed -> honest_sample c computed start r ->
    clock_reach (snd (Observe c computed start r))
| cr_bounds c r : clock_reach c -> reading_typed r -> clock_reach (snd (TaskTimeBoundsOf c r)).

Lemma bounds_sound c r res c' :
  clock_inv c -> reading_typed r -> TaskTimeBoundsOf c r = (res, c') ->
  clock_inv c' /\ trustedLowerFloor c ≤ trustedLowerFloor c' /\
  forall b, res = Ok b -> exists now, r = Raw now /\ LowerMS b ≤ cp now ≤ UpperMS b /\ ValidateBounds b = true.
Proof.
  intros Hi Ht. unfold TaskTimeBoundsOf. destruct (captureLocked c r) as [[now|e] c1] eqn:Hc.
  - destruct (capture_sound _ _ _ _ Hi Ht Hc) as (Hi1 & _ & Hf1 & Hnow). destruct (Hnow now eq_refl) as (-> & Hr1 & _).
    intros Hb. rewrite <-Hr1 in Hb. destruct (boundsAt_sound _ _ _ Hi1 Hb) as (? & _ & _ & Hf & Hok).
    rewrite Hr1 in Hok. split_and!; [done|lia|]. intros b Hb'. destruct (Hok b Hb') as (? & ? & _). by exists now.
  - destruct (capture_sound _ _ _ _ Hi Ht Hc) as (? & _ & ? & _). intros [= <- <-]. by split_and!.
Qed.

Lemma ceil_ms_pos d : 0 < d -> 0 < ceilTaskClockMS d.
Proof.
  intros Hd. unfold ceilTaskClockMS. pose proof (Z.quot_rem d Millisecond ltac:(unfold Millisecond; lia)) as Hq.
  pose proof (quot_ms_bounds d ltac:(lia)). unfold Millisecond in *. case_decide; lia.
Qed.

Lemma new_sound age rtt uncertainty r c :
  in_int64 age -> in_int64 uncertainty -> reading_typed r ->
  NewControlPlaneTaskClock age rtt uncertainty r = Ok c -> clock_inv c.
Proof.
  intros Ha Hu Ht. unfold NewControlPlaneTaskClock. case_decide as Hp; [done|].
  unfold captureLocked, unavailableLocked. destruct r as [| |raw]; [done|done|]. simpl. case_decide; [done|].
  intros [= <-]. simpl in Ht. unfold in_int64 in *. pose proof (ceil_ms_pos uncertainty ltac:(lia)).
  pose proof (ceil_ms_bounds uncertainty ltac:(lia)). pose proof (cp_pos Hcp raw ltac:(lia)).
  split; simpl; unfold nonneg64; try done; try (split; [done|]); lia.
Qed.

Lemma reach_inv c : clock_reach c -> clock_inv c.
Proof.
  induction 1 as [age rtt u r c ? ? ? Hn|c r _ Hi Ht|c computed start r _ Hi Ht Hci Hh|c r _ Hi Ht].
  - by apply (new_sound age rtt u r).
  - unfold Capture. destruct (captureLocked c r) eqn:Hc. by eapply capture_sound in Hc as [? _].
  - destruct (Observe c computed start r) eqn:Ho. by eapply observe_sound in Ho as [? _].
  - destruct (TaskTimeBoundsOf c r) eqn:Hb. by eapply bounds_sound in Hb as [? _].
Qed.

(** ** The clock as the journal's start clock *)

(** The clock after the first [n] readings of one claim, and the interface the
    claim sees. *)
Fixpoint clock_after (c : ControlPlaneTaskClock) (rs : nat -> reading) (n : nat) : ControlPlaneTaskClock :=
  match n with
  | O => c
  | S n' => snd (TaskTimeBoundsOf (clock_after c rs n') (rs n'))
  end.

Definition startClock (c : ControlPlaneTaskClock) (rs : nat -> reading) : TaskStartClock :=
  Some (fun n => match fst (TaskTimeBoundsOf (clock_after c rs n) (rs n)) with Ok b => Some b | Err _ => None end).

Lemma startClock_bounds c rs n b :
  clock_reach c -> (forall n, reading_typed (rs n)) -> taskBounds (startClock c rs) n = Some b ->
  exists now, rs n = Raw now /\ LowerMS b ≤ cp now ≤ UpperMS b.
Proof.
  intros Hr Ht. assert (clock_inv (clock_after c rs n)) as Hi.
  { apply reach_inv. induction n as [|n IH]; simpl; [done|by apply cr_bounds]. }
  unfold taskBounds, startClock. destruct (TaskTimeBoundsOf (clock_after c rs n) (rs n)) as [[b'|e] c'] eqn:Hb; simpl; [|done].
  destruct (ValidateBounds b'); [|done]. intros [= <-].
  destruct (bounds_sound _ _ _ _ Hi (Ht n) Hb) as (_ & _ & Hok). destruct (Hok b' eq_refl) as (now & -> & ? & _). by exists now.
Qed.

(** ** Properties *)

(** The interval is right.  For any history of a clock whose samples
    were honest, whatever faults, regressions or stale anchors came in between,
    bounds it hands out bracket the control plane's time at that reading and are
    well formed; and an honest sample is never refused as inconsistent with
    earlier ones. *)
Theorem task_clock_brackets c r :
  clock_reach c -> reading_typed r ->
  (forall b c', TaskTimeBoundsOf c r = (Ok b, c') ->
     exists now, r = Raw now /\ LowerMS b ≤ cp now ≤ UpperMS b /\ ValidateBounds b = true) /\
  (forall computed start, in_int64 computed -> honest_sample c computed start r ->
     fst (Observe c computed start r) <> Err (ErrTaskClockUnavailable "control-plane time intervals are inconsistent")).
Proof.
  intros Hr%reach_inv Ht. split.
  - intros b c' Hb. destruct (bounds_sound _ _ _ _ Hr Ht Hb) as (_ & _ & Hok). by apply Hok.
  - intros computed start Hci Hh. destruct (Observe c computed start r) as [res c'] eqn:Ho. simpl.
    by destruct (observe_sound _ _ _ _ _ _ Hr Ht Hci Hh Ho) as (_ & _ & ?).
Qed.

(** Lower evidence survives faults.  Along any history with honest
    samples no call, failed ones included, lowers the trusted floor, and the
    floor never exceeds the control plane's time at the last counter value. *)
Theorem lower_floor_monotone c r :
  clock_reach c -> reading_typed r ->
  trustedLowerFloor c ≤ cp (rawFloor c) /\
  trustedLowerFloor c ≤ trustedLowerFloor (snd (Capture c r)) /\
  trustedLowerFloor c ≤ trustedLowerFloor (snd (TaskTimeBoundsOf c r)) /\
  (forall computed start, in_int64 computed -> honest_sample c computed start r ->
     trustedLowerFloor c ≤ trustedLowerFloor (snd (Observe c computed start r))).
Proof.
  intros Hr%reach_inv Ht. split_and!.
  - apply (ci_floor c Hr).
  - unfold Capture. destruct (captureLocked c r) eqn:Hc. by eapply capture_sound in Hc as (_ & _ & ? & _).
  - destruct (TaskTimeBoundsOf c r) eqn:Hb. by eapply bounds_sound in Hb as (_ & ? & _).
  - intros computed start Hci Hh. destruct (Observe c computed start r) eqn:Ho.
    by eapply observe_sound in Ho as (_ & ? & _).
Qed.

(** C31. Deadlines hold in control-plane time.  When a claim reads such a
    clock, a protected task is started only if, at one of that claim's readings,
    the control plane's own time was still before the deadline, and is expired
    only if it had passed. *)
Theorem claim_sound_in_control_plane_time `{Protocol} ops atMS c rs entropy t' db' :
  clock_reach c -> (forall n, reading_typed (rs n)) ->
  ClaimNextTaskFenced (run_task_ops empty_db ops) atMS (startClock c rs) entropy = Ok (t', db') ->
  0 < XNotAfterMS t' ->
  (XState t' = TaskRunning -> exists n now, rs n = Raw now /\ cp now < XNotAfterMS t') /\
  (XState t' = TaskFailed -> exists n now, rs n = Raw now /\ XNotAfterMS t' ≤ cp now).
Proof.
  intros Hr Ht. unfold ClaimNextTaskFenced. case_decide; [done|]. pose proof (reachable_journal ops) as Hj.
  intros (t & Hin%claimCandidates_received & Hcase)%claimLoop_Ok Hp.
  destruct Hcase as [[Hau Hc]|[[_ (n & b & Hb & Hlo)] Hc]].
  - apply claimTask_step in Hc as (_ & _ & _ & random & _ & ->); [|done|done|lia]. simpl in *. split; [|done]. intros _.
    destruct Hau as [?|(n & b & Hb & Hup)]; [lia|].
    destruct (startClock_bounds c rs n b Hr Ht Hb) as (now & Hn & ? & ?). exists n, now. split; [done|lia].
  - assert (0 < XNotAfterMS t) as Hpt.
    { destruct (decide (0 < XNotAfterMS t)) as [|Hno]; [done|]. exfalso.
      unfold expireTask in Hc. destruct (ValidateTaskResults _); [|done]. cbn [negb] in Hc.
      apply bind_Ok in Hc as (? & _ & Hc). apply bind_Ok in Hc as (? & _ & [= <- _]). simpl in Hp. lia. }
    apply expireTask_step in Hc as (_ & _ & _ & ->); try done. simpl in *. split; [done|]. intros _.
    destruct (startClock_bounds c rs n b Hr Ht Hb) as (now & Hn & ? & ?). exists n, now. split; [done|lia].
Qed.

End soundness.

(** A fault revokes authorization at once: whenever a call of the clock
    fails, in any state, the anchor is gone and bounds stay unavailable, for
    every later reading, until a new sample is accepted. *)
Theorem clock_fault_revokes c computed start r :
  (is_Ok (fst (Capture c r)) = false -> forall r', is_Ok (fst (TaskTimeBoundsOf (snd (Capture c r)) r')) = false) /\
  (is_Ok (fst (TaskTimeBoundsOf c r)) = false ->
     forall r', is_Ok (fst (TaskTimeBoundsOf (snd (TaskTimeBoundsOf c r)) r')) = false) /\
  (is_Ok (fst (Observe c computed start r)) = false ->
     forall r', is_Ok (fst (TaskTimeBoundsOf (snd (Observe c computed start r)) r')) = false).
Proof.
  split_and!.
  - unfold Capture. destruct (captureLocked c r) as [[|e] c'] eqn:Hc; [done|]. intros _ r'. simpl.
    by eapply no_anchor_no_bounds, capture_Err.
  - destruct (TaskTimeBoundsOf c r) as [[|e] c'] eqn:Hb; [done|]. intros _ r'. simpl. apply no_anchor_no_bounds.
    unfold TaskTimeBoundsOf in Hb. destruct (captureLocked c r) as [[now|e'] c1] eqn:Hc.
    + by eapply boundsAt_Err.
    + simplify_eq. by eapply capture_Err.
  - destruct (Observe c computed start r) as [[|e] c'] eqn:Ho; [done|]. intros _ r'. simpl. apply no_anchor_no_bounds.
    unfold Observe in Ho. destruct (captureLocked c r) as [[now|e'] c1] eqn:Hc; [|simplify_eq; by eapply capture_Err].
    destruct (boundsAtLocked c1 now) as [old c2]. unfold unavailableLocked in Ho.
    repeat (first [case_decide|case_match]; simplify_eq/=; try done).
Qed.

(** ** A concrete clock *)
Module clock_example.
Import sample.

Definition cp (e : Z) : Z := e / Millisecond + 1000000.

Lemma cp_control_plane : control_plane cp.
Proof.
  split; unfold cp, ceilTaskClockMS, Millisecond.
  - intros e e' He. case_decide; Z.to_euclidean_division_equations; lia.
  - intros e He. pose proof (Z.div_pos e 1000000). lia.
Qed.

Definition fresh : ControlPlaneTaskClock :=
  match NewControlPlaneTaskClock (60 * Second) (5 * Second) (50 * Millisecond) (Raw 0) with
  | Ok c => c
  | Err _ => MkClock 0 0 0 false 0 0 0 false 0 0 0
  end.
Definition anchored : ControlPlaneTaskClock := snd (Observe fresh 1000000 0 (Raw 1000000)).

Lemma anchored_reach : clock_reach cp anchored.
Proof.
  apply cr_observe.
  - apply (cr_new cp (60 * Second) (5 * Second) (50 * Millisecond) (Raw 0)); [vm_compute; intuition discriminate..|reflexivity].
  - vm_compute. intuition discriminate.
  - vm_compute. intuition discriminate.
  - intros end_ [= <-] _. exists 0. vm_compute. intuition discriminate.
Qed.

Lemma task_clock_brackets_witness :
  fst (TaskTimeBoundsOf anchored (Raw 3500000)) = Ok (MkTaskTimeBounds 999952 1000054) /\
  999952 ≤ cp 3500000 ≤ 1000054.
Proof.
  assert (TaskTimeBoundsOf anchored (Raw 3500000) =
    (Ok (MkTaskTimeBounds 999952 1000054), snd (TaskTimeBoundsOf anchored (Raw 3500000)))) as Hb by (vm_compute; reflexivity).
  split; [rewrite Hb; reflexivity|].
  destruct (task_clock_brackets cp cp_control_plane anchored (Raw 3500000) anchored_reach) as [Hok _];
    [vm_compute; intuition discriminate|].
  destruct (Hok _ _ Hb) as (now & [= <-] & Hbr & _). exact Hbr.
Defined.

Lemma lower_floor_monotone_witness :
  trustedLowerFloor anchored = 999950 /\
  trustedLowerFloor anchored ≤ trustedLowerFloor (snd (Capture anchored (Raw 500))).
Proof.
  split; [vm_compute; reflexivity|].
  destruct (lower_floor_monotone cp cp_control_plane anchored (Raw 500) anchored_reach) as (_ & Hc & _);
    [vm_compute; intuition discriminate|exact Hc].
Defined.

Definition protectedTask : Task := MkTask "t1" "restart" "{}" (sha256_hex "{}") 1000100.
Definition history : list task_op := [OpAccept [protectedTask] 1 (startClock anchored (fun _ => Raw 1500000))].
Definition readings : nat -> reading := fun _ => Raw 3500000.
Definition claimed : TaskExecution * DB :=
  match ClaimNextTaskFenced (run_task_ops empty_db history) 2 (startClock anchored readings) (Some [7]) with
  | Ok p => p
  | Err _ => (freshTask protectedTask 0, empty_db)
  end.

Lemma claim_sound_in_control_plane_time_witness :
  XState (fst claimed) = TaskRunning /\ exists n now, readings n = Raw now /\ cp now < XNotAfterMS (fst claimed).
Proof.
  assert (ClaimNextTaskFenced (run_task_ops empty_db history) 2 (startClock anchored readings) (Some [7]) =
    Ok (fst claimed, snd claimed)) as Hc by (vm_compute; reflexivity).
  split; [vm_compute; reflexivity|].
  destruct (claim_sound_in_control_plane_time cp cp_control_plane history 2 anchored readings (Some [7])
    (fst claimed) (snd claimed) anchored_reach) as [Hrun _];
    [intros n; vm_compute; intuition discriminate|exact Hc|vm_compute; reflexivity|].
  apply Hrun. vm_compute. reflexivity.
Defined.

End clock_example.
