(* ===== verification/CoreTraffic.v ===== *)
(** * Connection traffic ledger ([internal/state/sqlite/core_traffic.go])

    A streaming core reports connections, as absolute snapshots or as deltas;
    the ledger turns them into durable totals per client and per listener that
    survive core restarts. *)
From S2P Require Import Prelude GoStrings NetIP Protocol Store.

Record CoreTrafficEvent := MkCoreTrafficEvent {
  ConnectionID : string;
  EClientKey : string;
  EListenerKey : string;
  SourceIP : string;
  Absolute : bool;
  EUpBytes : Z;
  EDownBytes : Z;
  Closed : bool;
  ClosedAtMS : Z
}.

Definition retainedClosedCoreConnections : nat := 2000.

(** ** Validation *)

Definition validateProcessIdentity (identity : string) : res error unit :=
  if decide (TrimSpace identity = "" \/ TrimSpace identity <> identity \/ 512 < len identity)
  then Err (Errorf "core process identity must contain 1..512 canonical bytes") else Ok tt.

(** ** Totals *)

(** [incrementCoreAggregate] on one of the two aggregate tables: the row before
    defaults to zero, as the two scanned variables do. *)
Definition incrementCoreAggregate (table : gmap (string * string) (Z * Z)) (identity key : string) (up down : Z)
    : res error (gmap (string * string) (Z * Z)) :=
  let '(currentUp, currentDown) := default (0, 0) (table !! (identity, key)) in
  match checked_add currentUp up with
  | None => Err (Errorf "core uplink aggregate overflow")
  | Some newUp =>
      match checked_add currentDown down with
      | None => Err (Errorf "core downlink aggregate overflow")
      | Some newDown => Ok (<[(identity, key) := (newUp, newDown)]> table)
      end
  end.

(** A fresh rowid: one more than the largest in the table. *)
Definition next_rowid (m : gmap (string * string) ConnectionRow) : Z :=
  map_fold (fun _ r acc => Z.max (crRowID r) acc) 0 m + 1.

(** ** Events *)

Definition applyCoreTrafficEvent (identity : string) (db : DB) (event : CoreTrafficEvent) : res error DB :=
  let stored := core_connection_traffic db !! (identity, ConnectionID event) in
  if decide (stored = None /\ Absolute event = false)
  then Err (Errorf "delta arrived before absolute connection metadata") else
  '(clientKey, listenerKey, sourceIP) ←
    (match stored with
     | None => Ok (EClientKey event, EListenerKey event, SourceIP event)
     | Some r =>
         if decide ((EClientKey event <> "" /\ EClientKey event <> crClient r) \/
                    (EListenerKey event <> "" /\ EListenerKey event <> crListener r) \/
                    (SourceIP event <> "" /\ SourceIP event <> crSourceIP r))
         then Err (Errorf "connection identity metadata changed") else
         if decide (crClosed r = true /\ Closed event = false)
         then Err (Errorf "closed connection received a later open event") else
         Ok (crClient r, crListener r, crSourceIP r)
     end);
  let storedUp := match stored with Some r => crUp r | None => 0 end in
  let storedDown := match stored with Some r => crDown r | None => 0 end in
  let storedClosed := match stored with Some r => crClosed r | None => false end in
  '(up, down) ←
    (if Absolute event then
       if decide (stored <> None /\ (EUpBytes event < storedUp \/ EDownBytes event < storedDown))
       then Err (Errorf "absolute connection counter moved backwards")
       else Ok (EUpBytes event, EDownBytes event)
     else
       match checked_add storedUp (EUpBytes event) with
       | None => Err (Errorf "connection uplink counter overflow")
       | Some up =>
           match checked_add storedDown (EDownBytes event) with
           | None => Err (Errorf "connection downlink counter overflow")
           | Some down => Ok (up, down)
           end
       end);
  let deltaUp := up - storedUp in
  let deltaDown := down - storedDown in
  clients ← incrementCoreAggregate (core_client_traffic db) identity clientKey deltaUp deltaDown;
  listeners ← incrementCoreAggregate (core_listener_traffic db) identity listenerKey deltaUp deltaDown;
  let closedAt := match stored with
                  | Some r => if decide (ClosedAtMS event = 0 /\ crClosed r = true) then crClosedAtMS r else ClosedAtMS event
                  | None => ClosedAtMS event
                  end in
  let rowid := match stored with Some r => crRowID r | None => next_rowid (core_connection_traffic db) end in
  let row := MkConnectionRow rowid clientKey listenerKey sourceIP up down (Closed event || storedClosed) closedAt in
  Ok (set_core_connection_traffic (<[(identity, ConnectionID event) := row]> (core_connection_traffic db))
       (set_core_listener_traffic listeners (set_core_client_traffic clients db))).

(** ** The stream of one process *)

Definition verifyCoreTrafficResetCoverage (db : DB) (identity : string) (events : list CoreTrafficEvent) : res error unit :=
  match core_traffic_stream db with
  | Some (current, true) =>
      if decide (current <> identity) then Ok tt else
      let missing kv := kv.1.1 = identity /\ crClosed kv.2 = false /\ kv.1.2 ∉ ConnectionID <$> events in
      if decide (filter missing (map_to_list (core_connection_traffic db)) <> []) then Err ErrCoreTrafficGap else Ok tt
  | _ => Ok tt
  end.

(** The [INSERT ... SELECT] of one table from [current] to [identity], then the
    removal of every other process's rows. *)
Definition carryForward (identity current : string) (m : gmap (string * string) (Z * Z)) : gmap (string * string) (Z * Z) :=
  let moved := list_to_map ((fun kv => ((identity, kv.1.2), kv.2)) <$>
                 filter (fun kv => kv.1.1 = current) (map_to_list m)) in
  moved ∪ filter (fun kv => kv.1.1 = identity) m.

Definition prepareCoreTrafficStream (db : DB) (identity : string) (reset : bool) : res error DB :=
  match core_traffic_stream db with
  | None =>
      if negb reset then Err (Errorf "core traffic stream requires an initial reset") else
      Ok (set_core_traffic_stream (Some (identity, false)) db)
  | Some (current, ready) =>
      if decide (current = identity) then
        if negb reset && negb ready then Err (Errorf "core traffic stream is not initialized") else Ok db
      else if negb reset then Err (Errorf "new core process traffic stream requires an initial reset") else
      Ok (set_core_traffic_stream (Some (identity, false))
           (set_core_connection_traffic ∅
             (set_core_listener_traffic (carryForward identity current (core_listener_traffic db))
               (set_core_client_traffic (carryForward identity current (core_client_traffic db)) db))))
  end.

(** [ORDER BY closed_at_ms DESC, rowid DESC]. *)
Definition newer_closed (a b : ConnectionRow) : Prop :=
  crClosedAtMS b < crClosedAtMS a \/ (crClosedAtMS a = crClosedAtMS b /\ crRowID b ≤ crRowID a).

#[global] Instance newer_closed_dec a b : Decision (newer_closed a b).
Proof. unfold newer_closed. apply _. Defined.

Definition pruneClosed (identity : string) (m : gmap (string * string) ConnectionRow) : gmap (string * string) ConnectionRow :=
  let is_closed kv := kv.1.1 = identity /\ crClosed kv.2 = true in
  let retained := firstn retainedClosedCoreConnections
                    (merge_sort newer_closed (filter is_closed (map_to_list m)).*2) in
  filter (fun kv => ~ (kv.1.1 = identity /\ crClosed kv.2 = true /\ crRowID kv.2 ∉ crRowID <$> retained)) m.

Section core_traffic.
Context `{Protocol}.

Definition validateCoreTrafficEvent (event : CoreTrafficEvent) : res error unit :=
  if decide (TrimSpace (ConnectionID event) = "" \/ TrimSpace (ConnectionID event) <> ConnectionID event \/
             128 < len (ConnectionID event))
  then Err (Errorf "connection ID must contain 1..128 canonical bytes") else
  if decide (ClientRowID (EClientKey event) = None) then Err (Errorf "client key") else
  if decide (ListenerRowID (EListenerKey event) = None) then Err (Errorf "listener key") else
  if decide (AddrString <$> ParseAddr (SourceIP event) <> Some (SourceIP event))
  then Err (Errorf "source IP must be canonical") else
  if decide (EUpBytes event < 0 \/ EDownBytes event < 0 \/ ClosedAtMS event < 0 \/
             Closed event <> bool_decide (0 < ClosedAtMS event))
  then Err (Errorf "traffic counters and closed timestamp are invalid") else Ok tt.

Definition validateEvents (reset : bool) (events : list CoreTrafficEvent) : res error unit :=
  res_foldl (fun _ event =>
    _ ← validateCoreTrafficEvent event;
    if reset && negb (Absolute event) then Err (Errorf "reset snapshots require absolute events") else Ok tt) tt events.

Definition ApplyCoreTrafficEvents (db : DB) (processIdentity : string) (reset : bool) (events : list CoreTrafficEvent)
    : res error DB :=
  _ ← validateProcessIdentity processIdentity;
  _ ← validateEvents reset events;
  _ ← (if reset then verifyCoreTrafficResetCoverage db processIdentity events else Ok tt);
  d ← prepareCoreTrafficStream db processIdentity reset;
  d ← res_foldl (applyCoreTrafficEvent processIdentity) d events;
  let d := if reset
           then set_core_traffic_stream
                  (match core_traffic_stream d with
                   | Some (p, ready) => if decide (p = processIdentity) then Some (p, true) else Some (p, ready)
                   | None => None
                   end) d
           else d in
  Ok (set_core_connection_traffic (pruneClosed processIdentity (core_connection_traffic d)) d).

(** ** Snapshots *)

Record CoreTrafficValue := MkCoreTrafficValue { TVUp : Z; TVDown : Z; TVLiveIPs : list string }.

Record CoreTrafficSnapshot := MkCoreTrafficSnapshot {
  SnapReady : bool;
  SnapClients : gmap string CoreTrafficValue;
  SnapListeners : gmap string CoreTrafficValue
}.

(** The rows of one process, keyed by the second column. *)
Definition processRows {A} (identity : string) (m : gmap (string * string) A) : list (string * A) :=
  (fun kv => (kv.1.2, kv.2)) <$> filter (fun kv => kv.1.1 = identity) (map_to_list m).

(** The distinct addresses of a client's open connections, sorted. *)
Definition liveIPs (identity key : string) (m : gmap (string * string) ConnectionRow) : list string :=
  merge_sort String.le (elements (C := gset string) (list_to_set (crSourceIP <$>
    filter (fun r => crClosed r = false /\ crClient r = key) (processRows identity m).*2))).

Definition CoreTrafficSnapshotOf (db : DB) (processIdentity : string) : res error CoreTrafficSnapshot :=
  _ ← validateProcessIdentity processIdentity;
  let empty := MkCoreTrafficSnapshot false ∅ ∅ in
  match core_traffic_stream db with
  | None => Ok empty
  | Some (storedIdentity, ready) =>
      if decide (storedIdentity <> processIdentity \/ ready = false) then Ok empty else
      let clients := list_to_map ((fun kv => (kv.1, MkCoreTrafficValue kv.2.1 kv.2.2 []))
                       <$> processRows processIdentity (core_client_traffic db)) in
      let listeners := list_to_map ((fun kv => (kv.1, MkCoreTrafficValue kv.2.1 kv.2.2 []))
                       <$> processRows processIdentity (core_listener_traffic db)) in
      let online := crClient <$> filter (fun r => crClosed r = false) (processRows processIdentity (core_connection_traffic db)).*2 in
      let addIPs (m : gmap string CoreTrafficValue) key :=
        let v := default (MkCoreTrafficValue 0 0 []) (m !! key) in
        <[key := MkCoreTrafficValue (TVUp v) (TVDown v) (liveIPs processIdentity key (core_connection_traffic db))]> m in
      Ok (MkCoreTrafficSnapshot true (foldl addIPs clients online) listeners)
  end.

End core_traffic.

(** ** Sums over a table *)
Section sums.
Context {A : Type} (f : A -> Z).

Definition msum (m : gmap (string * string) A) : Z := map_fold (fun _ v acc => f v + acc) 0 m.

Lemma msum_empty : msum ∅ = 0.
Proof. apply map_fold_empty. Qed.

Lemma msum_insert_new m k v : m !! k = None -> msum (<[k := v]> m) = f v + msum m.
Proof. intros Hk. unfold msum. rewrite map_fold_insert_L; [done|intros; lia|done]. Qed.

Lemma msum_insert m k v : msum (<[k := v]> m) = f v - match m !! k with Some x => f x | None => 0 end + msum m.
Proof.
  destruct (m !! k) as [x|] eqn:Hk; [|rewrite msum_insert_new by done; lia].
  pose proof (msum_insert_new (delete k m) k v (lookup_delete_eq m k)) as H1.
  pose proof (msum_insert_new (delete k m) k x (lookup_delete_eq m k)) as H2.
  rewrite insert_delete_eq in H1, H2. rewrite insert_id in H2 by done. lia.
Qed.

Lemma msum_nonneg m : (forall k v, m !! k = Some v -> 0 ≤ f v) -> 0 ≤ msum m.
Proof.
  induction m as [|k v m Hk IH] using map_ind; intros Hall; [by rewrite msum_empty|].
  rewrite msum_insert_new by done. pose proof (Hall k v ltac:(by rewrite lookup_insert_eq)).
  assert (0 ≤ msum m); [|lia]. apply IH. intros k' v' Hk'. apply (Hall k'). rewrite lookup_insert_ne; [done|]. congruence.
Qed.

Lemma msum_filter_le (P : (string * string) * A -> Prop) `{forall x, Decision (P x)} m :
  (forall k v, m !! k = Some v -> 0 ≤ f v) -> msum (filter P m) ≤ msum m.
Proof.
  induction m as [|k v m Hk IH] using map_ind; intros Hall; [rewrite map_filter_empty; lia|].
  pose proof (Hall k v ltac:(by rewrite lookup_insert_eq)).
  assert (msum (filter P m) ≤ msum m) as IH'.
  { apply IH. intros k' v' Hk'. apply (Hall k'). rewrite lookup_insert_ne; [done|]. congruence. }
  rewrite map_filter_insert, msum_insert_new by done. case_decide.
  - rewrite msum_insert_new by (apply map_lookup_filter_None; by left). lia.
  - rewrite delete_id by done. lia.
Qed.

End sums.

(** ** Invariant *)

Definition pair_nonneg (v : Z * Z) : Prop := 0 ≤ v.1 ≤ max_int64 /\ 0 ≤ v.2 ≤ max_int64.

Definition row_nonneg (r : ConnectionRow) : Prop := 0 ≤ crUp r ≤ max_int64 /\ 0 ≤ crDown r ≤ max_int64.

(** All rows belong to the current process; counters are non-negative int64
    values; the same bytes are booked to clients and to listeners; and the open
    ledger never exceeds what was booked. *)
Record traffic_ok (db : DB) : Prop := {
  to_owner : forall p, (exists k, is_Some (core_client_traffic db !! (p, k)) \/ is_Some (core_listener_traffic db !! (p, k)) \/
    is_Some (core_connection_traffic db !! (p, k))) -> exists ready, core_traffic_stream db = Some (p, ready);
  to_clients : forall k v, core_client_traffic db !! k = Some v -> pair_nonneg v;
  to_listeners : forall k v, core_listener_traffic db !! k = Some v -> pair_nonneg v;
  to_rows : forall k r, core_connection_traffic db !! k = Some r -> row_nonneg r;
  to_up : msum fst (core_client_traffic db) = msum fst (core_listener_traffic db);
  to_down : msum snd (core_client_traffic db) = msum snd (core_listener_traffic db);
  to_ledger_up : msum crUp (core_connection_traffic db) ≤ msum fst (core_client_traffic db);
  to_ledger_down : msum crDown (core_connection_traffic db) ≤ msum snd (core_client_traffic db)
}.

Lemma traffic_ok_empty : traffic_ok empty_db.
Proof.
  split; simpl; try (by rewrite ?msum_empty); try (intros ? ? Hk; by rewrite lookup_empty in Hk).
  intros p (k & [[? Hx]|[[? Hx]|[? Hx]]]); by rewrite lookup_empty in Hx.
Qed.

(** One aggregate increment. *)
Lemma increment_Ok table identity key up down table' :
  (forall k v, table !! k = Some v -> pair_nonneg v) -> in_int64 up -> in_int64 down ->
  incrementCoreAggregate table identity key up down = Ok table' ->
  let old := default (0, 0) (table !! (identity, key)) in
  0 ≤ up /\ 0 ≤ down /\ table' = <[(identity, key) := (old.1 + up, old.2 + down)]> table /\
  pair_nonneg (old.1 + up, old.2 + down) /\
  msum fst table' = msum fst table + up /\ msum snd table' = msum snd table + down.
Proof.
  intros Hn Hu Hd. unfold incrementCoreAggregate. cbn zeta.
  assert (pair_nonneg (default (0, 0) (table !! (identity, key)))) as Hold.
  { destruct (table !! (identity, key)) eqn:Ht; simpl; [by eapply Hn|unfold pair_nonneg, max_int64; simpl; lia]. }
  destruct (default (0, 0) (table !! (identity, key))) as [u d] eqn:Hdef. destruct Hold as [Hou Hod]. simpl in *.
  destruct (checked_add u up) as [nu|] eqn:E1; [|done]. destruct (checked_add d down) as [nd|] eqn:E2; [|done].
  apply checked_add_Some in E1 as (_ & ? & -> & ?); [|unfold in_int64, min_int64; lia|done].
  apply checked_add_Some in E2 as (_ & ? & -> & ?); [|unfold in_int64, min_int64; lia|done].
  intros [= <-]. split_and!; try done; try (unfold pair_nonneg; simpl; lia).
  - rewrite msum_insert. simpl. destruct (table !! (identity, key)) as [[u' d']|]; simpl in *; simplify_eq; simpl; lia.
  - rewrite msum_insert. simpl. destruct (table !! (identity, key)) as [[u' d']|]; simpl in *; simplify_eq; simpl; lia.
Qed.

(** ** One event *)

Definition event_typed (e : CoreTrafficEvent) : Prop :=
  0 ≤ EUpBytes e ≤ max_int64 /\ 0 ≤ EDownBytes e ≤ max_int64.

Definition storedBytes (f : ConnectionRow -> Z) (db : DB) (identity conn : string) : Z :=
  match core_connection_traffic db !! (identity, conn) with Some r => f r | None => 0 end.

(** Every accepted event books the growth of one connection, once to a client
    and once to a listener. *)
Lemma applyEvent_effect identity db e db' :
  traffic_ok db -> event_typed e -> applyCoreTrafficEvent identity db e = Ok db' ->
  exists row clients listeners,
    let su := storedBytes crUp db identity (ConnectionID e) in
    let sd := storedBytes crDown db identity (ConnectionID e) in
    row_nonneg row /\ su ≤ crUp row /\ sd ≤ crDown row /\ 0 ≤ su /\ 0 ≤ sd /\
    incrementCoreAggregate (core_client_traffic db) identity (crClient row) (crUp row - su) (crDown row - sd) = Ok clients /\
    incrementCoreAggregate (core_listener_traffic db) identity (crListener row) (crUp row - su) (crDown row - sd) = Ok listeners /\
    (Absolute e = true -> crUp row = EUpBytes e /\ crDown row = EDownBytes e) /\
    db' = set_core_connection_traffic (<[(identity, ConnectionID e) := row]> (core_connection_traffic db))
            (set_core_listener_traffic listeners (set_core_client_traffic clients db)).
Proof.
  intros Hok [Hu Hd]. unfold applyCoreTrafficEvent, storedBytes. cbn zeta. case_decide as Hmiss; [done|].
  assert (forall r, core_connection_traffic db !! (identity, ConnectionID e) = Some r -> row_nonneg r) as Hst
    by (intros r Hr; by eapply to_rows).
  destruct (core_connection_traffic db !! (identity, ConnectionID e)) as [r|].
  - destruct (Hst r eq_refl) as [Hru Hrd]. intros ([[ck lk] ip] & _ & Hrest)%bind_Ok.
    apply bind_Ok in Hrest as ([up down] & Hud & Hrest).
    apply bind_Ok in Hrest as (clients & Hc & Hrest). apply bind_Ok in Hrest as (listeners & Hl & [= <-]).
    assert (0 ≤ crUp r ≤ up /\ up ≤ max_int64 /\ 0 ≤ crDown r ≤ down /\ down ≤ max_int64 /\
      (Absolute e = true -> up = EUpBytes e /\ down = EDownBytes e)) as (? & ? & ? & ? & Habs).
    { destruct (Absolute e).
      - case_decide as Hb; [done|]. simplify_eq. assert (~ (EUpBytes e < crUp r \/ EDownBytes e < crDown r)) by naive_solver.
        split_and!; lia.
      - destruct (checked_add (crUp r) (EUpBytes e)) as [u|] eqn:E1; [|done].
        destruct (checked_add (crDown r) (EDownBytes e)) as [d|] eqn:E2; [|done]. simplify_eq.
        apply checked_add_Some in E1; [|unfold in_int64, min_int64; lia..].
        apply checked_add_Some in E2; [|unfold in_int64, min_int64; lia..]. split_and!; try lia; done. }
    eexists (MkConnectionRow _ _ _ _ up down _ _), clients, listeners. unfold row_nonneg. cbn [crUp crDown crClient crListener].
    split_and!; try lia; try done.
  - destruct (Absolute e); [|naive_solver]. cbn [mbind res_bind]. rewrite decide_False by naive_solver.
    cbn [mbind res_bind]. intros Hrest.
    apply bind_Ok in Hrest as (clients & Hc & Hrest). apply bind_Ok in Hrest as (listeners & Hl & [= <-]).
    eexists (MkConnectionRow _ _ _ _ (EUpBytes e) (EDownBytes e) _ _), clients, listeners.
    unfold row_nonneg. cbn [crUp crDown crClient crListener]. split_and!; try lia; try done.
Qed.

(** Totals only grow. *)
Definition agg_le (m m' : gmap (string * string) (Z * Z)) : Prop :=
  forall k v, m !! k = Some v -> exists v', m' !! k = Some v' /\ v.1 ≤ v'.1 /\ v.2 ≤ v'.2.

Lemma agg_le_refl m : agg_le m m.
Proof. intros k v Hv. exists v. by split_and!. Qed.

Lemma agg_le_trans a b c : agg_le a b -> agg_le b c -> agg_le a c.
Proof.
  intros Hab Hbc k v Hv. destruct (Hab k v Hv) as (v1 & H1 & ? & ?). destruct (Hbc k v1 H1) as (v2 & H2 & ? & ?).
  exists v2. split_and!; [done|lia|lia].
Qed.

Lemma agg_le_insert m k (u d : Z) :
  0 ≤ u -> 0 ≤ d -> let old := default (0, 0) (m !! k) in agg_le m (<[k := (old.1 + u, old.2 + d)]> m).
Proof.
  intros Hu Hd old k' v Hv. destruct (decide (k' = k)) as [->|Hne].
  - rewrite lookup_insert_eq. eexists. split; [done|]. unfold old. rewrite Hv. simpl. lia.
  - rewrite lookup_insert_ne by done. exists v. by split_and!.
Qed.

Lemma applyEvent_ok identity ready db e db' :
  traffic_ok db -> core_traffic_stream db = Some (identity, ready) -> event_typed e ->
  applyCoreTrafficEvent identity db e = Ok db' ->
  traffic_ok db' /\ core_traffic_stream db' = core_traffic_stream db /\
  agg_le (core_client_traffic db) (core_client_traffic db') /\ agg_le (core_listener_traffic db) (core_listener_traffic db').
Proof.
  intros Hok Hs Ht He. destruct (applyEvent_effect _ _ _ _ Hok Ht He) as
    (row & clients & listeners & [Hru Hrd] & Hsu & Hsd & Hsu0 & Hsd0 & Hc & Hl & _ & ->).
  set (su := storedBytes crUp db identity (ConnectionID e)) in *.
  set (sd := storedBytes crDown db identity (ConnectionID e)) in *.
  assert (in_int64 (crUp row - su)) as Iu by (unfold in_int64, min_int64; lia).
  assert (in_int64 (crDown row - sd)) as Id by (unfold in_int64, min_int64; lia).
  apply increment_Ok in Hc as (_ & _ & Hceq & Hcn & Hcu & Hcd); [|by apply to_clients|done..].
  apply increment_Ok in Hl as (_ & _ & Hleq & Hln & Hlu & Hld); [|by apply to_listeners|done..].
  split_and!; [|done|simpl; rewrite Hceq; apply agg_le_insert; lia|simpl; rewrite Hleq; apply agg_le_insert; lia].
  destruct Hok as [Ho Hcl Hll Hr Hup Hdn Hlup Hldn].
  assert (msum crUp (<[(identity, ConnectionID e) := row]> (core_connection_traffic db)) =
    msum crUp (core_connection_traffic db) + (crUp row - su)) as Hsumu.
  { rewrite msum_insert. unfold su, storedBytes. destruct (core_connection_traffic db !! _); lia. }
  assert (msum crDown (<[(identity, ConnectionID e) := row]> (core_connection_traffic db)) =
    msum crDown (core_connection_traffic db) + (crDown row - sd)) as Hsumd.
  { rewrite msum_insert. unfold sd, storedBytes. destruct (core_connection_traffic db !! _); lia. }
  split; simpl; try lia.
  - intros p (k & Hex). rewrite Hceq, Hleq in Hex. destruct (decide (p = identity)) as [->|Hne]; [by exists ready|].
    rewrite !lookup_insert_ne in Hex by congruence. apply Ho. by exists k.
  - rewrite Hceq. intros k v [[_ <-]|[_ ?]]%lookup_insert_Some; [done|by eapply Hcl].
  - rewrite Hleq. intros k v [[_ <-]|[_ ?]]%lookup_insert_Some; [done|by eapply Hll].
  - intros k r [[_ <-]|[_ ?]]%lookup_insert_Some; [by split|by eapply Hr].
Qed.

(** ** A new process *)

Section carry.
Context {A : Type} (f : A -> Z).

Definition lsum (l : list ((string * string) * A)) : Z := foldr (fun kv acc => f kv.2 + acc) 0 l.

Lemma lsum_perm l l' : l ≡ₚ l' -> lsum l = lsum l'.
Proof. induction 1; simpl; lia. Qed.

Lemma msum_lsum (m : gmap (string * string) A) : msum f m = lsum (map_to_list m).
Proof. unfold msum, lsum. rewrite map_fold_foldr. induction (map_to_list m) as [|[k v] l IH]; simpl; [done|]. by rewrite IH. Qed.

Lemma lsum_rekey (g : (string * string) -> (string * string)) l : lsum ((fun kv => (g kv.1, kv.2)) <$> l) = lsum l.
Proof. induction l as [|kv l IH]; [done|]. rewrite fmap_cons. cbn [lsum foldr snd]. f_equal. exact IH. Qed.

End carry.

Lemma carry_spec identity current m :
  identity <> current -> (forall p k, is_Some (m !! (p, k)) -> p = current) ->
  (forall p k, carryForward identity current m !! (p, k) = if decide (p = identity) then m !! (current, k) else None) /\
  forall f, msum f (carryForward identity current m) = msum f m.
Proof.
  intros Hne Hown. unfold carryForward.
  assert (filter (fun kv : (string * string) * (Z * Z) => kv.1.1 = identity) m = ∅) as ->.
  { apply map_empty_filter. intros [p k] v Hv. simpl. intros ->. apply Hne. apply (Hown identity k). eauto. }
  rewrite (filter_keeps_all (fun kv => kv.1.1 = current) (map_to_list m)).
  2: { intros [[p k] v] Hin. simpl. apply elem_of_map_to_list in Hin. apply (Hown p k). eauto. }
  rewrite map_union_empty. set (l := (fun kv => ((identity, kv.1.2), kv.2)) <$> map_to_list m).
  assert (NoDup l.*1) as Hnd.
  { unfold l. rewrite <-list_fmap_compose. apply NoDup_fmap_2_strong; [|apply NoDup_map_to_list].
    intros [[p k] v] [[p' k'] v'] Hx Hy [= ->]. apply elem_of_map_to_list in Hx, Hy.
    rewrite (Hown p k') in Hx |- * by eauto. rewrite (Hown p' k') in Hy |- * by eauto. congruence. }
  split.
  - intros p k. case_decide as Hp; [subst p|].
    + apply option_eq. intros v. rewrite <-elem_of_list_to_map by done. unfold l. rewrite list_elem_of_fmap. split.
      * intros ([[p' k'] v'] & Heq & Hin). simplify_eq/=. apply elem_of_map_to_list in Hin. by rewrite <-(Hown p' k') by eauto.
      * intros Hv. exists ((current, k), v). split; [done|]. by apply elem_of_map_to_list.
    + apply not_elem_of_list_to_map_1. unfold l. intros (kv & Hk & (kv' & -> & _)%list_elem_of_fmap)%list_elem_of_fmap.
      simpl in Hk. congruence.
  - intros f. rewrite !msum_lsum. rewrite (lsum_perm _ _ _ (map_to_list_to_map l Hnd)).
    apply (lsum_rekey f (fun k => (identity, k.2))).
Qed.

(** What the stream's process has booked to one client, and to one listener. *)
Definition booked (table : DB -> gmap (string * string) (Z * Z)) (db : DB) (key : string) : Z * Z :=
  match core_traffic_stream db with
  | Some (p, _) => default (0, 0) (table db !! (p, key))
  | None => (0, 0)
  end.

Definition booked_le (db db' : DB) : Prop :=
  forall key, (booked core_client_traffic db key).1 ≤ (booked core_client_traffic db' key).1 /\
    (booked core_client_traffic db key).2 ≤ (booked core_client_traffic db' key).2 /\
    (booked core_listener_traffic db key).1 ≤ (booked core_listener_traffic db' key).1 /\
    (booked core_listener_traffic db key).2 ≤ (booked core_listener_traffic db' key).2.

Lemma booked_le_refl db : booked_le db db.
Proof. intros key. lia. Qed.

Lemma booked_le_trans a b c : booked_le a b -> booked_le b c -> booked_le a c.
Proof. intros Hab Hbc key. specialize (Hab key). specialize (Hbc key). lia. Qed.

Lemma prepare_ok db identity reset db' :
  traffic_ok db -> prepareCoreTrafficStream db identity reset = Ok db' ->
  traffic_ok db' /\ (exists ready, core_traffic_stream db' = Some (identity, ready)) /\ booked_le db db'.
Proof.
  intros Hok. unfold prepareCoreTrafficStream. destruct (core_traffic_stream db) as [[current ready]|] eqn:Hs.
  - case_decide as Hc; [subst; destruct (negb reset && negb ready); [done|]; intros [= <-];
      split_and!; [done|by eauto|apply booked_le_refl]|].
    destruct reset; [|done]. cbn [negb]. intros [= <-].
    destruct Hok as [Ho Hcl Hll Hr Hup Hdn Hlup Hldn].
    assert (forall p k, is_Some (core_client_traffic db !! (p, k)) -> p = current) as Hoc.
    { intros p k Hk. destruct (Ho p) as [? ?]; [eauto|congruence]. }
    assert (forall p k, is_Some (core_listener_traffic db !! (p, k)) -> p = current) as Hol.
    { intros p k Hk. destruct (Ho p) as [? ?]; [eauto|congruence]. }
    destruct (carry_spec identity current (core_client_traffic db)) as [Hck Hcs]; [done..|].
    destruct (carry_spec identity current (core_listener_traffic db)) as [Hlk Hls]; [done..|].
    split_and!; [|by eexists|].
    + split; simpl; rewrite ?Hcs, ?Hls, ?msum_empty; try done.
      * intros p (k & Hex). rewrite Hck, Hlk, lookup_empty in Hex. case_decide; [subst; eauto|].
        destruct Hex as [[? ?]|[[? ?]|[? ?]]]; done.
      * intros [p k] v. rewrite Hck. case_decide; [by apply Hcl|done].
      * intros [p k] v. rewrite Hlk. case_decide; [by apply Hll|done].
      * apply msum_nonneg. intros k v Hv. apply Hcl in Hv as [? _]. lia.
      * apply msum_nonneg. intros k v Hv. apply Hcl in Hv as [_ ?]. lia.
    + intros key. unfold booked. rewrite Hs. simpl. rewrite Hck, Hlk, !decide_True by done. lia.
  - destruct reset; [|done]. cbn [negb]. intros [= <-]. destruct Hok as [Ho Hcl Hll Hr Hup Hdn Hlup Hldn].
    split_and!; [|by eexists|].
    + split; try done. intros p Hex. destruct (Ho p Hex) as [? Hx]. congruence.
    + intros key. unfold booked. rewrite Hs. simpl.
      assert (forall t : DB -> gmap (string * string) (Z * Z), (forall p k, t db !! (p, k) = None) ->
        default (0, 0) (t db !! (identity, key)) = (0, 0)) as Hz by (intros t Ht; by rewrite Ht).
      rewrite !Hz; [simpl; lia|..]; intros p k; apply eq_None_not_Some; intros Hx;
        (destruct (Ho p) as [? ?]; [by eauto|congruence]).
Qed.

(** ** Whole calls *)
Section calls.
Context `{Protocol}.

(** The byte counts of an event are int64 values. *)
Definition event_int64 (e : CoreTrafficEvent) : Prop := in_int64 (EUpBytes e) /\ in_int64 (EDownBytes e).

Lemma validateEvents_Ok reset events :
  validateEvents reset events = Ok tt ->
  Forall (fun e => validateCoreTrafficEvent e = Ok tt /\ (reset = true -> Absolute e = true)) events.
Proof.
  unfold validateEvents. induction events as [|e events IH]; simpl; [done|].
  intros ([] & Hv & Hrest)%bind_Ok. apply bind_Ok_unit in Hv as [Hv Ha].
  constructor; [|by apply IH]. split; [done|]. intros ->. by destruct (Absolute e).
Qed.

Lemma validated_typed e : event_int64 e -> validateCoreTrafficEvent e = Ok tt -> event_typed e.
Proof.
  unfold validateCoreTrafficEvent, event_int64, event_typed, in_int64. intros Hi.
  repeat (case_decide; [done|]). intros _. lia.
Qed.

Lemma booked_le_agg db db' :
  core_traffic_stream db' = core_traffic_stream db ->
  agg_le (core_client_traffic db) (core_client_traffic db') ->
  agg_le (core_listener_traffic db) (core_listener_traffic db') ->
  (forall k v, core_client_traffic db' !! k = Some v -> pair_nonneg v) ->
  (forall k v, core_listener_traffic db' !! k = Some v -> pair_nonneg v) -> booked_le db db'.
Proof.
  intros Hs Hc Hl Hcn Hln key. unfold booked. rewrite Hs. destruct (core_traffic_stream db) as [[p ?]|]; [|simpl; lia].
  assert (forall t t' : gmap (string * string) (Z * Z), agg_le t t' -> (forall k v, t' !! k = Some v -> pair_nonneg v) ->
    (default (0, 0) (t !! (p, key))).1 ≤ (default (0, 0) (t' !! (p, key))).1 /\
    (default (0, 0) (t !! (p, key))).2 ≤ (default (0, 0) (t' !! (p, key))).2) as Hgen.
  { intros t t' Hle Hn. destruct (t !! (p, key)) as [v|] eqn:Hv.
    - destruct (Hle _ _ Hv) as (v' & -> & ?). simpl. lia.
    - simpl. destruct (t' !! (p, key)) as [v'|] eqn:Hv'; simpl; [|lia]. destruct (Hn _ _ Hv'). lia. }
  destruct (Hgen _ _ Hc Hcn), (Hgen _ _ Hl Hln). lia.
Qed.

Lemma event_loop_ok identity events : forall db db' ready,
  traffic_ok db -> core_traffic_stream db = Some (identity, ready) -> Forall event_typed events ->
  res_foldl (applyCoreTrafficEvent identity) db events = Ok db' ->
  traffic_ok db' /\ core_traffic_stream db' = core_traffic_stream db /\ booked_le db db'.
Proof.
  induction events as [|e events IH]; intros db db' ready Hok Hs Ht Hl; cbn [res_foldl] in Hl.
  - simplify_eq. split_and!; [done..|apply booked_le_refl].
  - inversion Ht; subst. apply bind_Ok in Hl as (d & Hd & Hl).
    destruct (applyEvent_ok _ _ _ _ _ Hok Hs ltac:(done) Hd) as (Hokd & Hsd & Hc & Hli).
    destruct (IH d db' ready Hokd ltac:(by rewrite Hsd) ltac:(done) Hl) as (? & Hs' & Hb).
    split_and!; [done|congruence|]. eapply booked_le_trans; [|exact Hb].
    by apply booked_le_agg; [| | |apply to_clients|apply to_listeners].
Qed.

(** The last two statements of a call: the ready mark and the pruning. *)
Lemma finish_ok identity ready db s m :
  traffic_ok db -> core_traffic_stream db = Some (identity, ready) -> s = Some (identity, true) \/ s = Some (identity, ready) ->
  m = pruneClosed identity (core_connection_traffic db) ->
  let db' := set_core_connection_traffic m (set_core_traffic_stream s db) in
  traffic_ok db' /\ booked_le db db'.
Proof.
  intros Hok Hs Hcase -> db'. destruct Hok as [Ho Hcl Hll Hr Hup Hdn Hlup Hldn]. split.
  - assert (exists b, s = Some (identity, b)) as [b ->] by naive_solver.
    split; simpl; try done.
    + intros p (k & Hex). assert (exists r', core_traffic_stream db = Some (p, r')) as [r' Hr'].
      { apply Ho. exists k. destruct Hex as [?|[?|[r [Hx _]%map_lookup_filter_Some]]]; [by left|by right; left|].
        right. right. eauto. }
      exists b. congruence.
    + intros k r [Hx _]%map_lookup_filter_Some. by eapply Hr.
    + etrans; [|exact Hlup]. apply msum_filter_le. intros k v Hv. destruct (Hr k v Hv). lia.
    + etrans; [|exact Hldn]. apply msum_filter_le. intros k v Hv. destruct (Hr k v Hv). lia.
  - intros key. unfold booked. simpl. rewrite Hs. destruct Hcase as [->| ->]; lia.
Qed.

Lemma ApplyCoreTrafficEvents_ok db identity reset events db' :
  traffic_ok db -> Forall event_int64 events -> ApplyCoreTrafficEvents db identity reset events = Ok db' ->
  traffic_ok db' /\ booked_le db db'.
Proof.
  intros Hok Hi. unfold ApplyCoreTrafficEvents. intros (_ & (Hv & Hrest)%bind_Ok_unit)%bind_Ok_unit.
  apply bind_Ok_unit in Hrest as [_ Hrest]. apply bind_Ok in Hrest as (d1 & Hp & Hrest).
  apply bind_Ok in Hrest as (d2 & Hl & [= <-]).
  assert (Forall event_typed events) as Ht.
  { apply validateEvents_Ok in Hv. rewrite Forall_forall in Hv, Hi |- *. intros e He. apply validated_typed; [by apply Hi|by apply Hv]. }
  destruct (prepare_ok _ _ _ _ Hok Hp) as (Hok1 & [ready Hs1] & Hb1).
  destruct (event_loop_ok _ _ _ _ _ Hok1 Hs1 Ht Hl) as (Hok2 & Hs2 & Hb2). rewrite Hs1 in Hs2. rewrite Hs2.
  rewrite decide_True by done.
  destruct (finish_ok identity ready d2 (if reset then Some (identity, true) else Some (identity, ready))
    (pruneClosed identity (core_connection_traffic d2)) Hok2 Hs2) as [Hok3 Hb3]; [destruct reset; auto|done|].
  assert ((if reset then set_core_traffic_stream (Some (identity, true)) d2 else d2) =
    set_core_traffic_stream (if reset then Some (identity, true) else Some (identity, ready)) d2) as ->.
  { destruct reset; [done|]. destruct d2. simpl in *. by rewrite Hs2. }
  split; [exact Hok3|]. eapply booked_le_trans; [exact Hb1|]. eapply booked_le_trans; [exact Hb2|exact Hb3].
Qed.

(** A history of calls; a refused one changes nothing. *)
Record traffic_call := MkTrafficCall { tcIdentity : string; tcReset : bool; tcEvents : list CoreTrafficEvent }.

Definition run_traffic (db : DB) (calls : list traffic_call) : DB :=
  foldl (fun d c => match ApplyCoreTrafficEvents d (tcIdentity c) (tcReset c) (tcEvents c) with Ok d' => d' | Err _ => d end) db calls.

Definition call_typed (c : traffic_call) : Prop := Forall event_int64 (tcEvents c).

Lemma run_traffic_ok calls : forall db, traffic_ok db -> Forall call_typed calls -> traffic_ok (run_traffic db calls) /\ booked_le db (run_traffic db calls).
Proof.
  induction calls as [|c calls IH]; intros db Hok Ht; simpl; [split; [done|apply booked_le_refl]|].
  inversion Ht; subst. destruct (ApplyCoreTrafficEvents _ _ _ _) as [d|] eqn:Hd; [|by apply IH].
  apply ApplyCoreTrafficEvents_ok in Hd as [Hokd Hb]; [|done..]. destruct (IH d Hokd ltac:(done)) as [? ?].
  split; [done|]. by eapply booked_le_trans.
Qed.

(** ** Properties *)

(** Traffic is conserved.  After any history of event batches, resets
    and core restarts, the bytes booked to clients and to listeners have the
    same totals in each direction, every stored counter is a non-negative int64,
    and the connection ledger never claims more than was booked. *)
Theorem traffic_conserved calls :
  Forall call_typed calls ->
  let db := run_traffic empty_db calls in
  msum fst (core_client_traffic db) = msum fst (core_listener_traffic db) /\
  msum snd (core_client_traffic db) = msum snd (core_listener_traffic db) /\
  msum crUp (core_connection_traffic db) ≤ msum fst (core_client_traffic db) /\
  msum crDown (core_connection_traffic db) ≤ msum snd (core_client_traffic db) /\
  (forall k v, core_client_traffic db !! k = Some v \/ core_listener_traffic db !! k = Some v -> pair_nonneg v).
Proof.
  intros Ht db. destruct (run_traffic_ok calls empty_db traffic_ok_empty Ht) as [[_ Hc Hl _ H1 H2 H3 H4] _].
  split_and!; try done. intros k v [?|?]; [by eapply Hc|by eapply Hl].
Qed.

(** No booked byte is ever lost: along any history, across core
    restarts that replace the process identity and the connection ledger, what
    is booked to each client and each listener never decreases. *)
Theorem booked_traffic_monotone calls calls' :
  Forall call_typed calls -> Forall call_typed calls' ->
  booked_le (run_traffic empty_db calls) (run_traffic (run_traffic empty_db calls) calls').
Proof.
  intros Ht Ht'. destruct (run_traffic_ok calls empty_db traffic_ok_empty Ht) as [Hok _].
  by apply (run_traffic_ok calls' _ Hok Ht').
Qed.

(** Booking nothing changes nothing. *)
Lemma increment_zero table identity key u d :
  0 ≤ u ≤ max_int64 -> 0 ≤ d ≤ max_int64 -> table !! (identity, key) = Some (u, d) ->
  incrementCoreAggregate table identity key 0 0 = Ok table.
Proof.
  intros Hu Hd Ht. unfold incrementCoreAggregate. rewrite Ht. simpl.
  assert (forall x, 0 ≤ x ≤ max_int64 -> checked_add x 0 = Some x) as Hz.
  { intros x Hx. apply checked_add_Some; [unfold in_int64, min_int64; lia|unfold in_int64, min_int64, max_int64; lia|lia]. }
  rewrite !Hz by done. by rewrite insert_id.
Qed.

(** The row an accepted event leaves agrees with the event. *)
Lemma applyEvent_row identity db e db' :
  (Closed e = true -> ClosedAtMS e <> 0) -> applyCoreTrafficEvent identity db e = Ok db' ->
  exists row, core_connection_traffic db' !! (identity, ConnectionID e) = Some row /\
    (EClientKey e = "" \/ EClientKey e = crClient row) /\ (EListenerKey e = "" \/ EListenerKey e = crListener row) /\
    (SourceIP e = "" \/ SourceIP e = crSourceIP row) /\ crClosed row = Closed e /\ crClosedAtMS row = ClosedAtMS e.
Proof.
  intros Hcl. unfold applyCoreTrafficEvent. cbn zeta. case_decide; [done|].
  intros ([[ck lk] ip] & Hmeta & Ha)%bind_Ok. apply bind_Ok in Ha as ([up down] & _ & Ha).
  apply bind_Ok in Ha as (cl & _ & Ha). apply bind_Ok in Ha as (li & _ & [= <-]). simpl. rewrite lookup_insert_eq.
  eexists. split; [done|]. cbn [crClient crListener crSourceIP crClosed crClosedAtMS].
  destruct (core_connection_traffic db !! (identity, ConnectionID e)) as [r|].
  - case_decide as Hm; [done|]. case_decide as Hc; [done|]. simplify_eq.
    assert (crClosed r = true -> Closed e = true) as Hcc by (destruct (Closed e); naive_solver).
    split_and!.
    + destruct (decide (EClientKey e = "")); [by left|right]. apply dec_stable. tauto.
    + destruct (decide (EListenerKey e = "")); [by left|right]. apply dec_stable. tauto.
    + destruct (decide (SourceIP e = "")); [by left|right]. apply dec_stable. tauto.
    + destruct (Closed e), (crClosed r); naive_solver.
    + case_decide as Hz; [|done]. destruct Hz as [Hz1 Hz2]. exfalso. apply Hcl; [by apply Hcc|done].
  - simplify_eq. split_and!; auto. by destruct (Closed e).
Qed.

(** An event that restates the stored row is a no-op. *)
Lemma applyEvent_restate identity db e row :
  core_connection_traffic db !! (identity, ConnectionID e) = Some row -> Absolute e = true ->
  (EClientKey e = "" \/ EClientKey e = crClient row) -> (EListenerKey e = "" \/ EListenerKey e = crListener row) ->
  (SourceIP e = "" \/ SourceIP e = crSourceIP row) -> crClosed row = Closed e -> crClosedAtMS row = ClosedAtMS e ->
  crUp row = EUpBytes e -> crDown row = EDownBytes e ->
  incrementCoreAggregate (core_client_traffic db) identity (crClient row) 0 0 = Ok (core_client_traffic db) ->
  incrementCoreAggregate (core_listener_traffic db) identity (crListener row) 0 0 = Ok (core_listener_traffic db) ->
  applyCoreTrafficEvent identity db e = Ok db.
Proof.
  intros Hr Habs Hc Hl Hip Hcl Hca Hu Hd Hci Hli. unfold applyCoreTrafficEvent. cbn zeta. rewrite Hr.
  rewrite decide_False by (by intros [? _]). destruct (decide (_ \/ _)) as [?|_]; [tauto|].
  destruct (decide (crClosed row = true /\ Closed e = false)) as [[? ?]|_]; [congruence|]. cbn [mbind res_bind].
  rewrite Habs, Hu, Hd.
  rewrite (decide_False (P := Some row <> None /\ (EUpBytes e < EUpBytes e \/ EDownBytes e < EDownBytes e))) by (intros [_ ?]; lia). cbn [mbind res_bind]. rewrite !Z.sub_diag, Hci. cbn [mbind res_bind].
  rewrite Hli. cbn [mbind res_bind]. f_equal.
  assert (MkConnectionRow (crRowID row) (crClient row) (crListener row) (crSourceIP row) (EUpBytes e) (EDownBytes e)
    (Closed e || crClosed row) (if decide (ClosedAtMS e = 0 /\ crClosed row = true) then crClosedAtMS row else ClosedAtMS e) = row) as ->.
  { destruct row. simpl in *. subst. rewrite orb_diag. by case_decide. }
  rewrite insert_id by done. by destruct db.
Qed.

(** Absolute snapshots are idempotent: on a reachable ledger, sending
    an accepted absolute event again is accepted and changes nothing, neither
    the totals nor the connection's row, so a snapshot repeated after a
    reconnect is not counted twice. *)
Theorem absolute_event_idempotent calls identity e db1 :
  Forall call_typed calls -> event_int64 e -> validateCoreTrafficEvent e = Ok tt -> Absolute e = true ->
  applyCoreTrafficEvent identity (run_traffic empty_db calls) e = Ok db1 ->
  applyCoreTrafficEvent identity db1 e = Ok db1.
Proof.
  intros Htc Hi Hval Habs Ha. pose proof (validated_typed e Hi Hval) as Ht.
  set (db := run_traffic empty_db calls) in *.
  assert (traffic_ok db) as Hok by apply (run_traffic_ok calls empty_db traffic_ok_empty Htc).
  assert (Closed e = true -> ClosedAtMS e <> 0) as Hcl.
  { unfold validateCoreTrafficEvent in Hval. repeat (case_decide; [done|]). intros Hc Hz.
    assert (Closed e = bool_decide (0 < ClosedAtMS e)) as Heq by (apply dec_stable; tauto).
    rewrite Hc, Hz in Heq. done. }
  destruct (applyEvent_row _ _ _ _ Hcl Ha) as (row & Hr & Hf1 & Hf2 & Hf3 & Hf4 & Hf5).
  destruct (applyEvent_effect _ _ _ _ Hok Ht Ha) as (row' & clients & listeners & [Hru Hrd] & Hsu & Hsd & Hsu0 & Hsd0 & Hc & Hl & Hrow & ->).
  simpl in Hr. rewrite lookup_insert_eq in Hr. injection Hr as ->. destruct (Hrow Habs) as [Eu Ed].
  apply increment_Ok in Hc as (_ & _ & Hceq & [Hc1 Hc2] & _); [|by apply to_clients|unfold in_int64, min_int64; lia..].
  apply increment_Ok in Hl as (_ & _ & Hleq & [Hl1 Hl2] & _); [|by apply to_listeners|unfold in_int64, min_int64; lia..].
  simpl in *.
  eapply applyEvent_restate; simpl; rewrite ?lookup_insert_eq; try done.
  - eapply increment_zero; [exact Hc1|exact Hc2|]. by rewrite Hceq, lookup_insert_eq.
  - eapply increment_zero; [exact Hl1|exact Hl2|]. by rewrite Hleq, lookup_insert_eq.
Qed.

(** Traffic that could have gone missing is never papered over.  For
    well-formed input: a reset snapshot for the running process that omits a
    connection the ledger still holds open is refused as a gap; and a process
    the stream does not belong to must begin with a reset. *)
Theorem traffic_gaps_refused db identity events :
  validateProcessIdentity identity = Ok tt ->
  (forall conn r, validateEvents true events = Ok tt -> core_traffic_stream db = Some (identity, true) ->
     core_connection_traffic db !! (identity, conn) = Some r -> crClosed r = false ->
     conn ∉ ConnectionID <$> events -> ApplyCoreTrafficEvents db identity true events = Err ErrCoreTrafficGap) /\
  ((forall ready, core_traffic_stream db <> Some (identity, ready)) ->
     is_Ok (ApplyCoreTrafficEvents db identity false events) = false).
Proof.
  intros Hid. unfold ApplyCoreTrafficEvents. rewrite Hid. cbn [mbind res_bind]. split.
  - intros conn r Hv Hs Hr Hopen Hno. rewrite Hv. cbn [mbind res_bind]. unfold verifyCoreTrafficResetCoverage.
    rewrite Hs, decide_False by naive_solver. rewrite decide_True; [done|]. intros Hnil.
    assert (((identity, conn), r) ∈ filter (fun kv : (string * string) * ConnectionRow => kv.1.1 = identity /\ crClosed kv.2 = false /\
      kv.1.2 ∉ ConnectionID <$> events) (map_to_list (core_connection_traffic db))) as Hin.
    { apply list_elem_of_filter. split; [done|]. by apply elem_of_map_to_list. }
    rewrite Hnil in Hin. set_solver.
  - intros Hs. destruct (validateEvents false events) as [[]|]; [|done]. cbn [mbind res_bind].
    assert (is_Ok (prepareCoreTrafficStream db identity false) = false) as Hp.
    { unfold prepareCoreTrafficStream. destruct (core_traffic_stream db) as [[p ready]|]; [|done].
      case_decide as Hpe; [|done]. subst. by destruct (Hs ready). }
    by destruct (prepareCoreTrafficStream db identity false).
Qed.

End calls.

(** ** A concrete ledger *)
Module traffic_example.
Import sample.

Definition snapshot : CoreTrafficEvent := MkCoreTrafficEvent "c1" "cli_1" "lst_1" "192.0.2.1" true 100 20 false 0.
Definition delta : CoreTrafficEvent := MkCoreTrafficEvent "c1" "cli_1" "lst_1" "192.0.2.1" false 5 1 true 9.
Definition after_restart : CoreTrafficEvent := MkCoreTrafficEvent "c2" "cli_1" "lst_2" "192.0.2.1" true 7 7 false 0.

Definition first : list traffic_call := [MkTrafficCall "core-1" true [snapshot]; MkTrafficCall "core-1" false [delta]].
Definition second : list traffic_call := [MkTrafficCall "core-2" true [after_restart]].

Lemma first_typed : Forall call_typed first.
Proof. repeat constructor; simpl; unfold min_int64, max_int64; lia. Qed.

Lemma second_typed : Forall call_typed second.
Proof. repeat constructor; simpl; unfold min_int64, max_int64; lia. Qed.

Definition ledger : DB := run_traffic empty_db first.

Lemma traffic_conserved_witness :
  msum fst (core_client_traffic ledger) = 105 /\ msum fst (core_client_traffic ledger) = msum fst (core_listener_traffic ledger).
Proof.
  split; [vm_compute; reflexivity|]. exact (proj1 (traffic_conserved first first_typed)).
Defined.

Lemma booked_traffic_monotone_witness :
  booked core_client_traffic ledger "cli_1" = (105, 21) /\
  booked core_client_traffic (run_traffic ledger second) "cli_1" = (112, 28) /\
  booked_le ledger (run_traffic ledger second).
Proof.
  split; [vm_compute; reflexivity|]. split; [vm_compute; reflexivity|].
  exact (booked_traffic_monotone first second first_typed second_typed).
Defined.

Definition opened : list traffic_call := [MkTrafficCall "core-1" true [snapshot]].
Definition grown : CoreTrafficEvent := MkCoreTrafficEvent "c1" "cli_1" "lst_1" "192.0.2.1" true 150 20 false 0.
Definition grown_db : DB :=
  match applyCoreTrafficEvent "core-1" (run_traffic empty_db opened) grown with Ok d => d | Err _ => empty_db end.

Lemma absolute_event_idempotent_witness : applyCoreTrafficEvent "core-1" grown_db grown = Ok grown_db.
Proof.
  apply (absolute_event_idempotent opened "core-1" grown grown_db).
  - repeat constructor; simpl; unfold min_int64, max_int64; lia.
  - split; simpl; unfold in_int64, min_int64, max_int64; lia.
  - vm_compute. reflexivity.
  - reflexivity.
  - vm_compute. reflexivity.
Defined.

Lemma traffic_gaps_refused_witness :
  ApplyCoreTrafficEvents (run_traffic empty_db opened) "core-1" true [after_restart] = Err ErrCoreTrafficGap.
Proof.
  refine (proj1 (traffic_gaps_refused (run_traffic empty_db opened) "core-1" [after_restart] _) "c1"
    (MkConnectionRow 1 "cli_1" "lst_1" "192.0.2.1" 100 20 false 0) _ _ _ _ _);
    [vm_compute; reflexivity..|]. simpl. set_solver.
Defined.

End traffic_example.
