(* ===== verification/Deployment.v ===== *)
(** * Core deployment and reference skew
      ([internal/state/sqlite/core_deployment.go], [internal/state/sqlite/skew.go])

    The deployment last confirmed running, and how many rounds in a row a
    reference was seen at one version. *)
From S2P Require Import Prelude GoStrings Sha256 GoJson Protocol Store.

(** ** Deployment *)

Definition validateCoreDeployment (d : CoreDeployment) : res error unit :=
  if decide (TrimSpace (CDEngine d) = "" \/ TrimSpace (CDVersion d) = "" \/ CDAppliedAtMS d ≤ 0) then Err ErrInvalidState else
  if negb (json_Valid (CDArtifact d)) || negb (json_Valid (CDConfigBody d)) || negb (json_Valid (CDRosterBody d))
  then Err ErrInvalidState else
  if decide (CDConfigDigest d <> sha256_hex (CDArtifact d)) then Err ErrInvalidState else
  Ok tt.

(** [Store.CoreDeployment]: a stored row is validated again when it is read. *)
Definition CoreDeploymentOf (db : DB) : res error CoreDeployment :=
  match core_deployment db with
  | None => Err ErrNotFound
  | Some d => _ ← validateCoreDeployment d; Ok d
  end.

Definition SaveCoreDeployment (db : DB) (d : CoreDeployment) : res error DB :=
  _ ← validateCoreDeployment d;
  Ok (set_core_deployment (Some d) db).

(** What is saved is what is read, and a read never yields a row whose digest
    does not match its artifact. *)
Lemma deployment_roundtrip db d db' : SaveCoreDeployment db d = Ok db' -> CoreDeploymentOf db' = Ok d.
Proof.
  unfold SaveCoreDeployment, CoreDeploymentOf. intros (Hv & [= <-])%bind_Ok_unit. simpl. by rewrite Hv.
Qed.

Lemma deployment_read_digest db d : CoreDeploymentOf db = Ok d -> CDConfigDigest d = sha256_hex (CDArtifact d).
Proof.
  unfold CoreDeploymentOf. destruct (core_deployment db) as [d'|]; [|done].
  intros (Hv & [= <-])%bind_Ok_unit. unfold validateCoreDeployment in Hv. case_decide; [done|].
  destruct (_ || _); [done|]. by case_decide.
Qed.

(** ** Reference skew *)
Section skew.
Context `{Protocol}.

Definition ObserveReferenceSkew (db : DB) (kind key : string) (version : PVersion) : res error (Z * DB) :=
  if decide (TrimSpace kind = "" \/ TrimSpace key = "" \/ VZero version = true)
  then Err (Errorf "reference skew requires kind, key, and non-zero version") else
  rounds ← (match reference_skew db !! (kind, key) with
            | None => Ok 1
            | Some (current, rounds) =>
                if decide (current = version) then
                  if decide (rounds = max_int64) then Err (Errorf "reference skew round counter overflow") else Ok (rounds + 1)
                else Ok 1
            end);
  Ok (rounds, set_reference_skew (<[(kind, key) := (version, rounds)]> (reference_skew db)) db).

Definition ClearReferenceSkew (db : DB) (kind key : string) : res error DB :=
  if decide (TrimSpace kind = "" \/ TrimSpace key = "") then Err (Errorf "reference skew requires kind and key") else
  Ok (set_reference_skew (delete (kind, key) (reference_skew db)) db).

(** ** A reference is counted in consecutive rounds *)

Inductive skew_op := SkewObserve (kind key : string) (version : PVersion) | SkewClear (kind key : string).

Definition run_skew (db : DB) (op : skew_op) : DB :=
  match op with
  | SkewObserve kind key v => match ObserveReferenceSkew db kind key v with Ok (_, d) => d | Err _ => db end
  | SkewClear kind key => match ClearReferenceSkew db kind key with Ok d => d | Err _ => db end
  end.

(** The specification: the length of the run of observations of [version] that
    ends the history of one reference, newest first. *)
Fixpoint run_length (kind key : string) (version : PVersion) (newest_first : list skew_op) : Z :=
  match newest_first with
  | [] => 0
  | SkewObserve k r v :: rest =>
      if decide (k = kind /\ r = key) then
        if decide (v = version) then 1 + run_length kind key version rest else 0
      else run_length kind key version rest
  | SkewClear k r :: rest => if decide (k = kind /\ r = key) then 0 else run_length kind key version rest
  end.

(** The operations are well formed: their keys and versions pass the guards. *)
Definition skew_valid (op : skew_op) : Prop :=
  match op with
  | SkewObserve kind key v => TrimSpace kind <> "" /\ TrimSpace key <> "" /\ VZero v = false
  | SkewClear kind key => TrimSpace kind <> "" /\ TrimSpace key <> ""
  end.

Definition stored_rounds (db : DB) (kind key : string) (version : PVersion) : Z :=
  match reference_skew db !! (kind, key) with
  | Some (v, rounds) => if decide (v = version) then rounds else 0
  | None => 0
  end.

Lemma run_length_nonneg kind key v ops : 0 ≤ run_length kind key v ops.
Proof. induction ops as [|[]]; simpl; repeat case_decide; lia. Qed.

Lemma run_length_le kind key v ops : run_length kind key v ops ≤ Z.of_nat (length ops).
Proof. induction ops as [|[]]; simpl length; simpl run_length; repeat case_decide; lia. Qed.

(** The table refines the specification, as long as the counter cannot
    overflow. *)
Lemma skew_refines ops kind key v :
  Forall skew_valid ops -> Z.of_nat (length ops) < max_int64 ->
  stored_rounds (foldr (fun op d => run_skew d op) empty_db ops) kind key v = run_length kind key v ops.
Proof.
  intros Hv Hlen. induction ops as [|op ops IH]; simpl; [done|].
  inversion Hv; subst. simpl length in Hlen.
  assert (forall v', stored_rounds (foldr (fun op d => run_skew d op) empty_db ops) kind key v' = run_length kind key v' ops ->
    stored_rounds (foldr (fun op d => run_skew d op) empty_db ops) kind key v' < max_int64) as Hsmall.
  { intros v' ->. pose proof (run_length_le kind key v' ops). lia. }
  specialize (IH ltac:(done) ltac:(lia)). specialize (Hsmall v IH).
  set (d := foldr _ empty_db ops) in *. destruct op as [k r v'|k r]; simpl in *.
  - unfold ObserveReferenceSkew. rewrite decide_False by (destruct (VZero v'); naive_solver).
    destruct (decide (k = kind /\ r = key)) as [[-> ->]|Hne].
    + unfold stored_rounds in IH, Hsmall |- *.
      destruct (reference_skew d !! (kind, key)) as [[cur n]|] eqn:Hc; cbn [mbind res_bind].
      * destruct (decide (cur = v')) as [->|Hcv].
        -- destruct (decide (n = max_int64)) as [Hmax|_].
           { destruct (decide (v' = v)); [lia|]. cbn [mbind res_bind]. rewrite Hc. by rewrite decide_False. }
           cbn [mbind res_bind]. simpl. rewrite lookup_insert_eq. destruct (decide (v' = v)); lia.
        -- cbn [mbind res_bind]. simpl. rewrite lookup_insert_eq.
           destruct (decide (v' = v)) as [->|]; [|done]. rewrite decide_False in IH by done. lia.
      * simpl. rewrite lookup_insert_eq. destruct (decide (v' = v)); lia.
    + rewrite <-IH. unfold stored_rounds.
      destruct (match reference_skew d !! (k, r) with Some _ => _ | None => _ end) as [n|]; cbn [mbind res_bind]; [|done].
      simpl. rewrite lookup_insert_ne; [done|]. intros [= -> ->]. tauto.
  - unfold ClearReferenceSkew. rewrite decide_False by tauto. unfold stored_rounds in *. simpl.
    destruct (decide (k = kind /\ r = key)) as [[-> ->]|Hne].
    + by rewrite lookup_delete_eq.
    + rewrite lookup_delete_ne; [done|]. intros [= -> ->]. tauto.
Qed.

(** The skew counter means what its name says: after any history of
    valid observations and clears (shorter than the counter's range), observing
    a reference reports exactly how many observations in a row, this one
    included, found it at this version since it last changed or was cleared. *)
Theorem skew_counts_consecutive_rounds ops kind key v :
  Forall skew_valid ops -> Z.of_nat (length ops) < max_int64 -> skew_valid (SkewObserve kind key v) ->
  exists db', ObserveReferenceSkew (foldr (fun op d => run_skew d op) empty_db ops) kind key v =
    Ok (1 + run_length kind key v ops, db').
Proof.
  intros Hops Hlen (Hk & Hr & Hz). pose proof (skew_refines ops kind key v Hops Hlen) as Hs.
  pose proof (run_length_le kind key v ops) as Hle. unfold stored_rounds in Hs. unfold ObserveReferenceSkew.
  rewrite decide_False by (rewrite Hz; naive_solver).
  destruct (reference_skew _ !! (kind, key)) as [[cur n]|]; cbn [mbind res_bind].
  - destruct (decide (cur = v)).
    + rewrite decide_False by lia. cbn [mbind res_bind]. eexists. do 2 f_equal. lia.
    + cbn [mbind res_bind]. eexists. do 2 f_equal. lia.
  - eexists. do 2 f_equal. lia.
Qed.

End skew.

Module skew_example.
Import sample.

Definition seen : skew_op := SkewObserve "client" "cli_1" (MkPVersion 1 4).
Definition other : skew_op := SkewObserve "client" "cli_2" (MkPVersion 1 9).

Lemma skew_counts_consecutive_rounds_witness :
  exists db', ObserveReferenceSkew (foldr (fun op d => run_skew d op) empty_db [seen; other; seen]) "client" "cli_1" (MkPVersion 1 4) =
    Ok (3, db').
Proof.
  apply (skew_counts_consecutive_rounds [seen; other; seen] "client" "cli_1" (MkPVersion 1 4)).
  - repeat constructor; discriminate.
  - reflexivity.
  - repeat constructor; discriminate.
Defined.

End skew_example.
