(* ===== verification/Worker.v ===== *)
(** * Task worker ([internal/agent/tasks.go])

    The registry of handlers, the drain and recovery loops over the journal, and
    the classification of what a handler returned.  Handlers are code outside
    the worker: what one call of them does is an input of the model, and the
    model records which tasks were handed to [Execute]. *)
From S2P Require Import Prelude GoStrings Sha256 Protocol Store Outbox Tasks Journal GoJson.

Definition TaskErrorUnsupportedKind : string := "unsupported_task_kind".
Definition TaskErrorExecutionFailed : string := "task_execution_failed".
Definition TaskErrorExecutionIndeterminate : string := "task_execution_indeterminate".
Definition TaskErrorRecoveryUnsupported : string := "task_recovery_unsupported".
Definition TaskErrorResultInvalid : string := "task_result_invalid".

(** ** What a handler call yields *)

(** A non-nil error: the [TaskError] it wraps, if any, its text, and whether it
    is a cancellation. *)
Record callError := MkCallError {
  ceClass : option (string * bool);
  ceText : string;
  ceCancelled : bool
}.

(** [Execute] or [Recover] returns, fails or panics. *)
Inductive invocation := Returned (payload : string) | Failed (e : callError) | Panicked (text : string).

(** [invokeHandler] and [invokeRecoverer]: a panic is an indeterminate error. *)
Definition invoke (prefix : string) (i : invocation) : res callError string :=
  match i with
  | Returned payload => Ok payload
  | Failed e => Err e
  | Panicked text => Err (MkCallError (Some (TaskErrorExecutionIndeterminate, true)) (prefix +:+ text) false)
  end.

Definition invokeHandler : invocation -> res callError string := invoke "task handler panic: ".
Definition invokeRecoverer : invocation -> res callError string := invoke "task recovery panic: ".

Definition executionInterrupted (cancelled : bool) (r : res callError string) : bool :=
  match r with Err e => cancelled && ceCancelled e | Ok _ => false end.

(** ** The registry *)

(** A handler, by the interfaces it implements. *)
Record Handler := MkHandler { implementsRecoverer : bool; implementsAvailability : bool }.

Section worker.
Context `{Protocol}.

Definition NewTaskRegistry (handlers : gmap string (option Handler)) : res error (gmap string Handler) :=
  if decide (MaxCapabilitiesPerReport - 2 < Z.of_nat (size handlers)) then Err (Errorf "task registry has too many handlers") else
  res_foldl (fun registry '(kind, handler) =>
    let probe := MkTask "capability-check" kind "" (ComputeTaskInputSHA256 kind "") 0 in
    if negb (ValidateTasks [probe]) then Err (Errorf "register task kind") else
    match handler with
    | None => Err (Errorf "handler is nil")
    | Some h => Ok (<[kind := h]> registry)
    end) ∅ (map_to_list handlers).

Definition HandlerOf (registry : gmap string Handler) (kind : string) : option Handler := registry !! kind.

(** [TaskRegistry.Capabilities]; [available] answers [TaskAvailable] per kind. *)
Definition RegistryCapabilities (registry : gmap string Handler) (available : string -> bool) : list string :=
  let gated kh := implementsAvailability kh.2 = true /\ available kh.1 = false in
  merge_sort String.le (CapabilityTaskExecutionV1 ::
    ((fun kh => TaskCapability kh.1) <$> filter (fun kh => ~ gated kh) (map_to_list registry))).

Definition WorkerCapabilities (registry : gmap string Handler) (available : string -> bool) (clock : bool) : list string :=
  let capabilities := RegistryCapabilities registry available in
  if clock then merge_sort String.le (capabilities ++ [CapabilityTaskExpiryV1]) else capabilities.

(** ** Completion *)

Definition validWorkerErrorCode (code : string) : bool :=
  if decide (code = "" \/ MaxTaskErrorCodeBytes < len code) then false else
  ValidateTaskResults [MkTaskResult "validation" "validation.v1" (ComputeTaskInputSHA256 "validation.v1" "") 0
                         false false "" code "validation"].

(** [%q] of a task kind; the kinds the wire validation admits need no escapes. *)
Definition quoted (kind : string) : string := quote +:+ kind +:+ quote.

(** The replacement character U+FFFD. *)
Definition replacementRune : string := bytes_of [239; 191; 189]%nat.

(** The truncation loop: each turn removes at least one byte, so the length is
    enough fuel. *)
Fixpoint truncateRunes (fuel : nat) (message : string) : string :=
  if decide (len message ≤ MaxTaskErrorBytes) then message else
  match fuel with
  | O => message
  | S fuel' => truncateRunes fuel' (take_str (String.length message - last_rune_size message)%nat message)
  end.

(** [boundedError] of a non-nil error with this text. *)
Definition boundedError (text : string) : string :=
  let fallback := "task execution failed" in
  let message := TrimSpace text in
  let message := if decide (message = "") then fallback else message in
  if decide (len message ≤ MaxTaskErrorBytes /\ utf8_ValidString message = true) then message else
  let message := if utf8_ValidString message then message else ToValidUTF8 message replacementRune in
  let message := truncateRunes (String.length message) message in
  let message := TrimSpace message in
  if decide (message = "") then fallback else message.

Definition complete (db : DB) (t : TaskExecution) (terminal : TaskState) (result : TaskResult) (nowMS : Z) : res error DB :=
  CompleteTask db (XID t) terminal result nowMS.

Definition finishError (db : DB) (t : TaskExecution) (code : string) (indeterminate : bool) (cause : string) (nowMS : Z) : res error DB :=
  let code := if validWorkerErrorCode code then code else TaskErrorExecutionFailed in
  let terminal := if indeterminate then TaskIndeterminate else TaskFailed in
  complete db t terminal
    (MkTaskResult (XID t) (XKind t) (XInputSHA256 t) (XNotAfterMS t) false indeterminate "" code (boundedError cause)) nowMS.

Definition finishInvocation (db : DB) (t : TaskExecution) (r : res callError string) (recovering : bool) (nowMS : Z) : res error DB :=
  match r with
  | Err e =>
      let '(code, indeterminate) :=
        match ceClass e with
        | Some (code, indeterminate) => (if decide (code <> "") then code else TaskErrorExecutionFailed, indeterminate)
        | None => (TaskErrorExecutionFailed, recovering)
        end in
      finishError db t code indeterminate (ceText e) nowMS
  | Ok payload =>
      let result := MkTaskResult (XID t) (XKind t) (XInputSHA256 t) (XNotAfterMS t) true false payload "" "" in
      if negb (ValidateTaskResults [result]) then finishError db t TaskErrorResultInvalid false (TaskResultsErrorText [result]) nowMS
      else complete db t TaskSucceeded result nowMS
  end.

(** ** Recovery *)

(** What the environment does to one recovery call. *)
Record recoverEnv := MkRecoverEnv { reCall : invocation; reCancelled : bool; reNowMS : Z }.

(** One task of the loop: [None] is the early return of an interrupted call. *)
Definition recoverOne (registry : gmap string Handler) (db : DB) (t : TaskExecution) (env : recoverEnv) : res error (option DB) :=
  match HandlerOf registry (XKind t) with
  | None => Some <$> finishError db t TaskErrorRecoveryUnsupported true ("task kind " +:+ quoted (XKind t) +:+ " is no longer registered") (reNowMS env)
  | Some handler =>
      if negb (implementsRecoverer handler) then
        Some <$> finishError db t TaskErrorExecutionIndeterminate true
          "task was running when the agent stopped and handler has no recovery contract" (reNowMS env)
      else
        let r := invokeRecoverer (reCall env) in
        if executionInterrupted (reCancelled env) r then Ok None else
        Some <$> finishInvocation db t r true (reNowMS env)
  end.

(** Each completion is its own transaction, so an error leaves the earlier ones
    in place. *)
Fixpoint recoverLoop (registry : gmap string Handler) (envs : string -> recoverEnv) (db : DB) (ts : list TaskExecution)
    : res error unit * DB :=
  match ts with
  | [] => (Ok tt, db)
  | t :: ts' =>
      match recoverOne registry db t (envs (XID t)) with
      | Ok (Some d) => recoverLoop registry envs d ts'
      | Ok None => (Ok tt, db)
      | Err e => (Err e, db)
      end
  end.

Definition recoverRunning (registry : gmap string Handler) (envs : string -> recoverEnv) (db : DB) : res error unit * DB :=
  recoverLoop registry envs db (RunningTasks db).

(** ** The drain loop *)

(** What the environment does during one turn: cancellation at the loop head and
    when the store or the handler returned, the two clock readings, the entropy, the
    handler's behaviour and the two wall-clock readings. *)
Record turnEnv := MkTurnEnv {
  teCancelled : bool;
  teClaimMS : Z;
  teClock : TaskStartClock;
  teEntropy : option (list Z);
  teBounds : option TaskTimeBounds;
  teCall : invocation;
  teInterrupted : bool;
  teFinishMS : Z
}.

(** What the clock answered just before a start: an interval, or [None] for an
    absent clock or its error. *)
Definition taskStartBounds (answer : option TaskTimeBounds) : option TaskTimeBounds :=
  match answer with
  | Some bounds => if ValidateBounds bounds then Some bounds else None
  | None => None
  end.

(** The guard before the handler call. *)
Definition mayStart (t : TaskExecution) (answer : option TaskTimeBounds) : bool :=
  if decide (0 < XNotAfterMS t) then
    match taskStartBounds answer with
    | Some bounds => negb (bool_decide (XNotAfterMS t ≤ UpperMS bounds))
    | None => false
    end
  else true.

Definition wireTask (t : TaskExecution) : Task :=
  MkTask (XID t) (XKind t) (XArgs t) (XInputSHA256 t) (XNotAfterMS t).

(** Where one turn leaves the loop: it goes on, or [drain] returns. *)
Inductive turnEnd := Continue | Return (worked : bool).

(** One turn: what it returns, the database it leaves, and the task handed to
    [Execute], if any. *)
Definition drainTurn (registry : gmap string Handler) (db : DB) (worked : bool) (env : turnEnv)
    : res error turnEnd * DB * option Task :=
  if teCancelled env then (Ok (Return worked), db, None) else
  match ClaimNextTaskFenced db (teClaimMS env) (teClock env) (teEntropy env) with
  | Err ErrNotFound => (Ok (Return worked), db, None)
  | Err e => (if teInterrupted env then Ok (Return worked) else Err e, db, None)
  | Ok (t, d) =>
      if Terminal (XState t) then (Ok Continue, d, None) else
      match HandlerOf registry (XKind t) with
      | None =>
          match finishError d t TaskErrorUnsupportedKind false ("task kind " +:+ quoted (XKind t) +:+ " is unsupported") (teFinishMS env) with
          | Ok d' => (Ok Continue, d', None)
          | Err e => (Err e, d, None)
          end
      | Some _ =>
          if negb (mayStart t (teBounds env)) then
            match ReleaseTaskClaim d t with
            | Ok d' => (Ok (Return false), d', None)
            | Err e => (Err e, d, None)
            end
          else
            let r := invokeHandler (teCall env) in
            if executionInterrupted (teInterrupted env) r then (Ok (Return true), d, Some (wireTask t)) else
            match finishInvocation d t r false (teFinishMS env) with
            | Ok d' => (Ok Continue, d', Some (wireTask t))
            | Err e => (Err e, d, Some (wireTask t))
            end
      end
  end.

(** The loop over a script of turns; when the script ends the context is
    cancelled.  The list is the tasks handed to [Execute], in order. *)
Fixpoint drain (registry : gmap string Handler) (db : DB) (worked : bool) (envs : list turnEnv)
    : res error bool * DB * list Task :=
  match envs with
  | [] => (Ok worked, db, [])
  | env :: envs' =>
      let '(r, d, executed) := drainTurn registry db worked env in
      let started := option_list executed in
      match r with
      | Err e => (Err e, d, started)
      | Ok (Return w) => (Ok w, d, started)
      | Ok Continue => let '(r', d', ts) := drain registry d true envs' in (r', d', started ++ ts)
      end
  end.

(** ** The worker in its environment

    The worker's own store calls, one per step and in the order the loops make
    them, interleaved with the other calls that touch the journal (acceptance of
    tasks, acknowledgements, issues) and with crashes: the process may die
    between any two calls and start again.  [executed] lists the tasks handed to
    [Execute] so far, each with the bounds read just before. *)

Inductive wpc := WIdle | WClaimed (t : TaskExecution) | WRan (t : TaskExecution) (r : res callError string).

Record wstate := MkWState {
  wdb : DB;
  wpos : wpc;
  executed : list (TaskExecution * option TaskTimeBounds)
}.

(** The calls of other components. *)
Definition outside_op (op : task_op) : Prop :=
  match op with OpAccept _ _ _ | OpIssue _ _ _ | OpAck _ => True | _ => False end.

Section steps.
Context (registry : gmap string Handler).

Inductive wstep : wstate -> wstate -> Prop :=
| ws_outside db pc ex op db' :
    outside_op op -> run_task_op db op = Ok db' -> wstep (MkWState db pc ex) (MkWState db' pc ex)
| ws_claim db ex nowMS clock entropy t db' :
    ClaimNextTaskFenced db nowMS clock entropy = Ok (t, db') ->
    wstep (MkWState db WIdle ex) (MkWState db' (if Terminal (XState t) then WIdle else WClaimed t) ex)
| ws_unsupported db ex t code cause nowMS db' :
    HandlerOf registry (XKind t) = None -> finishError db t code false cause nowMS = Ok db' ->
    wstep (MkWState db (WClaimed t) ex) (MkWState db' WIdle ex)
| ws_release db ex t bounds db' :
    mayStart t bounds = false -> ReleaseTaskClaim db t = Ok db' ->
    wstep (MkWState db (WClaimed t) ex) (MkWState db' WIdle ex)
| ws_execute db ex t bounds r :
    HandlerOf registry (XKind t) <> None -> mayStart t bounds = true ->
    wstep (MkWState db (WClaimed t) ex) (MkWState db (WRan t r) (ex ++ [(t, bounds)]))
| ws_finish db ex t r nowMS db' :
    finishInvocation db t r false nowMS = Ok db' ->
    wstep (MkWState db (WRan t r) ex) (MkWState db' WIdle ex)
| ws_stop db pc ex : wstep (MkWState db pc ex) (MkWState db WIdle ex)
| ws_recover db ex t env db' :
    t ∈ RunningTasks db -> recoverOne registry db t env = Ok (Some db') ->
    wstep (MkWState db WIdle ex) (MkWState db' WIdle ex).

(** Once executed, a task is never waiting again; a held claim is the journal's
    row and has not been executed. *)
Record worker_inv (s : wstate) : Prop := {
  wi_journal : journal_ok (wdb s);
  wi_executed : forall t b, (t, b) ∈ executed s ->
    exists row, task_executions (wdb s) !! XID t = Some row /\ XState row <> TaskReceived;
  wi_nodup : NoDup (XID ∘ fst <$> executed s);
  wi_claimed : forall t, wpos s = WClaimed t ->
    task_executions (wdb s) !! XID t = Some t /\ XState t = TaskRunning /\ XID t ∉ XID ∘ fst <$> executed s;
  wi_bounds : forall t b, (t, b) ∈ executed s -> mayStart t b = true
}.

(** ** Lemmas *)

Lemma forward_not_received t t' : rtc task_forward t t' -> XState t <> TaskReceived -> XState t' <> TaskReceived.
Proof.
  induction 1 as [|a b c Hab _ IH]; [done|]. intros Ha. apply IH.
  destruct Hab as [? ? []|? ? ? Hs|? terminal ? ? ? ? ? Ht|]; simpl; try done. intros ->. done.
Qed.

Lemma flag_keeps t t' : rtc task_flag t t' -> XState t' = XState t /\ (Terminal (XState t) = false -> t' = t).
Proof.
  induction 1 as [|a b c Hab _ IH]; [done|]. destruct Hab as [d t Ht]. destruct IH as [IHs _]. split; [done|]. congruence.
Qed.

Lemma outside_step db op db' : journal_ok db -> outside_op op -> run_task_op db op = Ok db' -> journal_step task_flag db db'.
Proof.
  intros Hj Ho. destruct op; simpl in Ho; try done; simpl.
  - intros ([acc d] & Ha & ->)%fmap_Ok. by eapply AcceptTasksFenced_step.
  - intros ([ok d] & Ha & ->)%fmap_Ok. by eapply EnqueueIssue_step.
  - by apply AckOutbox_step.
Qed.

Lemma finishError_step db t code ind cause nowMS db' :
  journal_ok db -> finishError db t code ind cause nowMS = Ok db' -> journal_step task_forward db db'.
Proof. intros Hj. by apply CompleteTask_step. Qed.

Lemma finishInvocation_step db t r rec nowMS db' :
  journal_ok db -> finishInvocation db t r rec nowMS = Ok db' -> journal_step task_forward db db'.
Proof.
  intros Hj. unfold finishInvocation. destruct r as [payload|e].
  - destruct (ValidateTaskResults _); [by apply CompleteTask_step|by apply finishError_step].
  - destruct (ceClass e) as [[? ?]|]; by apply finishError_step.
Qed.

Lemma recoverOne_step db t env db' :
  journal_ok db -> recoverOne registry db t env = Ok (Some db') -> journal_step task_forward db db'.
Proof.
  intros Hj. unfold recoverOne. destruct (HandlerOf registry (XKind t)) as [h|].
  - destruct (implementsRecoverer h); simpl; [destruct (executionInterrupted _ _); [done|]|].
    + intros (d & Hd & [= <-])%fmap_Ok. by eapply finishInvocation_step.
    + intros (d & Hd & [= <-])%fmap_Ok. by eapply finishError_step.
  - intros (d & Hd & [= <-])%fmap_Ok. by eapply finishError_step.
Qed.

(** A claim that starts a task took it out of the waiting ones. *)
Lemma claim_running db nowMS clock entropy t' db' :
  journal_ok db -> ClaimNextTaskFenced db nowMS clock entropy = Ok (t', db') -> Terminal (XState t') = false ->
  (exists t, task_executions db !! XID t' = Some t /\ XState t = TaskReceived) /\
  task_executions db' !! XID t' = Some t' /\ XState t' = TaskRunning.
Proof.
  intros Hj. unfold ClaimNextTaskFenced. case_decide; [done|].
  intros (t & Hin%claimCandidates_received & Hcase)%claimLoop_Ok Hterm.
  pose proof (proj1 (received_order_elem db t) Hin) as [Hs _]. destruct Hcase as [[_ Hc]|[[Hp _] Hc]].
  - apply claimTask_step in Hc as (_ & Ht & Ht' & random & _ & ->); try done; [|lia]. simpl in *. split_and!; eauto.
  - apply expireTask_step in Hc as (_ & _ & _ & ->); try done.
Qed.

(** A forward step of the journal keeps the invariant while nothing is held. *)
Lemma inv_forward db pc ex db' :
  worker_inv (MkWState db pc ex) -> journal_step task_forward db db' -> worker_inv (MkWState db' WIdle ex).
Proof.
  intros [Hj He Hn _ Hb] [Hj' Hev]. simpl in *. split; simpl; try done.
  intros t b Hin. destruct (He t b Hin) as (row & Hrow & Hs). destruct (Hev _ _ Hrow) as (row' & Hrow' & Hf).
  exists row'. split; [done|]. by eapply forward_not_received.
Qed.

Lemma ReleaseTaskClaim_row db t db' :
  journal_ok db -> ReleaseTaskClaim db t = Ok db' ->
  forall id, id <> XID t -> task_executions db' !! id = task_executions db !! id.
Proof.
  intros Hj. unfold ReleaseTaskClaim. case_decide; [done|].
  destruct (task_executions db !! XID t) as [row|] eqn:Hrow; [|done]. case_decide; [|done].
  destruct (jo_tasks db Hj _ _ Hrow) as [Hid _]. intros [_ ->]%put_task_Ok id Hne. simpl.
  rewrite lookup_insert_ne; [done|]. congruence.
Qed.

Lemma executed_id (ex : list (TaskExecution * option TaskTimeBounds)) t b : (t, b) ∈ ex -> XID t ∈ XID ∘ fst <$> ex.
Proof. intros Hin. apply list_elem_of_fmap. by exists (t, b). Qed.

Lemma worker_inv_step s s' : worker_inv s -> wstep s s' -> worker_inv s'.
Proof.
  intros Hi Hs. pose proof Hi as [Hj He Hn Hc Hb].
  destruct Hs as [db pc ex op db' Ho Hr|db ex nowMS clock entropy t db' Hr|db ex t code cause nowMS db' _ Hr
                 |db ex t bounds db' Hm Hr|db ex t bounds r Hh Hm|db ex t r nowMS db' Hr|db pc ex|db ex t env db' _ Hr]; simpl in *.
  - destruct (outside_step _ _ _ Hj Ho Hr) as [Hj' Hev]. split; simpl; try done.
    + intros t b Hin. destruct (He t b Hin) as (row & Hrow & Hst). destruct (Hev _ _ Hrow) as (row' & Hrow' & [Hf _]%flag_keeps).
      exists row'. split; [done|congruence].
    + intros t Hpc. destruct (Hc t Hpc) as (Ht & Hrun & Hno). destruct (Hev _ _ Ht) as (t' & Ht' & [_ Hf]%flag_keeps).
      by rewrite Hf in Ht' by (by rewrite Hrun).
  - pose proof (ClaimNextTaskFenced_step _ _ _ _ _ _ Hj Hr) as Hstep.
    destruct (inv_forward _ _ _ _ Hi Hstep) as [Hj' He' Hn' _ Hb']. split; simpl in *; try done.
    intros t0 Hpc. destruct (Terminal (XState t)) eqn:Hterm; [done|]. injection Hpc as <-.
    destruct (claim_running _ _ _ _ _ _ Hj Hr Hterm) as ((t1 & Ht1 & Hrec) & Ht' & Hrun). split_and!; try done.
    intros ([t2 b2] & Hid & Hin)%list_elem_of_fmap. simpl in Hid. destruct (He t2 b2 Hin) as (row & Hrow & Hst).
    rewrite <-Hid, Ht1 in Hrow. injection Hrow as <-. done.
  - eapply inv_forward; [exact Hi|]. by eapply finishError_step.
  - destruct (Hc t eq_refl) as (Ht & Hrun & Hno). destruct (ReleaseTaskClaim_step _ _ _ Hj Hr) as [Hj' _].
    split; simpl; try done. intros t0 b0 Hin. destruct (He t0 b0 Hin) as (row & Hrow & Hst). exists row.
    rewrite (ReleaseTaskClaim_row _ _ _ Hj Hr); [done|]. intros Heq. apply Hno. rewrite <-Heq. by eapply executed_id.
  - destruct (Hc t eq_refl) as (Ht & Hrun & Hno). split; simpl; try done.
    + intros t0 b0 [Hin|[= -> ->]%list_elem_of_singleton]%elem_of_app; [by eapply He|].
      exists t. split; [done|]. by rewrite Hrun.
    + rewrite fmap_app. apply NoDup_app. split_and!; [done| |apply NoDup_singleton].
      intros x Hx ->%list_elem_of_singleton. done.
    + intros t0 b0 [Hin|[= -> ->]%list_elem_of_singleton]%elem_of_app; [by eapply Hb|done].
  - eapply inv_forward; [exact Hi|]. by eapply finishInvocation_step.
  - by split.
  - eapply inv_forward; [exact Hi|]. by eapply recoverOne_step.
Qed.

Definition boot : wstate := MkWState empty_db WIdle [].

Lemma worker_inv_boot : worker_inv boot.
Proof. split; simpl; try done; [apply journal_ok_empty|set_solver|constructor|set_solver]. Qed.

Lemma worker_inv_reach s : rtc wstep boot s -> worker_inv s.
Proof.
  intros Hr. pose proof worker_inv_boot as H0. revert H0. induction Hr as [|a b c Hab _ IH]; [done|].
  intros Ha. apply IH. by eapply worker_inv_step.
Qed.

(** *** The loop is a path of the relation *)

(** One turn, from an idle worker. *)
Lemma drainTurn_path db worked env ex r db' o :
  drainTurn registry db worked env = (r, db', o) ->
  exists pc ex', rtc wstep (MkWState db WIdle ex) (MkWState db' pc (ex ++ ex')) /\
    option_list o = wireTask ∘ fst <$> ex' /\ (is_Ok r = true -> pc = WIdle).
Proof.
  unfold drainTurn.
  assert (forall r0, (r0, db, None) = (r, db', o) -> exists pc ex',
    rtc wstep (MkWState db WIdle ex) (MkWState db' pc (ex ++ ex')) /\
    option_list o = wireTask ∘ fst <$> ex' /\ (is_Ok r = true -> pc = WIdle)) as Hidle.
  { intros r0 [= <- <- <-]. exists WIdle, []. rewrite app_nil_r. split_and!; [apply rtc_refl|done|done]. }
  destruct (teCancelled env); [intros Hr; by eapply Hidle|].
  destruct (ClaimNextTaskFenced db _ _ _) as [[t d]|e] eqn:Hc.
  2: { destruct e; intros Hr; by eapply Hidle. }
  apply ws_claim with (ex := ex) in Hc. destruct (Terminal (XState t)).
  { intros [= <- <- <-]. exists WIdle, []. rewrite app_nil_r. split_and!; [by apply rtc_once|done|done]. }
  destruct (HandlerOf registry (XKind t)) as [h|] eqn:Hh.
  - destruct (mayStart t (teBounds env)) eqn:Hm; cbn [negb].
    + assert (wstep (MkWState d (WClaimed t) ex)
        (MkWState d (WRan t (invokeHandler (teCall env))) (ex ++ [(t, teBounds env)]))) as Hx.
      { apply ws_execute; [by rewrite Hh|done]. }
      destruct (executionInterrupted _ _); [|destruct (finishInvocation _ _ _ _ _) as [d'|] eqn:Hf];
        intros [= <- <- <-]; eexists _, [(t, teBounds env)].
      * split_and!; [eapply rtc_l, rtc_l, rtc_once; [exact Hc|exact Hx|apply ws_stop]|done|done].
      * split_and!; [eapply rtc_l, rtc_l, rtc_once; [exact Hc|exact Hx|by eapply ws_finish]|done|done].
      * split_and!; [eapply rtc_l, rtc_once; [exact Hc|exact Hx]|done|done].
    + destruct (ReleaseTaskClaim d t) as [d'|] eqn:Hf; intros [= <- <- <-];
        eexists _, []; rewrite app_nil_r.
      * split_and!; [eapply rtc_l, rtc_once; [exact Hc|by eapply ws_release]|done|done].
      * split_and!; [apply rtc_once, Hc|done|done].
  - destruct (finishError _ _ _ _ _ _) as [d'|] eqn:Hf; intros [= <- <- <-];
      eexists _, []; rewrite app_nil_r.
    + split_and!; [eapply rtc_l, rtc_once; [exact Hc|by eapply ws_unsupported]|done|done].
    + split_and!; [apply rtc_once, Hc|done|done].
Qed.

Lemma drain_path envs : forall db worked ex r db' ts,
  drain registry db worked envs = (r, db', ts) ->
  exists pc ex', rtc wstep (MkWState db WIdle ex) (MkWState db' pc (ex ++ ex')) /\
    ts = wireTask ∘ fst <$> ex' /\ (is_Ok r = true -> pc = WIdle).
Proof.
  induction envs as [|env envs IH]; intros db worked ex r db' ts; simpl.
  - intros [= <- <- <-]. exists WIdle, []. rewrite app_nil_r. split_and!; [apply rtc_refl|done|done].
  - destruct (drainTurn registry db worked env) as [[r1 d1] o] eqn:Ht.
    destruct (drainTurn_path _ _ _ ex _ _ _ Ht) as (pc1 & ex1 & Hp & Ho & Hr).
    destruct r1 as [[|w]|e].
    + rewrite (Hr eq_refl) in Hp. destruct (drain registry d1 true envs) as [[r2 d2] ts2] eqn:Hd.
      intros [= <- <- <-]. destruct (IH _ _ (ex ++ ex1) _ _ _ Hd) as (pc2 & ex2 & Hp2 & -> & Hr2).
      exists pc2, (ex1 ++ ex2). rewrite app_assoc, fmap_app, Ho. split_and!; [by eapply rtc_trans|done|done].
    + intros [= <- <- <-]. exists pc1, ex1. split_and!; [done|done|]. intros _. by apply Hr.
    + intros [= <- <- <-]. exists pc1, ex1. by split_and!.
Qed.

(** *** The loop ends *)

(** The tasks a claim can still take. *)
Definition waiting (db : DB) : gset string :=
  dom (filter (fun kv => XState kv.2 = TaskReceived) (task_executions db)).

Lemma waiting_elem db id : id ∈ waiting db <-> exists t, task_executions db !! id = Some t /\ XState t = TaskReceived.
Proof.
  unfold waiting. rewrite elem_of_dom. unfold is_Some. setoid_rewrite map_lookup_filter_Some. naive_solver.
Qed.

(** One row was overwritten, and the new one is not waiting. *)
Lemma waiting_overwrite db db' id row :
  task_executions db' = <[id := row]> (task_executions db) -> XState row <> TaskReceived ->
  waiting db' = waiting db ∖ {[id]}.
Proof.
  intros Hdb Hs. apply set_eq. intros x. rewrite elem_of_difference, elem_of_singleton, !waiting_elem, Hdb.
  destruct (decide (x = id)) as [->|Hne].
  - rewrite lookup_insert_eq. naive_solver.
  - rewrite lookup_insert_ne by done. naive_solver.
Qed.

Lemma put_result_tasks db id body atMS db' :
  putImmutableTaskResult db id body atMS = Ok db' -> task_executions db' = task_executions db.
Proof.
  unfold putImmutableTaskResult. destruct (outbox_find _ _ _) as [row|]; [case_decide; [done|]|]; by intros [= <-].
Qed.

Lemma CompleteTask_overwrites db id terminal result atMS db' :
  CompleteTask db id terminal result atMS = Ok db' -> journal_ok db ->
  exists row, task_executions db' = <[id := row]> (task_executions db) /\ XState row <> TaskReceived.
Proof.
  unfold CompleteTask. case_decide as Hg; [done|]. destruct (ValidateTaskResults _); [|done]. cbn [negb].
  case_decide; [done|]. unfold taskByID. intros (t & Ht & Hc)%bind_Ok Hj.
  destruct (task_executions db !! id) as [t0|] eqn:Ht0; simplify_eq. destruct (journal_row _ _ _ Hj Ht0) as [<- _].
  case_decide; [done|]. destruct (Terminal (XState t)) eqn:Hterm.
  - destruct (sameTerminal _ _ _); [|done]. cbn [negb] in Hc. unfold rearmTaskResult in Hc.
    apply bind_Ok in Hc as (d & Hput%put_result_tasks & [= <-]). exists (setResultDelivered false t). simpl. rewrite Hput.
    split; [|by destruct (XState t)]. apply map_eq. intros i. rewrite lookup_alter, lookup_insert.
    case_decide; subst; [by rewrite Ht0|done].
  - case_decide as Hs; [done|]. apply bind_Ok in Hc as (d & [_ ->]%put_task_Ok & Hput%put_result_tasks).
    eexists. split; [exact Hput|]. simpl. intros ->. naive_solver.
Qed.

Lemma claim_overwrites db nowMS clock entropy t' db' :
  journal_ok db -> ClaimNextTaskFenced db nowMS clock entropy = Ok (t', db') ->
  XID t' ∈ waiting db /\ waiting db' = waiting db ∖ {[XID t']}.
Proof.
  intros Hj. unfold ClaimNextTaskFenced. case_decide; [done|].
  intros (t & Hin%claimCandidates_received & Hcase)%claimLoop_Ok.
  pose proof (proj1 (received_order_elem db t) Hin) as [Hs [id Ht]]. destruct (journal_row _ _ _ Hj Ht) as [_ Ht'].
  destruct Hcase as [[_ Hc]|[_ Hc]].
  - unfold claimTask in Hc. apply bind_Ok in Hc as (token & _ & (d & [_ ->]%put_task_Ok & [= <- <-])%bind_Ok).
    split; [by apply waiting_elem; exists t|by eapply waiting_overwrite].
  - unfold expireTask in Hc. destruct (ValidateTaskResults _); [|done]. cbn [negb] in Hc.
    apply bind_Ok in Hc as (d & [_ ->]%put_task_Ok & (d' & Hput%put_result_tasks & [= <- <-])%bind_Ok).
    split; [by apply waiting_elem; exists t|by apply (waiting_overwrite _ _ _ _ Hput)].
Qed.

Lemma finishError_waiting db t code ind cause nowMS db' :
  finishError db t code ind cause nowMS = Ok db' -> journal_ok db -> waiting db' ⊆ waiting db.
Proof.
  intros Hf Hj. destruct (CompleteTask_overwrites _ _ _ _ _ _ Hf Hj) as (row & Hrow & Hs). rewrite (waiting_overwrite _ _ _ _ Hrow Hs). set_solver.
Qed.

Lemma finishInvocation_waiting db t r rec nowMS db' :
  finishInvocation db t r rec nowMS = Ok db' -> journal_ok db -> waiting db' ⊆ waiting db.
Proof.
  unfold finishInvocation. destruct r as [payload|e].
  - destruct (ValidateTaskResults _); [|by apply finishError_waiting].
    intros Hf Hj. destruct (CompleteTask_overwrites _ _ _ _ _ _ Hf Hj) as (row & Hrow & Hs). rewrite (waiting_overwrite _ _ _ _ Hrow Hs). set_solver.
  - destruct (ceClass e) as [[? ?]|]; by apply finishError_waiting.
Qed.

Lemma drainTurn_continue db worked env d o :
  journal_ok db -> drainTurn registry db worked env = (Ok Continue, d, o) ->
  journal_ok d /\ (size (waiting d) < size (waiting db))%nat.
Proof.
  intros Hj. unfold drainTurn. destruct (teCancelled env); [done|].
  destruct (ClaimNextTaskFenced db _ _ _) as [[t d1]|e] eqn:Hc; [|destruct e, (teInterrupted env); discriminate].
  pose proof (ClaimNextTaskFenced_step _ _ _ _ _ _ Hj Hc) as [Hj1 _].
  pose proof (claim_overwrites _ _ _ _ _ _ Hj Hc) as [Hin Hw].
  assert (forall d0, waiting d0 ⊆ waiting d1 -> (size (waiting d0) < size (waiting db))%nat) as Hless.
  { intros d0 Hsub. apply subset_size. rewrite Hw in Hsub. set_solver. }
  destruct (Terminal (XState t)); [intros [= <- <-]; by split; [|apply Hless]|].
  destruct (HandlerOf registry (XKind t)) as [h|].
  - destruct (mayStart t (teBounds env)); cbn [negb].
    + destruct (executionInterrupted _ _); [done|]. destruct (finishInvocation _ _ _ _ _) as [d'|] eqn:Hf; [|done].
      intros [= <- <-]. split; [by eapply finishInvocation_step|]. eapply Hless, finishInvocation_waiting; done.
    + by destruct (ReleaseTaskClaim d1 t).
  - destruct (finishError _ _ _ _ _ _) as [d'|] eqn:Hf; [|done].
    intros [= <- <-]. split; [by eapply finishError_step|]. eapply Hless, finishError_waiting; done.
Qed.

Lemma drain_enough envs more : forall db worked,
  journal_ok db -> (size (waiting db) < length envs)%nat ->
  drain registry db worked (envs ++ more) = drain registry db worked envs.
Proof.
  induction envs as [|env envs IH]; intros db worked Hj Hlen; simpl in *; [lia|].
  destruct (drainTurn registry db worked env) as [[[[|w]|e] d] o] eqn:Ht; try done.
  destruct (drainTurn_continue _ _ _ _ _ Hj Ht) as [Hd Hsz]. rewrite IH; [done|done|lia].
Qed.

(** *** The error text *)

Lemma truncateRunes_bound fuel : forall m, (String.length m <= fuel)%nat -> 0 <= MaxTaskErrorBytes ->
  len (truncateRunes fuel m) <= MaxTaskErrorBytes.
Proof.
  induction fuel as [|fuel IH]; intros m Hm Hpos; simpl.
  - unfold len in *. case_decide; [done|]. lia.
  - case_decide as Hl; [done|]. apply IH; [|done].
    assert (m <> "") as Hne by (intros ->; unfold len in Hl; simpl in Hl; lia).
    pose proof (last_rune_size_pos m Hne). rewrite take_str_length; lia.
Qed.

(** C1. At most one execution: over any history of the worker interleaved with
    acceptances, acknowledgements and crashes, no task id is handed to [Execute]
    twice, and a task with a deadline was handed over only on a valid reading
    whose upper bound was before the deadline. *)
Theorem task_executes_at_most_once s :
  rtc wstep boot s ->
  NoDup (XID ∘ fst <$> executed s) /\
  forall t b, (t, b) ∈ executed s ->
    (exists row, task_executions (wdb s) !! XID t = Some row /\ XState row <> TaskReceived) /\
    (0 < XNotAfterMS t -> exists bounds, b = Some bounds /\ ValidateBounds bounds = true /\ UpperMS bounds < XNotAfterMS t).
Proof.
  intros Hr%worker_inv_reach. split; [apply Hr|]. intros t b Hin. split; [by eapply wi_executed|].
  intros Hp. pose proof (wi_bounds _ Hr t b Hin) as Hm. unfold mayStart in Hm. rewrite decide_True in Hm by done.
  destruct b as [bounds|]; [|done]. simpl in Hm. destruct (ValidateBounds bounds) eqn:Hv; [|done].
  apply negb_true_iff, bool_decide_eq_false in Hm. exists bounds. split_and!; try done. lia.
Qed.

(** C2. A call of [drain] is a path of that relation: whatever it returns, the
    tasks it handed to [Execute] are distinct and none of them had been executed
    in the history before the call. *)
Theorem drain_refines_worker_steps db worked envs ex r db' ts :
  rtc wstep boot (MkWState db WIdle ex) ->
  drain registry db worked envs = (r, db', ts) ->
  (exists pc ex', rtc wstep (MkWState db WIdle ex) (MkWState db' pc (ex ++ ex')) /\ ts = wireTask ∘ fst <$> ex' /\
     (is_Ok r = true -> pc = WIdle)) /\
  NoDup (TID <$> ts) /\ forall id, id ∈ TID <$> ts -> id ∉ XID ∘ fst <$> ex.
Proof.
  intros Hb Hd. destruct (drain_path _ _ _ ex _ _ _ Hd) as (pc & ex' & Hp & -> & Hr).
  assert (rtc wstep boot (MkWState db' pc (ex ++ ex'))) as Hb' by (by eapply rtc_trans).
  apply worker_inv_reach in Hb'. pose proof (wi_nodup _ Hb') as Hn. cbn [executed] in Hn.
  rewrite fmap_app in Hn. apply NoDup_app in Hn as (_ & Hdis & Hn). rewrite <-list_fmap_compose.
  assert (TID ∘ (wireTask ∘ fst) <$> ex' = XID ∘ fst <$> ex') as -> by (by apply list_fmap_ext).
  split_and!; [by eauto|done|]. intros id Hin Hex. by apply (Hdis id Hex).
Qed.

(** C3. The drain loop ends: with a turn more than there are waiting tasks it
    has returned by itself, so further turns change nothing. *)
Theorem drain_terminates ops worked envs more :
  let db := run_task_ops empty_db ops in
  (size (waiting db) < length envs)%nat ->
  drain registry db worked (envs ++ more) = drain registry db worked envs.
Proof. intros db. apply drain_enough, reachable_journal. Qed.

End steps.

(** The error text sent for any cause is non-empty and within the wire's
    limit, when the limit holds the fallback text. *)
Theorem boundedError_fits text :
  len "task execution failed" <= MaxTaskErrorBytes ->
  boundedError text <> "" /\ len (boundedError text) <= MaxTaskErrorBytes.
Proof.
  intros Hmax. unfold boundedError. cbv zeta.
  remember (if decide (TrimSpace text = "") then "task execution failed" else TrimSpace text) as message eqn:Hmsg.
  assert (message <> "") as Hne by (subst message; by case_decide). clear Hmsg.
  destruct (decide (len message <= MaxTaskErrorBytes /\ utf8_ValidString message = true)) as [[Hl _]|_]; [done|].
  set (valid := if utf8_ValidString message then message else _).
  case_decide as He; [by split|]. split; [done|].
  pose proof (TrimSpace_length (truncateRunes (String.length valid) valid)) as Ht.
  pose proof (truncateRunes_bound (String.length valid) valid ltac:(done) ltac:(etrans; [|exact Hmax]; done)) as Hb.
  unfold len in *. lia.
Qed.

End worker.

Module worker_example.
Import sample.
Import journal_example.

Definition registry : gmap string Handler := {[ "restart" := MkHandler false false ]}.

Definition env (call : invocation) : turnEnv :=
  MkTurnEnv false 2 clock (Some [1; 2; 3]) (Some (MkTaskTimeBounds 11 21)) call false 3.

Definition accepted_db : DB := run_task_ops empty_db accepted.

Definition turns : list turnEnv := [env (Returned "ok"); env (Panicked "boom"); env (Returned "ok")].

(** The worker after accepting the two tasks, before it drains. *)
Lemma accepted_reachable : rtc (wstep registry) boot (MkWState accepted_db WIdle []).
Proof. apply rtc_once. apply (ws_outside registry empty_db WIdle [] (OpAccept [guarded; plain] 1 clock)); [exact I|vm_compute; reflexivity]. Qed.

(** One task is executed, the other has no handler. *)
Lemma drain_example :
  match drain registry accepted_db false turns with
  | (r, d, ts) => r = Ok true /\ ts = [guarded] /\ length (report_outbox d) = 2%nat
  end.
Proof. vm_compute. split_and!; reflexivity. Qed.

Definition drained : res error bool * DB * list Task := drain registry accepted_db false turns.

Lemma drained_eq : drain registry accepted_db false turns = (fst (fst drained), snd (fst drained), snd drained).
Proof. unfold drained. by destruct (drain registry accepted_db false turns) as [[? ?] ?]. Qed.

(** The drain's path reaches a state where one task was executed. *)
Lemma drained_reachable : exists s, rtc (wstep registry) boot s /\ wireTask ∘ fst <$> executed s = [guarded].
Proof.
  destruct (drain_path registry turns accepted_db false [] _ _ _ drained_eq) as (pc & ex' & Hp & Ht & _).
  eexists. split; [eapply rtc_trans; [exact accepted_reachable|exact Hp]|]. simpl. rewrite <-Ht. vm_compute. reflexivity.
Qed.

Lemma task_executes_at_most_once_witness :
  exists s, wireTask ∘ fst <$> executed s = [guarded] /\ NoDup (XID ∘ fst <$> executed s).
Proof.
  destruct drained_reachable as (s & Hr & He). exists s. split; [exact He|].
  exact (proj1 (task_executes_at_most_once registry s Hr)).
Defined.

Lemma drain_refines_worker_steps_witness :
  NoDup (TID <$> snd drained) /\
  exists pc ex', rtc (wstep registry) (MkWState accepted_db WIdle []) (MkWState (snd (fst drained)) pc ([] ++ ex')).
Proof.
  destruct (drain_refines_worker_steps registry accepted_db false turns [] _ _ _ accepted_reachable drained_eq)
    as ((pc & ex' & Hp & _) & Hn & _).
  split; [exact Hn|]. exists pc, ex'. exact Hp.
Defined.

Lemma drain_terminates_witness :
  drain registry accepted_db false (turns ++ turns) = drain registry accepted_db false turns.
Proof. apply (drain_terminates registry accepted false turns turns). vm_compute. lia. Defined.

Lemma boundedError_fits_witness :
  boundedError "  " <> "" /\ len (boundedError "  ") <= MaxTaskErrorBytes.
Proof. apply (boundedError_fits "  "). vm_compute. discriminate. Defined.

End worker_example.
