(* ===== verification/Catalog.v ===== *)
(** * Core catalog ([corecatalog/catalog.go])

    The reviewed list of proxy-core releases and selection from it.  The list
    itself is data compiled into the binary: [Load]'s answer is an argument
    here. *)
From S2P Require Import Prelude GoStrings Store.

Definition TierRecommended : string := "recommended".

Record Asset := MkAsset {
  AssetOS : string;
  AssetArch : string;
  AssetURL : string;
  AssetSHA256 : string;
  AssetArchive : string;
  AssetBinary : string
}.

Record LocalizedText := MkLocalizedText { TextEN : string; TextZH : string }.

Record RealityCompatibility := MkRealityCompatibility {
  RealityXray : string;
  RealityMihomo : string;
  RealitySingBox : string;
  RealityURIList : string;
  ServerMinClientVer : string;
  MihomoFingerprint : string;
  MihomoMLKEM : bool
}.

Record HandshakeEvidence := MkHandshakeEvidence { HsClient : string; HsVersion : string; HsPlatform : string; HsProfile : string; HsResult : string }.

Record Evidence := MkEvidence {
  SourceAudited : bool;
  ConfigTested : bool;
  HandshakeTested : bool;
  VerifiedAt : option Z;
  Handshakes : list HandshakeEvidence
}.

(** Times are [None] for the zero time. *)
Record Release := MkRelease {
  Engine : string;
  RVersion : string;
  Tier : string;
  Prerelease : bool;
  Selectable : bool;
  RequiresConfirmation : bool;
  PublishedAt : option Z;
  SourceURL : string;
  Summary : LocalizedText;
  Reality : RealityCompatibility;
  REvidence : Evidence;
  Assets : list Asset
}.

(** ** Versions *)

Definition TrimPrefix (s prefix : string) : string :=
  match CutPrefix s prefix with Some rest => rest | None => s end.

(** One segment: [strconv.Atoi] reads it and [strconv.Itoa] prints it back. *)
Definition canonicalSegment (part : string) : bool :=
  match ParseInt part with
  | (parsed, None) => bool_decide (0 ≤ parsed /\ FormatInt parsed = part)
  | _ => false
  end.

Definition NormalizeVersion (raw : string) : res error string :=
  let value := TrimPrefix (TrimPrefix (TrimSpace raw) "v") "V" in
  let parts := Split "." value in
  if decide (length parts <> 3%nat) then Err (Errorf "core version must be major.minor.patch") else
  if decide (Forall (fun part => canonicalSegment part = true) parts) then Ok value
  else Err (Errorf "core version is not canonical").

(** ** Selection

    [unicodeToLower] is the case mapping of text outside ASCII. *)
Section catalog.
Context (unicodeToLower : string -> string) (Load : res error (list Release)).

(** [strings.ToLower]. *)
Definition ToLower (s : string) : string := if is_ascii s then ascii_lower s else unicodeToLower s.

Definition List (engine : string) : res error (list Release) :=
  catalog ← Load;
  let engine := ToLower (TrimSpace engine) in
  Ok (filter (fun release => Engine release = engine /\ Selectable release = true) catalog).

Definition Resolve (engine version : string) : res error Release :=
  normalized ← NormalizeVersion version;
  releases ← List engine;
  match head (filter (fun release => RVersion release = normalized) releases) with
  | Some release => Ok release
  | None => Err (Errorf "not in the selectable core catalog")
  end.

Definition Recommended (engine : string) : res error Release :=
  releases ← List engine;
  match head (filter (fun release => Tier release = TierRecommended) releases) with
  | Some release => Ok release
  | None => Err (Errorf "no recommended release")
  end.

Definition AssetFor (r : Release) (goos goarch : string) : res error Asset :=
  match head (filter (fun asset => AssetOS asset = goos /\ AssetArch asset = goarch) (Assets r)) with
  | Some asset => Ok asset
  | None => Err (Errorf "no asset for this target")
  end.

(** What a selection returns is a selectable release of the catalog with the
    requested engine and version. *)
Lemma Resolve_Ok engine version release :
  Resolve engine version = Ok release ->
  exists catalog, Load = Ok catalog /\ release ∈ catalog /\ Selectable release = true /\
    Engine release = ToLower (TrimSpace engine) /\ NormalizeVersion version = Ok (RVersion release).
Proof.
  unfold Resolve, List. intros (v & Hv & (rs & (catalog & Hl & [= <-])%bind_Ok & Hr)%bind_Ok)%bind_Ok.
  destruct (head _) as [r|] eqn:Hh; [|done]. injection Hr as ->.
  apply head_filter_elem in Hh as [[[He Hs] Hin]%list_elem_of_filter Hver]. exists catalog. rewrite Hv, Hver. done.
Qed.

End catalog.
