(* ===== verification/CatalogReview.v ===== *)
(** * The review of the core catalog ([corecatalog/catalog.go])

    [Parse] and the checks every catalog passes before the node selects from it:
    tiers, evidence, official download locations, digests and safe archive members.
    The decoder of the document and [url.Parse] are arguments. *)
From S2P Require Import Prelude GoStrings Store Catalog.

Definition SchemaVersion : Z := 1.
Definition TierVerified : string := "verified".
Definition TierConfigVerified : string := "config_verified".
Definition TierRestricted : string := "restricted".
Definition SupportSupported : string := "supported".
Definition SupportTransformed : string := "supported_with_transform".
Definition SupportConditional : string := "conditional".
Definition SupportUnsupported : string := "unsupported".
Definition SupportUnverified : string := "unverified".
Definition HandshakePass : string := "pass".
Definition HandshakeExpectedFailure : string := "expected_failure".

Record CoreCatalog := MkCoreCatalog { CatSchema : Z; CatUpdatedAt : option Z; CatReleases : list Release }.

(** The parts of a [url.URL] the checks read. *)
Record URL := MkURL { UScheme : string; UHost : string; UPath : string; URawQuery : string; UFragment : string; UHasUser : bool }.

(** ** Paths *)

(** [path.Clean], component by component; the stack is reversed. *)
Definition cleanStep (rooted : bool) (stack : list string) (c : string) : list string :=
  if decide (c = "" \/ c = ".") then stack else
  if decide (c = "..") then
    match stack with
    | [] => if rooted then [] else [".."]
    | top :: rest => if decide (top = "..") then ".." :: stack else rest
    end
  else c :: stack.

Definition Clean (p : string) : string :=
  if decide (p = "") then "." else
  let rooted := HasPrefix p "/" in
  let body := join "/" (reverse (foldl (cleanStep rooted) [] (Split "/" p))) in
  if rooted then "/" +:+ body else if decide (body = "") then "." else body.

Definition validArchiveMember (member : string) : bool :=
  bool_decide (member <> "") && negb (Contains member "\") && negb (HasPrefix member "/") &&
  bool_decide (Clean member = member) && bool_decide (member <> ".") && bool_decide (member <> "..") && negb (HasPrefix member "../").

Definition officialRepository (engine : string) : option string :=
  if decide (engine = "xray") then Some "XTLS/Xray-core" else
  if decide (engine = "sing-box") then Some "SagerNet/sing-box" else None.

Definition hexDigit (a : ascii) : bool := let n := Z.of_nat (nat_of_ascii a) in bool_decide (48 ≤ n ≤ 57 \/ 97 ≤ n ≤ 102 \/ 65 ≤ n ≤ 70).
Definition hex32 (s : string) : bool := bool_decide (String.length s = 64%nat) && forallb hexDigit (String.list_ascii_of_string s).

Definition HasSuffix (s suffix : string) : bool :=
  bool_decide (String.length suffix ≤ String.length s)%nat && bool_decide (drop_str (String.length s - String.length suffix) s = suffix).

Section review.
Context (unicodeToLower : string -> string) (ParseURL : string -> option URL).

Definition check (ok : bool) (text : string) : res error unit := if ok then Ok tt else Err (Errorf text).

Definition onGitHub (u : URL) : bool :=
  bool_decide (UScheme u = "https") && bool_decide (UHost u = "github.com") && bool_decide (URawQuery u = "") && bool_decide (UFragment u = "") && negb (UHasUser u).

(** ** Assets *)

Definition validateAsset (release : Release) (asset : Asset) : res error unit :=
  _ ← check ((bool_decide (AssetOS asset = "linux" \/ AssetOS asset = "darwin" \/ AssetOS asset = "windows")) &&
             bool_decide (AssetArch asset = "amd64" \/ AssetArch asset = "arm64")) "unsupported asset target";
  _ ← check (bool_decide (AssetArchive asset = "zip" \/ AssetArchive asset = "tar.gz") && validArchiveMember (AssetBinary asset))
        "asset must use a supported archive and a safe binary path";
  _ ← check (hex32 (AssetSHA256 asset)) "asset sha256 must contain 64 lowercase hexadecimal characters";
  _ ← check (bool_decide (AssetSHA256 asset = ToLower unicodeToLower (AssetSHA256 asset))) "asset sha256 must be lowercase";
  match ParseURL (AssetURL asset) with
  | None => Err (Errorf "asset URL must belong to the matching official release")
  | Some location =>
      let wantPrefix := "/" +:+ default "" (officialRepository (Engine release)) +:+ "/releases/download/v" +:+ RVersion release +:+ "/" in
      let assetName := TrimPrefix (UPath location) wantPrefix in
      _ ← check (onGitHub location && HasPrefix (UPath location) wantPrefix && bool_decide (assetName <> "") && negb (Contains assetName "/"))
            "asset URL must belong to the matching official release";
      _ ← check (bool_decide (is_Some (officialRepository (Engine release)))) "unknown core engine";
      check (negb (bool_decide (AssetArchive asset = "zip") && negb (HasSuffix assetName ".zip")) &&
             negb (bool_decide (AssetArchive asset = "tar.gz") && negb (HasSuffix assetName ".tar.gz"))) "asset URL suffix does not match its archive type"
  end.

(** ** Handshake evidence *)

Definition handshakeKey (h : HandshakeEvidence) : string := join zero [HsClient h; HsVersion h; HsPlatform h; HsProfile h].

(** The keys seen and, per client, whether it passed and whether it failed as
    expected. *)
Definition handshakeStep (s : list string * gmap string (bool * bool)) (h : HandshakeEvidence)
    : res error (list string * gmap string (bool * bool)) :=
  let '(seen, tested) := s in
  _ ← check (bool_decide (HsClient h <> "" /\ HsVersion h <> "" /\ HsPlatform h <> "" /\ HsProfile h <> "")) "handshake evidence requires client, version, platform and profile";
  _ ← check (bool_decide (HsClient h = "xray" \/ HsClient h = "mihomo" \/ HsClient h = "sing_box")) "unknown handshake client";
  _ ← check (bool_decide (HsResult h = HandshakePass \/ HsResult h = HandshakeExpectedFailure)) "unknown handshake result";
  _ ← check (negb (bool_decide (handshakeKey h ∈ seen))) "duplicate handshake evidence";
  let '(pass, failed) := default (false, false) (tested !! HsClient h) in
  Ok (handshakeKey h :: seen,
      <[HsClient h := (pass || bool_decide (HsResult h = HandshakePass), failed || bool_decide (HsResult h = HandshakeExpectedFailure))]> tested).

Definition supportStep (release : Release) (tested : gmap string (bool * bool)) (claim : string * string) : res error unit :=
  let '(client, support) := claim in
  let '(pass, failed) := default (false, false) (tested !! client) in
  if decide (support = SupportSupported \/ support = SupportTransformed \/ support = SupportConditional) then
    check (negb (HandshakeTested (REvidence release) && negb pass)) "support requires passing handshake evidence"
  else if decide (support = SupportUnsupported) then
    check (negb (HandshakeTested (REvidence release) && (negb failed || pass))) "unsupported status requires expected-failure evidence"
  else Ok tt.

Definition validateHandshakes (release : Release) : res error unit :=
  let handshakes := Handshakes (REvidence release) in
  _ ← check (Bool.eqb (HandshakeTested (REvidence release)) (bool_decide (handshakes <> []))) "handshake_tested must match the presence of handshake evidence";
  '(_, tested) ← res_foldl handshakeStep ([], ∅) handshakes;
  res_foldl (fun _ claim => supportStep release tested claim) tt
    [("xray", RealityXray (Reality release)); ("mihomo", RealityMihomo (Reality release)); ("sing_box", RealitySingBox (Reality release))].

(** ** Releases *)

Definition target (asset : Asset) : string := AssetOS asset +:+ "/" +:+ AssetArch asset.

Definition assetStep (release : Release) (targets : list string) (asset : Asset) : res error (list string) :=
  _ ← validateAsset release asset;
  _ ← check (negb (bool_decide (target asset ∈ targets))) "duplicate asset target";
  Ok (target asset :: targets).

Definition wantTargets : list string := ["darwin/amd64"; "darwin/arm64"; "linux/amd64"; "linux/arm64"; "windows/amd64"; "windows/arm64"].

Definition validateRelease (release : Release) : res error unit :=
  _ ← check (bool_decide (Engine release <> "") && bool_decide (Engine release = ToLower unicodeToLower (Engine release))) "engine must be lowercase";
  match officialRepository (Engine release) with
  | None => Err (Errorf "unknown core engine")
  | Some repository =>
      _ ← check (bool_decide (NormalizeVersion (RVersion release) = Ok (RVersion release))) "version must be canonical";
      _ ← check (bool_decide (Tier release = TierRecommended \/ Tier release = TierVerified \/ Tier release = TierConfigVerified \/ Tier release = TierRestricted)) "unknown tier";
      _ ← check (negb (bool_decide (Tier release = TierRestricted) && negb (RequiresConfirmation release))) "restricted release must require confirmation";
      _ ← check (negb (bool_decide (Tier release <> TierRestricted) && RequiresConfirmation release)) "only a restricted release may require confirmation";
      _ ← check (bool_decide (is_Some (PublishedAt release)) && bool_decide (TextEN (Summary release) <> "") && bool_decide (TextZH (Summary release) <> ""))
            "published_at and localized summary are required";
      _ ← check (match ParseURL (SourceURL release) with
                 | Some source => onGitHub source && bool_decide (UPath source = "/" +:+ repository +:+ "/releases/tag/v" +:+ RVersion release)
                 | None => false
                 end) "source_url must be the matching official GitHub release";
      _ ← check (SourceAudited (REvidence release) && bool_decide (is_Some (VerifiedAt (REvidence release)))) "source audit evidence and verified_at are required";
      _ ← check (negb (Selectable release && negb (ConfigTested (REvidence release)))) "selectable release requires config validation evidence";
      _ ← check (negb (bool_decide (Tier release = TierRecommended \/ Tier release = TierVerified \/ Tier release = TierRestricted) && negb (HandshakeTested (REvidence release))))
            "release requires a completed handshake matrix";
      _ ← res_foldl (fun _ level => check (bool_decide (level = SupportSupported \/ level = SupportTransformed \/ level = SupportConditional \/ level = SupportUnsupported \/ level = SupportUnverified))
                                     "unknown REALITY support level") tt
            [RealityXray (Reality release); RealityMihomo (Reality release); RealitySingBox (Reality release); RealityURIList (Reality release)];
      _ ← check (negb (MihomoMLKEM (Reality release) && bool_decide (MihomoFingerprint (Reality release) = ""))) "Mihomo ML-KEM requires a pinned fingerprint";
      _ ← validateHandshakes release;
      targets ← res_foldl (assetStep release) [] (Assets release);
      check (bool_decide (join "," (merge_sort String.le targets) = join "," (merge_sort String.le wantTargets))) "assets do not cover the supported targets"
  end.

(** ** The catalog *)

(** The keys seen, the recommended releases per engine and the engines with a
    selectable release. *)
Definition releaseStep (s : list string * gmap string Z * list string) (release : Release) : res error (list string * gmap string Z * list string) :=
  let '(seen, recommended, selectable) := s in
  _ ← validateRelease release;
  let key := Engine release +:+ "/" +:+ RVersion release in
  _ ← check (negb (bool_decide (key ∈ seen))) "core catalog contains duplicate";
  Ok (key :: seen,
      if Selectable release && bool_decide (Tier release = TierRecommended) then <[Engine release := default 0 (recommended !! Engine release) + 1]> recommended else recommended,
      if Selectable release then Engine release :: selectable else selectable).

Definition validate (catalog : CoreCatalog) : res error unit :=
  _ ← check (bool_decide (CatSchema catalog = SchemaVersion)) "core catalog schema is unsupported";
  _ ← check (bool_decide (is_Some (CatUpdatedAt catalog)) && bool_decide (CatReleases catalog <> [])) "core catalog requires updated_at and releases";
  '(_, recommended, selectable) ← res_foldl releaseStep ([], ∅, []) (CatReleases catalog);
  res_foldl (fun _ engine => check (bool_decide (default 0 (recommended !! engine) = 1)) "engine must have one recommended release") tt selectable.

(** [decode] is the strict decoder: one document, no unknown field, nothing
    after it. *)
Definition Parse (decode : string -> res error CoreCatalog) (raw : string) : res error CoreCatalog :=
  catalog ← decode raw;
  _ ← validate catalog;
  Ok catalog.

(** ** Lemmas *)

Lemma check_Ok b text : check b text = Ok tt <-> b = true.
Proof. by destruct b. Qed.

Lemma Split_of_join c l : l <> [] -> Forall (fun p => ~ occurs c p) l -> Split c (join c l) = l.
Proof.
  intros Hne Hl. induction l as [|p [|q l] IH]; [done| |]; apply Forall_cons in Hl as [Hp Hl].
  - by apply Split_none.
  - change (join c (p :: q :: l)) with (p +:+ String c (join c (q :: l))). rewrite Split_found by done. f_equal. by apply IH.
Qed.

Lemma Split_parts c s : Forall (fun p => ~ occurs c p) (Split c s).
Proof.
  induction s as [|x s IH]; simpl; [by repeat constructor; intros []|]. case_decide as Hx; [constructor; [by intros []|done]|].
  destruct (Split c s) as [|p l]; [by repeat constructor; intros [|[]]|]. apply Forall_cons in IH as [Hp Hl]. constructor; [by intros [|]|done].
Qed.

(** A component that names an entry of its directory. *)
Definition proper (c : string) : Prop := c <> "" /\ c <> "." /\ c <> ".." /\ ~ occurs "/" c.

Lemma cleanStep_stack stack c :
  ~ occurs "/" c -> (exists ns k, stack = ns ++ replicate k ".." /\ Forall proper ns) ->
  exists ns k, cleanStep false stack c = ns ++ replicate k ".." /\ Forall proper ns.
Proof.
  intros Hc (ns & k & -> & Hns). unfold cleanStep. case_decide as H1; [by exists ns, k|]. case_decide as H2.
  - destruct ns as [|n ns]; simpl.
    + destruct k as [|k]; simpl; [by exists [], 1%nat|by exists [], (S (S k))].
    + apply Forall_cons in Hns as [(_ & _ & Hd & _) Hns]. rewrite decide_False by done. by exists ns, k.
  - exists (c :: ns), k. split; [done|]. constructor; [|done]. repeat split; naive_solver.
Qed.

Lemma clean_stack l : forall stack, Forall (fun p => ~ occurs "/" p) l -> (exists ns k, stack = ns ++ replicate k ".." /\ Forall proper ns) ->
  exists ns k, foldl (cleanStep false) stack l = ns ++ replicate k ".." /\ Forall proper ns.
Proof. induction l as [|c l IH]; intros stack Hl Hs; simpl; [done|]. apply Forall_cons in Hl as [Hc Hl]. by apply IH, cleanStep_stack. Qed.

(** A member that passes names a file below the directory it is extracted to:
    every component is a plain name. *)
Lemma validArchiveMember_proper member : validArchiveMember member = true -> Forall proper (Split "/" member).
Proof.
  unfold validArchiveMember. rewrite !andb_true_iff, !negb_true_iff, !bool_decide_eq_true. intros ((((((Hne & _) & Hroot) & Hclean) & Hdot) & Hdd) & Hpre).
  unfold Clean in Hclean. rewrite decide_False, Hroot in Hclean by done.
  destruct (clean_stack (Split "/" member) [] (Split_parts "/" member)) as (ns & k & Hst & Hns); [by exists [], 0%nat|].
  rewrite Hst in Hclean. case_decide as Hem; [congruence|]. rewrite reverse_app, reverse_replicate in Hclean. destruct k as [|k].
  - simpl in Hclean. rewrite <-Hclean, Split_of_join; [by apply Forall_reverse| |].
    + intros Hr. by rewrite Hr in Hclean.
    + apply Forall_reverse. eapply Forall_impl; [exact Hns|]. by intros x (_ & _ & _ & ?).
  - exfalso. simpl in Hclean. set (rest := replicate k ".." ++ reverse ns) in Hclean. destruct rest as [|r rest'].
    + simpl in Hclean. by subst.
    + assert (HasPrefix member "../" = true) as Hp by (apply HasPrefix_spec; exists (join "/" (r :: rest')); rewrite <-Hclean; done). congruence.
Qed.

(** What the review establishes of an asset. *)
Record asset_ok (release : Release) (asset : Asset) : Prop := {
  ao_os : AssetOS asset ∈ ["linux"; "darwin"; "windows"];
  ao_arch : AssetArch asset ∈ ["amd64"; "arm64"];
  ao_member : Forall proper (Split "/" (AssetBinary asset));
  ao_digest : hex32 (AssetSHA256 asset) = true;
  ao_location : exists repository location name, officialRepository (Engine release) = Some repository /\ ParseURL (AssetURL asset) = Some location /\
    UScheme location = "https" /\ UHost location = "github.com" /\ ~ occurs "/" name /\
    UPath location = ("/" +:+ repository +:+ "/releases/download/v" +:+ RVersion release +:+ "/") +:+ name
}.

Lemma TrimPrefix_app p r : TrimPrefix (p +:+ r) p = r.
Proof. unfold TrimPrefix. assert (CutPrefix (p +:+ r) p = Some r) as -> by (by apply CutPrefix_spec). done. Qed.

Lemma validateAsset_Ok release asset : validateAsset release asset = Ok tt -> asset_ok release asset.
Proof.
  unfold validateAsset. intros (Ht & Hr)%bind_Ok_unit. apply bind_Ok_unit in Hr as [Hm Hr]. apply bind_Ok_unit in Hr as [Hd Hr]. apply bind_Ok_unit in Hr as [_ Hr].
  rewrite check_Ok, andb_true_iff in Hm, Ht. rewrite check_Ok in Hd. destruct Hm as [_ Hm]. rewrite !bool_decide_eq_true in Ht. destruct Ht as [Hos Har]. destruct (ParseURL _) as [location|] eqn:Hu; [|done].
  apply bind_Ok_unit in Hr as [Hl Hr]. apply bind_Ok_unit in Hr as [Hk _]. rewrite check_Ok in Hl, Hk. unfold onGitHub in Hl.
  rewrite !andb_true_iff, !bool_decide_eq_true in Hl. destruct Hl as (((((((Hs & Hh) & _) & _) & _) & Hp) & _) & Hn).
  apply bool_decide_eq_true in Hk as [repository Hk]. rewrite Hk in Hp, Hn. cbn [default] in Hp, Hn. apply HasPrefix_spec in Hp as [name Hname].
  split; [set_solver|set_solver|by apply validArchiveMember_proper|done|].
  exists repository, location, name. split_and!; try done.
  change (from_option id "" (Some repository)) with repository in *. rewrite Hname, TrimPrefix_app in Hn. intros Ho. apply negb_true_iff in Hn. apply Contains_occurs in Ho. congruence.
Qed.

(** The pairs are told apart by their targets. *)
Lemma target_inj release a os arch :
  asset_ok release a -> os ∈ ["linux"; "darwin"; "windows"] -> arch ∈ ["amd64"; "arm64"] -> target a = os +:+ "/" +:+ arch -> AssetOS a = os /\ AssetArch a = arch.
Proof.
  intros [Ho Ha _ _ _] Hos Har. unfold target.
  apply elem_of_cons in Ho as [->|[->|[->|[]%not_elem_of_nil]%elem_of_cons]%elem_of_cons];
  apply elem_of_cons in Ha as [->|[->|[]%not_elem_of_nil]%elem_of_cons];
  apply elem_of_cons in Hos as [->|[->|[->|[]%not_elem_of_nil]%elem_of_cons]%elem_of_cons];
  apply elem_of_cons in Har as [->|[->|[]%not_elem_of_nil]%elem_of_cons]; intros Ht; try done; discriminate Ht.
Qed.

Lemma target_wanted os arch : os ∈ ["linux"; "darwin"; "windows"] -> arch ∈ ["amd64"; "arm64"] -> os +:+ "/" +:+ arch ∈ wantTargets.
Proof.
  intros Hos Har.
  apply elem_of_cons in Hos as [->|[->|[->|[]%not_elem_of_nil]%elem_of_cons]%elem_of_cons];
  apply elem_of_cons in Har as [->|[->|[]%not_elem_of_nil]%elem_of_cons]; unfold wantTargets; set_solver.
Qed.

(** What the review establishes of a release. *)
Record release_ok (release : Release) : Prop := {
  ro_engine : Engine release = "xray" \/ Engine release = "sing-box";
  ro_version : NormalizeVersion (RVersion release) = Ok (RVersion release);
  ro_restricted : Tier release = TierRestricted <-> RequiresConfirmation release = true;
  ro_tested : Selectable release = true -> ConfigTested (REvidence release) = true;
  ro_assets : Forall (asset_ok release) (Assets release);
  ro_targets : target <$> Assets release ≡ₚ wantTargets
}.

Lemma assets_Ok release assets : forall targets out,
  res_foldl (assetStep release) targets assets = Ok out -> Forall (asset_ok release) assets /\ out = reverse (target <$> assets) ++ targets.
Proof.
  induction assets as [|a assets IH]; intros targets out; simpl; [by intros [= <-]|]. intros (t & Ha & Hr)%bind_Ok.
  unfold assetStep in Ha. apply bind_Ok_unit in Ha as [Hv Ha]. apply bind_Ok_unit in Ha as [_ [= <-]].
  apply IH in Hr as [Hf ->]. split; [constructor; [by apply validateAsset_Ok|done]|]. by rewrite reverse_cons, <-app_assoc.
Qed.

Lemma wantTargets_no_comma : Forall (fun t => ~ occurs "," t) wantTargets.
Proof. repeat constructor; simpl; intuition discriminate. Qed.

Lemma targets_cover release assets :
  Forall (asset_ok release) assets -> join "," (merge_sort String.le (reverse (target <$> assets) ++ [])) = join "," (merge_sort String.le wantTargets) ->
  target <$> assets ≡ₚ wantTargets.
Proof.
  intros Ha Hj. assert (Forall (fun t => ~ occurs "," t) (merge_sort String.le (reverse (target <$> assets) ++ []))) as Hc.
  { rewrite merge_sort_Permutation, app_nil_r, reverse_Permutation. apply Forall_fmap. eapply Forall_impl; [exact Ha|]. intros a [Ho Har _ _ _]. simpl.
    pose proof wantTargets_no_comma as Hw. rewrite Forall_forall in Hw. by apply Hw, target_wanted. }
  assert (merge_sort String.le (reverse (target <$> assets) ++ []) = merge_sort String.le wantTargets) as He.
  { rewrite <-(Split_of_join "," (merge_sort String.le wantTargets)), <-Hj; [|by vm_compute|by rewrite merge_sort_Permutation; apply wantTargets_no_comma].
    symmetry. apply Split_of_join; [|done]. intros Hn. rewrite Hn in Hj. by vm_compute in Hj. }
  rewrite <-(merge_sort_Permutation String.le wantTargets), <-He, merge_sort_Permutation, app_nil_r. by rewrite reverse_Permutation.
Qed.

Lemma validateRelease_Ok release : validateRelease release = Ok tt -> release_ok release.
Proof.
  unfold validateRelease. intros (_ & Hr)%bind_Ok_unit. destruct (officialRepository _) as [repository|] eqn:Hrep; [|done].
  apply bind_Ok_unit in Hr as [Hv Hr]. apply bind_Ok_unit in Hr as [_ Hr]. apply bind_Ok_unit in Hr as [H1 Hr]. apply bind_Ok_unit in Hr as [H2 Hr].
  do 2 apply bind_Ok_unit in Hr as [_ Hr]. apply bind_Ok_unit in Hr as [_ Hr]. apply bind_Ok_unit in Hr as [Hsel Hr].
  do 4 apply bind_Ok_unit in Hr as [_ Hr]. apply bind_Ok in Hr as (targets & Ht & Hc). apply assets_Ok in Ht as [Ha ->].
  rewrite check_Ok in Hv, H1, H2, Hsel, Hc. apply bool_decide_eq_true in Hv, Hc. split; try done.
  - unfold officialRepository in Hrep. repeat case_decide; naive_solver.
  - destruct (RequiresConfirmation release), (bool_decide_reflect (Tier release = TierRestricted)); simpl in *; try done; rewrite ?bool_decide_eq_true_2 in H2 by done; naive_solver.
  - intros Hs. rewrite Hs in Hsel. by destruct (ConfigTested _).
  - by eapply targets_cover.
Qed.

Definition releaseKey (r : Release) : string := Engine r +:+ "/" +:+ RVersion r.
Definition featured (engine : string) (r : Release) : Prop := Engine r = engine /\ Selectable r = true /\ Tier r = TierRecommended.

(** The loop over the releases. *)
Lemma releases_Ok rs : forall seen rec sel seen' rec' sel',
  res_foldl releaseStep (seen, rec, sel) rs = Ok (seen', rec', sel') ->
  Forall release_ok rs /\ (NoDup seen -> NoDup (releaseKey <$> rs) /\ (forall r, r ∈ rs -> releaseKey r ∉ seen)) /\
  (forall engine, default 0 (rec' !! engine) = default 0 (rec !! engine) + Z.of_nat (length (filter (featured engine) rs))) /\
  (forall r, r ∈ rs -> Selectable r = true -> Engine r ∈ sel') /\ (forall e, e ∈ sel -> e ∈ sel').
Proof.
  induction rs as [|r rs IH]; intros seen rec sel seen' rec' sel'; simpl.
  { intros [= <- <- <-]. split_and!; try done; [|intros; simpl; lia|set_solver]. intros _. split; [constructor|set_solver]. }
  intros (([seen1 rec1] & sel1) & Hs & Hr)%bind_Ok. unfold releaseStep in Hs. apply bind_Ok_unit in Hs as [Hv Hs]. apply bind_Ok_unit in Hs as [Hk [= <- <- <-]].
  rewrite check_Ok, negb_true_iff, bool_decide_eq_false in Hk. apply IH in Hr as (Hf & Hnd & Hcount & Hsel & Hkeep). split_and!.
  - constructor; [by apply validateRelease_Ok|done].
  - intros Hn. destruct Hnd as [Hn' Hnew]; [by constructor|]. split.
    + simpl. constructor; [|done]. intros (r' & He & Hr')%list_elem_of_fmap. apply (Hnew r' Hr'). rewrite <-He. unfold releaseKey. set_solver.
    + intros x [->|Hx]%elem_of_cons; [done|]. specialize (Hnew x Hx). set_solver.
  - intros engine. rewrite Hcount, filter_cons. assert (Selectable r && bool_decide (Tier r = TierRecommended) = true <-> Selectable r = true /\ Tier r = TierRecommended) as Hb
      by (rewrite andb_true_iff, bool_decide_eq_true; done).
    destruct (Selectable r && bool_decide (Tier r = TierRecommended)).
    + destruct (decide (Engine r = engine)) as [<-|He].
      * rewrite lookup_insert_eq, decide_True by (unfold featured; tauto). simpl. lia.
      * rewrite lookup_insert_ne, decide_False by (unfold featured; tauto || done). done.
    + rewrite decide_False; [done|]. intros (_ & Hse & Ht). by assert (false = true) by (by apply Hb).
  - intros x [->|Hx]%elem_of_cons Hs; [|by apply Hsel]. apply Hkeep. rewrite Hs. set_solver.
  - intros x Hx. apply Hkeep. destruct (Selectable r); set_solver.
Qed.

Lemma head_filter_only {A} (P : A -> Prop) `{forall x, Decision (P x)} l x :
  x ∈ l -> P x -> (forall y, y ∈ l -> P y -> y = x) -> head (filter P l) = Some x.
Proof.
  intros Hx HP Hu. destruct (filter P l) as [|y l'] eqn:Hf.
  - assert (x ∈ filter P l) as Hin by (by apply list_elem_of_filter). rewrite Hf in Hin. set_solver.
  - simpl. f_equal. assert (y ∈ filter P l) as [HPy Hy]%list_elem_of_filter by (rewrite Hf; set_solver). by apply Hu.
Qed.

Lemma Parse_Ok decode raw catalog :
  Parse decode raw = Ok catalog ->
  Forall release_ok (CatReleases catalog) /\ NoDup (releaseKey <$> CatReleases catalog) /\
  (forall r, r ∈ CatReleases catalog -> Selectable r = true -> length (filter (featured (Engine r)) (CatReleases catalog)) = 1%nat).
Proof.
  intros (c & _ & Hr)%bind_Ok. apply bind_Ok_unit in Hr as [Hv [= ->]]. unfold validate in Hv. apply bind_Ok_unit in Hv as [_ Hv]. apply bind_Ok_unit in Hv as [_ Hv].
  apply bind_Ok in Hv as (([seen rec] & sel) & Hf & Hl). destruct (releases_Ok _ _ _ _ _ _ _ Hf) as (Hok & Hnd & Hcount & Hsel & _).
  split_and!; [done|by apply Hnd, NoDup_nil_2|]. intros r Hr Hs. specialize (Hsel r Hr Hs). specialize (Hcount (Engine r)). rewrite lookup_empty in Hcount. simpl in Hcount.
  assert (forall l s, Engine r ∈ l -> res_foldl (fun _ engine => check (bool_decide (default 0 (rec !! engine) = 1)) "engine must have one recommended release") s l = Ok tt ->
    default 0 (rec !! Engine r) = 1) as Hall.
  { induction l as [|x l IH]; intros s; [set_solver|]. intros [<-|Hx]%elem_of_cons; simpl; intros ([] & Hc & Hl')%bind_Ok; [|by eapply IH].
    by rewrite check_Ok, bool_decide_eq_true in Hc. }
  specialize (Hall _ _ Hsel Hl). lia.
Qed.

(** C26. A reviewed catalog can be selected from.  Every selectable release is what its
    own engine and version select; its engine has a recommended release, and only
    one; it has an asset for each of the six targets, from the official repository
    of its engine and version, with a digest and a member that stays below the
    directory it is extracted to; and it asks for confirmation exactly if it is
    restricted. *)
Theorem reviewed_catalog_selects decode raw catalog r :
  Parse decode raw = Ok catalog -> r ∈ CatReleases catalog -> Selectable r = true ->
  let Load := Ok (CatReleases catalog) in
  Resolve unicodeToLower Load (Engine r) (RVersion r) = Ok r /\
  (exists best, Recommended unicodeToLower Load (Engine r) = Ok best /\ featured (Engine r) best /\
     forall other, other ∈ CatReleases catalog -> featured (Engine r) other -> other = best) /\
  (forall os arch, os ∈ ["linux"; "darwin"; "windows"] -> arch ∈ ["amd64"; "arm64"] -> exists asset, AssetFor r os arch = Ok asset /\ asset_ok r asset) /\
  (Tier r = TierRestricted <-> RequiresConfirmation r = true).
Proof.
  intros Hp Hr Hs Load. destruct (Parse_Ok _ _ _ Hp) as (Hok & Hnd & Hcount). pose proof Hok as Hok'. rewrite Forall_forall in Hok'.
  destruct (Hok' r Hr) as [Heng Hver Hres _ Has Htg]. assert (ToLower unicodeToLower (TrimSpace (Engine r)) = Engine r) as Hlow by (by destruct Heng as [->| ->]).
  split_and!; [| | |done].
  - unfold Resolve. rewrite Hver. unfold List, Load. simpl. rewrite Hlow.
    erewrite head_filter_only; [done|by apply list_elem_of_filter|done|]. intros y [[He _] Hy]%list_elem_of_filter Hv.
    apply (NoDup_fmap_elem releaseKey (CatReleases catalog)); try done. unfold releaseKey. by rewrite He, Hv.
  - specialize (Hcount r Hr Hs). destruct (filter (featured (Engine r)) (CatReleases catalog)) as [|best [|]] eqn:Hf; try done.
    assert (best ∈ filter (featured (Engine r)) (CatReleases catalog)) as [Hfe Hin]%list_elem_of_filter by (rewrite Hf; set_solver).
    assert (forall other, other ∈ CatReleases catalog -> featured (Engine r) other -> other = best) as Honly.
    { intros other Ho Hfo. assert (other ∈ filter (featured (Engine r)) (CatReleases catalog)) as Hx by (by apply list_elem_of_filter). rewrite Hf in Hx. set_solver. }
    exists best. split; [|done]. unfold Recommended, List, Load. simpl. rewrite Hlow. destruct Hfe as (He & Hse & Ht).
    erewrite head_filter_only; [done|by apply list_elem_of_filter|done|]. intros y [[Hye Hys] Hy]%list_elem_of_filter Hyt. by apply Honly.
  - intros os arch Hos Har. pose proof (target_wanted os arch Hos Har) as Hw. rewrite <-Htg in Hw. apply list_elem_of_fmap in Hw as (asset & Ht & Hin).
    rewrite Forall_forall in Has. destruct (target_inj r asset os arch (Has asset Hin) Hos Har (eq_sym Ht)) as [Ho Ha].
    unfold AssetFor. destruct (head _) as [a|] eqn:Hh.
    + apply head_filter_elem in Hh as [Hina _]. exists a. split; [done|]. by apply Has.
    + rewrite head_filter_None in Hh. by destruct (Hh asset Hin).
Qed.

End review.

Module catalog_example.

(** Locations without query or user. *)
Definition parse_url (s : string) : option URL :=
  path ← CutPrefix s "https://github.com"; Some (MkURL "https" "github.com" path "" "" false).

Definition digest : string := "ba7816bf8f01cfea414140de5dae2223b00361a396177a9cb410ff61f20015ad".
Definition asset (os arch : string) : Asset :=
  MkAsset os arch ("https://github.com/XTLS/Xray-core/releases/download/v1.8.0/" +:+ os +:+ "-" +:+ arch +:+ ".zip") digest "zip" "bin/xray".
Definition passed (client : string) : HandshakeEvidence := MkHandshakeEvidence client "1.0.0" "linux" "reality" HandshakePass.
Definition reviewed : Release :=
  MkRelease "xray" "1.8.0" TierRecommended false true false (Some 1) "https://github.com/XTLS/Xray-core/releases/tag/v1.8.0" (MkLocalizedText "stable" "stable")
    (MkRealityCompatibility SupportSupported SupportSupported SupportSupported SupportSupported "" "" false)
    (MkEvidence true true true (Some 1) [passed "xray"; passed "mihomo"; passed "sing_box"])
    [asset "linux" "amd64"; asset "linux" "arm64"; asset "darwin" "amd64"; asset "darwin" "arm64"; asset "windows" "amd64"; asset "windows" "arm64"].
Definition document : CoreCatalog := MkCoreCatalog 1 (Some 1) [reviewed].

Lemma reviewed_catalog_selects_witness :
  Recommended (fun s => s) (Ok [reviewed]) "xray" = Ok reviewed /\ exists a, AssetFor reviewed "linux" "arm64" = Ok a /\ Forall proper (Split "/" (AssetBinary a)).
Proof.
  destruct (reviewed_catalog_selects (fun s => s) parse_url (fun _ => Ok document) "" document reviewed) as (_ & (best & Hb & Hf & Honly) & Hassets & _).
  - vm_compute. reflexivity.
  - apply list_elem_of_here.
  - reflexivity.
  - split.
    + assert (best = reviewed) as He by (symmetry; apply Honly; [apply list_elem_of_here|repeat split]). rewrite He in Hb. exact Hb.
    + destruct (Hassets "linux" "arm64") as (a & Ha & Hok); [apply list_elem_of_here|apply list_elem_of_further, list_elem_of_here|].
      exists a. split; [exact Ha|]. exact (ao_member _ _ _ Hok).
Defined.

Example traversal_refused : validArchiveMember "bin/../../etc/passwd" = false /\ validArchiveMember "bin//xray" = false /\ validArchiveMember "../xray" = false.
Proof. vm_compute. repeat split; reflexivity. Qed.

End catalog_example.
