(* ===== verification/Documents.v ===== *)
(** * The three documents and their validation ([internal/agent/validate.go])

    The bodies the control plane sends, with the fields the agent reads, and the
    checks each passes before it is stored.  A pointer to a body is an
    [option]. *)
From S2P Require Import Prelude GoStrings Protocol Store Catalog Clients.

(** ** Bodies (types of the protocol module) *)

Record CoreSelection := MkCoreSelection { SelEngine : string; SelVersion : string; AllowRestrictedReality : bool }.

Record SegmentCounts := MkSegmentCounts { CEntries : Z; CEntriesStale : Z; CSubjects : Z }.

Record WListener := MkWListener { WLKey : string; WLConfig : string }.

Record ConfigBody := MkConfigBody { CfgCore : CoreSelection; CfgListeners : list WListener; CfgCoverage : SegmentCounts }.

(** [OtherCredentials] stands for the fields no code of the node looks at. *)
Record Credentials := MkCredentials { Username : string; UUID : string; Password : string; Flow : string; OtherCredentials : string }.

#[global] Instance Credentials_eq_dec : EqDecision Credentials.
Proof. solve_decision. Defined.

Record WClient := MkWClient {
  WCKey : string;
  WCSubject : string;
  WCEnabled : bool;
  WCExpiresAtMS : Z;
  WCCredentials : Credentials;
  WCListeners : list string
}.

Record RosterBody := MkRosterBody {
  RosMinConfigVersion : PVersion;
  RosClients : list WClient;
  RosCoverage : SegmentCounts
}.

Record QuotaEntry := MkQuotaEntry {
  QClient : string;
  QBaselineBytes : Z;
  QHeadroomBytes : option Z;
  QPeriodEndsAtMS : Z;
  QNextPeriodHeadroomBytes : option Z
}.

Record IPShadowEntry := MkIPShadowEntry { ShSubject : string; ShIPLimit : Z }.

Record DirectivesBody := MkDirectivesBody {
  DirForRosterVersion : PVersion;
  DirQuota : list QuotaEntry;
  DirIPShadow : list IPShadowEntry;
  DirCoverage : SegmentCounts
}.

Definition invalid {A} (msg : string) : res error A := Err (Errorf msg).

Definition validateCoverage (coverage : SegmentCounts) : res error unit :=
  if decide (CEntries coverage < 0 \/ CEntriesStale coverage < 0 \/ CSubjects coverage < 0)
  then invalid "counts must be non-negative" else
  if decide (CEntries coverage < CEntriesStale coverage) then invalid "stale entries exceed entries" else
  Ok tt.

Section documents.
Context `{Protocol} (unicodeToLower : string -> string) (Load : res error (list Release)).

(** ** Config *)

Definition validateCoreSelection (selection : CoreSelection) : res error unit :=
  if decide (SelEngine selection = "" /\ SelVersion selection = "" /\ AllowRestrictedReality selection = false) then Ok tt else
  if decide (SelEngine selection = "" \/ SelVersion selection = "" \/
             TrimSpace (SelEngine selection) <> SelEngine selection \/
             ToLower unicodeToLower (SelEngine selection) <> SelEngine selection)
  then invalid "a canonical engine and exact version are required" else
  release ← Resolve unicodeToLower Load (SelEngine selection) (SelVersion selection);
  if decide (RequiresConfirmation release <> AllowRestrictedReality selection) then
    if RequiresConfirmation release then invalid "release requires allow_restricted_reality"
    else invalid "allow_restricted_reality is invalid for unrestricted release"
  else Ok tt.

(** One listener; the state is [seen]. *)
Definition validateListener (seen : gset string) (listener : WListener) : res error (gset string) :=
  if decide (WLKey listener = "") then invalid "listener has no key" else
  if decide (ListenerRowID (WLKey listener) = None) then invalid "listener key" else
  if decide (WLKey listener ∈ seen) then invalid "listener key appears more than once" else
  if decide (WLConfig listener = "") then invalid "listener has empty config" else
  Ok ({[WLKey listener]} ∪ seen).

Definition validateConfig (body : option ConfigBody) : res error unit :=
  match body with
  | None => invalid "config body is required"
  | Some body =>
      _ ← validateCoverage (CfgCoverage body);
      _ ← validateCoreSelection (CfgCore body);
      _ ← res_foldl validateListener ∅ (CfgListeners body);
      if decide (CEntries (CfgCoverage body) <> Z.of_nat (length (CfgListeners body)))
      then invalid "config coverage entries do not match listeners" else
      if decide (CSubjects (CfgCoverage body) <> 0) then invalid "config coverage subjects must be zero" else
      Ok tt
  end.

(** ** Roster *)

(** The attachments of one client; the state is [listeners]. *)
Definition validateAttachment (listeners : gset string) (key : string) : res error (gset string) :=
  if decide (ListenerRowID key = None) then invalid "client attachment" else
  if decide (key ∈ listeners) then invalid "client attaches listener more than once" else
  Ok ({[key]} ∪ listeners).

(** One client; the state is [seen] and [subjects]. *)
Definition validateClient (s : gset string * gset string) (client : WClient) : res error (gset string * gset string) :=
  let '(seen, subjects) := s in
  if decide (WCKey client = "" \/ WCSubject client = "") then invalid "client requires client and subject keys" else
  if decide (ClientRowID (WCKey client) = None) then invalid "client key" else
  if decide (SubjectRowID (WCSubject client) = None) then invalid "subject key" else
  if decide (WCKey client ∈ seen) then invalid "client key appears more than once" else
  if decide (WCExpiresAtMS client < 0) then invalid "client has negative expiry" else
  if decide (Flow (WCCredentials client) <> "" /\ Flow (WCCredentials client) <> "xtls-rprx-vision")
  then invalid "client has unsupported flow" else
  _ ← res_foldl validateAttachment ∅ (WCListeners client);
  Ok ({[WCKey client]} ∪ seen, {[WCSubject client]} ∪ subjects).

Definition validateRoster (body : option RosterBody) : res error unit :=
  match body with
  | None => invalid "roster body is required"
  | Some body =>
      if negb (Committed (RosMinConfigVersion body)) then invalid "min_config_version is required" else
      _ ← validateCoverage (RosCoverage body);
      '(_, subjects) ← res_foldl validateClient (∅, ∅) (RosClients body);
      if decide (CEntries (RosCoverage body) <> Z.of_nat (length (RosClients body)))
      then invalid "roster coverage entries do not match clients" else
      if decide (CSubjects (RosCoverage body) <> Z.of_nat (size subjects))
      then invalid "roster coverage subjects do not match distinct subjects" else
      Ok tt
  end.

(** ** Directives *)

Definition validateQuota (clients : gset string) (quota : QuotaEntry) : res error (gset string) :=
  if decide (ClientRowID (QClient quota) = None) then invalid "quota client" else
  if decide (QClient quota ∈ clients) then invalid "quota client appears more than once" else
  if decide (QBaselineBytes quota < 0 \/ ~ opt_nonneg (QHeadroomBytes quota)) then invalid "quota client has negative bytes" else
  if xorb (bool_decide (QPeriodEndsAtMS quota = 0)) (bool_decide (QNextPeriodHeadroomBytes quota = None))
  then invalid "quota client has an incomplete next-period grant" else
  if decide (QPeriodEndsAtMS quota < 0 \/ ~ opt_nonneg (QNextPeriodHeadroomBytes quota))
  then invalid "quota client has a negative next-period grant" else
  Ok ({[QClient quota]} ∪ clients).

Definition validateShadow (subjects : gset string) (shadow : IPShadowEntry) : res error (gset string) :=
  if decide (SubjectRowID (ShSubject shadow) = None) then invalid "ip_shadow subject" else
  if decide (ShSubject shadow ∈ subjects) then invalid "ip_shadow subject appears more than once" else
  if decide (ShIPLimit shadow < 0) then invalid "ip_shadow subject has negative limit" else
  Ok ({[ShSubject shadow]} ∪ subjects).

Definition validateDirectives (body : option DirectivesBody) : res error unit :=
  match body with
  | None => invalid "directives body is required"
  | Some body =>
      if negb (Committed (DirForRosterVersion body)) then invalid "for_roster_version is required" else
      _ ← validateCoverage (DirCoverage body);
      _ ← res_foldl validateQuota ∅ (DirQuota body);
      subjects ← res_foldl validateShadow ∅ (DirIPShadow body);
      if decide (CEntries (DirCoverage body) < Z.of_nat (length (DirQuota body)))
      then invalid "directives aggregate coverage entries are fewer than local quota entries" else
      if decide (CSubjects (DirCoverage body) < Z.of_nat (size subjects))
      then invalid "directives aggregate coverage subjects are fewer than local IP-shadow subjects" else
      Ok tt
  end.

End documents.

(** ** What the loops check *)

Section checks.
Context `{Protocol}.

(** A loop that refuses a repeated key and collects the keys. *)
Lemma seen_loop {A} (key : A -> string) (good : A -> Prop) (f : gset string -> A -> res error (gset string)) :
  (forall seen a s', f seen a = Ok s' <-> good a /\ key a ∉ seen /\ s' = {[key a]} ∪ seen) ->
  forall l seen s', res_foldl f seen l = Ok s' <->
    Forall good l /\ NoDup (key <$> l) /\ (forall k, k ∈ key <$> l -> k ∉ seen) /\ s' = list_to_set (key <$> l) ∪ seen.
Proof.
  intros Hf l. induction l as [|a l IH]; intros seen s'; cbn [res_foldl].
  - split; [intros [= <-]|intros (_ & _ & _ & ->); f_equal; set_solver].
    split_and!; [constructor|constructor|set_solver|set_solver].
  - rewrite bind_Ok. setoid_rewrite IH. setoid_rewrite Hf. rewrite fmap_cons, NoDup_cons, Forall_cons. split.
    + intros (s1 & (Hg & Hn & ->) & Hall & Hnd & Hdis & ->). split_and!; try done; [|set_solver|set_solver].
      intros Hin. specialize (Hdis _ Hin). set_solver.
    + intros ((Hg & Hall) & (Hn & Hnd) & Hdis & ->). eexists. split; [split_and!; [done|set_solver|done]|].
      split_and!; try done; [|set_solver]. intros k Hk. specialize (Hdis k). set_solver.
Qed.

Definition quota_ok (q : QuotaEntry) : Prop :=
  ClientRowID (QClient q) <> None /\ 0 ≤ QBaselineBytes q /\ opt_nonneg (QHeadroomBytes q) /\
  ((QPeriodEndsAtMS q = 0 /\ QNextPeriodHeadroomBytes q = None) \/
   (0 < QPeriodEndsAtMS q /\ exists n, QNextPeriodHeadroomBytes q = Some n /\ 0 ≤ n)).

Lemma validateQuota_Ok clients q s' :
  validateQuota clients q = Ok s' <-> quota_ok q /\ QClient q ∉ clients /\ s' = {[QClient q]} ∪ clients.
Proof.
  unfold validateQuota, quota_ok, invalid. split.
  - case_decide as H1; [done|]. case_decide as H2; [done|]. case_decide as H3; [done|].
    destruct (xorb _ _) eqn:H4; [done|]. destruct (decide (QPeriodEndsAtMS q < 0 \/ ~ opt_nonneg (QNextPeriodHeadroomBytes q))) as [H5|H5]; [done|]. intros [= <-].
    split_and!; try done; [lia|apply dec_stable; tauto|].
    assert (QPeriodEndsAtMS q = 0 <-> QNextPeriodHeadroomBytes q = None) as H6.
    { apply xorb_eq in H4. rewrite <-(bool_decide_eq_true (QPeriodEndsAtMS q = 0)), H4. apply bool_decide_eq_true. }
    clear H4. destruct (QNextPeriodHeadroomBytes q) as [n|].
    + right. simpl in H5. assert (QPeriodEndsAtMS q <> 0) by (intros Hz%H6; done). split; [lia|]. exists n. split; [done|lia].
    + left. split; [by apply H6|done].
  - intros ((H1 & H2 & H3 & H4) & H5 & ->). rewrite decide_False, decide_False by done.
    rewrite decide_False by (intros [?|?]; [lia|done]).
    destruct H4 as [[-> ->]|[Hp (n & -> & Hn)]].
    + done.
    + rewrite (bool_decide_eq_false_2 (QPeriodEndsAtMS q = 0)) by lia.
      cbn [xorb bool_decide decide_rel]. rewrite decide_False; [done|]. intros [?|Hx]; [lia|by apply Hx].
Qed.

Lemma validateDirectives_quota body :
  validateDirectives (Some body) = Ok tt -> Forall quota_ok (DirQuota body) /\ NoDup (QClient <$> DirQuota body).
Proof.
  unfold validateDirectives. destruct (Committed _); [|done]. cbn [negb].
  intros (_ & (s' & Hq & _)%bind_Ok)%bind_Ok_unit.
  apply (seen_loop QClient quota_ok validateQuota validateQuota_Ok) in Hq. tauto.
Qed.

End checks.

(** The grant a quota entry carries. *)
Definition grantOf (q : QuotaEntry) : QuotaGrant :=
  MkQuotaGrant (QBaselineBytes q) (QHeadroomBytes q) (QPeriodEndsAtMS q) (QNextPeriodHeadroomBytes q).

Section apply.
Context `{Protocol}.

(** A validated entry meets the ledger's own input checks: whether it is applied
    depends only on sums that must fit the machine integers. *)
Lemma ApplyQuota_validated db q c atMS :
  quota_ok q -> QClient q <> "" -> client_runtime db !! QClient q = Some c -> client_ok c ->
  grant_typed (grantOf q) -> 0 ≤ atMS ->
  is_Ok (ApplyQuota db (QClient q) (grantOf q) atMS) = true <->
  (QuotaFingerprint c = quotaFingerprint (grantOf q) \/
   forall h, QHeadroomBytes q = Some h -> UpBytes c + DownBytes c ≤ max_int64 /\ QBaselineBytes q + h ≤ max_int64).
Proof.
  intros (_ & Hb & Hh & Hp) Hk Hc (Hck & Hu & Hd & _) (Tb & Th & _) Hat.
  apply opt_nonneg_check in Hck as Hnn. destruct Hnn as (Hu0 & Hd0 & _).
  unfold ApplyQuota, Client. simpl in *. rewrite Hc. cbn [mbind res_bind].
  rewrite decide_False by (intros [?|[?|?]]; [done|lia..]). rewrite decide_False by (intros Hn; by apply Hn).
  assert (xorb (bool_decide (QPeriodEndsAtMS q = 0)) (bool_decide (QNextPeriodHeadroomBytes q = None)) = false /\
          opt_nonneg (QNextPeriodHeadroomBytes q) /\ 0 ≤ QPeriodEndsAtMS q) as (-> & Hnx & Hpe).
  { destruct Hp as [[-> ->]|[Hp (n & -> & Hn)]]; [done|].
    rewrite (bool_decide_eq_false_2 (QPeriodEndsAtMS q = 0)) by lia. split_and!; [done|done|lia]. }
  rewrite decide_False by (intros [?|Hn]; [lia|by apply Hn]).
  case_decide as Hf; [split; [by left|done]|]. split.
  - destruct (deriveGate _ _ _ _) as [gate|] eqn:Hg; [|done]. intros _. right. intros h Hqh. rewrite Hqh in *. simpl in Th.
    apply deriveGate_Ok in Hg; [lia|done..].
  - intros [?|Hfit]; [done|].
    assert (exists gate, deriveGate (UpBytes c) (DownBytes c) (pointerIfConfigured (QBaselineBytes q) (QHeadroomBytes q))
      (QHeadroomBytes q) = Ok gate /\ (gate = GateUnconfigured \/ QHeadroomBytes q <> None)) as (gate & -> & Hgate).
    { destruct (QHeadroomBytes q) as [h|]; simpl in *; [|by exists GateUnconfigured; split; [|left]].
      destruct (Hfit h eq_refl). eexists. split; [apply deriveGate_Ok; try done; split_and!; try lia; done|by right]. }
    cbn [mbind res_bind]. unfold put_client.
    assert (forall row, client_check row = true -> is_Ok (if client_check row then
      Ok (set_client_runtime (<[QClient q := row]> (client_runtime db)) db) else Err ErrConstraint) = true) as Hput
      by (intros row ->; done).
    apply Hput. unfold client_check. apply bool_decide_eq_true_2. simpl. unfold pointerIfConfigured.
    split_and!; try done; [by destruct (QHeadroomBytes q)| |].
    + destruct Hgate as [->|Hn]; [by left|right]. destruct (QHeadroomBytes q); done.
    + destruct Hp as [[-> ->]|[Hp (n & -> & _)]]; [by left|by right].
Qed.

(** Validated directives are applicable: a quota entry of an accepted
    directives document, for a client of a reachable ledger, passes every input
    check of the ledger.  It is applied, or recognised as already applied,
    unless the client's total or the new ceiling leaves the int64 range. *)
Theorem validated_directives_apply body q ops c atMS :
  validateDirectives (Some body) = Ok tt -> q ∈ DirQuota body -> grant_typed (grantOf q) ->
  Forall op_typed ops -> client_runtime (run_ops empty_db ops) !! QClient q = Some c -> 0 ≤ atMS ->
  is_Ok (ApplyQuota (run_ops empty_db ops) (QClient q) (grantOf q) atMS) = true <->
  (QuotaFingerprint c = quotaFingerprint (grantOf q) \/
   forall h, QHeadroomBytes q = Some h -> UpBytes c + DownBytes c ≤ max_int64 /\ QBaselineBytes q + h ≤ max_int64).
Proof.
  intros [Hq _]%validateDirectives_quota Hin Ht Hops Hc Hat. apply ApplyQuota_validated; try done.
  - by eapply Forall_forall.
  - intros He. rewrite He, run_ops_nonempty in Hc; done.
  - by apply (run_ops_clients_ok empty_db ops Hops clients_ok_empty (QClient q)).
Qed.

End apply.

Module documents_example.
Import sample.
Import clients_example.

Definition entry : QuotaEntry := MkQuotaEntry "cli_1" 5 (Some 10) 0 None.
Definition directives : DirectivesBody :=
  MkDirectivesBody (MkPVersion 1 1) [entry] [MkIPShadowEntry "usr_1" 3] (MkSegmentCounts 1 0 1).

Lemma validated_directives_apply_witness :
  is_Ok (ApplyQuota (run_ops empty_db setup) "cli_1" (grantOf entry) 9) = true.
Proof.
  apply (validated_directives_apply directives entry setup row 9).
  - vm_compute. reflexivity.
  - left.
  - vm_compute. intuition discriminate.
  - exact setup_typed.
  - exact ledger_row.
  - lia.
  - right. intros h Hh. injection Hh as <-. vm_compute. split; discriminate.
Defined.

End documents_example.
