(* ===== verification/Receive.v ===== *)
(** * Reception of a response ([internal/agent/receive.go])

    Each of the three segments of a response is validated and, when it carries a
    body, stored.  A segment that is refused leaves its stream alone and becomes a
    failure of the result; only an error of the store stops the call. *)
From S2P Require Import Prelude GoStrings Sha256 GoJson Protocol Store Streams Catalog Clients Documents.

(** ** Segments (types of the protocol module) *)

Record Segment (T : Type) := MkSegment {
  SVersion : PVersion;
  SETag : string;
  SUnchanged : bool;
  SBody : option T
}.
Arguments MkSegment {T} _ _ _ _.
Arguments SVersion {T} _.
Arguments SETag {T} _.
Arguments SUnchanged {T} _.
Arguments SBody {T} _.

Record SyncSegments := MkSyncSegments {
  RespConfig : Segment ConfigBody;
  RespRoster : Segment RosterBody;
  RespDirectives : Segment DirectivesBody
}.

(** [json.Marshal] and [json.Unmarshal] at a body type: [None] is the error. *)
Class BodyCodec (T : Type) := {
  MarshalBody : T -> option string;
  UnmarshalBody : string -> option T
}.

(** ** Results *)

Record SegmentFailure := MkSegmentFailure { FStream : string; FErr : error }.

(** What [receiveSegment] returns besides its error. *)
Record Received (T : Type) := MkReceived {
  RBody : option T;
  RChanged : bool;
  RNeedFull : bool;
  RFailure : option SegmentFailure
}.
Arguments MkReceived {T} _ _ _ _.
Arguments RBody {T} _.
Arguments RChanged {T} _.
Arguments RNeedFull {T} _.
Arguments RFailure {T} _.

Record ReceivedDocuments := MkReceivedDocuments {
  DocConfig : option ConfigBody;
  DocRoster : option RosterBody;
  DocDirectives : option DirectivesBody;
  ConfigChanged : bool;
  RosterChanged : bool;
  DirectivesChanged : bool;
  NeedImmediatePoll : bool;
  Failures : list SegmentFailure
}.

Definition isValidationError (e : error) : bool :=
  match e with ErrStaleVersion | ErrVersionConflict | ErrInvalidState => true | _ => false end.

Section receive.
Context `{Protocol}.

(** ** One segment *)

Section segment.
Context {T : Type} `{BodyCodec T}.

Definition loadStoredBody (db : DB) (stream : string) : res error T :=
  doc ← Stream db stream;
  match UnmarshalBody (DBody doc) with
  | Some body => Ok body
  | None => Err (Errorf "decode persisted body")
  end.

Definition receiveSegment (db : DB) (stream : string) (segment : Segment T) (acceptedAtMS : Z)
    (validate : option T -> res error unit) : res error (Received T * DB) :=
  current ← match loadStoredBody db stream with
            | Ok body => Ok (Some body)
            | Err ErrNotFound => Ok None
            | Err e => Err e
            end;
  let fail e := Ok (MkReceived current false false (Some (MkSegmentFailure stream e)), db) in
  if negb (Committed (SVersion segment)) then fail (Errorf "version must contain a positive epoch and version") else
  if decide (SETag segment = "") then fail (Errorf "etag is required") else
  if SUnchanged segment then
    match SBody segment, current with
    | Some _, _ => fail (Errorf "unchanged segment must not carry a body")
    | None, None => fail (Errorf "unchanged segment has no locally persisted body")
    | None, Some _ =>
        doc ← Stream db stream;
        if decide (Epoch (DVersion doc) < Epoch (SVersion segment)) then
          d ← ClearStreamForHigherEpoch db stream (Epoch (SVersion segment));
          Ok (MkReceived current false true None, d)
        else if Newer (DVersion doc) (SVersion segment) then fail (Errorf "response version is behind applied")
        else if negb (Converged (DETag doc) (SETag segment)) then fail (Errorf "unchanged etag differs from applied")
        else Ok (MkReceived current false false None, db)
    end
  else
    match SBody segment with
    | None => fail (Errorf "changed segment must carry a body")
    | Some body =>
        match validate (Some body) with
        | Err e => fail e
        | Ok _ =>
            match MarshalBody body with
            | None => fail (Errorf "encode body")
            | Some bytes =>
                match SaveStream db (MkStreamDocument stream (SVersion segment) (SETag segment) bytes acceptedAtMS) with
                | Ok d => Ok (MkReceived (Some body) true false None, d)
                | Err e => if isValidationError e then fail e else Err e
                end
            end
        end
    end.

End segment.

(** ** The three streams

    [nowMS] is read once per stream. *)

Section streams3.
Context `{BodyCodec ConfigBody, BodyCodec RosterBody, BodyCodec DirectivesBody}.
Context (unicodeToLower : string -> string) (Load : res error (list Release)).

Definition receiveConfig (db : DB) (segment : Segment ConfigBody) (atMS : Z) : res error (Received ConfigBody * DB) :=
  receiveSegment db StreamConfig segment atMS (validateConfig unicodeToLower Load).

Definition receiveRoster (db : DB) (segment : Segment RosterBody) (atMS : Z) : res error (Received RosterBody * DB) :=
  receiveSegment db StreamRoster segment atMS validateRoster.

Definition receiveDirectives (db : DB) (segment : Segment DirectivesBody) (atMS : Z) : res error (Received DirectivesBody * DB) :=
  receiveSegment db StreamDirectives segment atMS validateDirectives.

(** Each segment is its own transaction: an error leaves the earlier ones in
    place. *)
Definition Receive (db : DB) (response : SyncSegments) (nowMS : string -> Z) : res error ReceivedDocuments * DB :=
  match receiveConfig db (RespConfig response) (nowMS StreamConfig) with
  | Err e => (Err e, db)
  | Ok (config, d1) =>
      match receiveRoster d1 (RespRoster response) (nowMS StreamRoster) with
      | Err e => (Err e, d1)
      | Ok (roster, d2) =>
          match receiveDirectives d2 (RespDirectives response) (nowMS StreamDirectives) with
          | Err e => (Err e, d2)
          | Ok (directives, d3) =>
              (Ok (MkReceivedDocuments (RBody config) (RBody roster) (RBody directives)
                     (RChanged config) (RChanged roster) (RChanged directives)
                     (RNeedFull config || RNeedFull roster || RNeedFull directives)
                     (option_list (RFailure config) ++ option_list (RFailure roster) ++ option_list (RFailure directives))), d3)
          end
      end
  end.

End streams3.

(** ** One segment: outcomes *)

Section outcomes.
Context {T : Type} `{BodyCodec T} (validate : option T -> res error unit).

(** The four ways a segment is received. *)
Inductive segment_outcome (db : DB) (stream : string) (seg : Segment T) (atMS : Z) : Received T -> DB -> Prop :=
| so_refused current e :
    segment_outcome db stream seg atMS (MkReceived current false false (Some (MkSegmentFailure stream e))) db
| so_confirmed body doc :
    SUnchanged seg = true -> Stream db stream = Ok doc -> UnmarshalBody (DBody doc) = Some body ->
    Epoch (SVersion seg) ≤ Epoch (DVersion doc) -> Newer (DVersion doc) (SVersion seg) = false ->
    Converged (DETag doc) (SETag seg) = true ->
    segment_outcome db stream seg atMS (MkReceived (Some body) false false None) db
| so_reset body doc db' :
    SUnchanged seg = true -> SBody seg = None -> Stream db stream = Ok doc -> UnmarshalBody (DBody doc) = Some body ->
    Epoch (DVersion doc) < Epoch (SVersion seg) ->
    ClearStreamForHigherEpoch db stream (Epoch (SVersion seg)) = Ok db' ->
    segment_outcome db stream seg atMS (MkReceived (Some body) false true None) db'
| so_saved body bytes db' :
    SUnchanged seg = false -> SBody seg = Some body -> is_Ok (validate (Some body)) = true -> MarshalBody body = Some bytes ->
    SaveStream db (MkStreamDocument stream (SVersion seg) (SETag seg) bytes atMS) = Ok db' ->
    segment_outcome db stream seg atMS (MkReceived (Some body) true false None) db'.

Lemma loadStoredBody_Ok db stream body :
  loadStoredBody db stream = Ok body <-> exists doc, Stream db stream = Ok doc /\ UnmarshalBody (DBody doc) = Some body.
Proof.
  unfold loadStoredBody. rewrite bind_Ok. split; intros (doc & Hd & Hb); exists doc; (split; [done|]).
  - destruct (UnmarshalBody _); [by injection Hb as ->|done].
  - by rewrite Hb.
Qed.

Lemma receiveSegment_outcome db stream seg atMS r db' :
  receiveSegment db stream seg atMS validate = Ok (r, db') -> segment_outcome db stream seg atMS r db'.
Proof.
  unfold receiveSegment. intros (current & Hcur & Hr)%bind_Ok.
  destruct (Committed _); cbn [negb] in Hr; [|injection Hr as <- <-; apply so_refused].
  case_decide; [injection Hr as <- <-; apply so_refused|].
  destruct (SUnchanged seg) eqn:Hu.
  - destruct (SBody seg) eqn:Hsb; [injection Hr as <- <-; apply so_refused|].
    destruct current as [body|]; [|injection Hr as <- <-; apply so_refused].
    assert (loadStoredBody db stream = Ok body) as (doc & Hs & Hbody)%loadStoredBody_Ok.
    { destruct (loadStoredBody db stream) as [b|[]]; try discriminate Hcur. by injection Hcur as ->. }
    rewrite Hs in Hr. cbn [mbind res_bind] in Hr. case_decide as He.
    + apply bind_Ok in Hr as (d & Hclear & [= <- <-]). by eapply so_reset.
    + destruct (Newer _ _) eqn:Hn; [injection Hr as <- <-; apply so_refused|].
      destruct (Converged _ _) eqn:Hco; cbn [negb] in Hr; injection Hr as <- <-; [|apply so_refused].
      eapply so_confirmed; try done. lia.
  - destruct (SBody seg) as [body|] eqn:Hsb; [|injection Hr as <- <-; apply so_refused].
    destruct (validate (Some body)) as [u|e] eqn:Hv; [|injection Hr as <- <-; apply so_refused].
    destruct (MarshalBody body) as [bytes|] eqn:Hm; [|injection Hr as <- <-; apply so_refused].
    destruct (SaveStream _ _) as [d|e] eqn:Hsave.
    + injection Hr as <- <-. eapply so_saved; try done. by rewrite Hv.
    + destruct (isValidationError e); [|done]. injection Hr as <- <-. apply so_refused.
Qed.

Lemma outcome_steps db stream seg atMS r db' : segment_outcome db stream seg atMS r db' -> rtc stream_step db db'.
Proof. intros []; try apply rtc_refl; apply rtc_once; [by eapply step_clear|by eapply step_save]. Qed.

(** A segment writes its own row of one table. *)
Definition stream_frame (stream : string) (db db' : DB) : Prop :=
  exists rows, db' = set_stream_documents rows db /\ forall s, s <> stream -> rows !! s = stream_documents db !! s.

Lemma set_streams_same (db : DB) : set_stream_documents (stream_documents db) db = db.
Proof. by destruct db. Qed.

Lemma stream_frame_refl stream db : stream_frame stream db db.
Proof. exists (stream_documents db). by rewrite set_streams_same. Qed.

Lemma outcome_frame db stream seg atMS r db' : segment_outcome db stream seg atMS r db' -> stream_frame stream db db'.
Proof.
  intros [| |? doc ? _ _ _ _ _ Hc|? bytes ? _ _ _ _ Hs]; try apply stream_frame_refl.
  - apply ClearStream_Ok in Hc as (_ & [[_ ->]|(row & _ & _ & ->)]); [apply stream_frame_refl|].
    eexists. split; [done|]. intros s Hs. by rewrite lookup_insert_ne.
  - apply SaveStream_Ok in Hs as (_ & [(row & _ & -> & _)|[-> _]]); [apply stream_frame_refl|].
    eexists. split; [done|]. intros s Hs. by rewrite lookup_insert_ne.
Qed.

Lemma receiveSegment_frame db stream seg atMS r db' :
  receiveSegment db stream seg atMS validate = Ok (r, db') -> stream_frame stream db db'.
Proof. intros Ho. by eapply outcome_frame, receiveSegment_outcome. Qed.

(** ** One segment: locality *)

(** Two results that agree on everything but the rows of other streams. *)
Definition same_at (stream : string) (m1 m2 : res error (Received T * DB)) : Prop :=
  match m1, m2 with
  | Ok (r1, d1), Ok (r2, d2) => r1 = r2 /\ stream_documents d1 !! stream = stream_documents d2 !! stream
  | Err e1, Err e2 => e1 = e2
  | _, _ => False
  end.

Definition same_write (stream : string) (m1 m2 : res error DB) : Prop :=
  match m1, m2 with
  | Ok d1, Ok d2 => stream_documents d1 !! stream = stream_documents d2 !! stream
  | Err e1, Err e2 => e1 = e2
  | _, _ => False
  end.

Section local.
Context (db1 db2 : DB) (stream : string) (Hrow : stream_documents db1 !! stream = stream_documents db2 !! stream).

Lemma readStream_local : readStream db1 stream = readStream db2 stream.
Proof. unfold readStream. by rewrite Hrow. Qed.

Lemma Stream_local : Stream db1 stream = Stream db2 stream.
Proof. unfold Stream. by rewrite readStream_local. Qed.

Lemma loadStoredBody_local : loadStoredBody db1 stream = loadStoredBody db2 stream.
Proof. unfold loadStoredBody. by rewrite Stream_local. Qed.

Lemma Clear_local epoch :
  same_write stream (ClearStreamForHigherEpoch db1 stream epoch) (ClearStreamForHigherEpoch db2 stream epoch).
Proof.
  unfold ClearStreamForHigherEpoch. destruct (validateStream stream); cbn [mbind res_bind]; [|done].
  rewrite readStream_local. destruct (readStream db2 stream) as [row|[]]; try done.
  case_decide; [done|]. simpl. by rewrite !lookup_insert_eq.
Qed.

Lemma Save_local doc : DStream doc = stream -> same_write stream (SaveStream db1 doc) (SaveStream db2 doc).
Proof.
  intros Hdoc. unfold SaveStream. destruct (validateStreamDocument doc); cbn [mbind res_bind]; [|done].
  rewrite Hdoc, readStream_local. destruct (readStream db2 stream) as [row|[]]; try done.
  - case_decide; [done|]. case_decide; [case_decide; done|]. destruct (_ && _); [done|]. simpl. by rewrite !lookup_insert_eq.
  - simpl. by rewrite !lookup_insert_eq.
Qed.

Lemma receiveSegment_local seg atMS :
  same_at stream (receiveSegment db1 stream seg atMS validate) (receiveSegment db2 stream seg atMS validate).
Proof.
  unfold receiveSegment. rewrite loadStoredBody_local.
  destruct (match loadStoredBody db2 stream with Ok body => Ok (Some body) | Err ErrNotFound => Ok None | Err e => Err e end)
    as [current|e]; cbn [mbind res_bind]; [|done].
  destruct (Committed _); cbn [negb]; [|done]. case_decide; [done|]. destruct (SUnchanged seg).
  - destruct (SBody seg); [done|]. destruct current as [body|]; [|done]. rewrite Stream_local.
    destruct (Stream db2 stream) as [doc|e]; cbn [mbind res_bind]; [|done]. case_decide.
    + pose proof (Clear_local (Epoch (SVersion seg))) as Hc.
      destruct (ClearStreamForHigherEpoch db1 _ _), (ClearStreamForHigherEpoch db2 _ _); simpl in *; done.
    + destruct (Newer _ _); [done|]. destruct (Converged _ _); done.
  - destruct (SBody seg) as [body|]; [|done]. destruct (validate (Some body)); [|done].
    destruct (MarshalBody body) as [bytes|]; [|done].
    pose proof (Save_local (MkStreamDocument stream (SVersion seg) (SETag seg) bytes atMS) eq_refl) as Hs.
    destruct (SaveStream db1 _), (SaveStream db2 _); simpl in *; try done. subst. by destruct (isValidationError _).
Qed.

End local.
(** ** One segment: properties *)

Lemma Stream_row db stream doc :
  Stream db stream = Ok doc -> is_Ok (validateStream stream) = true /\ exists row, stream_documents db !! stream = Some row /\ document row = doc.
Proof.
  unfold Stream, readStream. destruct (validateStream stream); cbn [mbind res_bind]; [|done].
  destruct (stream_documents db !! stream) as [row|]; simpl; [|done]. intros [= <-]. split; [done|]. by exists row.
Qed.

Lemma Stream_of_row db stream row :
  is_Ok (validateStream stream) = true -> stream_documents db !! stream = Some row -> Stream db stream = Ok (document row).
Proof. unfold Stream, readStream. intros Hv ->. by destruct (validateStream stream). Qed.

Lemma Clear_row db stream epoch row :
  is_Ok (validateStream stream) = true -> stream_documents db !! stream = Some row -> epochFloor row < epoch ->
  exists db', ClearStreamForHigherEpoch db stream epoch = Ok db' /\
    stream_documents db' !! stream = Some (MkStoredStream (MkStreamDocument (DStream (document row)) (MkPVersion 0 0) ""
      (DBody (document row)) (AcceptedAtMS (document row))) epoch).
Proof.
  intros Hv Hrow Hlt. unfold ClearStreamForHigherEpoch, readStream. rewrite Hrow. destruct (validateStream stream); [|done].
  cbn [mbind res_bind]. rewrite decide_False by lia. eexists. split; [done|]. simpl. by rewrite lookup_insert_eq.
Qed.

(** C37. Reception of a segment.  Whatever the segment, the stored documents move
    only along the store's own history and only in this stream's row; a refused
    segment changes nothing; a body is returned as changed only when it was
    validated, its digest is the segment's ETag and it is what the next read
    returns; and a request for a full document leaves the old body in place but
    presents no version. *)
Theorem received_segment_contract `{!ProtocolLaws} db stream seg atMS r db' :
  rtc stream_step empty_db db -> receiveSegment db stream seg atMS validate = Ok (r, db') ->
  rtc stream_step db db' /\ stream_frame stream db db' /\
  (is_Some (RFailure r) -> db' = db /\ RChanged r = false /\ RNeedFull r = false) /\
  (RChanged r = true -> exists body bytes doc,
     SBody seg = Some body /\ RBody r = Some body /\ is_Ok (validate (Some body)) = true /\ MarshalBody body = Some bytes /\
     Stream db' stream = Ok doc /\ DVersion doc = SVersion seg /\ DETag doc = SETag seg /\ DBody doc = bytes /\
     SETag seg = sha256_hex bytes) /\
  (RNeedFull r = true -> exists doc,
     Stream db' stream = Ok doc /\ VZero (DVersion doc) = true /\ DETag doc = "" /\ UnmarshalBody (DBody doc) = RBody r).
Proof.
  intros Hdb Ho%receiveSegment_outcome. split; [by eapply outcome_steps|]. split; [by eapply outcome_frame|].
  destruct Ho as [current e|body doc Hu Hs Hb He Hn Hc|body doc db' Hu Hsb Hs Hb He Hc|body bytes db' Hu Hsb Hv Hm Hs];
    simpl; (split_and!; [try done|try done|try done]); try (intros [? ?]; discriminate).
  - intros _. apply Stream_row in Hs as (Hval & row & Hrow & <-).
    assert (epochFloor row < Epoch (SVersion seg)) as Hlt.
    { unfold ClearStreamForHigherEpoch, readStream in Hc. rewrite Hrow in Hc. destruct (validateStream stream); [|done].
      cbn [mbind res_bind] in Hc. case_decide; [done|lia]. }
    destruct (Clear_row db stream _ row Hval Hrow Hlt) as (d & Hd & Hrow'). rewrite Hc in Hd. injection Hd as <-.
    rewrite (Stream_of_row _ _ _ Hval Hrow'). eexists. split_and!; [done|by apply VZero_spec|done|done].
  - intros _. pose proof (SaveStream_Ok _ _ _ Hs) as [Hvd _]. pose proof (validateStreamDocument_ok _ Hvd) as (Hval & _ & _ & _ & _ & Hd).
    destruct (SaveStream_readback _ _ _ (stream_reachable_ok _ Hdb) Hs) as (row & Hrow & _ & Hver & Het & Hbody). simpl in *.
    exists body, bytes, (document row). rewrite (Stream_of_row _ _ _ Hval Hrow). split_and!; done.
Qed.

(** What a first or newer document meets. *)
Definition supersedes (v : PVersion) (db : DB) (stream : string) : Prop :=
  forall row, stream_documents db !! stream = Some row ->
    epochFloor row ≤ Epoch v /\ DVersion (document row) <> v /\
    (VZero (DVersion (document row)) = true \/ Newer v (DVersion (document row)) = true).

Lemma SaveStream_supersedes db doc :
  validateStreamDocument doc = Ok tt -> supersedes (DVersion doc) db (DStream doc) ->
  SaveStream db doc = Ok (set_stream_documents (<[DStream doc := MkStoredStream doc (Epoch (DVersion doc))]> (stream_documents db)) db).
Proof.
  intros Hv Hsup. unfold SaveStream, readStream. rewrite Hv. cbn [mbind res_bind].
  destruct (stream_documents db !! DStream doc) as [row|] eqn:Hrow; [|done].
  destruct (Hsup row Hrow) as (Hf & Hne & Hor). rewrite decide_False by lia. rewrite decide_False by done.
  by destruct Hor as [-> | ->]; [|destruct (VZero _)].
Qed.

(** A document that supersedes the stored one is never lost: when its body
    is valid, encodes to valid JSON with the announced digest, and the stored
    body can still be read, the segment is accepted. *)
Theorem newer_document_is_accepted db stream seg atMS body bytes :
  is_Ok (validateStream stream) = true -> 0 ≤ atMS ->
  SUnchanged seg = false -> SBody seg = Some body -> Committed (SVersion seg) = true ->
  is_Ok (validate (Some body)) = true -> MarshalBody body = Some bytes -> bytes <> "" -> json_Valid bytes = true ->
  SETag seg = sha256_hex bytes -> supersedes (SVersion seg) db stream ->
  (forall row, stream_documents db !! stream = Some row -> is_Some (UnmarshalBody (DBody (document row)))) ->
  exists db', receiveSegment db stream seg atMS validate = Ok (MkReceived (Some body) true false None, db').
Proof.
  intros Hval Hat Hu Hsb Hcom Hv Hm Hne Hj Het Hsup Hload. unfold receiveSegment.
  assert (exists current, match loadStoredBody db stream with
    Ok b => Ok (Some b) | Err ErrNotFound => Ok None | Err e => Err e end = Ok (A := option T) (E := error) current) as (current & ->).
  { unfold loadStoredBody, Stream, readStream. destruct (validateStream stream); [|done]. cbn [mbind res_bind].
    destruct (stream_documents db !! stream) as [row|] eqn:Hrow; [|by eexists]. cbn [mbind res_bind].
    destruct (Hload row eq_refl) as (b & ->). by eexists. }
  cbn [mbind res_bind]. rewrite Hcom, Hu, Hsb, Hm. cbn [negb].
  rewrite decide_False by (rewrite Het; intros Hz; pose proof (sha256_hex_length bytes) as Hl; by rewrite Hz in Hl).
  destruct (validate (Some body)); [|done]. rewrite SaveStream_supersedes; [by eexists| |done].
  unfold validateStreamDocument. simpl. rewrite Hval, Hcom. cbn [negb]. rewrite decide_False by lia.
  rewrite decide_False by (intros [?|?]; [done|congruence]). by rewrite decide_False by tauto.
Qed.

(** A higher epoch.  An unchanged answer under an epoch above the floor
    withdraws the presented version, keeps the body for the runtime and asks for
    an immediate poll.  From then on a body of a lower epoch is refused, and a
    second unchanged answer under that epoch is an error of the whole call, not a
    refusal of the segment. *)
Theorem higher_epoch_withdraws db stream seg atMS row body :
  is_Ok (validateStream stream) = true -> stream_documents db !! stream = Some row ->
  UnmarshalBody (DBody (document row)) = Some body -> Epoch (DVersion (document row)) ≤ epochFloor row ->
  SUnchanged seg = true -> SBody seg = None -> Committed (SVersion seg) = true -> SETag seg <> "" ->
  epochFloor row < Epoch (SVersion seg) ->
  exists db', receiveSegment db stream seg atMS validate = Ok (MkReceived (Some body) false true None, db') /\
    (forall seg' atMS' r d, SUnchanged seg' = false -> Epoch (SVersion seg') < Epoch (SVersion seg) ->
       receiveSegment db' stream seg' atMS' validate = Ok (r, d) -> d = db' /\ RChanged r = false /\ is_Some (RFailure r)) /\
    (0 < Epoch (SVersion seg) -> forall atMS', is_Ok (receiveSegment db' stream seg atMS' validate) = false).
Proof.
  intros Hval Hrow Hbody Hfl Hu Hsb Hcom Het Hlt.
  destruct (Clear_row db stream _ row Hval Hrow Hlt) as (db' & Hc & Hrow').
  exists db'. split_and!.
  - unfold receiveSegment, loadStoredBody. rewrite (Stream_of_row _ _ _ Hval Hrow). cbn [mbind res_bind]. rewrite Hbody.
    cbn [mbind res_bind]. rewrite Hcom, Hu, Hsb. cbn [negb]. rewrite decide_False, decide_True by (done || lia). by rewrite Hc.
  - intros seg' atMS' r d Hu' He' Ho%receiveSegment_outcome.
    destruct Ho as [current e| | |body' bytes d Hu'' _ _ _ Hs]; [by eauto|congruence..|].
    apply SaveStream_Ok in Hs as (_ & [(row' & Hr' & _ & Hf & _)|[_ Hf]]); simpl in *.
    + rewrite Hrow' in Hr'. injection Hr' as <-. simpl in Hf. lia.
    + destruct (Hf _ Hrow') as [Hf' _]. simpl in Hf'. lia.
  - intros Hpos atMS'. unfold receiveSegment, loadStoredBody. rewrite (Stream_of_row _ _ _ Hval Hrow'). cbn [mbind res_bind document DBody].
    rewrite Hbody. cbn [mbind res_bind]. rewrite Hcom, Hu, Hsb. cbn [negb document DVersion Epoch].
    rewrite decide_False, decide_True by (done || lia).
    unfold ClearStreamForHigherEpoch, readStream. rewrite Hrow'. destruct (validateStream stream); [|done]. cbn [mbind res_bind epochFloor].
    by rewrite decide_True by lia.
Qed.

End outcomes.

(** ** The three streams together *)

Section independence.
Context `{BodyCodec ConfigBody, BodyCodec RosterBody, BodyCodec DirectivesBody}.
Context (unicodeToLower : string -> string) (Load : res error (list Release)).

(** The rows a call leaves, one stream at a time. *)
Lemma frame_row stream db db' s : stream_frame stream db db' -> s <> stream -> stream_documents db' !! s = stream_documents db !! s.
Proof. intros (rows & -> & Hrows) Hne. by apply Hrows. Qed.

Lemma frame_trans a b db1 db2 db3 :
  stream_frame a db1 db2 -> stream_frame b db2 db3 ->
  exists rows, db3 = set_stream_documents rows db1 /\ forall s, s <> a -> s <> b -> rows !! s = stream_documents db1 !! s.
Proof.
  intros (rows1 & -> & H1') (rows2 & -> & H2'). exists rows2. split; [done|].
  intros s Ha Hb. rewrite H2' by done. simpl. by apply H1'.
Qed.

(** C38. The streams are independent: [Receive] succeeds exactly when each
    segment, received alone on the database as it was, succeeds, and then every
    part of its result and every stream's row is what that reception gives.  A
    refused, stale or malformed segment cannot change what happens to another. *)
Theorem Receive_streams_independent db response nowMS :
  let config := receiveConfig unicodeToLower Load db (RespConfig response) (nowMS StreamConfig) in
  let roster := receiveRoster db (RespRoster response) (nowMS StreamRoster) in
  let directives := receiveDirectives db (RespDirectives response) (nowMS StreamDirectives) in
  match config, roster, directives with
  | Ok (c, dc), Ok (r, dr), Ok (d, dd) => exists db',
      Receive unicodeToLower Load db response nowMS =
        (Ok (MkReceivedDocuments (RBody c) (RBody r) (RBody d) (RChanged c) (RChanged r) (RChanged d)
               (RNeedFull c || RNeedFull r || RNeedFull d)
               (option_list (RFailure c) ++ option_list (RFailure r) ++ option_list (RFailure d))), db') /\
      stream_documents db' !! StreamConfig = stream_documents dc !! StreamConfig /\
      stream_documents db' !! StreamRoster = stream_documents dr !! StreamRoster /\
      stream_documents db' !! StreamDirectives = stream_documents dd !! StreamDirectives /\
      exists rows, db' = set_stream_documents rows db
  | _, _, _ => is_Ok (fst (Receive unicodeToLower Load db response nowMS)) = false
  end.
Proof.
  cbv zeta. unfold Receive.
  destruct (receiveConfig _ _ db _ _) as [[c dc]|e] eqn:Hc; [|done].
  pose proof (receiveSegment_frame _ db _ _ _ _ dc Hc) as Hfc.
  pose proof (receiveSegment_local validateRoster dc db StreamRoster (frame_row _ _ _ StreamRoster Hfc ltac:(done))
    (RespRoster response) (nowMS StreamRoster)) as Hlr. fold (receiveRoster dc (RespRoster response) (nowMS StreamRoster)) in Hlr.
  fold (receiveRoster db (RespRoster response) (nowMS StreamRoster)) in Hlr.
  destruct (receiveRoster dc _ _) as [[r d1]|e1] eqn:Hr; destruct (receiveRoster db _ _) as [[r' dr]|e2] eqn:Hr'; try done.
  destruct Hlr as [<- Hrow].
  pose proof (receiveSegment_frame _ dc _ _ _ _ d1 Hr) as Hfr.
  assert (stream_documents d1 !! StreamDirectives = stream_documents db !! StreamDirectives) as Hdir.
  { rewrite (frame_row _ _ _ StreamDirectives Hfr), (frame_row _ _ _ StreamDirectives Hfc); done. }
  pose proof (receiveSegment_local validateDirectives d1 db StreamDirectives Hdir (RespDirectives response) (nowMS StreamDirectives)) as Hld.
  fold (receiveDirectives d1 (RespDirectives response) (nowMS StreamDirectives)) in Hld.
  fold (receiveDirectives db (RespDirectives response) (nowMS StreamDirectives)) in Hld.
  destruct (receiveDirectives d1 _ _) as [[d d2]|e3] eqn:Hd; destruct (receiveDirectives db _ _) as [[d' dd]|e4] eqn:Hd'; try done.
  destruct Hld as [<- Hrow2].
  pose proof (receiveSegment_frame _ d1 _ _ _ _ d2 Hd) as Hfd.
  exists d2. split_and!; [done|..].
  - rewrite (frame_row _ _ _ StreamConfig Hfd), (frame_row _ _ _ StreamConfig Hfr); done.
  - by rewrite (frame_row _ _ _ StreamRoster Hfd).
  - done.
  - destruct Hfd as (rows & -> & _). destruct Hfr as (? & -> & _). destruct Hfc as (? & -> & _). by exists rows.
Qed.

End independence.
End receive.

Module receive_example.
Import sample.
Import streams_example.

(** A toy codec of one body type: the body is its own JSON text. *)
#[export] Instance text_codec : BodyCodec string := {| MarshalBody s := Some s; UnmarshalBody s := Some s |}.

Definition accept_any (body : option string) : res error unit := Ok tt.

Definition newer : Segment string := MkSegment (MkPVersion 1 2) (sha256_hex "[]") false (Some "[]").
Definition next_epoch : Segment string := MkSegment (MkPVersion 2 1) (sha256_hex "[]") true None.

Lemma received_segment_contract_witness :
  exists doc, Stream (unwrap (snd <$> receiveSegment db1 StreamConfig newer 6 accept_any)) StreamConfig = Ok doc /\
    DVersion doc = MkPVersion 1 2 /\ DBody doc = "[]".
Proof.
  assert (receiveSegment db1 StreamConfig newer 6 accept_any =
    Ok (MkReceived (Some "[]") true false None, unwrap (snd <$> receiveSegment db1 StreamConfig newer 6 accept_any))) as Hr
    by (vm_compute; reflexivity).
  assert (rtc stream_step empty_db db1) as Hdb by (apply rtc_once, (step_save empty_db doc1); vm_compute; reflexivity).
  destruct (received_segment_contract accept_any db1 StreamConfig newer 6 _ _ Hdb Hr) as (_ & _ & _ & Hc & _).
  destruct (Hc eq_refl) as (body & bytes & doc & Hsb & _ & _ & Hm & Hs & Hv & _ & Hb & _). exists doc.
  injection Hsb as <-. injection Hm as <-. split; [exact Hs|]. split; [exact Hv|exact Hb].
Defined.

Lemma newer_document_is_accepted_witness :
  exists db', receiveSegment db1 StreamConfig newer 6 accept_any = Ok (MkReceived (Some "[]") true false None, db').
Proof.
  assert (stream_documents db1 !! StreamConfig = Some (MkStoredStream doc1 1)) as Hdb1 by (vm_compute; reflexivity).
  apply (newer_document_is_accepted accept_any db1 StreamConfig newer 6 "[]" "[]").
  - reflexivity.
  - lia.
  - reflexivity.
  - reflexivity.
  - vm_compute. reflexivity.
  - reflexivity.
  - reflexivity.
  - discriminate.
  - vm_compute. reflexivity.
  - reflexivity.
  - intros row Hrow. rewrite Hdb1 in Hrow. injection Hrow as <-. split; [simpl; lia|]. split; [discriminate|].
    right. vm_compute. reflexivity.
  - intros row _. eexists. reflexivity.
Defined.

Lemma higher_epoch_withdraws_witness :
  exists db', receiveSegment db1 StreamConfig next_epoch 7 accept_any = Ok (MkReceived (Some "{}") false true None, db') /\
    is_Ok (receiveSegment db' StreamConfig next_epoch 8 accept_any) = false.
Proof.
  assert (stream_documents db1 !! StreamConfig = Some (MkStoredStream doc1 1)) as Hdb1 by (vm_compute; reflexivity).
  destruct (higher_epoch_withdraws accept_any db1 StreamConfig next_epoch 7 (MkStoredStream doc1 1) "{}") as (db' & Hr & _ & Ha).
  - reflexivity.
  - exact Hdb1.
  - reflexivity.
  - simpl. lia.
  - reflexivity.
  - reflexivity.
  - vm_compute. reflexivity.
  - vm_compute. discriminate.
  - simpl. lia.
  - exists db'. split; [exact Hr|]. apply Ha. simpl. lia.
Defined.

End receive_example.
