(* ===== verification/Issues.v ===== *)
(** * Local issues ([internal/agent/issues.go])

    Internal failures become wire issues and wait in the outbox.  The detail is
    untrusted text: it is cut to the wire's limit on a rune boundary. *)
From S2P Require Import Prelude GoStrings Protocol Store Outbox.

Record LocalIssue := MkLocalIssue {
  IssKind : string;
  IssStream : string;
  IssKey : string;
  IssDedupeKey : string;
  IssDetail : string
}.

Definition DefaultIssueMapper (local : LocalIssue) : res error Issue :=
  if decide (IssKind local = "") then Err (Errorf "local issue kind is empty") else
  Ok (MkIssue (IssKind local) (IssKey local) (IssDetail local)).

(** ** Truncation *)

Definition replacementChar : string := bytes_of [239; 191; 189]%nat.
Definition ellipsis : string := bytes_of [226; 128; 166]%nat.

(** The loop [for end > 0 && !utf8.ValidString(value[:end]) { end-- }]. *)
Fixpoint validEnd (end_ : nat) (value : string) : nat :=
  match end_ with
  | O => O
  | S end' => if utf8_ValidString (take_str end_ value) then end_ else validEnd end' value
  end.

Definition truncateUTF8 (value : string) (maxBytes : Z) : string :=
  let value := ToValidUTF8 value replacementChar in
  if decide (maxBytes < 1 \/ len value ≤ maxBytes) then value else
  if decide (maxBytes < len ellipsis) then take_str (validEnd (Z.to_nat maxBytes) value) value else
  take_str (validEnd (Z.to_nat (maxBytes - len ellipsis)) value) value +:+ ellipsis.

Section issues.
Context `{Protocol}.

(** [OutboxIssueSink.Record]; [Map] is the sink's mapper. *)
Definition RecordIssue (Map : LocalIssue -> res error Issue) (db : DB) (local : LocalIssue) (nowMS : Z) : res error (bool * DB) :=
  issue ← Map local;
  if decide (ICode issue = "") then Err (Errorf "protocol code is empty") else
  if decide (MaxIssueCodeBytes < len (ICode issue)) then Err (Errorf "protocol code exceeds the limit") else
  if decide (MaxIssueKeyBytes < len (IKey issue)) then Err (Errorf "protocol key exceeds the limit") else
  let issue := MkIssue (ICode issue) (IKey issue) (truncateUTF8 (IDetail issue) MaxIssueDetailBytes) in
  if decide (IssDedupeKey local = "") then Err (Errorf "local issue has no dedupe key") else
  EnqueueIssue db (IssDedupeKey local) issue nowMS.

End issues.

(** ** Lemmas *)

Ltac utf8_tail IH :=
  intros ?; repeat match goal with H : _ && _ = true |- _ => apply andb_true_iff in H as [? ?] end;
  repeat match goal with H : byte_in _ _ _ = true |- _ => rewrite H; clear H end; simpl;
  apply IH; [unfold ltof; simpl; lia|assumption].

(** Well-formed text can be extended. *)
Lemma utf8_app a : forall b, utf8_ValidString a = true -> utf8_ValidString (a +:+ b) = utf8_ValidString b.
Proof.
  induction a as [a IH] using (well_founded_induction (Wf_nat.well_founded_ltof string String.length)); intros b.
  destruct a as [|x s1]; [done|]. simpl. destruct (byte_in 0 127 x); [utf8_tail IH|].
  destruct s1 as [|y s2]; [done|]. simpl. destruct (byte_in 194 223 x); [utf8_tail IH|].
  destruct s2 as [|z s3]; [done|]. simpl.
  destruct (byte_in 224 224 x); [utf8_tail IH|]. destruct (byte_in 237 237 x); [utf8_tail IH|].
  destruct (byte_in 225 239 x); [utf8_tail IH|].
  destruct s3 as [|w s4]; [done|]. simpl.
  destruct (byte_in 240 240 x); [utf8_tail IH|]. destruct (byte_in 241 243 x); [utf8_tail IH|].
  destruct (byte_in 244 244 x); [utf8_tail IH|done].
Qed.

Lemma byte_in_sub lo hi l h a : byte_in lo hi a = true -> (l <= lo)%nat -> (hi <= h)%nat -> byte_in l h a = true.
Proof. unfold byte_in. rewrite !andb_true_iff, !Nat.leb_le. lia. Qed.

Lemma byte_in_out lo hi l h a : byte_in lo hi a = true -> (hi < l \/ h < lo)%nat -> byte_in l h a = false.
Proof. unfold byte_in. rewrite andb_true_iff, andb_false_iff, !Nat.leb_le, !Nat.leb_gt. lia. Qed.

(** Decide every range test on a byte whose range is known. *)
Ltac byte_tests :=
  repeat match goal with
  | H : _ && _ = true |- _ => apply andb_true_iff in H as [? ?]
  | H : _ || _ = true |- _ => apply orb_true_iff in H as [?|?]
  end;
  repeat match goal with
  | H : byte_in ?lo ?hi ?a = true |- context [byte_in ?l ?h ?a] =>
      first [rewrite (byte_in_sub lo hi l h a H) by lia | rewrite (byte_in_out lo hi l h a H) by lia]
  end.

Lemma take_str_0 s : take_str 0 s = "".
Proof. by destruct s. Qed.

(** The rune at the front is well formed. *)
Lemma front_rune_valid s : rune_width s <> 0%nat -> utf8_ValidString (take_str (rune_width s) s) = true.
Proof.
  unfold take_str. destruct s as [|a s1]; [done|]. cbn [rune_width]. destruct (byte_in 0 127 a) eqn:Ha.
  { intros _. destruct s1; simpl; byte_tests; done. }
  destruct s1 as [|b s2]; [done|]. destruct (byte_in 194 223 a && byte_in 128 191 b) eqn:Hb.
  { intros _. destruct s2; simpl; byte_tests; done. }
  destruct s2 as [|c s3]; [done|]. match goal with |- context [if ?x then 3%nat else _] => destruct x eqn:Hc end.
  { intros _. clear Ha Hb. destruct s3; simpl; byte_tests; done. }
  destruct s3 as [|d s4]; [done|]. match goal with |- context [if ?x then 4%nat else _] => destruct x eqn:Hd end; [|done].
  intros _. clear Ha Hb Hc. destruct s4; simpl; byte_tests; done.
Qed.

(** Whatever the input, the output is well formed. *)
Lemma to_valid_valid fuel replacement : utf8_ValidString replacement = true ->
  forall invalid s, utf8_ValidString (to_valid fuel invalid replacement s) = true.
Proof.
  intros Hr. induction fuel as [|fuel IH]; intros invalid s; [done|]. destruct s as [|a s]; [done|].
  cbn [to_valid]. destruct (rune_width (String a s)) as [|w] eqn:Hw.
  - destruct invalid; [apply IH|]. by rewrite utf8_app.
  - rewrite utf8_app; [apply IH|]. rewrite <-Hw. apply front_rune_valid. by rewrite Hw.
Qed.

Lemma validEnd_le n value : (validEnd n value <= n)%nat.
Proof. induction n as [|n IH]; cbn [validEnd]; [done|]. destruct (utf8_ValidString _); lia. Qed.

Lemma validEnd_valid n value : utf8_ValidString (take_str (validEnd n value) value) = true.
Proof.
  induction n as [|n IH]; cbn [validEnd]; [by rewrite take_str_0|].
  destruct (utf8_ValidString (take_str (S n) value)) eqn:Hv; done.
Qed.

Lemma take_str_le n s : (String.length (take_str n s) <= n)%nat.
Proof.
  unfold take_str. revert n. induction s as [|a s IH]; intros [|n]; simpl; try lia. specialize (IH n). lia.
Qed.

(** The truncated text is well formed and within a positive limit. *)
Lemma truncateUTF8_fits value maxBytes :
  0 < maxBytes -> utf8_ValidString (truncateUTF8 value maxBytes) = true /\ len (truncateUTF8 value maxBytes) ≤ maxBytes.
Proof.
  intros Hmax. unfold truncateUTF8. set (v := ToValidUTF8 value replacementChar).
  destruct (decide (maxBytes < 1 \/ len v ≤ maxBytes)) as [[?|Hl]|_]; [lia|split; [by apply to_valid_valid|done]|].
  destruct (decide (maxBytes < len ellipsis)) as [He|He].
  - split; [apply validEnd_valid|]. unfold len. pose proof (take_str_le (validEnd (Z.to_nat maxBytes) v) v).
    pose proof (validEnd_le (Z.to_nat maxBytes) v). lia.
  - split; [rewrite utf8_app; [done|apply validEnd_valid]|]. unfold len in *. rewrite length_sapp.
    set (n := Z.to_nat _). pose proof (take_str_le (validEnd n v) v). pose proof (validEnd_le n v). lia.
Qed.

(** A recorded issue is on the outbox: it was there, or it is one new row. *)
Lemma RecordIssue_Ok `{Protocol} Map db local nowMS created db' :
  RecordIssue Map db local nowMS = Ok (created, db') ->
  (exists row, outbox_find outboxIssue (IssDedupeKey local) (report_outbox db) = Some row /\ created = false /\ db' = db) \/
  (outbox_find outboxIssue (IssDedupeKey local) (report_outbox db) = None /\ created = true /\
   exists payload, db' = outbox_insert outboxIssue (IssDedupeKey local) payload nowMS db).
Proof.
  unfold RecordIssue. intros (issue & _ & Hr)%bind_Ok. repeat case_decide; try done. unfold EnqueueIssue in Hr.
  repeat case_decide; try done. unfold enqueue in Hr.
  destruct (outbox_find _ _ _) as [row|]; injection Hr as <- <-; [left|right]; eauto.
Qed.

(** Recording an issue whose key is on the outbox changes nothing. *)
Lemma RecordIssue_again `{Protocol} Map db local nowMS row :
  outbox_find outboxIssue (IssDedupeKey local) (report_outbox db) = Some row ->
  match RecordIssue Map db local nowMS with Ok (created, db') => created = false /\ db' = db | Err _ => True end.
Proof.
  intros Hf. destruct (RecordIssue Map db local nowMS) as [[created db']|e] eqn:Hr; [|done].
  apply RecordIssue_Ok in Hr as [(_ & _ & -> & ->)|(Hn & _)]; [done|congruence].
Qed.

Lemma outbox_find_insert kind dedupe payload atMS db :
  exists row, outbox_find kind dedupe (report_outbox (outbox_insert kind dedupe payload atMS db)) = Some row.
Proof.
  destruct (outbox_find kind dedupe _) as [row|] eqn:Hf; [by eauto|]. exfalso.
  eapply (proj1 (outbox_find_None kind dedupe _) Hf (MkOutboxRow (outbox_seq db + 1) kind dedupe payload atMS false)); [|done].
  simpl. set_solver.
Qed.

Section recording.
Context `{ProtocolLaws}.

(** A local issue is refused only for its identity, never for its detail:
    with the default mapper the sink records it exactly when its kind and dedupe
    key are not blank, its kind and key are within the wire's limits and the clock
    is not negative; what is queued then has a well-formed detail within the
    limit, and a dedupe key already queued is not queued again. *)
Theorem issue_never_refused_for_detail db local nowMS :
  (is_Ok (RecordIssue DefaultIssueMapper db local nowMS) = true <->
   TrimSpace (IssKind local) <> "" /\ len (IssKind local) ≤ MaxIssueCodeBytes /\ len (IssKey local) ≤ MaxIssueKeyBytes /\
   TrimSpace (IssDedupeKey local) <> "" /\ 0 ≤ nowMS) /\
  forall created db', RecordIssue DefaultIssueMapper db local nowMS = Ok (created, db') ->
    (created = true <-> outbox_find outboxIssue (IssDedupeKey local) (report_outbox db) = None) /\
    (created = false -> db' = db) /\
    (created = true -> exists detail, utf8_ValidString detail = true /\ len detail ≤ MaxIssueDetailBytes /\
       db' = outbox_insert outboxIssue (IssDedupeKey local)
               (MarshalIssue (MkIssue (IssKind local) (IssKey local) detail)) nowMS db).
Proof.
  assert (0 < MaxIssueDetailBytes) as Hpos by apply limits_pos.
  destruct (truncateUTF8_fits (IssDetail local) _ Hpos) as [Hutf Hlen].
  assert (TrimSpace "" = "") as Hblank by done.
  unfold RecordIssue, DefaultIssueMapper, EnqueueIssue, enqueue.
  destruct (decide (IssKind local = "")) as [Hk|Hk].
  { cbn [mbind res_bind]. split; [split; [done|]|done]. rewrite Hk. naive_solver. }
  cbn [mbind res_bind ICode IKey IDetail]. rewrite (decide_False (P := IssKind local = "")) by done.
  destruct (decide (MaxIssueCodeBytes < len (IssKind local))); [split; [split; [done|lia]|done]|].
  destruct (decide (MaxIssueKeyBytes < len (IssKey local))); [split; [split; [done|lia]|done]|].
  destruct (decide (IssDedupeKey local = "")) as [Hd|Hd].
  { split; [split; [done|]|done]. rewrite Hd. naive_solver. }
  destruct (decide (TrimSpace (IssDedupeKey local) = "" \/ TrimSpace (IssKind local) = "" \/ nowMS < 0)) as [Hb|Hb].
  { split; [split; [done|]|done]. intros (?&?&?&?&?). destruct Hb as [?|[?|?]]; [done|done|lia]. }
  rewrite decide_False by lia.
  destruct (outbox_find outboxIssue (IssDedupeKey local) (report_outbox db)) as [row|]; cbn [is_Ok]; split.
  1,3: split; [intros _|done]; split_and!; try lia; tauto.
  - intros created db' [= <- <-]. done.
  - intros created db' [= <- <-]. split_and!; try done. intros _. by eauto.
Qed.

End recording.

Module issues_example.
Import sample.

Definition failure : LocalIssue := MkLocalIssue "core_convergence_failed" "config" "" "core:1:1" (bytes_of [67; 255; 254]%nat).

Lemma issue_never_refused_for_detail_witness :
  is_Ok (RecordIssue DefaultIssueMapper empty_db failure 5) = true.
Proof.
  apply (issue_never_refused_for_detail empty_db failure 5).
  split; [vm_compute; discriminate|]. split; [vm_compute; discriminate|]. split; [vm_compute; discriminate|].
  split; [vm_compute; discriminate|lia].
Defined.

End issues_example.
