(* ===== verification/Processor.v ===== *)
(** * The response processor ([internal/agent/processor.go])

    One response: accept its tasks, store its documents, bring the ledgers and
    the object rows in line with them, and drive the runtime.  Every store call is
    its own transaction, so an error keeps what was done before it: a computation
    here returns its result and the state it leaves, whatever the result. *)
From S2P Require Import Prelude GoStrings Sha256 Protocol Store Streams Objects Clients Listeners Outbox Tasks Deployment Catalog Documents Receive Issues.

(** ** The conformance package of the protocol module *)

Inductive Event :=
| EventAccepted | EventApplied | EventRejected | EventDependencyBlocked | EventDependencyReady | EventRetryableFailure.

Record Transition := MkTransition {
  TrEvent : Event;
  TrVersion : PVersion;
  TrAtMS : Z;
  TrIssueCode : string;
  TrBlockedOn : string
}.

Definition zeroVersion : PVersion := MkPVersion 0 0.
Definition transition (event : Event) : Transition := MkTransition event zeroVersion 0 "" "".
Definition accepted_at (version : PVersion) (atMS : Z) : Transition := MkTransition EventAccepted version atMS "" "".
Definition failed_at (atMS : Z) : Transition := MkTransition EventRetryableFailure zeroVersion atMS "" "".
Definition rejected_at (atMS : Z) (code : string) : Transition := MkTransition EventRejected zeroVersion atMS code "".
Definition blocked_at (atMS : Z) (on : string) : Transition := MkTransition EventDependencyBlocked zeroVersion atMS "" on.

Record AttachmentInput := MkAttachmentInput {
  AtClientKey : string;
  AtListenerKey : string;
  AtRosterMinConfig : PVersion;
  AtAppliedConfig : PVersion;
  AtListenerKnown : bool;
  AtListenerState : string;
  AtAheadRounds : Z;
  AtEscalateAfterRounds : Z
}.

Inductive Disposition := AttachmentReady | AttachmentUnknownListener | AttachmentBlockedByListener | AttachmentWaiting.

Record AttachmentDecision := MkAttachmentDecision { DecDisposition : Disposition; DecIssue : option Issue }.

Class Conformance := {
  AdvanceObject : ObjectStatus -> Transition -> res error ObjectStatus;
  EvaluateAttachment : AttachmentInput -> res error AttachmentDecision;
  TimeoutIssue : ObjectStatus -> Z -> Z -> res error (option Issue);
  (** [Version.String], the texts of errors, and the wire's issue codes. *)
  PVersionString : PVersion -> string;
  ErrorText : error -> string;
  IssueDirectivesAheadOfRoster : string;
  IssueDirectiveUnknownClient : string;
  IssueAttachmentUnknownListener : string;
  IssueTaskIdentityConflict : string;
  IssueTaskReplayFenced : string
}.

(** ** The runtime port ([internal/agent/runtime.go]) *)

(** A non-nil error: the code of the [RejectedError] it wraps, if any. *)
Record RuntimeError := MkRuntimeError { ReCode : option string; ReText : string }.

Definition rejectionCode (err : option RuntimeError) : option string :=
  match err with
  | Some e => match ReCode e with
              | Some code => if decide (code = "") then None else Some code
              | None => None
              end
  | None => None
  end.

(** A runtime with state [R], which may share the store.  [NewRound] is [None]
    when the runtime is not round-scoped and [Some None] when it returns a nil
    round. *)
Class Runtime (R : Type) := {
  NewRound : R -> option (option R);
  UpsertListener : R -> DB -> WListener -> option RuntimeError * R * DB;
  RemoveListener : R -> DB -> string -> option RuntimeError * R * DB;
  UpsertClient : R -> DB -> WClient -> option RuntimeError * R * DB;
  RemoveClient : R -> DB -> string -> option RuntimeError * R * DB;
  Finalize : R -> DB -> option RuntimeError * R * DB
}.

(** The calls made on it, as a trace. *)
Inductive RuntimeCall :=
| CallUpsertListener (listener : WListener)
| CallUpsertClient (client : WClient)
| CallRemoveClient (key : string)
| CallRemoveListener (key : string)
| CallFinalize.

(** ** State and computations *)

Section state.
Context {R : Type}.

Record pstate := MkPState {
  pdb : DB;
  prt : R;
  immediate : bool;
  wakes : nat;
  calls : list RuntimeCall
}.

Definition proc (A : Type) : Type := pstate -> res error A * pstate.

#[global] Instance proc_ret : MRet proc := fun A a s => (Ok a, s).

#[global] Instance proc_bind : MBind proc := fun A B f m s =>
  match m s with
  | (Ok a, s') => f a s'
  | (Err e, s') => (Err e, s')
  end.

Definition fail {A} (e : error) : proc A := fun s => (Err e, s).
Definition setImmediate (b : bool) : proc unit := fun s => (Ok tt, MkPState (pdb s) (prt s) b (wakes s) (calls s)).
Definition orImmediate (b : bool) : proc unit :=
  fun s => (Ok tt, MkPState (pdb s) (prt s) (immediate s || b) (wakes s) (calls s)).
Definition wake : proc unit := fun s => (Ok tt, MkPState (pdb s) (prt s) (immediate s) (S (wakes s)) (calls s)).
Definition setDB (d : DB) (s : pstate) : pstate := MkPState d (prt s) (immediate s) (wakes s) (calls s).

(** [return ProcessResult{}, err]. *)
Definition failReset {A} (e : error) : proc A := fun s => (Err e, MkPState (pdb s) (prt s) false (wakes s) (calls s)).

(** Store calls: a read, a write, a write with an answer. *)
Definition query {A} (f : DB -> res error A) : proc A := fun s => (f (pdb s), s).
Definition write (f : DB -> res error DB) : proc unit :=
  fun s => match f (pdb s) with Ok d => (Ok tt, setDB d s) | Err e => (Err e, s) end.
Definition writeA {A} (f : DB -> res error (A * DB)) : proc A :=
  fun s => match f (pdb s) with Ok (a, d) => (Ok a, setDB d s) | Err e => (Err e, s) end.

(** Runtime calls: their error is a value. *)
Definition runtime (call : RuntimeCall) (f : R -> DB -> option RuntimeError * R * DB) : proc (option RuntimeError) :=
  fun s => let '(err, r, d) := f (prt s) (pdb s) in
           (Ok err, MkPState d r (immediate s) (wakes s) (calls s ++ [call])).

(** A value that may be an error. *)
Definition lift {A} (m : res error A) : proc A := fun s => (m, s).

(** A loop that stops at the first error. *)
Fixpoint each {A} (f : A -> proc unit) (l : list A) : proc unit :=
  match l with
  | [] => mret tt
  | a :: l' => _ ← f a; each f l'
  end.

Fixpoint fold {A S} (f : S -> A -> proc S) (x : S) (l : list A) : proc S :=
  match l with
  | [] => mret x
  | a :: l' => x' ← f x a; fold f x' l'
  end.

End state.
Arguments pstate : clear implicits.
Arguments proc : clear implicits.

(** ** The processor *)

Definition skewRosterConfig : string := "roster_config".
Definition skewDirectivesRoster : string := "directives_roster".

Definition zeroStatus : ObjectStatus := MkObjectStatus "" "" "" zeroVersion 0 "" "".

Record SyncResponse := MkSyncResponse { RespTasks : list Task; RespSegments : SyncSegments }.

Record ProcessorOptions := MkProcessorOptions {
  SkewToleranceRounds : Z;
  ObjectIssueTimeout : Z;
  TaskWake : bool;
  TaskClock : TaskStartClock
}.

(** [present]: the three dependencies are non-nil. *)
Definition NewProcessor (present : bool) (options : ProcessorOptions) : res error ProcessorOptions :=
  if negb present then Err (Errorf "state store, runtime, and issue sink are required") else
  if decide (SkewToleranceRounds options < 1) then Err (Errorf "skew tolerance rounds must be positive") else
  if decide (ObjectIssueTimeout options ≤ 0) then Err (Errorf "object issue timeout must be positive") else
  Ok options.

Definition listenerMap (body : option ConfigBody) : gmap string WListener :=
  match body with
  | None => ∅
  | Some body => foldl (fun out listener => <[WLKey listener := listener]> out) ∅ (CfgListeners body)
  end.

Definition clientMap (body : option RosterBody) : gmap string WClient :=
  match body with
  | None => ∅
  | Some body => foldl (fun out client => <[WCKey client := client]> out) ∅ (RosClients body)
  end.

Definition sameClient (a b : WClient) : bool :=
  bool_decide (WCKey a = WCKey b /\ WCSubject a = WCSubject b /\ WCEnabled a = WCEnabled b /\
               WCExpiresAtMS a = WCExpiresAtMS b /\ WCCredentials a = WCCredentials b /\ WCListeners a = WCListeners b).

(** What the attachments of one client amount to. *)
Record Attachments := MkAttachments {
  aReady : list string;
  aUnknown : option string;
  aBlocked : option string;
  aWaiting : bool
}.

Definition withListeners (client : WClient) (keys : list string) : WClient :=
  MkWClient (WCKey client) (WCSubject client) (WCEnabled client) (WCExpiresAtMS client) (WCCredentials client) keys.

Section processor.
Context `{Protocol} `{Conformance}.
Context `{BodyCodec ConfigBody, BodyCodec RosterBody, BodyCodec DirectivesBody}.
Context (unicodeToLower : string -> string) (Load : res error (list Release)).

(** *** Helpers *)

Definition acceptObject (current : ObjectStatus) (stream key : string) (version : PVersion) (nowMS : Z) : res error ObjectStatus :=
  let current := if decide (OState current = "")
                 then MkObjectStatus stream key (OState current) (SinceVersion current) (FirstFailedAtMS current)
                        (IssueCode current) (BlockedOn current)
                 else current in
  AdvanceObject current (accepted_at version nowMS).

Definition applyRuntimeResult (status : ObjectStatus) (runtimeErr : option RuntimeError) (nowMS : Z) : res error ObjectStatus :=
  match runtimeErr with
  | None => AdvanceObject status (transition EventApplied)
  | Some _ =>
      match rejectionCode runtimeErr with
      | Some code => AdvanceObject status (rejected_at nowMS code)
      | None => AdvanceObject status (failed_at nowMS)
      end
  end.

Definition optionalObject (stream key : string) (db : DB) : res error ObjectStatus :=
  match Object db stream key with
  | Err ErrNotFound => Ok zeroStatus
  | r => r
  end.

Definition optionalStoredBody {T} `{BodyCodec T} (stream : string) (db : DB) : res error (option T) :=
  match loadStoredBody db stream with
  | Ok body => Ok (Some body)
  | Err ErrNotFound => Ok None
  | Err e => Err e
  end.

Definition optionalStreamVersion (stream : string) (db : DB) : res error PVersion :=
  match Stream db stream with
  | Ok doc => Ok (DVersion doc)
  | Err ErrNotFound => Ok zeroVersion
  | Err e => Err e
  end.

Definition responseVersion (response : SyncSegments) (stream : string) : PVersion :=
  if decide (stream = StreamConfig) then SVersion (RespConfig response) else
  if decide (stream = StreamRoster) then SVersion (RespRoster response) else
  if decide (stream = StreamDirectives) then SVersion (RespDirectives response) else zeroVersion.

(** *** One round

    [issueMS] is the issue sink's clock. *)
Section round.
Context {R : Type} `{Runtime R} (options : ProcessorOptions) (issueMS : LocalIssue -> Z) (nowMS : Z).
#[local] Notation proc := (proc R).

Definition recordIssue (issue : LocalIssue) : proc unit :=
  created ← writeA (fun db => RecordIssue DefaultIssueMapper db issue (issueMS issue));
  orImmediate created.

Definition recordTimeout (status : ObjectStatus) : proc unit :=
  issue ← lift (TimeoutIssue status nowMS (ObjectIssueTimeout options));
  match issue with
  | None => mret tt
  | Some i =>
      recordIssue (MkLocalIssue (ICode i) (OStream status) (OKey status)
        (ICode i +:+ ":" +:+ OStream status +:+ ":" +:+ OKey status +:+ ":" +:+ PVersionString (SinceVersion status)) (IDetail i))
  end.

Definition recordObjectTimeouts : proc unit :=
  objects ← query (fun db => Ok (Objects db));
  each recordTimeout objects.

(** *** Listeners *)

Definition upsertListener (old : gmap string WListener) (version : PVersion) (listener : WListener) : proc unit :=
  let key := WLKey listener in
  _ ← write (fun db => EnsureListener db key nowMS);
  current ← query (optionalObject StreamConfig key);
  status ← lift (acceptObject current StreamConfig key version nowMS);
  let unchanged := match old !! key with
                   | Some previous => bool_decide (WLConfig previous = WLConfig listener /\ OState current = ObjectApplied)
                   | None => false
                   end in
  status ← (if unchanged then lift (AdvanceObject status (transition EventApplied))
            else if decide (OState current = ObjectRejected /\ SinceVersion current = version) then mret current
            else err ← runtime (CallUpsertListener listener) (fun r db => UpsertListener r db listener);
                 lift (applyRuntimeResult status err nowMS));
  write (fun db => SaveObject db status nowMS).

Definition upsertListeners (oldBody : option ConfigBody) (body : ConfigBody) (version : PVersion) : proc unit :=
  each (upsertListener (listenerMap oldBody) version) (CfgListeners body).

(** *** Removals *)

(** One durable row that is no longer desired; the state is [localObjectKeys]. *)
Definition removeStale (stream : string) (desired : gset string) (call : string -> RuntimeCall)
    (remove : R -> DB -> string -> option RuntimeError * R * DB) (delete_ : DB -> string -> res error DB)
    (version : PVersion) (local : gset string) (key : string) : proc (gset string) :=
  let local := {[key]} ∪ local in
  if decide (key ∈ desired) then mret local else
  status ← query (optionalObject stream key);
  status ← lift (acceptObject status stream key version nowMS);
  err ← runtime (call key) (fun r db => remove r db key);
  status ← lift (applyRuntimeResult status err nowMS);
  if decide (OState status = ObjectApplied) then
    _ ← write (fun db => delete_ db key);
    mret (local ∖ {[key]})
  else
    _ ← write (fun db => SaveObject db status nowMS);
    mret local.

Definition pruneObject (stream : string) (desired local : gset string) (status : ObjectStatus) : proc unit :=
  if decide (OStream status <> stream \/ OKey status ∈ desired \/ OKey status ∈ local) then mret tt else
  write (fun db => DeleteObject db stream (OKey status)).

Definition pruneOrphanObjectStates (stream : string) (desired local : gset string) : proc unit :=
  objects ← query (fun db => Ok (Objects db));
  each (pruneObject stream desired local) objects.

Definition removeListeners (body : ConfigBody) (version : PVersion) : proc unit :=
  let desired := dom (listenerMap (Some body)) in
  listeners ← query (fun db => Ok (fst <$> Listeners db));
  local ← fold (removeStale StreamConfig desired CallRemoveListener RemoveListener DeleteListener version) ∅ listeners;
  pruneOrphanObjectStates StreamConfig desired local.

(** *** Clients *)

Definition attach (body : RosterBody) (client : WClient) (version configVersion : PVersion)
    (listeners : gmap string WListener) (states : gmap string string) (att : Attachments) (listenerKey : string) : proc Attachments :=
  let referenceKey := WCKey client +:+ "/" +:+ listenerKey in
  rounds ← (if Newer (RosMinConfigVersion body) configVersion
            then writeA (fun db => ObserveReferenceSkew db skewRosterConfig referenceKey version)
            else _ ← write (fun db => ClearReferenceSkew db skewRosterConfig referenceKey); mret 0);
  decision ← lift (EvaluateAttachment (MkAttachmentInput (WCKey client) listenerKey (RosMinConfigVersion body) configVersion
                     (bool_decide (is_Some (listeners !! listenerKey))) (default "" (states !! listenerKey)) rounds
                     (SkewToleranceRounds options)));
  _ ← match DecIssue decision with
      | None => mret tt
      | Some i => recordIssue (MkLocalIssue (ICode i) StreamRoster (WCKey client)
                    (ICode i +:+ ":" +:+ referenceKey +:+ ":" +:+ PVersionString version) (IDetail i))
      end;
  mret (match DecDisposition decision with
        | AttachmentReady => MkAttachments (aReady att ++ [listenerKey]) (aUnknown att) (aBlocked att) (aWaiting att)
        | AttachmentUnknownListener => MkAttachments (aReady att) (Some listenerKey) (aBlocked att) (aWaiting att)
        | AttachmentBlockedByListener => MkAttachments (aReady att) (aUnknown att) (Some listenerKey) (aWaiting att)
        | AttachmentWaiting => MkAttachments (aReady att) (aUnknown att) (aBlocked att) true
        end).

(** The object's next state from the attachments and the runtime's answer. *)
Definition concludeClient (status : ObjectStatus) (att : Attachments) (runtimeErr : option RuntimeError) : res error ObjectStatus :=
  match rejectionCode runtimeErr, aUnknown att, aBlocked att with
  | Some code, _, _ => AdvanceObject status (rejected_at nowMS code)
  | None, Some _, _ => AdvanceObject status (rejected_at nowMS IssueAttachmentUnknownListener)
  | None, None, Some key => AdvanceObject status (blocked_at nowMS key)
  | None, None, None =>
      if aWaiting att || bool_decide (is_Some runtimeErr) then AdvanceObject status (failed_at nowMS) else
      status ← (if decide (OState status = ObjectBlocked) then AdvanceObject status (transition EventDependencyReady) else Ok status);
      AdvanceObject status (transition EventApplied)
  end.

Definition convergeClient (old : gmap string WClient) (body : RosterBody) (version configVersion : PVersion) (configChanged : bool)
    (listeners : gmap string WListener) (states : gmap string string) (client : WClient) : proc unit :=
  let key := WCKey client in
  _ ← write (fun db => EnsureClient db (MkClientIdentity key (WCSubject client)) nowMS);
  status ← query (optionalObject StreamRoster key);
  status ← lift (acceptObject status StreamRoster key version nowMS);
  if decide (OState status = ObjectRejected /\ SinceVersion status = version) then
    write (fun db => SaveObject db status nowMS)
  else
    att ← fold (attach body client version configVersion listeners states) (MkAttachments [] None None false) (WCListeners client);
    let filtered := withListeners client (aReady att) in
    let stable := match old !! key with
                  | Some previous => sameClient previous client && negb configChanged &&
                      bool_decide (OState status = ObjectApplied /\ aUnknown att = None /\ aBlocked att = None) && negb (aWaiting att)
                  | None => false
                  end in
    err ← (if stable then mret None else runtime (CallUpsertClient filtered) (fun r db => UpsertClient r db filtered));
    status ← lift (concludeClient status att err);
    write (fun db => SaveObject db status nowMS).

(** The states of the known listeners when the roster is applied. *)
Definition listenerStates (listeners : gmap string WListener) (db : DB) : res error (gmap string string) :=
  foldl (fun acc key =>
    states ← acc;
    status ← optionalObject StreamConfig key db;
    Ok (<[key := if decide (OState status = "") then ObjectPending else OState status]> states))
    (Ok ∅) (map_to_list listeners).*1.

Definition applyRoster (oldBody : option RosterBody) (body : RosterBody) (version : PVersion) (config : option ConfigBody)
    (configVersion : PVersion) (configChanged : bool) : proc unit :=
  let listeners := listenerMap config in
  states ← query (listenerStates listeners);
  _ ← each (convergeClient (clientMap oldBody) body version configVersion configChanged listeners states) (RosClients body);
  let desired : gset string := list_to_set (WCKey <$> RosClients body) in
  clients ← query (fun db => Ok (fst <$> Clients db));
  local ← fold (removeStale StreamRoster desired CallRemoveClient RemoveClient DeleteClient version) ∅ clients;
  pruneOrphanObjectStates StreamRoster desired local.

(** *** Directives *)

Definition applyQuotaEntry (clients : gmap string WClient) (forRoster : PVersion) (quota : QuotaEntry) : proc unit :=
  match clients !! QClient quota with
  | None =>
      recordIssue (MkLocalIssue "directive_unknown_client" StreamDirectives (QClient quota)
        (IssueDirectiveUnknownClient +:+ ":" +:+ QClient quota +:+ ":" +:+ PVersionString forRoster)
        ("quota directive names client " +:+ QClient quota +:+ " absent from roster " +:+ PVersionString forRoster))
  | Some _ => write (fun db => ApplyQuota db (QClient quota) (grantOf quota) nowMS)
  end.

Definition applyDirectives (body : DirectivesBody) (rosterVersion : PVersion) (roster : option RosterBody) : proc unit :=
  if Newer (DirForRosterVersion body) rosterVersion then
    rounds ← writeA (fun db => ObserveReferenceSkew db skewDirectivesRoster StreamDirectives (DirForRosterVersion body));
    if decide (SkewToleranceRounds options < rounds) then
      recordIssue (MkLocalIssue "directives_ahead_of_roster" StreamDirectives ""
        (IssueDirectivesAheadOfRoster +:+ ":" +:+ PVersionString (DirForRosterVersion body))
        ("directives require roster " +:+ PVersionString (DirForRosterVersion body) +:+ "; agent has " +:+
         PVersionString rosterVersion +:+ " after " +:+ FormatInt rounds +:+ " rounds"))
    else mret tt
  else
    _ ← write (fun db => ClearReferenceSkew db skewDirectivesRoster StreamDirectives);
    each (applyQuotaEntry (clientMap roster) (DirForRosterVersion body)) (DirQuota body).

(** *** Tasks *)

Definition fencedIssue (task : Task) : LocalIssue :=
  MkLocalIssue IssueTaskReplayFenced "" (TID task)
    ("task-replay-fenced:" +:+ TID task +:+ ":" +:+ TInputSHA256 task +:+ ":" +:+ FormatInt (TNotAfterMS task))
    "no local task journal and fresh start authorization cannot be proven; no result was fabricated".

Definition conflictIssue (id input : string) (detail : string) : LocalIssue :=
  MkLocalIssue IssueTaskIdentityConflict "" id ("task-identity-conflict:" +:+ id +:+ ":" +:+ input) detail.

Definition acceptResponseTasks (tasks : list Task) : proc unit :=
  match tasks with
  | [] => mret tt
  | _ =>
      if negb (TaskWake options) then fail (Errorf "task worker is not configured") else
      fun s => match AcceptTasksFenced (pdb s) tasks nowMS (TaskClock options) with
      | Err e =>
          match e with
          | ErrTaskIdentityConflict id input =>
              let issue := conflictIssue id input (ErrorText e) in
              let '(_, s') := writeA (fun db => RecordIssue DefaultIssueMapper db issue (issueMS issue)) s in
              (Err e, s')
          | _ => (Err e, s)
          end
      | Ok (accepted, d) =>
          (_ ← setImmediate (ResultAvailable accepted);
           _ ← each (fun task => recordIssue (fencedIssue task)) (ReplayFenced accepted);
           if WorkAvailable accepted then wake else mret tt) (setDB d s)
      end
  end.

(** *** The round *)

Definition resetOnError {A} (m : proc A) : proc A :=
  fun s => match m s with
           | (Ok a, s') => (Ok a, s')
           | (Err e, s') => failReset e s'
           end.

Definition receive (response : SyncSegments) : proc ReceivedDocuments :=
  fun s => let '(r, d) := Receive unicodeToLower Load (pdb s) response (fun _ => nowMS) in (r, setDB d s).

Definition enterRound : proc bool :=
  fun s => match NewRound (prt s) with
           | None => (Ok false, s)
           | Some None => (Err (Errorf "round-scoped runtime returned a nil round"), s)
           | Some (Some r) => (Ok true, MkPState (pdb s) r (immediate s) (wakes s) (calls s))
           end.

Definition finalizeRound (configVersion rosterVersion : PVersion) : proc unit :=
  err ← runtime CallFinalize Finalize;
  match err with
  | None => mret tt
  | Some e => recordIssue (MkLocalIssue "core_convergence_failed" StreamConfig ""
                ("core:" +:+ PVersionString configVersion +:+ ":" +:+ PVersionString rosterVersion) (ReText e))
  end.

(** The clients of a received roster get their ledger rows. *)
Definition materialise (body : RosterBody) : proc unit :=
  each (fun client => write (fun db => EnsureClient db (MkClientIdentity (WCKey client) (WCSubject client)) nowMS)) (RosClients body).

Definition when_doc {T} (doc : option T) (version : PVersion) (f : T -> proc unit) : proc unit :=
  match doc with
  | Some body => if VZero version then mret tt else f body
  | None => mret tt
  end.

Definition converge (oldConfig : option ConfigBody) (oldRoster : option RosterBody) (received : ReceivedDocuments) : proc unit :=
  configVersion ← query (optionalStreamVersion StreamConfig);
  rosterVersion ← query (optionalStreamVersion StreamRoster);
  _ ← when_doc (DocRoster received) rosterVersion materialise;
  _ ← match DocDirectives received with
      | Some body => applyDirectives body rosterVersion (DocRoster received)
      | None => mret tt
      end;
  scoped ← enterRound;
  _ ← when_doc (DocConfig received) configVersion (fun body => upsertListeners oldConfig body configVersion);
  _ ← when_doc (DocRoster received) rosterVersion (fun body =>
        applyRoster oldRoster body rosterVersion (DocConfig received) configVersion (ConfigChanged received));
  _ ← when_doc (DocConfig received) configVersion (fun body => removeListeners body configVersion);
  _ ← (if scoped : bool then finalizeRound configVersion rosterVersion else mret tt);
  recordObjectTimeouts.

Definition Process (response : SyncResponse) : proc unit :=
  _ ← setImmediate false;
  if decide (nowMS ≤ 0) then fail (Errorf "processor clock must be after Unix epoch") else
  _ ← acceptResponseTasks (RespTasks response);
  _ ← (if bool_decide (is_Some (TaskClock options)) && TaskWake options then wake else mret tt);
  oldConfig ← resetOnError (query (optionalStoredBody StreamConfig));
  oldRoster ← resetOnError (query (optionalStoredBody StreamRoster));
  received ← resetOnError (receive (RespSegments response));
  _ ← orImmediate (NeedImmediatePoll received);
  _ ← each (fun failure => recordIssue (MkLocalIssue "segment_rejected" (FStream failure) ""
        ("segment:" +:+ FStream failure +:+ ":" +:+ PVersionString (responseVersion (RespSegments response) (FStream failure)))
        (ErrorText (FErr failure)))) (Failures received);
  converge oldConfig oldRoster received.

End round.
End processor.
