(* ===== verification/Rounds.v ===== *)
(** * Properties of the response processor

    Every computation of [processor.go] is shown to be a path of labelled steps
    (store transactions and runtime calls), with a set of labels per phase of the
    round.  What the round guarantees follows from the steps. *)
From S2P Require Import Prelude GoStrings Sha256 GoJson Protocol Store Streams Objects Clients Listeners Outbox Tasks Journal Deployment Catalog Documents Receive Issues Processor.

(** The one thing the round needs of the object state machine: a transition
    concerns the object it is given. *)
Class ConformanceLaws `{Conformance} : Prop := {
  advance_identity status t status' :
    AdvanceObject status t = Ok status' -> OStream status' = OStream status /\ OKey status' = OKey status;
  advance_applied status status' :
    AdvanceObject status (transition EventApplied) = Ok status' -> OState status' = ObjectApplied
}.

(** What a runtime promises about the store it shares: it records deployments. *)
Definition deployment_frame (db d : DB) : Prop := d = set_core_deployment (core_deployment d) db.

Class RuntimeLaws (R : Type) `{Runtime R} : Prop := {
  upsert_listener_frame r db x : deployment_frame db (UpsertListener r db x).2;
  remove_listener_frame r db x : deployment_frame db (RemoveListener r db x).2;
  upsert_client_frame r db x : deployment_frame db (UpsertClient r db x).2;
  remove_client_frame r db x : deployment_frame db (RemoveClient r db x).2;
  finalize_frame r db : deployment_frame db (Finalize r db).2
}.

(** ** Steps *)

Inductive label :=
| LQuiet | LTasks | LIssue | LStream | LSkew
| LClient (op : client_op)
| LEnsureListener (key : string)
| LDeleteListener (key : string)
| LSaveObject (stream key : string)
| LDeleteObject (stream key : string)
| LCall (call : RuntimeCall)
| LEnter.

Section rounds.
Context `{Protocol} `{Conformance}.
Context {R : Type} `{Runtime R, !RuntimeLaws R}.

(** What the runtime does on a call. *)
Definition perform (call : RuntimeCall) (r : R) (db : DB) : option RuntimeError * R * DB :=
  match call with
  | CallUpsertListener listener => UpsertListener r db listener
  | CallUpsertClient client => UpsertClient r db client
  | CallRemoveClient key => RemoveClient r db key
  | CallRemoveListener key => RemoveListener r db key
  | CallFinalize => Finalize r db
  end.

Lemma perform_frame call r db err r' d : perform call r db = (err, r', d) -> deployment_frame db d.
Proof.
  intros Hp. assert (d = (perform call r db).2) as -> by (by rewrite Hp). destruct call; simpl;
    [apply upsert_listener_frame|apply upsert_client_frame|apply remove_client_frame|apply remove_listener_frame|apply finalize_frame].
Qed.

Definition called (call : RuntimeCall) (r : R) (d : DB) (s : pstate R) : pstate R :=
  MkPState d r (immediate s) (wakes s) (calls s ++ [call]).

(** Every stored row is valid and filed under its own stream and key. *)
Definition objects_ok (db : DB) : Prop :=
  forall k status atMS, object_status db !! k = Some (status, atMS) ->
  k = (OStream status, OKey status) /\ validateObject status atMS = Ok tt.

(** The calls of [clients.go] a round makes. *)
Definition round_op (op : client_op) : Prop :=
  match op with OpEnsure _ _ | OpQuota _ _ _ | OpDelete _ => True | _ => False end.

(** A ledger row is deleted only after the runtime was asked to remove it. *)
Inductive round_step : label -> pstate R -> pstate R -> Prop :=
| st_quiet s s' : pdb s' = pdb s -> prt s' = prt s -> calls s' = calls s -> round_step LQuiet s s'
| st_tasks s tasks atMS clock acc d :
    AcceptTasksFenced (pdb s) tasks atMS clock = Ok (acc, d) -> round_step LTasks s (setDB d s)
| st_issue s dedupe issue atMS created d :
    EnqueueIssue (pdb s) dedupe issue atMS = Ok (created, d) -> round_step LIssue s (setDB d s)
| st_stream s d : stream_step (pdb s) d -> round_step LStream s (setDB d s)
| st_skew s x : round_step LSkew s (setDB (set_reference_skew x (pdb s)) s)
| st_client s op d :
    round_op op -> op_typed op -> (forall k, op = OpDelete k -> CallRemoveClient k ∈ calls s) ->
    run_op (pdb s) op = Ok d -> round_step (LClient op) s (setDB d s)
| st_ensure s key atMS d : EnsureListener (pdb s) key atMS = Ok d -> round_step (LEnsureListener key) s (setDB d s)
| st_delete s key d :
    CallRemoveListener key ∈ calls s -> DeleteListener (pdb s) key = Ok d -> round_step (LDeleteListener key) s (setDB d s)
| st_save s status atMS d :
    SaveObject (pdb s) status atMS = Ok d -> round_step (LSaveObject (OStream status) (OKey status)) s (setDB d s)
| st_prune s stream key d : DeleteObject (pdb s) stream key = Ok d -> round_step (LDeleteObject stream key) s (setDB d s)
| st_call s call err r d : perform call (prt s) (pdb s) = (err, r, d) -> round_step (LCall call) s (called call r d s)
| st_enter s r :
    NewRound (prt s) = Some (Some r) ->
    round_step LEnter s (MkPState (pdb s) r (immediate s) (wakes s) (calls s)).

Definition step_in (allowed : label -> Prop) (s s' : pstate R) : Prop := exists l, allowed l /\ round_step l s s'.

Definition path (allowed : label -> Prop) : pstate R -> pstate R -> Prop := rtc (step_in allowed).

Lemma path_mono (P Q : label -> Prop) s s' : (forall l, P l -> Q l) -> path P s s' -> path Q s s'.
Proof. intros HPQ. apply rtc_subrel. intros x y (l & Hl & Hs). exists l. auto. Qed.

Lemma path_step (allowed : label -> Prop) l s s' : allowed l -> round_step l s s' -> path allowed s s'.
Proof. intros Hl Hs. apply rtc_once. by exists l. Qed.

(** What holds of both ends of a path if each step keeps it. *)
Lemma path_inv (allowed : label -> Prop) (I : pstate R -> Prop) s s' :
  (forall l x y, allowed l -> round_step l x y -> I x -> I y) -> path allowed s s' -> I s -> I s'.
Proof. intros Hstep Hp. induction Hp as [|x y z (l & Hl & Hs) _ IH]; [done|]. eauto. Qed.

(** *** Object rows along a path *)

Lemma objects_ok_insert db status atMS :
  validateObject status atMS = Ok tt -> objects_ok db ->
  objects_ok (set_object_status (<[(OStream status, OKey status) := (status, atMS)]> (object_status db)) db).
Proof. intros Hv Ho k st at_ms. simpl. intros [[<- [= <- <-]]|[_ Hk]]%lookup_insert_Some; [done|by apply Ho]. Qed.

Lemma objects_ok_delete db db' k : object_status db' = delete k (object_status db) -> objects_ok db -> objects_ok db'.
Proof. intros Heq Ho k' st at_ms. rewrite Heq. intros [_ Hk]%lookup_delete_Some. by apply Ho. Qed.

Lemma objects_ok_same db db' : object_status db' = object_status db -> objects_ok db -> objects_ok db'.
Proof. intros Heq Ho k st at_ms. rewrite Heq. apply Ho. Qed.

Lemma SaveObject_Ok db status atMS d :
  SaveObject db status atMS = Ok d ->
  validateObject status atMS = Ok tt /\
  d = set_object_status (<[(OStream status, OKey status) := (status, atMS)]> (object_status db)) db.
Proof. unfold SaveObject. intros ([] & Hv & [= <-])%bind_Ok. done. Qed.

Lemma DeleteObject_Ok db stream key d :
  DeleteObject db stream key = Ok d -> d = set_object_status (delete (stream, key) (object_status db)) db.
Proof. unfold DeleteObject. intros (? & _ & Hd)%bind_Ok. case_decide; [done|]. by injection Hd as <-. Qed.

Lemma DeleteClient_Ok db key d :
  DeleteClient db key = Ok d ->
  d = set_client_runtime (delete key (client_runtime db)) (set_object_status (delete (StreamRoster, key) (object_status db)) db).
Proof. unfold DeleteClient. case_decide; [done|]. by intros [= <-]. Qed.

Lemma DeleteListener_Ok db key d :
  DeleteListener db key = Ok d ->
  d = set_listener_runtime (delete key (listener_runtime db)) (set_object_status (delete (StreamConfig, key) (object_status db)) db).
Proof. unfold DeleteListener. case_decide; [done|]. by intros [= <-]. Qed.

Lemma EnsureListener_Ok db key atMS d :
  EnsureListener db key atMS = Ok d ->
  (is_Some (listener_runtime db !! key) /\ d = db) \/
  (listener_runtime db !! key = None /\ d = set_listener_runtime (<[key := freshListener atMS]> (listener_runtime db)) db).
Proof.
  unfold EnsureListener. case_decide; [done|]. destruct (listener_runtime db !! key) eqn:Hl; [intros [= <-]; left; eauto|].
  unfold put_listener. destruct (listener_check _); [|done]. intros [= <-]. by right.
Qed.

(** *** Which tables a step leaves alone *)

(** Acceptance and issues write the journal and the outbox only. *)
Definition journal_frame (db d : DB) : Prop :=
  d = set_task_executions (task_executions d) (set_report_outbox (report_outbox d) (set_outbox_seq (outbox_seq d) db)).

Lemma journal_frame_refl db : journal_frame db db.
Proof. by destruct db. Qed.

Lemma journal_frame_trans a b c : journal_frame a b -> journal_frame b c -> journal_frame a c.
Proof. unfold journal_frame. destruct a, b, c. simpl. intros [=] [=]. by subst. Qed.

Lemma outbox_insert_frame kind dedupe payload atMS db : journal_frame db (outbox_insert kind dedupe payload atMS db).
Proof. by destruct db. Qed.

Lemma rearm_frame db t atMS d : rearmTaskResult db t atMS = Ok d -> journal_frame db d.
Proof.
  unfold rearmTaskResult, putImmutableTaskResult. intros (d1 & Hp & [= <-])%bind_Ok.
  destruct (outbox_find _ _ _) as [row|]; [case_decide; [done|]|]; injection Hp as <-; by destruct db.
Qed.

Lemma put_task_frame t db d : put_task t db = Ok d -> journal_frame db d.
Proof. unfold put_task. destruct (task_check t); [|done]. intros [= <-]. by destruct db. Qed.

Lemma acceptOne_frame clock atMS acc db n task acc' d n' :
  acceptOne clock atMS (acc, db, n) task = Ok (acc', d, n') -> journal_frame db d.
Proof.
  unfold acceptOne. destruct (task_executions db !! TID task) as [t|].
  - case_decide; [done|]. destruct (Terminal _); [|intros [= _ <- _]; apply journal_frame_refl].
    intros (d1 & Hr & [= _ <- _])%bind_Ok. by eapply rearm_frame.
  - repeat case_match; intros Ha; try (apply bind_Ok in Ha as (d1 & Hp & [= _ <- _]); by eapply put_task_frame);
      injection Ha as _ <- _; apply journal_frame_refl.
Qed.

Lemma AcceptTasksFenced_frame db tasks atMS clock acc d :
  AcceptTasksFenced db tasks atMS clock = Ok (acc, d) -> journal_frame db d.
Proof.
  unfold AcceptTasksFenced. case_decide; [done|]. destruct (ValidateTasks tasks); [|done]. cbn [negb].
  intros ([[acc1 d1] n1] & Hl & [= _ <-])%bind_Ok.
  assert (forall x y, res_foldl (acceptOne clock atMS) x tasks = Ok y -> journal_frame x.1.2 y.1.2) as Hf.
  { clear. induction tasks as [|task tasks IH]; intros [[a x] n] y; simpl res_foldl.
    - intros [= <-]. apply journal_frame_refl.
    - intros ([[a1 x1] n1] & H1 & Hl)%bind_Ok. apply acceptOne_frame in H1. apply IH in Hl.
      by eapply journal_frame_trans. }
  apply (Hf _ _ Hl).
Qed.

Lemma EnqueueIssue_frame db dedupe issue atMS created d :
  EnqueueIssue db dedupe issue atMS = Ok (created, d) -> journal_frame db d.
Proof.
  unfold EnqueueIssue, enqueue. case_decide; [done|]. case_decide; [done|].
  destruct (outbox_find _ _ _); intros [= <- <-]; [apply journal_frame_refl|apply outbox_insert_frame].
Qed.

Lemma run_op_frame db op d :
  round_op op -> run_op db op = Ok d ->
  d = set_client_runtime (client_runtime d) (set_object_status (object_status d) db) /\
  object_status d = match op with OpDelete k => delete (StreamRoster, k) (object_status db) | _ => object_status db end.
Proof.
  destruct op; try done; intros _; simpl.
  - intros (_ & _ & [[_ ->]|(c & _ & _ & ->)])%EnsureClient_Ok; by destruct db.
  - intros (c & _ & [[_ ->]|(gate & _ & _ & _ & ->)])%ApplyQuota_Ok; by destruct db.
  - intros ->%DeleteClient_Ok. by destruct db.
Qed.

Lemma stream_step_frame db d : stream_step db d -> d = set_stream_documents (stream_documents d) db.
Proof.
  intros [? doc ? (_ & [(? & _ & -> & _)|[-> _]])%SaveStream_Ok|? stream epoch ? (_ & [[_ ->]|(? & _ & _ & ->)])%ClearStream_Ok];
    by destruct db0.
Qed.

(** The core's counters and traffic are not the round's. *)
Definition core_same (db d : DB) : Prop :=
  core_counter_epoch d = core_counter_epoch db /\ core_traffic_stream d = core_traffic_stream db /\ core_connection_traffic d = core_connection_traffic db /\
  core_client_traffic d = core_client_traffic db /\ core_listener_traffic d = core_listener_traffic db.

(** Every step in one normal form: the tables it may write, by label. *)
Lemma step_frame l s s' :
  round_step l s s' ->
  core_same (pdb s) (pdb s') /\
  (l <> LStream -> stream_documents (pdb s') = stream_documents (pdb s)) /\
  (l <> LTasks -> l <> LIssue -> task_executions (pdb s') = task_executions (pdb s) /\
     report_outbox (pdb s') = report_outbox (pdb s) /\ outbox_seq (pdb s') = outbox_seq (pdb s)) /\
  ((forall op, l <> LClient op) -> client_runtime (pdb s') = client_runtime (pdb s)) /\
  ((forall k, l <> LEnsureListener k) -> (forall k, l <> LDeleteListener k) -> listener_runtime (pdb s') = listener_runtime (pdb s)) /\
  (forall stream k, l <> LSaveObject stream k -> l <> LDeleteObject stream k ->
     ~ (stream = StreamRoster /\ l = LClient (OpDelete k)) -> ~ (stream = StreamConfig /\ l = LDeleteListener k) ->
     object_status (pdb s') !! (stream, k) = object_status (pdb s) !! (stream, k)) /\
  calls s' = calls s ++ match l with LCall c => [c] | _ => [] end /\
  match l with LCall _ | LEnter => True | _ => prt s' = prt s end.
Proof.
  unfold core_same. intros Hs.
  destruct Hs as [s s' Hd Hp Hc|s tasks atMS clock acc d Ha%AcceptTasksFenced_frame|s dedupe issue atMS created d Ha%EnqueueIssue_frame
    |s d Hd%stream_step_frame|s x|s op d Hop _ _ Hd|s key atMS d Hd%EnsureListener_Ok|s key d _ Hd%DeleteListener_Ok
    |s status atMS d [_ Hd]%SaveObject_Ok|s stream key d Hd%DeleteObject_Ok|s call err r d Hd%perform_frame|s r Hr]; simpl; rewrite ?app_nil_r.
  - rewrite Hd. naive_solver.
  - rewrite Ha. simpl. naive_solver.
  - rewrite Ha. simpl. naive_solver.
  - rewrite Hd. simpl. naive_solver.
  - naive_solver.
  - destruct (run_op_frame _ _ _ Hop Hd) as [Hf Hobj]. rewrite Hf. simpl. rewrite Hobj. split_and!; try done.
    + naive_solver.
    + intros stream k _ _ Hn _. destruct op; try done. rewrite lookup_delete_ne; [done|]. naive_solver.
  - destruct Hd as [[_ ->]|[_ ->]]; simpl; naive_solver.
  - rewrite Hd. simpl. split_and!; try done; [naive_solver|].
    intros stream k _ _ _ Hn. rewrite lookup_delete_ne; [done|]. naive_solver.
  - rewrite Hd. simpl. split_and!; try done. intros stream k Hn _ _ _. rewrite lookup_insert_ne; [done|]. naive_solver.
  - rewrite Hd. simpl. split_and!; try done. intros stream' k _ Hn _ _. rewrite lookup_delete_ne; [done|]. naive_solver.
  - rewrite Hd. simpl. naive_solver.
  - naive_solver.
Qed.

(** Only the runtime records deployments. *)
Lemma step_deployment l s s' : round_step l s s' -> (forall c, l <> LCall c) -> core_deployment (pdb s') = core_deployment (pdb s).
Proof.
  intros Hs Hn. destruct Hs as [s s' Hd Hp Hc|s tasks atMS clock acc d Ha%AcceptTasksFenced_frame
    |s dedupe issue atMS created d Ha%EnqueueIssue_frame|s d Hd%stream_step_frame|s x|s op d Hop _ _ Hd|s key atMS d Hd%EnsureListener_Ok
    |s key d _ Hd%DeleteListener_Ok|s status atMS d [_ Hd]%SaveObject_Ok|s stream key d Hd%DeleteObject_Ok|s call err r d Hd|s r Hr]; simpl.
  - by rewrite Hd.
  - by rewrite Ha.
  - by rewrite Ha.
  - by rewrite Hd.
  - done.
  - destruct (run_op_frame _ _ _ Hop Hd) as [Hf _]. by rewrite Hf.
  - by destruct Hd as [[_ ->]|[_ ->]].
  - by rewrite Hd.
  - by rewrite Hd.
  - by rewrite Hd.
  - by destruct (Hn call).
  - done.
Qed.

Lemma step_objects_ok l s s' : round_step l s s' -> objects_ok (pdb s) -> objects_ok (pdb s').
Proof.
  intros Hs Ho. destruct Hs as [s s' Hd Hp Hc|s tasks atMS clock acc d Ha%AcceptTasksFenced_frame
    |s dedupe issue atMS created d Ha%EnqueueIssue_frame|s d Hd%stream_step_frame|s x|s op d Hop _ _ Hd|s key atMS d Hd%EnsureListener_Ok
    |s key d _ Hd%DeleteListener_Ok|s status atMS d [Hv Hd]%SaveObject_Ok|s stream key d Hd%DeleteObject_Ok|s call err r d Hd%perform_frame|s r Hr]; simpl.
  - by rewrite Hd.
  - rewrite Ha. by eapply objects_ok_same; [|exact Ho].
  - rewrite Ha. by eapply objects_ok_same; [|exact Ho].
  - rewrite Hd. by eapply objects_ok_same; [|exact Ho].
  - by eapply objects_ok_same; [|exact Ho].
  - destruct (run_op_frame _ _ _ Hop Hd) as [_ Hobj].
    destruct op; (by eapply objects_ok_same) || (by eapply objects_ok_delete).
  - destruct Hd as [[_ ->]|[_ ->]]; [done|]. by eapply objects_ok_same; [|exact Ho].
  - rewrite Hd. by eapply (objects_ok_delete (pdb s)).
  - rewrite Hd. by apply objects_ok_insert.
  - rewrite Hd. by eapply (objects_ok_delete (pdb s)).
  - rewrite Hd. by eapply objects_ok_same; [|exact Ho].
  - done.
Qed.

Lemma path_objects_ok allowed s s' : path allowed s s' -> objects_ok (pdb s) -> objects_ok (pdb s').
Proof. intros Hp. apply (path_inv allowed (fun s => objects_ok (pdb s)) s s'); [|done]. intros l x y _. apply step_objects_ok. Qed.

(** ** Computations as paths

    From a store with well-filed object rows a computation takes steps of the
    given labels, whatever its result, and a value it returns satisfies [Q]. *)
Definition runs (allowed : label -> Prop) {A} (Q : A -> Prop) (m : proc R A) : Prop :=
  forall s, objects_ok (pdb s) -> path allowed s (m s).2 /\ forall a, (m s).1 = Ok a -> Q a.

Definition anything {A} (a : A) : Prop := True.

Section rules.
Context (allowed : label -> Prop).

Lemma runs_mono {A} (P : label -> Prop) (Q Q' : A -> Prop) m :
  (forall l, P l -> allowed l) -> (forall a, Q a -> Q' a) -> runs P Q m -> runs allowed Q' m.
Proof. intros HP HQ Hm s Ho. destruct (Hm s Ho) as [Hp Ha]. split; [by eapply path_mono|]. eauto. Qed.

Lemma runs_ret {A} (Q : A -> Prop) a : Q a -> runs allowed Q (mret a).
Proof. intros HQ s _. split; [apply rtc_refl|]. simpl. by intros b [= <-]. Qed.

Lemma runs_bind {A B} (Q : A -> Prop) (Q' : B -> Prop) (m : proc R A) f :
  runs allowed Q m -> (forall a, Q a -> runs allowed Q' (f a)) -> runs allowed Q' (m ≫= f).
Proof.
  intros Hm Hf s Ho. destruct (Hm s Ho) as [Hp Ha]. unfold mbind, proc_bind. destruct (m s) as [[a|e] s1]; [|done].
  destruct (Hf a (Ha a eq_refl) s1) as [Hp' Hb]; [by eapply path_objects_ok|]. split; [by etrans|done].
Qed.

Lemma runs_seq {A B} (Q' : B -> Prop) (m : proc R A) (m' : proc R B) :
  runs allowed anything m -> runs allowed Q' m' -> runs allowed Q' (m ≫= fun _ => m').
Proof. intros Hm Hm'. by eapply runs_bind; [exact Hm|]. Qed.

Lemma runs_query {A} (Q : A -> Prop) (f : DB -> res error A) :
  (forall db a, objects_ok db -> f db = Ok a -> Q a) -> runs allowed Q (query f).
Proof. intros HQ s Ho. split; [apply rtc_refl|]. simpl. eauto. Qed.

Lemma runs_lift {A} (Q : A -> Prop) (m : res error A) : (forall a, m = Ok a -> Q a) -> runs allowed Q (lift m).
Proof. intros HQ s Ho. split; [apply rtc_refl|done]. Qed.

Lemma runs_fail {A} (Q : A -> Prop) e : runs allowed Q (fail e).
Proof. intros s _. split; [apply rtc_refl|done]. Qed.

(** A transaction of one label. *)
Lemma runs_writeA {A} (Q : A -> Prop) l (f : DB -> res error (A * DB)) :
  allowed l -> (forall s a d, f (pdb s) = Ok (a, d) -> round_step l s (setDB d s)) ->
  (forall db a d, f db = Ok (a, d) -> Q a) -> runs allowed Q (writeA f).
Proof.
  intros Hl Hf HQ s _. unfold writeA. destruct (f (pdb s)) as [[a d]|e] eqn:Hd; simpl.
  - split; [by eapply path_step; [|apply (Hf s a)]|]. intros b [= <-]. eauto.
  - split; [apply rtc_refl|done].
Qed.

Lemma runs_write l (f : DB -> res error DB) :
  allowed l -> (forall s d, f (pdb s) = Ok d -> round_step l s (setDB d s)) -> runs allowed anything (write f).
Proof.
  intros Hl Hf s _. unfold write. destruct (f (pdb s)) as [d|e] eqn:Hd; simpl; (split; [|done]);
    [by eapply path_step; [|apply (Hf s)]|apply rtc_refl].
Qed.

Lemma runs_runtime call f :
  allowed (LCall call) -> (forall r db, f r db = perform call r db) -> runs allowed anything (runtime call f).
Proof.
  intros Hl Hf s _. unfold runtime. specialize (Hf (prt s) (pdb s)). destruct (f (prt s) (pdb s)) as [[err r] d]. split; [|done].
  eapply path_step; [exact Hl|]. by eapply st_call.
Qed.

Lemma runs_quiet {A} (Q : A -> Prop) a (g : pstate R -> pstate R) :
  allowed LQuiet -> Q a -> (forall s, pdb (g s) = pdb s /\ prt (g s) = prt s /\ calls (g s) = calls s) -> runs allowed Q (fun s => (Ok a, g s)).
Proof.
  intros Hl HQ Hg s _. destruct (Hg s) as (Hd & Hr & Hc). split; [by eapply path_step; [|apply st_quiet]|]. simpl. by intros b [= <-].
Qed.

Lemma runs_each {A} (f : A -> proc R unit) l :
  (forall a, a ∈ l -> runs allowed anything (f a)) -> runs allowed anything (each f l).
Proof.
  induction l as [|a l IH]; intros Hf; cbn [each]; [by apply runs_ret|].
  apply runs_seq; [apply Hf; by left|]. apply IH. intros b Hb. apply Hf. by right.
Qed.

(** A loop with a state: the invariant speaks of the items consumed. *)
Lemma runs_fold {A S} (I : list A -> S -> Prop) (f : S -> A -> proc R S) l x :
  I [] x -> (forall seen x a, I seen x -> a ∈ l -> runs allowed (I (seen ++ [a])) (f x a)) -> runs allowed (I l) (fold f x l).
Proof.
  intros HI Hf. cut (forall l' seen x, (forall a, a ∈ l' -> a ∈ l) -> I seen x -> runs allowed (I (seen ++ l')) (fold f x l')).
  { intros Hgen. by apply (Hgen l []). }
  clear x HI. induction l' as [|a l' IH]; intros seen x Hl HI; cbn [fold].
  - rewrite app_nil_r. by apply runs_ret.
  - eapply runs_bind; [apply Hf; [exact HI|apply Hl; by left]|]. intros x' HI'.
    replace (seen ++ a :: l') with ((seen ++ [a]) ++ l') by by rewrite <-app_assoc.
    apply IH; [|done]. intros b Hb. apply Hl. by right.
Qed.

(** With a property of the state a successful run ends in. *)
Definition runs_then {A} (F : pstate R -> Prop) (m : proc R A) : Prop :=
  forall s, objects_ok (pdb s) -> path allowed s (m s).2 /\ forall a, (m s).1 = Ok a -> F (m s).2.

Lemma runs_then_runs {A} F (m : proc R A) : runs_then F m -> runs allowed anything m.
Proof. intros Hm s Ho. by destruct (Hm s Ho). Qed.

Lemma runs_then_bind {A B} (Q : A -> Prop) F (m : proc R A) (f : A -> proc R B) :
  runs allowed Q m -> (forall a, Q a -> runs_then F (f a)) -> runs_then F (m ≫= f).
Proof.
  intros Hm Hf s Ho. destruct (Hm s Ho) as [Hp Ha]. unfold mbind, proc_bind. destruct (m s) as [[a|e] s1]; [|done].
  destruct (Hf a (Ha a eq_refl) s1) as [Hp' Hb]; [by eapply path_objects_ok|]. split; [by etrans|done].
Qed.

(** What the first part establishes the second keeps. *)
Lemma runs_then_seq {A B} (F G : pstate R -> Prop) (m : proc R A) (m' : proc R B) :
  runs_then G m -> (forall s s', path allowed s s' -> G s -> G s') -> runs_then F m' ->
  runs_then (fun s => G s /\ F s) (m ≫= fun _ => m').
Proof.
  intros Hm Hkeep Hm' s Ho. destruct (Hm s Ho) as [Hp Ha]. unfold mbind, proc_bind. destruct (m s) as [[a|e] s1]; [|done].
  destruct (Hm' s1) as [Hp' Hb]; [by eapply path_objects_ok|]. split; [by etrans|]. intros b Hok. split; [|by eapply Hb].
  eapply Hkeep; [exact Hp'|]. by apply (Ha a).
Qed.

Lemma runs_then_each {A} (G : A -> pstate R -> Prop) (f : A -> proc R unit) l :
  (forall a, a ∈ l -> runs_then (G a) (f a)) -> (forall a s s', path allowed s s' -> G a s -> G a s') ->
  runs_then (fun s => forall a, a ∈ l -> G a s) (each f l).
Proof.
  intros Hf Hkeep. induction l as [|a l IH]; cbn [each].
  - intros s _. split; [apply rtc_refl|]. intros _ _ a Ha. by apply not_elem_of_nil in Ha.
  - intros s Ho. eapply (runs_then_seq (fun s => forall b, b ∈ l -> G b s) (G a)) in Ho as [Hp Hok].
    + split; [exact Hp|]. intros u Hu. destruct (Hok u Hu) as [Ha Hl]. intros b [->|Hb]%elem_of_cons; [done|by apply Hl].
    + apply Hf. by left.
    + intros x y. apply Hkeep.
    + apply IH. intros b Hb. apply Hf. by right.
Qed.

End rules.

(** ** The round, phase by phase *)

Context `{!ConformanceLaws}.
Context `{BodyCodec ConfigBody, BodyCodec RosterBody, BodyCodec DirectivesBody}.
Context (unicodeToLower : string -> string) (Load : res error (list Release)).
Context (options : ProcessorOptions) (issueMS : LocalIssue -> Z) (nowMS : Z).

(** *** Objects keep their identity *)

Definition about (stream key : string) (status : ObjectStatus) : Prop := OStream status = stream /\ OKey status = key.

(** The row of an object, or none. *)
Definition row_of (stream key : string) (status : ObjectStatus) : Prop := status = zeroStatus \/ about stream key status.

Lemma optionalObject_row db stream key status : objects_ok db -> optionalObject stream key db = Ok status -> row_of stream key status.
Proof.
  unfold optionalObject, Object. intros Ho. destruct (validateStream stream); cbn [mbind res_bind]; [|destruct e; intros [= <-]; by left].
  destruct (object_status db !! (stream, key)) as [[st at_ms]|] eqn:Hr; intros [= <-]; [|by left].
  right. destruct (Ho _ _ _ Hr) as [[= -> ->] _]. done.
Qed.

Lemma acceptObject_about stream key version current status :
  row_of stream key current -> acceptObject current stream key version nowMS = Ok status -> about stream key status.
Proof.
  unfold acceptObject. intros Hrow Ha. apply advance_identity in Ha as [Hs Hk]. unfold about. rewrite Hs, Hk. case_decide; [done|]. by destruct Hrow as [->|?].
Qed.

Lemma advance_about stream key status t status' :
  about stream key status -> AdvanceObject status t = Ok status' -> about stream key status'.
Proof. intros [<- <-] Ha%advance_identity. done. Qed.

Lemma applyRuntimeResult_about stream key status err status' :
  about stream key status -> applyRuntimeResult status err nowMS = Ok status' -> about stream key status'.
Proof.
  unfold applyRuntimeResult. intros Hab. destruct err; [|by apply advance_about]. destruct (rejectionCode _); by apply advance_about.
Qed.

Lemma concludeClient_about stream key status att err status' :
  about stream key status -> concludeClient nowMS status att err = Ok status' -> about stream key status'.
Proof.
  unfold concludeClient. intros Hab. destruct (rejectionCode err); [by apply advance_about|].
  destruct (aUnknown att); [by apply advance_about|]. destruct (aBlocked att); [by apply advance_about|].
  destruct (_ || _); [by apply advance_about|]. intros (st & Hs & Ha)%bind_Ok. eapply advance_about; [|exact Ha].
  case_decide; [by eapply advance_about|]. by injection Hs as <-.
Qed.

(** The rows of a path that deletes none of them. *)
Definition keeps_object (stream key : string) (l : label) : Prop :=
  l <> LDeleteObject stream key /\ ~ (stream = StreamRoster /\ l = LClient (OpDelete key)) /\
  ~ (stream = StreamConfig /\ l = LDeleteListener key).

Definition has_object (stream key : string) (s : pstate R) : Prop := is_Some (object_status (pdb s) !! (stream, key)).
Definition has_client (key : string) (s : pstate R) : Prop := is_Some (client_runtime (pdb s) !! key).
Definition has_listener (key : string) (s : pstate R) : Prop := is_Some (listener_runtime (pdb s) !! key).

Lemma path_has_object (allowed : label -> Prop) stream key s s' :
  (forall l, allowed l -> keeps_object stream key l) -> path allowed s s' -> has_object stream key s -> has_object stream key s'.
Proof.
  intros Hkeep. apply path_inv. intros l x y Hl Hs [row Hrow]. destruct (Hkeep l Hl) as (Hn1 & Hn2 & Hn3). unfold has_object.
  assert (l = LSaveObject stream key \/ l <> LSaveObject stream key) as [->|Hne].
  { destruct l as [| | | | | | | |st k| | |]; try (by right). destruct (decide (st = stream /\ k = key)) as [[-> ->]|Hn]; [by left|].
    right. naive_solver. }
  - inversion Hs as [| | | | | | | |s0 status atMS d Hd| | |]; subst. apply SaveObject_Ok in Hd as [_ ->]. simpl.
    rewrite lookup_insert_eq. eauto.
  - destruct (step_frame _ _ _ Hs) as (_ & _ & _ & _ & _ & Hobj & _). rewrite Hobj by done. eauto.
Qed.

(** A client that no step deletes keeps its subject, and its counters move on. *)
Lemma step_client l key s s' c :
  round_step l s s' -> l <> LClient (OpDelete key) -> client_runtime (pdb s) !! key = Some c ->
  exists c', client_runtime (pdb s') !! key = Some c' /\ Subject c' = Subject c /\ counters_forward c c'.
Proof.
  intros Hs Hn Hc.
  assert ((exists op, l = LClient op) \/ forall op, l <> LClient op) as [[op ->]|Hne] by (destruct l; naive_solver).
  - inversion Hs as [| | | | |s0 op' d Hop Ht _ Hd| | | | | |]; subst. apply run_op_keys with (k := key) in Hd; [|done].
    eapply key_steps_keep in Hd as (c' & Hc' & Hsub & Hf & _); [by eauto|naive_solver|done].
  - destruct (step_frame _ _ _ Hs) as (_ & _ & _ & Hcl & _). rewrite Hcl by done. exists c. split_and!; [done|done|right; lia].
Qed.

Lemma path_has_client (allowed : label -> Prop) key s s' :
  (forall l, allowed l -> l <> LClient (OpDelete key)) -> path allowed s s' -> has_client key s -> has_client key s'.
Proof.
  intros Hkeep. apply path_inv. intros l x y Hl Hs [c Hc].
  destruct (step_client _ _ _ _ _ Hs (Hkeep l Hl) Hc) as (c' & Hc' & _). by exists c'.
Qed.

Lemma path_has_listener (allowed : label -> Prop) key s s' :
  (forall l, allowed l -> l <> LDeleteListener key) -> path allowed s s' -> has_listener key s -> has_listener key s'.
Proof.
  intros Hkeep. apply path_inv. intros l x y Hl Hs [c Hc]. pose proof (Hkeep l Hl) as Hn. unfold has_listener.
  assert ((exists k, l = LEnsureListener k) \/ (exists k, l = LDeleteListener k) \/
    ((forall k, l <> LEnsureListener k) /\ forall k, l <> LDeleteListener k)) as [[k ->]|[[k ->]|[Hn1 Hn2]]] by (destruct l; naive_solver).
  - inversion Hs as [| | | | | |s0 k' at_ms d Hd| | | | |]; subst. apply EnsureListener_Ok in Hd as [[_ ->]|[Hnone ->]]; simpl; [eauto|].
    rewrite lookup_insert_ne by congruence. eauto.
  - inversion Hs as [| | | | | | |s0 k' d _ Hd| | | |]; subst. apply DeleteListener_Ok in Hd as ->. simpl.
    rewrite lookup_delete_ne by congruence. eauto.
  - destruct (step_frame _ _ _ Hs) as (_ & _ & _ & _ & Hls & _). rewrite Hls by done. eauto.
Qed.

Lemma save_then (allowed : label -> Prop) stream key status :
  about stream key status -> allowed (LSaveObject stream key) ->
  runs_then allowed (has_object stream key) (write (fun db => SaveObject db status nowMS)).
Proof.
  intros [<- <-] Hl s Ho. unfold write. destruct (SaveObject _ _ _) as [d|e] eqn:Hd; simpl; [|split; [apply rtc_refl|done]].
  split; [by eapply path_step; [|by eapply st_save]|]. intros _ _. apply SaveObject_Ok in Hd as [_ ->].
  unfold has_object. simpl. rewrite lookup_insert_eq. eauto.
Qed.

(** *** Issues and tasks *)

Definition allow_issue (l : label) : Prop := match l with LQuiet | LIssue => True | _ => False end.

Lemma recordIssue_runs (allowed : label -> Prop) issue :
  allowed LQuiet -> allowed LIssue -> runs allowed anything (recordIssue issueMS issue).
Proof.
  intros Hq Hi. unfold recordIssue. eapply runs_bind; [|intros created _; by apply runs_quiet].
  eapply runs_writeA with (Q := anything); [exact Hi| |done]. intros s a d Hr. unfold RecordIssue in Hr.
  apply bind_Ok in Hr as (i & _ & Hr). repeat (case_decide; [done|]). by eapply st_issue.
Qed.

Lemma recordObjectTimeouts_runs : runs allow_issue anything (recordObjectTimeouts options issueMS nowMS).
Proof.
  unfold recordObjectTimeouts. eapply runs_bind with (Q := anything); [by apply runs_query|]. intros objects _.
  apply runs_each. intros status _. unfold recordTimeout. eapply runs_bind with (Q := anything); [by apply runs_lift|].
  intros [i|] _; [|by apply runs_ret]. by apply recordIssue_runs.
Qed.

Definition allow_tasks (l : label) : Prop := match l with LQuiet | LIssue | LTasks => True | _ => False end.

Lemma acceptResponseTasks_runs tasks : runs allow_tasks anything (acceptResponseTasks options issueMS nowMS tasks).
Proof.
  unfold acceptResponseTasks. destruct tasks as [|task tasks]; [by apply runs_ret|].
  destruct (TaskWake options); cbn [negb]; [|apply runs_fail]. intros s Ho.
  destruct (AcceptTasksFenced _ _ _ _) as [[accepted d]|e] eqn:Ha.
  - assert (path allow_tasks s (setDB d s)) as Hp by (by eapply path_step; [|by eapply st_tasks]).
    match goal with |- path _ _ (?m (setDB d s)).2 /\ _ => assert (runs allow_tasks anything m) as Hm end.
    { apply runs_seq; [by apply runs_quiet|]. apply runs_seq.
      - apply runs_each. intros t _. by apply recordIssue_runs.
      - destruct (WorkAvailable accepted); [by apply runs_quiet|by apply runs_ret]. }
    destruct (Hm (setDB d s)) as [Hp' _]; [by eapply path_objects_ok|]. split; [by etrans|done].
  - destruct e; try (split; [apply rtc_refl|done]).
    match goal with |- context [writeA ?f s] => destruct (writeA f s) as [r s'] eqn:Hw end. split; [|done].
    unfold writeA in Hw. destruct (RecordIssue _ _ _ _) as [[created d]|e'] eqn:Hr; injection Hw as <- <-; [|apply rtc_refl].
    unfold RecordIssue in Hr. apply bind_Ok in Hr as (i & _ & Hr). repeat (case_decide; [done|]).
    by eapply path_step; [|by eapply st_issue].
Qed.

(** *** Documents *)

Definition allow_receive (l : label) : Prop := l = LStream.

Lemma stream_path s d : rtc stream_step (pdb s) d -> path allow_receive s (setDB d s).
Proof.
  intros Hs. remember (pdb s) as d0 eqn:Hd0. revert s Hd0.
  induction Hs as [d|d d1 d2 Hs _ IH]; intros s ->; [destruct s; apply rtc_refl|].
  etrans; [eapply path_step; [|by apply st_stream]; done|]. by apply (IH (setDB d1 s)).
Qed.

Lemma receiveSegment_path {T} `{BodyCodec T} db stream seg atMS validate r d :
  receiveSegment (T := T) db stream seg atMS validate = Ok (r, d) -> rtc stream_step db d.
Proof. intros Ho. by eapply outcome_steps, receiveSegment_outcome. Qed.

Lemma Receive_path db response now : rtc stream_step db (Receive unicodeToLower Load db response now).2.
Proof.
  unfold Receive. destruct (receiveConfig _ _ _ _ _) as [[c d1]|e] eqn:Hc; [|apply rtc_refl]. apply receiveSegment_path in Hc.
  destruct (receiveRoster _ _ _) as [[r d2]|e] eqn:Hr; [|done]. apply receiveSegment_path in Hr.
  destruct (receiveDirectives _ _ _) as [[d d3]|e] eqn:Hd; [|by etrans]. apply receiveSegment_path in Hd.
  simpl. etrans; [exact Hc|]. by etrans.
Qed.

Lemma receive_runs response : runs allow_receive anything (receive unicodeToLower Load nowMS response (R := R)).
Proof.
  intros s _. unfold receive. pose proof (Receive_path (pdb s) response (fun _ => nowMS)) as Hp.
  destruct (Receive _ _ _ _ _) as [r d]. split; [|done]. by apply stream_path.
Qed.

(** *** Ledger rows and directives *)

Definition allow_prepare (l : label) : Prop :=
  match l with LQuiet | LIssue | LSkew | LClient (OpEnsure _ _) | LClient (OpQuota _ _ _) => True | _ => False end.

Lemma ensureClient_then (allowed : label -> Prop) identity :
  allowed (LClient (OpEnsure identity nowMS)) ->
  runs_then allowed (has_client (CKey identity)) (write (fun db => EnsureClient db identity nowMS)).
Proof.
  intros Hl s Ho. unfold write. destruct (EnsureClient _ _ _) as [d|e] eqn:Hd; simpl; [|split; [apply rtc_refl|done]].
  split; [eapply path_step; [exact Hl|by apply st_client]|]. intros _ _.
  apply EnsureClient_Ok in Hd as (_ & _ & [[_ ->]|(c & Hc & _ & ->)]); unfold has_client; simpl; [rewrite lookup_insert_eq|]; eauto.
Qed.

Lemma clearSkew_runs (allowed : label -> Prop) kind key :
  allowed LSkew -> runs allowed anything (write (fun db => ClearReferenceSkew db kind key)).
Proof.
  intros Hl. eapply runs_write; [exact Hl|]. intros s d Hd. unfold ClearReferenceSkew in Hd. case_decide; [done|].
  injection Hd as <-. apply st_skew.
Qed.

Lemma observeSkew_runs (allowed : label -> Prop) kind key version :
  allowed LSkew -> runs allowed anything (writeA (fun db => ObserveReferenceSkew db kind key version)).
Proof.
  intros Hl. eapply runs_writeA; [exact Hl| |done]. intros s a d Hd. unfold ObserveReferenceSkew in Hd. case_decide; [done|].
  apply bind_Ok in Hd as (rounds & _ & [= _ <-]). apply st_skew.
Qed.

Lemma materialise_then body :
  runs_then allow_prepare (fun s => forall client, client ∈ RosClients body -> has_client (WCKey client) s) (materialise nowMS body).
Proof.
  apply (runs_then_each _ (fun client s => has_client (WCKey client) s)).
  - intros client _. by apply (ensureClient_then _ (MkClientIdentity _ _)).
  - intros client s s'. apply path_has_client. intros [| | | | |[]| | | | | |] Hl; done.
Qed.

Lemma materialise_runs body : runs allow_prepare anything (materialise nowMS body).
Proof. eapply runs_then_runs, materialise_then. Qed.

(** The entries of a document hold int64 values. *)
Definition quota_typed (body : DirectivesBody) : Prop := Forall (fun q => grant_typed (grantOf q)) (DirQuota body).

Lemma applyDirectives_runs body rosterVersion roster :
  quota_typed body -> runs allow_prepare anything (applyDirectives options issueMS nowMS body rosterVersion roster).
Proof.
  intros Ht. unfold applyDirectives. destruct (Newer _ _).
  - eapply runs_bind with (Q := anything); [by apply observeSkew_runs|]. intros rounds _.
    case_decide; [by apply recordIssue_runs|by apply runs_ret].
  - apply runs_seq; [by apply clearSkew_runs|]. apply runs_each. intros quota Hq. unfold applyQuotaEntry.
    case_match; [|by apply recordIssue_runs]. eapply runs_write with (l := LClient (OpQuota _ _ _)); [done|].
    intros s d Hd. eapply st_client; [done| |done|exact Hd]. by apply (proj1 (Forall_forall _ _) Ht).
Qed.

(** *** Listeners *)

Definition allow_listeners (body : ConfigBody) (l : label) : Prop :=
  match l with
  | LEnsureListener key => key ∈ WLKey <$> CfgListeners body
  | LSaveObject stream key => stream = StreamConfig /\ key ∈ WLKey <$> CfgListeners body
  | LCall (CallUpsertListener listener) => listener ∈ CfgListeners body
  | _ => False
  end.

Lemma ensureListener_then (allowed : label -> Prop) key :
  allowed (LEnsureListener key) -> runs_then allowed (has_listener key) (write (fun db => EnsureListener db key nowMS)).
Proof.
  intros Hl s Ho. unfold write. destruct (EnsureListener _ _ _) as [d|e] eqn:Hd; simpl; [|split; [apply rtc_refl|done]].
  split; [by eapply path_step; [|by eapply st_ensure]|]. intros _ _.
  apply EnsureListener_Ok in Hd as [[? ->]|[_ ->]]; unfold has_listener; simpl; [done|]. rewrite lookup_insert_eq. eauto.
Qed.

(** Both rows of a listener. *)
Definition listener_rows (key : string) (s : pstate R) : Prop := has_listener key s /\ has_object StreamConfig key s.
Definition client_rows (key : string) (s : pstate R) : Prop := has_client key s /\ has_object StreamRoster key s.

Lemma upsertListener_then old body version listener :
  listener ∈ CfgListeners body ->
  runs_then (allow_listeners body) (listener_rows (WLKey listener)) (upsertListener nowMS old version listener).
Proof.
  intros Hin. assert (WLKey listener ∈ WLKey <$> CfgListeners body) as Hkey by (by apply list_elem_of_fmap_2).
  unfold upsertListener. apply runs_then_seq; [by apply ensureListener_then| |].
  { intros s s'. apply path_has_listener. intros [] Hl; done. }
  eapply runs_then_bind; [apply runs_query; intros db a; apply optionalObject_row|]. intros current Hcur.
  eapply runs_then_bind; [apply runs_lift; intros a; by apply acceptObject_about|]. intros status Hst.
  eapply runs_then_bind with (Q := about StreamConfig (WLKey listener)); [|intros st Hab; by apply save_then].
  match goal with |- context [if ?b then _ else _] => destruct b eqn:Hun end; [apply runs_lift; intros a; by apply advance_about|].
  destruct (decide (OState current = ObjectRejected /\ SinceVersion current = version)) as [[Hrej _]|_].
  - apply runs_ret. by destruct Hcur as [->|?].
  - eapply runs_bind; [by apply runs_runtime|]. intros err _. apply runs_lift. intros a. by apply applyRuntimeResult_about.
Qed.

Lemma keeps_listener_rows (allowed : label -> Prop) key s s' :
  (forall l, allowed l -> l <> LDeleteListener key /\ keeps_object StreamConfig key l) ->
  path allowed s s' -> listener_rows key s -> listener_rows key s'.
Proof.
  intros Hk Hp [Hl Ho]. split; [eapply path_has_listener|eapply path_has_object]; [|exact Hp|done| |exact Hp|done]; intros l Hal; by apply Hk.
Qed.

Lemma keeps_client_rows (allowed : label -> Prop) key s s' :
  (forall l, allowed l -> l <> LClient (OpDelete key) /\ keeps_object StreamRoster key l) ->
  path allowed s s' -> client_rows key s -> client_rows key s'.
Proof.
  intros Hk Hp [Hl Ho]. split; [eapply path_has_client|eapply path_has_object]; [|exact Hp|done| |exact Hp|done]; intros l Hal; by apply Hk.
Qed.

Lemma upsertListeners_then oldBody body version :
  runs_then (allow_listeners body) (fun s => forall listener, listener ∈ CfgListeners body -> listener_rows (WLKey listener) s)
    (upsertListeners nowMS oldBody body version).
Proof.
  apply (runs_then_each _ (fun listener s => listener_rows (WLKey listener) s)).
  - intros listener Hin. by apply upsertListener_then.
  - intros listener s s'. apply keeps_listener_rows. intros [] Hl; unfold keeps_object; naive_solver.
Qed.

(** *** Clients *)

Definition allow_clients (body : RosterBody) (l : label) : Prop :=
  match l with
  | LQuiet | LIssue | LSkew => True
  | LClient (OpEnsure identity _) => CKey identity ∈ WCKey <$> RosClients body
  | LSaveObject stream key => stream = StreamRoster /\ key ∈ WCKey <$> RosClients body
  | LCall (CallUpsertClient client) => exists client0 keys,
      client0 ∈ RosClients body /\ keys `sublist_of` WCListeners client0 /\ client = withListeners client0 keys
  | _ => False
  end.

Lemma attach_runs body client version configVersion listeners states att listenerKey seen :
  aReady att `sublist_of` seen ->
  runs (allow_clients body) (fun att' => aReady att' `sublist_of` seen ++ [listenerKey])
    (attach options issueMS body client version configVersion listeners states att listenerKey).
Proof.
  intros Hatt. unfold attach. eapply runs_bind with (Q := anything).
  { destruct (Newer _ _); [by apply observeSkew_runs|]. apply runs_seq; [by apply clearSkew_runs|by apply runs_ret]. }
  intros rounds _. eapply runs_bind with (Q := anything); [by apply runs_lift|]. intros decision _. apply runs_seq.
  { destruct (DecIssue decision); [by apply recordIssue_runs|by apply runs_ret]. }
  apply runs_ret. destruct (DecDisposition decision); simpl; [by apply sublist_app|by apply sublist_inserts_r..].
Qed.

Lemma convergeClient_then old body version configVersion configChanged listeners states client :
  client ∈ RosClients body ->
  runs_then (allow_clients body) (client_rows (WCKey client))
    (convergeClient options issueMS nowMS old body version configVersion configChanged listeners states client).
Proof.
  intros Hin. assert (WCKey client ∈ WCKey <$> RosClients body) as Hkey by (by apply list_elem_of_fmap_2).
  unfold convergeClient. apply runs_then_seq; [by apply (ensureClient_then _ (MkClientIdentity _ _))| |].
  { intros s s'. apply path_has_client. intros [] Hl; try done. naive_solver. }
  eapply runs_then_bind; [apply runs_query; intros db a; apply optionalObject_row|]. intros current Hcur.
  eapply runs_then_bind; [apply runs_lift; intros a; by apply acceptObject_about|]. intros status Hst.
  destruct (decide (OState status = ObjectRejected /\ SinceVersion status = version)); [by apply save_then|].
  eapply runs_then_bind with (Q := fun att => aReady att `sublist_of` WCListeners client).
  { apply (runs_fold _ (fun seen att => aReady att `sublist_of` seen)); [done|]. intros seen att key Hatt _. by apply attach_runs. }
  intros att Hatt. eapply runs_then_bind with (Q := anything).
  { match goal with |- context [if ?b then _ else _] => destruct b end; [by apply runs_ret|]. apply runs_runtime; [simpl; eauto|done]. }
  intros err _. eapply runs_then_bind; [apply runs_lift; intros a; by apply concludeClient_about|]. intros st Hab. by apply save_then.
Qed.

Lemma convergeClients_then old body version configVersion configChanged listeners states :
  runs_then (allow_clients body) (fun s => forall client, client ∈ RosClients body -> client_rows (WCKey client) s)
    (each (convergeClient options issueMS nowMS old body version configVersion configChanged listeners states) (RosClients body)).
Proof.
  apply (runs_then_each _ (fun client s => client_rows (WCKey client) s)).
  - intros client Hin. by apply convergeClient_then.
  - intros client s s'. apply keeps_client_rows. intros [] Hl; unfold keeps_object; naive_solver.
Qed.

(** *** Removals *)

Definition allow_removal (stream : string) (desired : gset string) (l : label) : Prop :=
  match l with
  | LClient (OpDelete k) | LCall (CallRemoveClient k) => stream = StreamRoster /\ k ∉ desired
  | LDeleteListener k | LCall (CallRemoveListener k) => stream = StreamConfig /\ k ∉ desired
  | LSaveObject st k | LDeleteObject st k => st = stream /\ k ∉ desired
  | _ => False
  end.

(** The two instances of the removal loop: clients of the roster, listeners of
    the config. *)
Section removal.
Context (stream : string) (desired : gset string) (call : string -> RuntimeCall)
  (remove : R -> DB -> string -> option RuntimeError * R * DB) (delete_ : DB -> string -> res error DB) (dlabel : string -> label).
Context (Hremove : forall r db k, remove r db k = perform (call k) r db).
Context (Hcall : forall k, k ∉ desired -> allow_removal stream desired (LCall (call k))).
Context (Hlabel : forall k, k ∉ desired -> allow_removal stream desired (dlabel k)).
Context (Hdelete : forall s k d, call k ∈ calls s -> delete_ (pdb s) k = Ok d -> round_step (dlabel k) s (setDB d s)).

(** What one iteration does. *)
Inductive stale_outcome (local : gset string) (key : string) (s : pstate R) : res error (gset string) -> pstate R -> Prop :=
| stale_desired : key ∈ desired -> stale_outcome local key s (Ok ({[key]} ∪ local)) s
| stale_early e : key ∉ desired -> stale_outcome local key s (Err e) s
| stale_asked e err r d1 : key ∉ desired -> remove (prt s) (pdb s) key = (err, r, d1) ->
    stale_outcome local key s (Err e) (called (call key) r d1 s)
| stale_deleted err r d1 d : key ∉ desired -> remove (prt s) (pdb s) key = (err, r, d1) -> delete_ d1 key = Ok d ->
    stale_outcome local key s (Ok (({[key]} ∪ local) ∖ {[key]})) (setDB d (called (call key) r d1 s))
| stale_kept err r d1 status d : key ∉ desired -> remove (prt s) (pdb s) key = (Some err, r, d1) ->
    about stream key status -> OState status <> ObjectApplied -> SaveObject d1 status nowMS = Ok d ->
    stale_outcome local key s (Ok ({[key]} ∪ local)) (setDB d (called (call key) r d1 s)).

Lemma removeStale_outcome version local key s :
  objects_ok (pdb s) ->
  stale_outcome local key s (removeStale nowMS stream desired call remove delete_ version local key s).1
    (removeStale nowMS stream desired call remove delete_ version local key s).2.
Proof.
  intros Ho. unfold removeStale. destruct (decide (key ∈ desired)) as [Hin|Hout]; [by apply stale_desired|].
  unfold mbind, proc_bind, query, lift. destruct (optionalObject stream key (pdb s)) as [current|e] eqn:Hcur; [|by apply stale_early].
  apply (optionalObject_row _ _ _ _ Ho) in Hcur.
  destruct (acceptObject current stream key version nowMS) as [status|e] eqn:Hacc; [|by apply stale_early].
  apply (acceptObject_about _ _ _ _ _ Hcur) in Hacc. unfold runtime.
  destruct (remove (prt s) (pdb s) key) as [[err r] d1] eqn:Hr.
  destruct (applyRuntimeResult status err nowMS) as [status'|e] eqn:Hres; [|by eapply (stale_asked local key s e)].
  pose proof (applyRuntimeResult_about _ _ _ _ _ Hacc Hres) as Hab. unfold write.
  destruct (decide (OState status' = ObjectApplied)) as [Happ|Hnot]; cbn [pdb].
  - destruct (delete_ d1 key) as [d|e] eqn:Hd; cbn [fst snd mret proc_ret]; [|by eapply (stale_asked local key s e)].
    by eapply (stale_deleted local key s).
  - destruct (SaveObject d1 status' nowMS) as [d|e] eqn:Hd; cbn [fst snd mret proc_ret]; [|by eapply (stale_asked local key s e)].
    destruct err as [err|]; [by eapply (stale_kept local key s)|].
    exfalso. apply Hnot. by apply advance_applied in Hres.
Qed.

Lemma removeStale_runs version local key :
  runs (allow_removal stream desired) anything (removeStale nowMS stream desired call remove delete_ version local key).
Proof.
  intros s Ho. split; [|done]. pose proof (removeStale_outcome version local key s Ho) as Hs.
  assert (forall err r d1, key ∉ desired -> remove (prt s) (pdb s) key = (err, r, d1) ->
    path (allow_removal stream desired) s (called (call key) r d1 s)) as Hasked
    by (intros err r d1 Hout Hr; eapply path_step; [by apply Hcall|rewrite Hremove in Hr; by eapply st_call]).
  destruct Hs as [Hin|e Hout|e err r d1 Hout Hr|err r d1 d Hout Hr Hd|err r d1 status d Hout Hr Hab _ Hd]; try apply rtc_refl; [by eapply Hasked|..].
  - etrans; [by eapply Hasked|]. eapply path_step; [by apply Hlabel|]. apply Hdelete; [|done]. simpl. set_solver.
  - etrans; [by eapply Hasked|]. destruct Hab as [Hst Hk]. eapply path_step; [|by eapply st_save]. by rewrite Hst, Hk.
Qed.

Lemma pruneOrphanObjectStates_runs local :
  runs (allow_removal stream desired) anything (pruneOrphanObjectStates stream desired local (R := R)).
Proof.
  unfold pruneOrphanObjectStates. eapply runs_bind with (Q := anything); [by apply runs_query|]. intros objects _.
  apply runs_each. intros status _. unfold pruneObject.
  destruct (decide (OStream status <> stream \/ OKey status ∈ desired \/ OKey status ∈ local)) as [_|Hn]; [by apply runs_ret|].
  eapply runs_write with (l := LDeleteObject stream (OKey status)); [simpl; split; [done|tauto]|]. intros s d Hd. by apply st_prune.
Qed.

(** The ledger the loop walks. *)
Context (ledger : DB -> gset string).
Context (Hledger_delete : forall d k d', delete_ d k = Ok d' ->
  ledger d' = ledger d ∖ {[k]} /\ object_status d' = delete (stream, k) (object_status d)).
Context (Hledger_objects : forall d x, ledger (set_object_status x d) = ledger d).
Context (Hledger_core : forall d x, ledger (set_core_deployment x d) = ledger d).

(** A row that is not desired any more is only kept for a retry: the runtime
    refused to remove it, and its object says so. *)
Definition retrying (key : string) (s : pstate R) : Prop :=
  (exists r db, (remove r db key).1.1 <> None) /\
  exists status atMS, object_status (pdb s) !! (stream, key) = Some (status, atMS) /\ OState status <> ObjectApplied.

(** After the keys [seen]: what is local, and what happened to it. *)
Record removal_inv (keys seen : list string) (local : gset string) (s : pstate R) : Prop := {
  ri_objects : objects_ok (pdb s);
  ri_local k : k ∈ local <-> k ∈ seen /\ k ∈ ledger (pdb s);
  ri_ledger k : k ∈ ledger (pdb s) -> k ∈ keys;
  ri_ahead k : k ∈ keys -> k ∉ seen \/ k ∈ desired -> k ∈ ledger (pdb s);
  ri_retry k : k ∈ seen -> k ∈ ledger (pdb s) -> k ∉ desired -> retrying k s
}.

Lemma removal_step version keys seen key local s local' s' :
  key ∈ keys -> key ∉ seen -> removal_inv keys seen local s ->
  removeStale nowMS stream desired call remove delete_ version local key s = (Ok local', s') ->
  removal_inv keys (seen ++ [key]) local' s'.
Proof.
  intros Hin Hnew [Ho Hloc Hled Hahead Hretry] Hrun. pose proof (removeStale_outcome version local key s Ho) as Hout.
  pose proof (removeStale_runs version local key s Ho) as [Hpath _]. rewrite Hrun in Hout, Hpath. cbn [fst snd] in Hout, Hpath.
  apply path_objects_ok in Hpath; [|done].
  inversion Hout as [Hd| | |err r d1 d Hd Hr Hdel|err r d1 status d Hd Hr [Hst Hk] Happ Hsave]; subst; cbn [pdb setDB called] in *.
  - split; try done.
    + set_solver.
    + intros k Hk [Hn|Hn]; apply Hahead; set_solver.
    + intros k [Hk| ->%list_elem_of_singleton]%elem_of_app; [by apply Hretry|done].
  - rewrite Hremove in Hr. apply perform_frame in Hr as Hfr. clear Hr. destruct (Hledger_delete _ _ _ Hdel) as [Hl Hobj]. rewrite Hfr in Hl, Hobj. rewrite Hledger_core in Hl.
    cbn [object_status set_core_deployment] in Hobj. split; try done; cbn [pdb setDB called]; rewrite ?Hl.
    + set_solver.
    + set_solver.
    + intros k Hk Hn. apply elem_of_difference. split; [apply Hahead; set_solver|]. set_solver.
    + intros k Hk [Hk' Hne]%elem_of_difference Hnd.
      destruct (Hretry k) as (Hr & st & at_ms & Hst & Hna); [set_solver..|]. split; [done|]. exists st, at_ms. split; [|done].
      cbn [pdb setDB called]. rewrite Hobj, lookup_delete_ne; [done|]. set_solver.
  - pose proof Hr as Hfr. rewrite Hremove in Hfr. apply perform_frame in Hfr. apply SaveObject_Ok in Hsave as [_ Hd'].
    assert (ledger d = ledger (pdb s)) as Hl by (by rewrite Hd', Hledger_objects, Hfr, Hledger_core).
    assert (object_status d = <[(stream, OKey status) := (status, nowMS)]> (object_status (pdb s))) as Hobj
      by (rewrite Hd', Hst; simpl; by rewrite Hfr).
    split; try done; cbn [pdb setDB called]; rewrite ?Hl; try done.
    + set_solver.
    + intros k Hkk [Hn|Hn]; apply Hahead; set_solver.
    + intros k Hk' Hin' Hnd. destruct (decide (k = OKey status)) as [->|Hne].
      * split; [exists (prt s), (pdb s); by rewrite Hr|]. exists status, nowMS. cbn [pdb setDB called].
        by rewrite Hobj, lookup_insert_eq.
      * destruct (Hretry k) as (Hr' & st & at_ms & Hst' & Hna); [set_solver..|]. split; [done|]. exists st, at_ms. split; [|done].
        cbn [pdb setDB called]. rewrite Hobj, lookup_insert_ne by congruence. done.
Qed.

Lemma removal_loop version keys : NoDup keys -> forall s local s',
  removal_inv keys [] ∅ s ->
  fold (removeStale nowMS stream desired call remove delete_ version) ∅ keys s = (Ok local, s') -> removal_inv keys keys local s'.
Proof.
  intros Hnd s local s' Hinv Hrun.
  cut (forall todo seen local0 s0, keys = seen ++ todo -> removal_inv keys seen local0 s0 ->
    fold (removeStale nowMS stream desired call remove delete_ version) local0 todo s0 = (Ok local, s') -> removal_inv keys keys local s').
  { intros Hgen. by apply (Hgen keys [] ∅ s). }
  clear s Hinv Hrun. induction todo as [|key todo IH]; intros seen local0 s0 Heq Hinv Hrun; cbn [fold] in Hrun.
  - injection Hrun as <- <-. by rewrite app_nil_r in Heq; subst.
  - unfold mbind, proc_bind in Hrun. destruct (removeStale _ _ _ _ _ _ _ _ _ _) as [[local1|e] s1] eqn:Hone; [|done].
    apply (IH (seen ++ [key]) local1 s1); [by rewrite <-app_assoc| |done].
    eapply removal_step; [| |exact Hinv|exact Hone]; [set_solver|]. subst. apply NoDup_app in Hnd as (_ & Hdis & _).
    intros Hs. apply (Hdis key Hs). by left.
Qed.

(** *** Orphans *)

Lemma Objects_elem db status : status ∈ Objects db <-> exists k atMS, object_status db !! k = Some (status, atMS).
Proof.
  unfold Objects. rewrite list_elem_of_omap. split.
  - intros (k & _ & (x & Hx & ->)%fmap_Some). exists k, x.2. by destruct x.
  - intros (k & at_ms & Hk). exists k. split; [apply sorted_rows_elem; eauto|]. by rewrite Hk.
Qed.

(** Rows of no desired or local key are gone, the others stay. *)
Lemma prune_loop local objects : forall s s',
  each (pruneObject stream desired local (R := R)) objects s = (Ok tt, s') ->
  (forall status, status ∈ objects -> OStream status = stream -> OKey status ∉ desired -> OKey status ∉ local ->
     ~ has_object stream (OKey status) s') /\
  (forall k x, object_status (pdb s') !! k = Some x -> object_status (pdb s) !! k = Some x) /\
  (forall k, k ∈ desired \/ k ∈ local -> object_status (pdb s') !! (stream, k) = object_status (pdb s) !! (stream, k)) /\
  ledger (pdb s') = ledger (pdb s).
Proof.
  induction objects as [|status objects IH]; intros s s'; cbn [each].
  - intros [= <-]. split_and!; try done. intros status Hs. by apply not_elem_of_nil in Hs.
  - unfold mbind, proc_bind. destruct (pruneObject _ _ _ _ _) as [[[]|e] s1] eqn:Hone; [|done]. intros Hrun.
    destruct (IH _ _ Hrun) as (Hgone & Hsub & Hkeep & Hled). unfold pruneObject in Hone.
    destruct (decide (OStream status <> stream \/ OKey status ∈ desired \/ OKey status ∈ local)) as [Hc|Hc].
    + injection Hone as <-. split_and!; try done. intros st [->|Hst]%elem_of_cons; [tauto|by apply Hgone].
    + unfold write in Hone. destruct (DeleteObject _ _ _) as [d|e] eqn:Hd; [|done]. injection Hone as <-.
      apply DeleteObject_Ok in Hd as ->. cbn [pdb setDB object_status set_object_status] in *. split_and!.
      * intros st [->|Hst]%elem_of_cons Hs' Hd Hl; [|by apply Hgone]. intros [x Hx]. apply Hsub in Hx.
        by rewrite lookup_delete_eq in Hx.
      * intros k x Hx. apply Hsub in Hx. by apply lookup_delete_Some in Hx as [_ Hx].
      * intros k Hk. rewrite Hkeep by done. rewrite lookup_delete_ne; [done|]. intros [= Heq]. subst. tauto.
      * by rewrite Hled, Hledger_objects.
Qed.

(** The ledger and the object rows of the stream after a removal pass: desired
    rows are untouched, every other ledger row is one the runtime refused to
    remove, and no object row is left without a ledger row or a document. *)
Lemma removal_settles version keys s local s1 s2 :
  objects_ok (pdb s) -> NoDup keys -> (forall k, k ∈ keys <-> k ∈ ledger (pdb s)) ->
  fold (removeStale nowMS stream desired call remove delete_ version) ∅ keys s = (Ok local, s1) ->
  pruneOrphanObjectStates stream desired local s1 = (Ok tt, s2) ->
  (forall k, k ∈ desired -> k ∈ ledger (pdb s) -> k ∈ ledger (pdb s2)) /\
  (forall k, k ∈ ledger (pdb s2) -> k ∉ desired -> retrying k s2) /\
  (forall k, has_object stream k s2 -> k ∈ desired \/ k ∈ ledger (pdb s2)).
Proof.
  intros Ho Hnd Hkeys Hloop Hprune.
  apply removal_loop in Hloop as [Ho1 Hloc Hled Hahead Hretry]; [|done|].
  2: { split; try done; intros k; [set_solver|by rewrite Hkeys|intros Hk _; by apply Hkeys|set_solver]. }
  unfold pruneOrphanObjectStates, mbind, proc_bind, query in Hprune.
  apply prune_loop in Hprune as (Hgone & Hsub & Hkeep & Hled2). rewrite Hled2. split_and!.
  - intros k Hk Hk'. apply Hahead; [by apply Hkeys|by right].
  - intros k Hk Hn. destruct (Hretry k) as (Hr & st & at_ms & Hst & Hna); [by apply Hled|done..|]. split; [done|].
    exists st, at_ms. split; [|done]. rewrite Hkeep; [done|]. right. apply Hloc. split; [by apply Hled|done].
  - intros k Hobj. destruct (decide (k ∈ desired)) as [|Hnd']; [by left|]. destruct (decide (k ∈ ledger (pdb s1))) as [|Hnl]; [by right|].
    exfalso. destruct Hobj as [[st at_ms] Hst]. pose proof (Hsub _ _ Hst) as Hst1. destruct (Ho1 _ _ _ Hst1) as [[= Hs' Hk'] _].
    apply (Hgone st); [apply Objects_elem; eauto|done|by rewrite <-Hk'|rewrite <-Hk'; intros Hl; by apply Hloc in Hl as [_ ?]|].
    rewrite <-Hk'. by exists (st, at_ms).
Qed.

End removal.

(** *** Sequences of phases

    A phase is a reflexive relation: any number of steps of some labels, or at
    most one call. *)
Definition phase : Type := pstate R -> pstate R -> Prop.

Definition at_most_once (call : RuntimeCall) : phase := fun s s' =>
  s' = s \/ exists err r d, perform call (prt s) (pdb s) = (err, r, d) /\ s' = called call r d s.

Fixpoint phases (ps : list phase) (s s' : pstate R) : Prop :=
  match ps with
  | [] => s' = s
  | p :: ps => exists sm, p s sm /\ phases ps sm s'
  end.

(** The steps of a phase. *)
Class Phase (p : phase) (allowed : label -> Prop) : Prop := { phase_refl s : p s s; phase_path s s' : p s s' -> path allowed s s' }.

#[local] Instance path_phase allowed : Phase (path allowed) allowed.
Proof. split; [intros s; apply rtc_refl|done]. Qed.

#[local] Instance at_most_once_phase call : Phase (at_most_once call) (fun l => l = LCall call).
Proof. split; [by left|]. intros s s' [->|(err & r & d & Hd & ->)]; [apply rtc_refl|]. by eapply path_step; [|by eapply st_call]. Qed.

(** A list of phases and the labels of each. *)
Inductive Phases : list phase -> list (label -> Prop) -> Prop :=
| Phases_nil : Phases [] []
| Phases_cons p allowed ps als : Phase p allowed -> Phases ps als -> Phases (p :: ps) (allowed :: als).

Definition in_phases {A} (ps : list phase) (m : proc R A) : Prop :=
  forall s, objects_ok (pdb s) -> phases ps s (m s).2.

Lemma phases_refl ps als s : Phases ps als -> phases ps s s.
Proof. induction 1 as [|p allowed ps als Hp _ IH]; simpl; [done|]. exists s. split; [by eapply phase_refl|done]. Qed.

Lemma phases_app ps ps' s s1 s' : phases ps s s1 -> phases ps' s1 s' -> phases (ps ++ ps') s s'.
Proof.
  revert s. induction ps as [|p ps IH]; intros s; simpl; [by intros ->|]. intros (sm & Hp & Hps) Hps'. exists sm. eauto.
Qed.

Lemma phases_path ps als s s' : Phases ps als -> phases ps s s' -> path (fun l => exists al, al ∈ als /\ al l) s s'.
Proof.
  intros Hps. revert s. induction Hps as [|p allowed ps als Hp _ IH]; intros s; simpl; [intros ->; apply rtc_refl|].
  intros (sm & Hs & Hrest). etrans.
  - eapply path_mono; [|by eapply phase_path]. intros l Hl. exists allowed. split; [by left|done].
  - eapply path_mono; [|by apply IH]. intros l (al & Hal & Hl). exists al. split; [by right|done].
Qed.

Lemma in_phases_one {A} p (Q : A -> Prop) (m : proc R A) : runs p Q m -> in_phases [path p] m.
Proof. intros Hm s Ho. destruct (Hm s Ho) as [Hp _]. by exists (m s).2. Qed.

Lemma in_phases_skip {A} ps als (a : A) : Phases ps als -> in_phases ps (mret a).
Proof. intros Hps s _. by eapply phases_refl. Qed.

Lemma in_phases_bind {A B} ps als ps' als' (m : proc R A) (f : A -> proc R B) :
  Phases ps als -> Phases ps' als' -> in_phases ps m -> (forall a, in_phases ps' (f a)) -> in_phases (ps ++ ps') (m ≫= f).
Proof.
  intros Hps Hps' Hm Hf s Ho. specialize (Hm s Ho). unfold mbind, proc_bind. destruct (m s) as [[a|e] s1].
  - eapply phases_app; [exact Hm|]. apply Hf. eapply path_objects_ok; [|exact Ho]. by apply (phases_path ps als).
  - eapply phases_app; [exact Hm|]. by eapply phases_refl.
Qed.

Lemma in_phases_runs {A B} p (Q : A -> Prop) ps als (m : proc R A) (f : A -> proc R B) :
  Phases ps als -> runs p Q m -> (forall a, Q a -> in_phases ps (f a)) -> in_phases (path p :: ps) (m ≫= f).
Proof.
  intros Hps Hm Hf s Ho. destruct (Hm s Ho) as [Hp Ha]. exists (m s).2. split; [done|]. unfold mbind, proc_bind.
  destruct (m s) as [[a|e] s1]; [|by eapply phases_refl]. apply (Hf a); [by apply Ha|]. by eapply path_objects_ok.
Qed.

(** A read takes no step. *)
Lemma in_phases_query {A B} ps als (f : DB -> res error A) (g : A -> proc R B) :
  Phases ps als -> (forall a, in_phases ps (g a)) -> in_phases ps (query f ≫= g).
Proof.
  intros Hps Hg s Ho. unfold mbind, proc_bind, query. destruct (f (pdb s)); [by apply Hg|by eapply phases_refl].
Qed.

(** The calls of the phases, in order. *)
Lemma path_calls allowed s s' : path allowed s s' -> exists cs, calls s' = calls s ++ cs /\ Forall (fun c => allowed (LCall c)) cs.
Proof.
  induction 1 as [s|x y z (l & Hl & Hs) _ (cs & Hcs & Hall)]; [exists []; by rewrite app_nil_r|].
  destruct (step_frame _ _ _ Hs) as (_ & _ & _ & _ & _ & _ & Hc & _). rewrite Hc, <-app_assoc in Hcs.
  eexists. split; [exact Hcs|]. apply Forall_app. split; [|done]. destruct l; constructor; done.
Qed.

Lemma phases_calls ps als s s' :
  Phases ps als -> phases ps s s' ->
  exists css, calls s' = calls s ++ concat css /\ Forall2 (fun al cs => Forall (fun c => al (LCall c)) cs) als css.
Proof.
  intros Hps. revert s. induction Hps as [|p allowed ps als Hp _ IH]; intros s; cbn [phases].
  - intros ->. exists []. by rewrite app_nil_r.
  - intros (sm & Hs & Hrest). destruct (path_calls _ _ _ (phase_path s sm Hs)) as (cs & Hcs & Hall).
    destruct (IH sm Hrest) as (css & Hcss & Hall'). exists (cs :: css). rewrite Hcss, Hcs. cbn [concat]. rewrite app_assoc.
    split; [done|]. by constructor.
Qed.

Ltac phases_tac := repeat first [apply Phases_nil | eapply Phases_cons; [apply _|]].

(** *** The two removal passes *)

Definition roster_keys (body : RosterBody) : gset string := list_to_set (WCKey <$> RosClients body).
Definition config_keys (body : ConfigBody) : gset string := list_to_set (WLKey <$> CfgListeners body).

Lemma listenerMap_dom body : dom (listenerMap (Some body)) = config_keys body.
Proof.
  unfold listenerMap, config_keys. cut (forall m : gmap string WListener,
    dom (foldl (fun out listener => <[WLKey listener := listener]> out) m (CfgListeners body)) =
    dom m ∪ list_to_set (WLKey <$> CfgListeners body)).
  { intros Hgen. rewrite Hgen. set_solver. }
  induction (CfgListeners body) as [|x l IH]; intros m; cbn [foldl fmap list_fmap list_to_set]; [set_solver|].
  rewrite IH, dom_insert_L. set_solver.
Qed.

Lemma DeleteClient_step s k d : CallRemoveClient k ∈ calls s -> DeleteClient (pdb s) k = Ok d ->
  round_step (LClient (OpDelete k)) s (setDB d s).
Proof. intros Hc Hd. apply st_client; [done|done| |done]. by intros k' [= <-]. Qed.

Lemma removeClients_runs version local key body :
  runs (allow_removal StreamRoster (roster_keys body)) anything
    (removeStale nowMS StreamRoster (roster_keys body) CallRemoveClient RemoveClient DeleteClient version local key).
Proof. apply (removeStale_runs _ _ _ _ _ (fun k => LClient (OpDelete k))); try done. apply DeleteClient_step. Qed.

Lemma removeListener_runs version local key body :
  runs (allow_removal StreamConfig (config_keys body)) anything
    (removeStale nowMS StreamConfig (config_keys body) CallRemoveListener RemoveListener DeleteListener version local key).
Proof. apply (removeStale_runs _ _ _ _ _ LDeleteListener); try done. apply st_delete. Qed.

Lemma applyRoster_phases oldBody body version config configVersion configChanged :
  in_phases [path (allow_clients body); path (allow_removal StreamRoster (roster_keys body))]
    (applyRoster options issueMS nowMS oldBody body version config configVersion configChanged).
Proof.
  unfold applyRoster. eapply in_phases_query; [phases_tac|]. intros states.
  eapply in_phases_runs; [phases_tac|eapply runs_then_runs, convergeClients_then|]. intros _ _.
  eapply in_phases_query; [phases_tac|]. intros clients. eapply in_phases_one. eapply runs_bind with (Q := anything).
  - eapply runs_mono; [done| |apply (runs_fold _ (fun _ _ => True)); [done|]]; [done|]. intros seen x k _ _.
    eapply runs_mono; [done| |apply removeClients_runs]. done.
  - intros local _. apply pruneOrphanObjectStates_runs.
Qed.

Lemma removeListeners_runs body version :
  runs (allow_removal StreamConfig (config_keys body)) anything (removeListeners nowMS body version).
Proof.
  unfold removeListeners. rewrite listenerMap_dom. eapply runs_bind with (Q := anything); [by apply runs_query|]. intros listeners _.
  eapply runs_bind with (Q := anything).
  - eapply runs_mono; [done| |apply (runs_fold _ (fun _ _ => True)); [done|]]; [done|]. intros seen x k _ _.
    eapply runs_mono; [done| |apply removeListener_runs]. done.
  - intros local _. apply pruneOrphanObjectStates_runs.
Qed.

(** *** The round as a whole *)

Definition on_doc {T} (f : T -> label -> Prop) (doc : option T) : label -> Prop :=
  match doc with Some body => f body | None => fun _ => False end.

Definition allow_enter (l : label) : Prop := l = LEnter.
Definition allow_client_removal (body : RosterBody) : label -> Prop := allow_removal StreamRoster (roster_keys body).
Definition allow_listener_removal (body : ConfigBody) : label -> Prop := allow_removal StreamConfig (config_keys body).

(** The labels of the phases of [converge], in order. *)
Definition converge_labels (config : option ConfigBody) (roster : option RosterBody) : list (label -> Prop) :=
  [allow_prepare; allow_prepare; allow_enter; on_doc allow_listeners config; on_doc allow_clients roster;
   on_doc allow_client_removal roster; on_doc allow_listener_removal config; (fun l => l = LCall CallFinalize); allow_issue; allow_issue].

Definition converge_phases (config : option ConfigBody) (roster : option RosterBody) : list phase :=
  [path allow_prepare; path allow_prepare; path allow_enter; path (on_doc allow_listeners config); path (on_doc allow_clients roster);
   path (on_doc allow_client_removal roster); path (on_doc allow_listener_removal config); at_most_once CallFinalize;
   path allow_issue; path allow_issue].

Lemma converge_Phases config roster : Phases (converge_phases config roster) (converge_labels config roster).
Proof. unfold converge_phases, converge_labels. phases_tac. Qed.

Lemma when_doc_runs {T} (allowed : label -> Prop) (doc : option T) version f :
  (forall body, doc = Some body -> runs allowed anything (f body)) -> runs allowed anything (when_doc doc version f (R := R)).
Proof. intros Hf. unfold when_doc. destruct doc; [|by apply runs_ret]. destruct (VZero version); [by apply runs_ret|by apply Hf]. Qed.

Lemma enterRound_runs : runs allow_enter anything enterRound.
Proof.
  intros s _. unfold enterRound. destruct (NewRound (prt s)) as [[r|]|] eqn:Hr; (split; [|done]); try apply rtc_refl.
  by eapply path_step; [|by apply st_enter].
Qed.

Lemma finalizeRound_phases configVersion rosterVersion :
  in_phases [at_most_once CallFinalize; path allow_issue] (finalizeRound issueMS configVersion rosterVersion).
Proof.
  intros s Ho. unfold finalizeRound, mbind, proc_bind, runtime. pose proof (finalize_frame (prt s) (pdb s)) as Hfr.
  destruct (Finalize (prt s) (pdb s)) as [[err r] d] eqn:Hfin. cbn [snd] in Hfr.
  exists (called CallFinalize r d s). split; [by right; exists err, r, d|].
  match goal with |- phases _ _ (?m _).2 => apply (in_phases_one allow_issue anything m) end;
    [|simpl; rewrite Hfr; by eapply objects_ok_same; [|exact Ho]].
  destruct err; [by apply recordIssue_runs|by apply runs_ret].
Qed.

Lemma converge_in_phases oldConfig oldRoster received :
  (forall body, DocDirectives received = Some body -> quota_typed body) ->
  in_phases (converge_phases (DocConfig received) (DocRoster received))
    (converge options issueMS nowMS oldConfig oldRoster received).
Proof.
  intros Ht. unfold converge, converge_phases. eapply in_phases_query; [phases_tac|]. intros configVersion.
  eapply in_phases_query; [phases_tac|]. intros rosterVersion.
  eapply in_phases_runs; [phases_tac|apply when_doc_runs; intros body _; apply materialise_runs|]. intros _ _.
  eapply in_phases_runs with (Q := anything); [phases_tac| |intros _ _].
  { destruct (DocDirectives received) as [body|]; [|by apply runs_ret]. by apply applyDirectives_runs, Ht. }
  eapply in_phases_runs; [phases_tac|apply enterRound_runs|]. intros scoped _.
  eapply in_phases_runs; [phases_tac|apply when_doc_runs|]; [|intros _ _].
  { intros body ->. eapply runs_then_runs, upsertListeners_then. }
  eapply (in_phases_bind [path _; path _] _ [path _; at_most_once _; path _; path _]); [phases_tac..| |intros _].
  { unfold when_doc. destruct (DocRoster received); [|eapply in_phases_skip; phases_tac].
    destruct (VZero rosterVersion); [eapply in_phases_skip; phases_tac|]. apply applyRoster_phases. }
  eapply in_phases_runs; [phases_tac|apply when_doc_runs|]; [|intros _ _].
  { intros body ->. apply removeListeners_runs. }
  eapply (in_phases_bind [at_most_once _; path _] _ [path _]); [phases_tac..| |intros _].
  { destruct scoped; [apply finalizeRound_phases|eapply in_phases_skip; phases_tac]. }
  eapply in_phases_one, recordObjectTimeouts_runs.
Qed.

(** Before the convergence: tasks, documents and issues. *)
Definition allow_before (l : label) : Prop := match l with LQuiet | LIssue | LTasks | LStream => True | _ => False end.

Definition directives_typed (response : SyncResponse) : Prop :=
  (forall raw body, UnmarshalBody raw = Some body -> quota_typed body) /\
  (forall body, SBody (RespDirectives (RespSegments response)) = Some body -> quota_typed body).

Lemma receiveSegment_body {T} `{BodyCodec T} db stream seg atMS validate r d body :
  receiveSegment (T := T) db stream seg atMS validate = Ok (r, d) -> RBody r = Some body ->
  (exists raw, UnmarshalBody raw = Some body) \/ SBody seg = Some body.
Proof.
  unfold receiveSegment. intros (current & Hcur & Hr)%bind_Ok.
  assert (forall b, current = Some b -> exists raw, UnmarshalBody raw = Some b) as Hold.
  { intros b ->. destruct (loadStoredBody db stream) as [b'|[]] eqn:Hl; try done. injection Hcur as ->.
    apply loadStoredBody_Ok in Hl as (doc & _ & Hb). eauto. }
  assert (forall b1 b2 f d', @Ok error _ (MkReceived current b1 b2 f, d') = Ok (r, d) -> RBody r = Some body ->
    (exists raw, UnmarshalBody raw = Some body) \/ SBody seg = Some body) as Hkeep.
  { intros b1 b2 f d' [= <- <-] Hb. left. by apply Hold. }
  destruct (Committed _); cbn [negb] in Hr; [|by eapply Hkeep]. case_decide; [by eapply Hkeep|]. destruct (SUnchanged seg).
  - destruct (SBody seg); [by eapply Hkeep|]. destruct current; [|by eapply Hkeep]. apply bind_Ok in Hr as (doc & _ & Hr).
    case_decide; [apply bind_Ok in Hr as (d' & _ & Hr); by eapply Hkeep|]. destruct (Newer _ _); [by eapply Hkeep|].
    destruct (Converged _ _); cbn [negb] in Hr; by eapply Hkeep.
  - destruct (SBody seg) as [b|] eqn:Hsb; [|by eapply Hkeep]. destruct (validate _); [|by eapply Hkeep].
    destruct (MarshalBody b); [|by eapply Hkeep]. destruct (SaveStream _ _) as [d'|e]; [injection Hr as <- <-; by right|].
    destruct (isValidationError e); [by eapply Hkeep|done].
Qed.

Lemma Receive_typed db response now received d :
  directives_typed response -> Receive unicodeToLower Load db (RespSegments response) now = (Ok received, d) ->
  forall body, DocDirectives received = Some body -> quota_typed body.
Proof.
  intros [Hraw Hseg] Hr body Hb. unfold Receive in Hr. destruct (receiveConfig _ _ _ _ _) as [[c d1]|e]; [|done].
  destruct (receiveRoster _ _ _) as [[r d2]|e]; [|done]. destruct (receiveDirectives _ _ _) as [[x d3]|e] eqn:Hd; [|done].
  injection Hr as <- <-. destruct (receiveSegment_body _ _ _ _ _ _ _ _ Hd Hb) as [[raw Hu]|Hs]; eauto.
Qed.

(** A bind inside a run: it stops there, or goes on after the first part. *)
Lemma bind_next {A B} (allowed : label -> Prop) (Q : A -> Prop) (m : proc R A) (f : A -> proc R B) s0 s :
  runs allowed Q m -> path allowed s0 s -> objects_ok (pdb s) ->
  (path allowed s0 ((m ≫= f) s).2 /\ is_Ok ((m ≫= f) s).1 = false) \/
  exists a s1, m s = (Ok a, s1) /\ (m ≫= f) s = f a s1 /\ path allowed s0 s1 /\ Q a /\ objects_ok (pdb s1).
Proof.
  intros Hm Hs Ho. destruct (Hm s Ho) as [Hp Ha]. unfold mbind, proc_bind. destruct (m s) as [[a|e] s1]; [right|left].
  - exists a, s1. split_and!; try done; [by etrans|by apply Ha|by eapply path_objects_ok].
  - split; [by etrans|done].
Qed.

(** The next bind of the goal's computation, run at [s] after a path from [s0]. *)
Ltac step_bind allowed Hp Ho Hrun :=
  match type of Hp with path _ ?s0 ?s =>
  match goal with |- context [(?m ≫= ?f) s] =>
    let a := fresh "a" in let s1 := fresh "s" in let Hstop := fresh "Hstop" in
    let Hp1 := fresh "Hp" in let Ho1 := fresh "Ho" in let Heq := fresh "Heq" in
    destruct (bind_next allowed anything m f s0 s) as [Hstop|(a & s1 & Hrun & Heq & Hp1 & _ & Ho1)];
    [ |exact Hp|exact Ho| |rewrite Heq; clear Hp Ho Heq; rename Hp1 into Hp, Ho1 into Ho]
  end end.

Lemma resetOnError_runs {A} (allowed : label -> Prop) (Q : A -> Prop) (m : proc R A) :
  allowed LQuiet -> runs allowed Q m -> runs allowed Q (resetOnError m).
Proof.
  intros Hl Hm s Ho. destruct (Hm s Ho) as [Hp Ha]. unfold resetOnError. destruct (m s) as [[a|e] s1]; [done|].
  split; [|done]. etrans; [exact Hp|]. by eapply path_step; [|by apply st_quiet].
Qed.

Lemma allow_tasks_before l : allow_tasks l -> allow_before l.
Proof. by destruct l. Qed.

(** No phase before the reception of the documents writes a stream, and none
    after it. *)
Lemma path_streams (allowed : label -> Prop) s s' :
  (forall l, allowed l -> l <> LStream) -> path allowed s s' -> stream_documents (pdb s') = stream_documents (pdb s).
Proof.
  intros Hne Hp. apply (path_inv allowed (fun x => stream_documents (pdb x) = stream_documents (pdb s)) s s'); [|done|done].
  intros l x y Hl Hs <-. destruct (step_frame _ _ _ Hs) as (_ & Hst & _). by apply Hst, Hne.
Qed.

(** Reception depends on the stored documents alone. *)
Lemma Receive_local a b response now received d :
  stream_documents a = stream_documents b -> Receive unicodeToLower Load a response now = (Ok received, d) ->
  exists d', Receive unicodeToLower Load b response now = (Ok received, d') /\
    stream_documents d' !! StreamConfig = stream_documents d !! StreamConfig /\
    stream_documents d' !! StreamRoster = stream_documents d !! StreamRoster.
Proof.
  intros Hab Hr. assert (forall s, stream_documents a !! s = stream_documents b !! s) as Hrow by (intros; by rewrite Hab).
  pose proof (Receive_streams_independent unicodeToLower Load a response now) as Ha.
  pose proof (Receive_streams_independent unicodeToLower Load b response now) as Hb. cbv zeta in Ha, Hb. rewrite Hr in Ha.
  unfold receiveConfig, receiveRoster, receiveDirectives in Ha, Hb.
  pose proof (receiveSegment_local (validateConfig unicodeToLower Load) a b StreamConfig (Hrow _) (RespConfig response) (now StreamConfig)) as Lc.
  pose proof (receiveSegment_local validateRoster a b StreamRoster (Hrow _) (RespRoster response) (now StreamRoster)) as Lr.
  pose proof (receiveSegment_local validateDirectives a b StreamDirectives (Hrow _) (RespDirectives response) (now StreamDirectives)) as Ld.
  destruct (receiveSegment a StreamConfig _ _ _) as [[c1 dc1]|], (receiveSegment b StreamConfig _ _ _) as [[c2 dc2]|]; try done.
  destruct (receiveSegment a StreamRoster _ _ _) as [[r1 dr1]|], (receiveSegment b StreamRoster _ _ _) as [[r2 dr2]|]; try done.
  destruct (receiveSegment a StreamDirectives _ _ _) as [[x1 dx1]|], (receiveSegment b StreamDirectives _ _ _) as [[x2 dx2]|]; try done.
  destruct Lc as [-> Ec], Lr as [-> Er], Ld as [-> Ed]. destruct Ha as (da & [= -> ->] & Hac & Har & _).
  destruct Hb as (db & Hdb & Hbc & Hbr & _). exists db. split_and!; [done|congruence|congruence].
Qed.

(** A round that gets past the reception continues as [converge]. *)
Lemma Process_split response s :
  objects_ok (pdb s) ->
  let r := Process unicodeToLower Load options issueMS nowMS response s in
  (path allow_before s r.2 /\ is_Ok r.1 = false) \/
  exists received d1 oldConfig oldRoster s1,
    Receive unicodeToLower Load (pdb s) (RespSegments response) (fun _ => nowMS) = (Ok received, d1) /\
    stream_documents (pdb s1) !! StreamConfig = stream_documents d1 !! StreamConfig /\
    stream_documents (pdb s1) !! StreamRoster = stream_documents d1 !! StreamRoster /\
    path allow_before s s1 /\ prt s1 = prt s /\ objects_ok (pdb s1) /\
    r = converge options issueMS nowMS oldConfig oldRoster received s1.
Proof.
  intros Ho. cbv zeta.
  assert (forall x y, path allow_tasks x y -> prt y = prt x /\ stream_documents (pdb y) = stream_documents (pdb x)) as Hkeep.
  { intros x y Hp. split; [|by eapply path_streams; [|exact Hp]; intros []].
    apply (path_inv allow_tasks (fun z => prt z = prt x) x y); [|done|done]. intros l a b Hl Hs <-.
    destruct (step_frame _ _ _ Hs) as (_ & _ & _ & _ & _ & _ & _ & Hprt). by destruct l. }
  assert (path allow_tasks s s) as Hp by apply rtc_refl.
  assert (forall x, path allow_tasks s (x : _ * pstate R).2 /\ is_Ok (x : res error unit * _).1 = false ->
    path allow_before s x.2 /\ is_Ok x.1 = false) as Hfail by (intros x [? ?]; split; [by eapply path_mono; [apply allow_tasks_before|]|done]).
  pose proof Ho as Ho0. unfold Process. step_bind allow_tasks Hp Ho Hrun; [by apply runs_quiet|by left; apply Hfail|].
  destruct (decide (nowMS ≤ 0)); [left; by apply Hfail|].
  step_bind allow_tasks Hp Ho Hrun2; [by apply acceptResponseTasks_runs|by left; apply Hfail|].
  step_bind allow_tasks Hp Ho Hrun3; [destruct (_ && _); [by apply runs_quiet|by apply runs_ret]|by left; apply Hfail|].
  step_bind allow_tasks Hp Ho Hrun4; [apply resetOnError_runs; [done|by apply runs_query]|by left; apply Hfail|].
  step_bind allow_tasks Hp Ho Hrun5; [apply resetOnError_runs; [done|by apply runs_query]|by left; apply Hfail|].
  destruct (Hkeep _ _ Hp) as [Hprt Hdocs]. apply (path_mono _ allow_before) in Hp; [|apply allow_tasks_before].
  match goal with |- context [(resetOnError (receive _ _ _ _) ≫= _) ?x] => rename x into sr end.
  step_bind allow_before Hp Ho Hrun6.
  { apply resetOnError_runs; [done|]. eapply runs_mono; [|done|apply receive_runs]. by intros l ->. }
  { by left. }
  match type of Hrun6 with _ = (Ok ?x, ?y) => rename x into received, y into s6 end.
  assert (exists d1, Receive unicodeToLower Load (pdb sr) (RespSegments response) (fun _ => nowMS) = (Ok received, d1) /\ s6 = setDB d1 sr)
    as (d1 & Hrecv & ->).
  { unfold resetOnError, receive in Hrun6. destruct (Receive _ _ _ _ _) as [[x|e] d]; [|done]. injection Hrun6 as <- <-. by exists d. }
  step_bind allow_before Hp Ho Hrun7; [by apply runs_quiet|by left|]. injection Hrun7 as <- <-.
  match goal with |- context [(each _ _ ≫= _) ?x] => assert (path allow_issue x x) as Hpi by apply rtc_refl end.
  step_bind allow_issue Hpi Ho Hrun8; [apply runs_each; intros failure _; by apply recordIssue_runs| |].
  { left. destruct Hstop as [Hs He]. split; [|done]. etrans; [exact Hp|]. by eapply path_mono; [|exact Hs]; intros []. }
  match type of Hrun8 with _ = (_, ?y) => rename y into s8 end. right.
  destruct (Receive_local _ _ _ _ _ _ Hdocs Hrecv) as (d & Hrecv' & Hrc & Hrr).
  assert (stream_documents (pdb s8) = stream_documents d1) as Hs8 by (by eapply (path_streams allow_issue) in Hpi; [|intros []]).
  exists received, d. do 2 eexists. exists s8. rewrite Hs8. split_and!; [done|done|done| | |done|done].
  - etrans; [exact Hp|]. by eapply path_mono; [|exact Hpi]; intros [].
  - apply (path_mono _ allow_tasks) in Hpi; [|by intros []]. destruct (Hkeep _ _ Hpi) as [-> _]. exact Hprt.
Qed.

(** *** What a successful round did *)

Lemma bind_run {A B} (m : proc R A) (f : A -> proc R B) s b s' :
  (m ≫= f) s = (Ok b, s') -> exists a s1, m s = (Ok a, s1) /\ f a s1 = (Ok b, s').
Proof. unfold mbind, proc_bind. destruct (m s) as [[a|e] s1]; [eauto|done]. Qed.

Lemma runs_ok {A} (allowed : label -> Prop) (Q : A -> Prop) (m : proc R A) s a s' :
  runs allowed Q m -> objects_ok (pdb s) -> m s = (Ok a, s') -> path allowed s s' /\ objects_ok (pdb s') /\ Q a.
Proof.
  intros Hm Ho Hr. destruct (Hm s Ho) as [Hp Ha]. rewrite Hr in Hp, Ha. split_and!; [done|by eapply path_objects_ok|by apply Ha].
Qed.

Lemma phases_ok {A} ps als (m : proc R A) s a s' :
  Phases ps als -> in_phases ps m -> objects_ok (pdb s) -> m s = (Ok a, s') ->
  path (fun l => exists al, al ∈ als /\ al l) s s' /\ objects_ok (pdb s').
Proof.
  intros Hps Hm Ho Hr. specialize (Hm s Ho). rewrite Hr in Hm. apply (phases_path _ _ _ _ Hps) in Hm.
  split; [done|by eapply path_objects_ok].
Qed.

(** The states between the phases of a successful [converge]. *)
Record converged (received : ReceivedDocuments) (oldConfig : option ConfigBody) (oldRoster : option RosterBody) (s s' : pstate R) : Prop := {
  cv_run : exists configVersion rosterVersion scoped s2 s3 s4 s5 s6 s7,
    optionalStreamVersion StreamConfig (pdb s) = Ok configVersion /\ optionalStreamVersion StreamRoster (pdb s) = Ok rosterVersion /\
    path allow_prepare s s2 /\ objects_ok (pdb s2) /\
    (forall body client, DocRoster received = Some body -> VZero rosterVersion = false -> client ∈ RosClients body ->
       has_client (WCKey client) s2) /\
    enterRound s2 = (Ok scoped, s3) /\
    when_doc (DocConfig received) configVersion (fun body => upsertListeners nowMS oldConfig body configVersion) s3 = (Ok tt, s4) /\
    when_doc (DocRoster received) rosterVersion (fun body =>
      applyRoster options issueMS nowMS oldRoster body rosterVersion (DocConfig received) configVersion (ConfigChanged received)) s4
      = (Ok tt, s5) /\
    when_doc (DocConfig received) configVersion (fun body => removeListeners nowMS body configVersion) s5 = (Ok tt, s6) /\
    (if scoped : bool then finalizeRound issueMS configVersion rosterVersion else mret tt) s6 = (Ok tt, s7) /\
    recordObjectTimeouts options issueMS nowMS s7 = (Ok tt, s')
}.

Lemma converge_run oldConfig oldRoster received s s' :
  (forall body, DocDirectives received = Some body -> quota_typed body) -> objects_ok (pdb s) ->
  converge options issueMS nowMS oldConfig oldRoster received s = (Ok tt, s') -> converged received oldConfig oldRoster s s'.
Proof.
  intros Ht Ho Hr. unfold converge in Hr.
  apply bind_run in Hr as (cv & sa & [= Hcv <-] & Hr). apply bind_run in Hr as (rv & sb & [= Hrv <-] & Hr).
  apply bind_run in Hr as ([] & s1 & Hmat & Hr). apply bind_run in Hr as ([] & s2 & Hdir & Hr).
  apply bind_run in Hr as (scoped & s3 & Hent & Hr). apply bind_run in Hr as ([] & s4 & Hup & Hr).
  apply bind_run in Hr as ([] & s5 & Hros & Hr). apply bind_run in Hr as ([] & s6 & Hrem & Hr).
  apply bind_run in Hr as ([] & s7 & Hfin & Hr).
  assert (forall body client, DocRoster received = Some body -> VZero rv = false -> client ∈ RosClients body ->
    has_client (WCKey client) s1) as Hrows.
  { intros body client Hdoc Hz Hin. rewrite Hdoc in Hmat. cbn [when_doc] in Hmat. rewrite Hz in Hmat.
    destruct (materialise_then body s Ho) as [_ Hrows]. rewrite Hmat in Hrows. by apply (Hrows tt). }
  eapply runs_ok in Hmat as (Hp1 & Ho1 & _); [|apply when_doc_runs; intros body _; apply materialise_runs|done].
  eapply (runs_ok allow_prepare anything) in Hdir as (Hp2 & Ho2 & _); [| |exact Ho1].
  2: { destruct (DocDirectives received) as [body|]; [|by apply runs_ret]. by apply applyDirectives_runs, Ht. }
  split. exists cv, rv, scoped, s2, s3, s4, s5, s6, s7. split_and!; try done; [by etrans|].
  intros body client Hdoc Hz Hin. eapply path_has_client; [|exact Hp2|by eapply Hrows].
  intros [| | | | |[]| | | | | |] Hl; done.
Qed.

(** *** The order of the runtime's calls *)

Definition isFinalize (c : RuntimeCall) : bool := match c with CallFinalize => true | _ => false end.
Definition finalizes (s : pstate R) : nat := length (filter (fun c => isFinalize c = true) (calls s)).

Lemma path_finalizes (allowed : label -> Prop) s s' : ~ allowed (LCall CallFinalize) -> path allowed s s' -> finalizes s' = finalizes s.
Proof.
  intros Hn Hp. destruct (path_calls _ _ _ Hp) as (cs & Hcs & Hall). unfold finalizes. rewrite Hcs, filter_app, length_app.
  assert (filter (fun c => isFinalize c = true) cs = []) as ->; [|simpl; lia].
  clear Hcs. induction Hall as [|c cs Hc _ IH]; [done|]. rewrite filter_cons_False; [done|]. by destruct c.
Qed.

Lemma path_no_calls (allowed : label -> Prop) s s' : (forall c, ~ allowed (LCall c)) -> path allowed s s' -> calls s' = calls s.
Proof.
  intros Hn Hp. destruct (path_calls _ _ _ Hp) as ([|c cs] & Hcs & Hall); [by rewrite app_nil_r in Hcs|].
  apply Forall_cons in Hall as [Hc _]. by apply Hn in Hc.
Qed.

Lemma path_prt (allowed : label -> Prop) s s' :
  ~ allowed LEnter -> (forall c, ~ allowed (LCall c)) -> path allowed s s' -> prt s' = prt s.
Proof.
  intros Hn Hc Hp. apply (path_inv allowed (fun x => prt x = prt s) s s'); [|done|done]. intros l x y Hl Hs <-.
  destruct (step_frame _ _ _ Hs) as (_ & _ & _ & _ & _ & _ & _ & Hprt). destruct l; try done. by apply Hc in Hl.
Qed.

Definition scopedRuns (r : R) : nat := match NewRound r with Some _ => 1 | None => 0 end.

Lemma converge_finalizes oldConfig oldRoster received s s' :
  objects_ok (pdb s) -> converged received oldConfig oldRoster s s' -> finalizes s' = (finalizes s + scopedRuns (prt s))%nat.
Proof.
  intros Ho [(cv & rv & scoped & s2 & s3 & s4 & s5 & s6 & s7 & _ & _ & Hp2 & Ho2 & _ & Hent & Hup & Hros & Hrem & Hfin & Htim)].
  eapply runs_ok in Hent as Hent'; [|apply enterRound_runs|exact Ho2]. destruct Hent' as (Hp3 & Ho3 & _).
  eapply (runs_ok (on_doc allow_listeners (DocConfig received))) in Hup as (Hp4 & Ho4 & _); [| |exact Ho3].
  2: { apply when_doc_runs. intros body ->. eapply runs_then_runs, upsertListeners_then. }
  eapply (phases_ok [path _; path _]) in Hros as (Hp5 & Ho5); [|phases_tac| |exact Ho4].
  2: { instantiate (1 := on_doc allow_client_removal (DocRoster received)). instantiate (1 := on_doc allow_clients (DocRoster received)).
    unfold when_doc. destruct (DocRoster received); [|eapply in_phases_skip; phases_tac].
    destruct (VZero rv); [eapply in_phases_skip; phases_tac|]. apply applyRoster_phases. }
  eapply (runs_ok (on_doc allow_listener_removal (DocConfig received))) in Hrem as (Hp6 & Ho6 & _); [| |exact Ho5].
  2: { apply when_doc_runs. intros body ->. apply removeListeners_runs. }
  assert (objects_ok (pdb s7) /\ finalizes s7 = (finalizes s6 + if scoped then 1 else 0)%nat) as [Ho7 Hf7].
  { destruct scoped; [|injection Hfin as <-; split; [done|lia]]. unfold finalizeRound, runtime in Hfin.
    apply bind_run in Hfin as (err & sx & Hx & Hfin). pose proof (finalize_frame (prt s6) (pdb s6)) as Hfr.
    destruct (Finalize (prt s6) (pdb s6)) as [[err' r] d]. injection Hx as <- <-. cbn [snd] in Hfr.
    eapply (runs_ok allow_issue anything) in Hfin as (Hpf & Hof & _); [| |simpl; rewrite Hfr; by eapply objects_ok_same; [|exact Ho6]].
    2: { destruct err'; [by apply recordIssue_runs|by apply runs_ret]. }
    split; [done|]. apply path_no_calls in Hpf; [|intros c Hc; exact Hc]. unfold finalizes. rewrite Hpf. cbn [calls].
    rewrite filter_app, length_app. done. }
  eapply runs_ok in Htim as (Hp8 & _); [|apply recordObjectTimeouts_runs|done].
  pose proof Hp2 as Hprt. apply path_prt in Hprt; [|by intros []|by intros c []].
  apply path_finalizes in Hp2; [|by intros []]. apply path_finalizes in Hp3; [|done].
  apply path_finalizes in Hp4; [|destruct (DocConfig received); intros []]. apply path_finalizes in Hp6; [|destruct (DocConfig received); intros []].
  apply path_finalizes in Hp5.
  2: { intros (al & Hal & Hl). apply elem_of_cons in Hal as [->|Hal]; [destruct (DocRoster received); destruct Hl|].
       apply list_elem_of_singleton in Hal as ->. destruct (DocRoster received); destruct Hl. }
  apply path_finalizes in Hp8; [|by intros []].
  unfold enterRound in Hent. unfold scopedRuns. rewrite <-Hprt.
  destruct (NewRound (prt s2)) as [[r|]|]; [injection Hent as <- <-|done|injection Hent as <- <-]; lia.
Qed.

(** The calls of one round, in five groups. *)
Record round_calls (config : option ConfigBody) (roster : option RosterBody) (cs : list RuntimeCall) (finalized : bool) : Prop := {
  rc_groups : exists upserted attached detached removed,
    cs = upserted ++ attached ++ detached ++ removed ++ (if finalized then [CallFinalize] else []) /\
    Forall (fun c => exists body listener,
      config = Some body /\ listener ∈ CfgListeners body /\ c = CallUpsertListener listener) upserted /\
    Forall (fun c => exists body client keys,
      roster = Some body /\ client ∈ RosClients body /\ keys `sublist_of` WCListeners client /\
      c = CallUpsertClient (withListeners client keys)) attached /\
    Forall (fun c => exists body key,
      roster = Some body /\ key ∉ WCKey <$> RosClients body /\ c = CallRemoveClient key) detached /\
    Forall (fun c => exists body key,
      config = Some body /\ key ∉ WLKey <$> CfgListeners body /\ c = CallRemoveListener key) removed
}.

Lemma removal_calls_clients roster c :
  on_doc allow_client_removal roster (LCall c) ->
  exists body key, roster = Some body /\ key ∉ WCKey <$> RosClients body /\ c = CallRemoveClient key.
Proof.
  destruct roster as [body|]; [|done]. destruct c as [| |key|key|]; try done; intros [Hs Hk]; [|done].
  exists body, key. split_and!; try done. intros Hin. apply Hk. by apply elem_of_list_to_set.
Qed.

Lemma removal_calls_listeners config c :
  on_doc allow_listener_removal config (LCall c) ->
  exists body key, config = Some body /\ key ∉ WLKey <$> CfgListeners body /\ c = CallRemoveListener key.
Proof.
  destruct config as [body|]; [|done]. destruct c as [| |key|key|]; try done; intros [Hs Hk]; [done|].
  exists body, key. split_and!; try done. intros Hin. apply Hk. by apply elem_of_list_to_set.
Qed.

Lemma converge_calls config roster s s' :
  phases (converge_phases config roster) s s' ->
  exists cs finalized, calls s' = calls s ++ cs /\ round_calls config roster cs finalized.
Proof.
  intros (x1 & P1 & x2 & P2 & x3 & P3 & x4 & P4 & x5 & P5 & x6 & P6 & x7 & P7 & x8 & P8 & x9 & P9 & x10 & P10 & ->).
  apply path_no_calls in P1, P2, P3, P9, P10; [|intros c Hc; done..].
  apply path_calls in P4 as (ul & E4 & A4). apply path_calls in P5 as (uc & E5 & A5).
  apply path_calls in P6 as (rc & E6 & A6). apply path_calls in P7 as (rl & E7 & A7).
  assert (exists finalized : bool, calls x8 = calls x7 ++ if finalized then [CallFinalize] else []) as [finalized E8].
  { destruct P8 as [->|(err & r & d & _ & ->)]; [exists false; by rewrite app_nil_r|by exists true]. }
  exists (ul ++ uc ++ rc ++ rl ++ (if finalized then [CallFinalize] else [])), finalized. split.
  { rewrite P10, P9, E8, E7, E6, E5, E4, P3, P2, P1. by rewrite <-!app_assoc. }
  split. exists ul, uc, rc, rl. split_and!; [done|..].
  - eapply Forall_impl; [exact A4|]. intros c Hc. destruct config as [body|]; [|done]. destruct c; try done. by eauto.
  - eapply Forall_impl; [exact A5|]. intros c Hc. destruct roster as [body|]; [|done]. destruct c; try done.
    destruct Hc as (client0 & keys & Hin & Hsub & ->). eauto 10.
  - eapply Forall_impl; [exact A6|]. apply removal_calls_clients.
  - eapply Forall_impl; [exact A7|]. apply removal_calls_listeners.
Qed.

Lemma round_calls_finalizes config roster cs finalized :
  round_calls config roster cs finalized -> length (filter (fun c => isFinalize c = true) cs) = if finalized then 1%nat else 0%nat.
Proof.
  intros [(ul & uc & rc & rl & -> & A1 & A2 & A3 & A4)]. rewrite !filter_app, !length_app.
  assert (forall l, Forall (fun c => isFinalize c = false) l -> length (filter (fun c => isFinalize c = true) l) = 0%nat) as Hnil.
  { intros l. induction 1 as [|c l Hc _ IH]; [done|]. rewrite filter_cons_False; [done|]. by rewrite Hc. }
  rewrite (Hnil ul), (Hnil uc), (Hnil rc), (Hnil rl); [by destruct finalized|..];
    (eapply Forall_impl; [eassumption|]); intros c Hc; naive_solver.
Qed.

(** C9. The calls of a round are ordered and justified by its documents.  Whatever
    [Process] returns, the calls it made on the runtime are, in this order:
    upserts of listeners of the received config; upserts of clients of the
    received roster, each with some of its own listeners in their order; removals
    of clients the roster does not have; removals of listeners the config does not
    have; and at most one [Finalize].  A successful round calls [Finalize] exactly
    when the runtime is round-scoped.  So a client is detached before any listener
    goes, and nothing a document wants is removed. *)
Theorem round_calls_ordered response s :
  objects_ok (pdb s) -> directives_typed response ->
  let '(r, s') := Process unicodeToLower Load options issueMS nowMS response s in
  exists cs finalized config roster,
    calls s' = calls s ++ cs /\ round_calls config roster cs finalized /\
    (cs = [] \/ exists received d1,
       Receive unicodeToLower Load (pdb s) (RespSegments response) (fun _ => nowMS) = (Ok received, d1) /\
       config = DocConfig received /\ roster = DocRoster received) /\
    (is_Ok r = true -> finalized = bool_decide (is_Some (NewRound (prt s)))).
Proof.
  intros Ho Ht. pose proof (Process_split response s Ho) as Hsplit.
  destruct (Process unicodeToLower Load options issueMS nowMS response s) as [r s'] eqn:Hrun. cbn [fst snd] in Hsplit.
  destruct Hsplit as [[Hp Hr]|(received & d1 & oc & or & s1 & Hrecv & _ & _ & Hp & Hprt & Ho1 & Heq)].
  - apply path_no_calls in Hp; [|by intros c []]. exists [], false, None, None. rewrite app_nil_r. split_and!; [done| |by left|].
    + split. by exists [], [], [], [].
    + by rewrite Hr.
  - pose proof (Receive_typed _ _ _ _ _ Ht Hrecv) as Htyped. pose proof (converge_in_phases oc or received Htyped s1 Ho1) as Hph.
    rewrite <-Heq in Hph. cbn [snd] in Hph. apply path_no_calls in Hp; [|by intros c []].
    destruct (converge_calls _ _ _ _ Hph) as (cs & finalized & Hcs & Hgroups). rewrite Hp in Hcs.
    exists cs, finalized, (DocConfig received), (DocRoster received). split_and!; [done|done|right; eauto 10|].
    intros Hok. destruct r as [[]|e]; [|done]. symmetry in Heq. apply converge_run in Heq; [|done..].
    apply converge_finalizes in Heq; [|done]. unfold finalizes in Heq. rewrite Hcs, Hp, filter_app, length_app, Hprt in Heq.
    rewrite (round_calls_finalizes _ _ _ _ Hgroups) in Heq. unfold scopedRuns in Heq.
    destruct (NewRound (prt s)), finalized; simpl in *; lia || done.
Qed.

(** *** The store across a round *)

(** The invariants of the components together. *)
Record node_ok (db : DB) : Prop := {
  no_streams : streams_ok db;
  no_clients : clients_ok db;
  no_journal : journal_ok db;
  no_objects : objects_ok db
}.

Lemma journal_ok_ext db d :
  task_executions d = task_executions db -> report_outbox d = report_outbox db -> outbox_seq d = outbox_seq db ->
  journal_ok db -> journal_ok d.
Proof. intros Ht Hr Hs [A B C D E]. split; rewrite ?Ht, ?Hr, ?Hs; done. Qed.

Lemma step_journal l s s' : round_step l s s' -> journal_ok (pdb s) -> journal_step task_flag (pdb s) (pdb s').
Proof.
  intros Hs Hj.
  assert (l = LTasks \/ l = LIssue \/ (l <> LTasks /\ l <> LIssue)) as [->|[->|[Hn1 Hn2]]] by (destruct l; naive_solver).
  - inversion Hs; subst. by eapply AcceptTasksFenced_step.
  - inversion Hs; subst. by eapply EnqueueIssue_step.
  - destruct (step_frame _ _ _ Hs) as (_ & _ & Hjr & _). destruct (Hjr Hn1 Hn2) as (Ht & Hr & Hq). split.
    + by eapply journal_ok_ext.
    + intros id t Hid. exists t. rewrite Ht. split; [done|apply rtc_refl].
Qed.

Lemma step_clients_ok l s s' : round_step l s s' -> clients_ok (pdb s) -> clients_ok (pdb s').
Proof.
  intros Hs Hc. assert ((exists op, l = LClient op) \/ forall op, l <> LClient op) as [[op ->]|Hn] by (destruct l; naive_solver).
  - inversion Hs; subst. by eapply run_op_clients_ok.
  - destruct (step_frame _ _ _ Hs) as (_ & _ & _ & Hcl & _). unfold clients_ok. by rewrite Hcl.
Qed.

Lemma step_streams l s s' : round_step l s s' -> stream_documents (pdb s') = stream_documents (pdb s) \/ stream_step (pdb s) (pdb s').
Proof.
  intros Hs. assert (l = LStream \/ l <> LStream) as [->|Hn] by (destruct l; naive_solver).
  - inversion Hs; subst. by right.
  - left. destruct (step_frame _ _ _ Hs) as (_ & Hst & _). by apply Hst.
Qed.

Lemma step_streams_ok `{!ProtocolLaws} l s s' :
  round_step l s s' -> streams_ok (pdb s) -> streams_ok (pdb s') /\ db_progress (pdb s) (pdb s').
Proof.
  intros Hs Hok. destruct (step_streams _ _ _ Hs) as [Heq|Hst].
  - unfold streams_ok, db_progress. rewrite Heq. split; [done|]. intros k r Hr. exists r. split; [done|apply row_progress_refl].
  - split; [by eapply stream_step_ok|by apply stream_step_progress].
Qed.

(** What became of a client: still there, or handed to the runtime for removal. *)
Definition client_kept (s s' : pstate R) : Prop :=
  forall k c, client_runtime (pdb s) !! k = Some c ->
    (exists c', client_runtime (pdb s') !! k = Some c' /\ Subject c' = Subject c /\ counters_forward c c') \/
    CallRemoveClient k ∈ calls s'.

Lemma step_client_kept l s0 s s' : round_step l s s' -> client_kept s0 s -> client_kept s0 s'.
Proof.
  intros Hs Hk k c Hc. destruct (step_frame _ _ _ Hs) as (_ & _ & _ & _ & _ & _ & Hcalls & _).
  destruct (Hk k c Hc) as [(c1 & Hc1 & Hsub & Hf)|Hin]; [|right; rewrite Hcalls; set_solver].
  assert (l = LClient (OpDelete k) \/ l <> LClient (OpDelete k)) as [->|Hn].
  { destruct l as [| | | | |op| | | | | |]; try (by right). destruct op as [| | | | |k']; try (by right).
    destruct (decide (k' = k)) as [->|]; [by left|right; congruence]. }
  - right. inversion Hs; subst. simpl in *. eauto.
  - left. destruct (step_client _ _ _ _ _ Hs Hn Hc1) as (c2 & Hc2 & Hsub2 & Hf2). exists c2. split_and!; [done|congruence|].
    by eapply counters_forward_trans.
Qed.

Lemma core_same_trans a b c : core_same a b -> core_same b c -> core_same a c.
Proof. intros (?&?&?&?&?) (?&?&?&?&?). unfold core_same. split_and!; congruence. Qed.

Lemma Process_path response s :
  objects_ok (pdb s) -> directives_typed response ->
  path (fun _ => True) s (Process unicodeToLower Load options issueMS nowMS response s).2.
Proof.
  intros Ho Ht. destruct (Process_split response s Ho) as [[Hp _]|(received & d1 & oc & or & s1 & Hrecv & _ & _ & Hp & _ & Ho1 & ->)].
  - by eapply path_mono; [|exact Hp].
  - etrans; [by eapply path_mono; [|exact Hp]|]. pose proof (Receive_typed _ _ _ _ _ Ht Hrecv) as Htyped.
    eapply path_mono; [|eapply phases_path; [apply converge_Phases|by apply (converge_in_phases oc or received Htyped s1 Ho1)]]. done.
Qed.

(** C10. A round keeps the store's invariants on every exit.  Whatever the response,
    the runtime and the object state machine do, and whether [Process] succeeds or
    stops at an error half way, every table stays well formed; no stream goes back
    to an older document; no journalled task changes but for its delivery flag; the
    core's counter epoch, traffic stream, connections and totals are untouched, while
    its deployment record may be rewritten by the runtime; and a client either keeps
    its subject and its counters or was handed to the runtime for removal. *)
Theorem round_keeps_store `{!ProtocolLaws} response s :
  node_ok (pdb s) -> directives_typed response -> calls s = [] ->
  let s' := (Process unicodeToLower Load options issueMS nowMS response s).2 in
  node_ok (pdb s') /\ db_progress (pdb s) (pdb s') /\ tasks_evolve task_flag (pdb s) (pdb s') /\
  core_same (pdb s) (pdb s') /\ client_kept s s'.
Proof.
  intros Hok Ht Hcalls. cbv zeta. pose proof (Process_path response s (no_objects _ Hok) Ht) as Hp.
  refine (path_inv _ (fun x => node_ok (pdb x) /\ db_progress (pdb s) (pdb x) /\ tasks_evolve task_flag (pdb s) (pdb x) /\
    core_same (pdb s) (pdb x) /\ client_kept s x) _ _ _ Hp _).
  - intros l x y _ Hs ([Hst Hcl Hj Hob] & Hpr & Hev & Hco & Hk).
    destruct (step_streams_ok _ _ _ Hs Hst) as [Hst' Hpr']. destruct (step_journal _ _ _ Hs Hj) as [Hj' Hev'].
    destruct (step_frame _ _ _ Hs) as (Hco' & _). split_and!.
    + split; [done|by eapply step_clients_ok|done|by eapply step_objects_ok].
    + eapply db_progress_trans; [apply Hok|exact Hst|done|done|done].
    + by eapply tasks_evolve_trans.
    + by eapply core_same_trans.
    + by eapply step_client_kept.
  - split_and!; [done|apply db_progress_refl|apply tasks_evolve_refl|done|]. intros k c Hc. left. exists c. split_and!; [done|done|right; lia].
Qed.

(** *** Convergence *)

(** A ledger and the object rows of its stream agree with a document: every key
    of the document has both rows; a ledger row of any other key is one the runtime
    refused to remove; and no object row is left of a key in neither. *)
Record settled (stream : string) (has_row : string -> pstate R -> Prop) (remove : R -> DB -> string -> option RuntimeError * R * DB)
    (desired : list string) (s : pstate R) : Prop := {
  se_rows k : k ∈ desired -> has_row k s /\ has_object stream k s;
  se_rest k : has_row k s -> k ∉ desired -> retrying stream remove k s;
  se_objects k : has_object stream k s -> k ∈ desired \/ has_row k s
}.

Lemma settled_same stream has_row remove desired s s' :
  (forall k, has_row k s' <-> has_row k s) ->
  (forall k, object_status (pdb s') !! (stream, k) = object_status (pdb s) !! (stream, k)) ->
  settled stream has_row remove desired s -> settled stream has_row remove desired s'.
Proof.
  intros Hrow Hobj [A B C]. unfold retrying, has_object in *. split; intros k; unfold retrying, has_object; rewrite ?Hobj, ?Hrow; auto.
Qed.

Lemma sorted_rows_keys {A} (m : gmap string A) :
  NoDup (fst <$> omap (fun k => pair k <$> m !! k) (sorted_keys m)) /\
  forall k, k ∈ (fst <$> omap (fun k => pair k <$> m !! k) (sorted_keys m)) <-> is_Some (m !! k).
Proof.
  assert (fst <$> omap (fun k => pair k <$> m !! k) (sorted_keys m) = sorted_keys m) as ->.
  { assert (forall k, k ∈ sorted_keys m -> is_Some (m !! k)) as Hall by (intros k; apply sorted_keys_elem).
    induction (sorted_keys m) as [|k l IH]; [done|]. destruct (Hall k) as [x Hx]; [by left|]. simpl. rewrite Hx. simpl. f_equal.
    apply IH. intros k' Hk'. apply Hall. by right. }
  split; [apply sorted_keys_NoDup|]. intros k. apply sorted_keys_elem.
Qed.

Lemma applyRoster_settles oldBody body version config configVersion configChanged s s' :
  objects_ok (pdb s) -> applyRoster options issueMS nowMS oldBody body version config configVersion configChanged s = (Ok tt, s') ->
  settled StreamRoster has_client RemoveClient (WCKey <$> RosClients body) s'.
Proof.
  intros Ho Hr. unfold applyRoster in Hr. apply bind_run in Hr as (states & sa & [= _ <-] & Hr).
  apply bind_run in Hr as ([] & s1 & Heach & Hr).
  match type of Heach with ?m ?x = _ => destruct (convergeClients_then (clientMap oldBody) body version configVersion configChanged
    (listenerMap config) states x Ho) as [Hp1 Hrows] end.
  rewrite Heach in Hp1, Hrows. cbn [fst snd] in Hp1, Hrows. specialize (Hrows tt eq_refl).
  assert (objects_ok (pdb s1)) as Ho1 by (by eapply path_objects_ok).
  apply bind_run in Hr as (clients & sb & [= <- <-] & Hr). apply bind_run in Hr as (local & s2 & Hfold & Hprune).
  change (list_to_set (WCKey <$> RosClients body)) with (roster_keys body) in Hfold, Hprune.
  assert (path (allow_removal StreamRoster (roster_keys body)) s1 s') as Hp2.
  { eapply (runs_ok _ (fun _ => True)) in Hfold as (Hp & Ho2 & _); [| |done].
    2: { apply (runs_fold _ (fun _ _ => True)); [done|]. intros seen x k _ _. eapply runs_mono; [done| |apply removeClients_runs]. done. }
    eapply runs_ok in Hprune as (Hp' & _); [|apply pruneOrphanObjectStates_runs|done]. by etrans. }
  destruct (sorted_rows_keys (client_runtime (pdb s1))) as [Hnd Hkeys].
  destruct (removal_settles StreamRoster (roster_keys body) CallRemoveClient RemoveClient DeleteClient (fun k => LClient (OpDelete k)))
    with (ledger := fun db => dom (client_runtime db)) (version := version) (keys := fst <$> Clients (pdb s1)) (s := s1)
      (local := local) (s1 := s2) (s2 := s') as (_ & Hrest & Hobj); try done.
  { apply DeleteClient_step. }
  { intros d k d' ->%DeleteClient_Ok. simpl. by rewrite dom_delete_L. }
  { intros k. unfold Clients. rewrite Hkeys, elem_of_dom. done. }
  split.
  - intros k Hk. apply list_elem_of_fmap in Hk as (client & -> & Hin). eapply keeps_client_rows; [|exact Hp2|by apply Hrows].
    assert (WCKey client ∈ roster_keys body) as Hd by (apply elem_of_list_to_set; by apply list_elem_of_fmap_2).
    intros [] Hl; unfold keeps_object; naive_solver.
  - intros k Hk Hnd'. apply Hrest; [by apply elem_of_dom|]. unfold roster_keys. by rewrite elem_of_list_to_set.
  - intros k Hk. destruct (Hobj k Hk) as [Hd|Hd]; [left; by apply elem_of_list_to_set in Hd|right; by apply elem_of_dom in Hd].
Qed.

Lemma removeListeners_settles body version s s' :
  objects_ok (pdb s) -> (forall listener, listener ∈ CfgListeners body -> listener_rows (WLKey listener) s) ->
  removeListeners nowMS body version s = (Ok tt, s') ->
  settled StreamConfig has_listener RemoveListener (WLKey <$> CfgListeners body) s'.
Proof.
  intros Ho Hrows Hr. eapply runs_ok in Hr as Hpath; [|apply removeListeners_runs|done]. destruct Hpath as (Hp & _ & _).
  unfold removeListeners in Hr. rewrite listenerMap_dom in Hr.
  apply bind_run in Hr as (listeners & sb & [= <- <-] & Hr). apply bind_run in Hr as (local & s2 & Hfold & Hprune).
  destruct (sorted_rows_keys (listener_runtime (pdb s))) as [Hnd Hkeys].
  destruct (removal_settles StreamConfig (config_keys body) CallRemoveListener RemoveListener DeleteListener LDeleteListener)
    with (ledger := fun db => dom (listener_runtime db)) (version := version) (keys := fst <$> Listeners (pdb s)) (s := s)
      (local := local) (s1 := s2) (s2 := s') as (_ & Hrest & Hobj); try done.
  { apply st_delete. }
  { intros d k d' ->%DeleteListener_Ok. simpl. by rewrite dom_delete_L. }
  { intros k. unfold Listeners. rewrite Hkeys, elem_of_dom. done. }
  split.
  - intros k Hk. apply list_elem_of_fmap in Hk as (listener & -> & Hin). eapply keeps_listener_rows; [|exact Hp|by apply Hrows].
    assert (WLKey listener ∈ config_keys body) as Hd by (apply elem_of_list_to_set; by apply list_elem_of_fmap_2).
    intros [] Hl; unfold keeps_object; naive_solver.
  - intros k Hk Hnd'. apply Hrest; [by apply elem_of_dom|]. unfold config_keys. by rewrite elem_of_list_to_set.
  - intros k Hk. destruct (Hobj k Hk) as [Hd|Hd]; [left; by apply elem_of_list_to_set in Hd|right; by apply elem_of_dom in Hd].
Qed.

(** Labels that touch no object row of a stream. *)
Definition untouched (stream : string) (l : label) : Prop :=
  forall k, l <> LSaveObject stream k /\ l <> LDeleteObject stream k /\
    ~ (stream = StreamRoster /\ l = LClient (OpDelete k)) /\ ~ (stream = StreamConfig /\ l = LDeleteListener k).

Lemma path_objects (allowed : label -> Prop) stream s s' :
  (forall l, allowed l -> untouched stream l) -> path allowed s s' ->
  forall k, object_status (pdb s') !! (stream, k) = object_status (pdb s) !! (stream, k).
Proof.
  intros Hu Hp k. apply (path_inv allowed (fun x => object_status (pdb x) !! (stream, k) = object_status (pdb s) !! (stream, k)) s s'); [|done|done].
  intros l x y Hl Hs <-. destruct (Hu l Hl k) as (? & ? & ? & ?). destruct (step_frame _ _ _ Hs) as (_ & _ & _ & _ & _ & Hobj & _). by apply Hobj.
Qed.

Lemma path_clients (allowed : label -> Prop) s s' :
  (forall l op, allowed l -> l <> LClient op) -> path allowed s s' -> client_runtime (pdb s') = client_runtime (pdb s).
Proof.
  intros Hn Hp. apply (path_inv allowed (fun x => client_runtime (pdb x) = client_runtime (pdb s)) s s'); [|done|done].
  intros l x y Hl Hs <-. destruct (step_frame _ _ _ Hs) as (_ & _ & _ & Hc & _). apply Hc. intros op. by apply Hn.
Qed.

Lemma path_listeners (allowed : label -> Prop) s s' :
  (forall l k, allowed l -> l <> LEnsureListener k /\ l <> LDeleteListener k) -> path allowed s s' ->
  listener_runtime (pdb s') = listener_runtime (pdb s).
Proof.
  intros Hn Hp. apply (path_inv allowed (fun x => listener_runtime (pdb x) = listener_runtime (pdb s)) s s'); [|done|done].
  intros l x y Hl Hs <-. destruct (step_frame _ _ _ Hs) as (_ & _ & _ & _ & Hls & _). apply Hls; intros k; by apply Hn.
Qed.

Lemma settled_clients (allowed : label -> Prop) remove desired s s' :
  (forall l, allowed l -> untouched StreamRoster l /\ forall op, l <> LClient op) -> path allowed s s' ->
  settled StreamRoster has_client remove desired s -> settled StreamRoster has_client remove desired s'.
Proof.
  intros Hu Hp. apply settled_same.
  - intros k. unfold has_client. erewrite path_clients; [done| |exact Hp]. intros l op Hl. by apply Hu.
  - eapply path_objects; [|exact Hp]. intros l Hl. by apply Hu.
Qed.

Lemma settled_listeners (allowed : label -> Prop) remove desired s s' :
  (forall l, allowed l -> untouched StreamConfig l /\ forall k, l <> LEnsureListener k /\ l <> LDeleteListener k) -> path allowed s s' ->
  settled StreamConfig has_listener remove desired s -> settled StreamConfig has_listener remove desired s'.
Proof.
  intros Hu Hp. apply settled_same.
  - intros k. unfold has_listener. erewrite path_listeners; [done| |exact Hp]. intros l k' Hl. by apply Hu.
  - eapply path_objects; [|exact Hp]. intros l Hl. by apply Hu.
Qed.

(** After the last removal only the core and the outbox are concerned. *)
Definition allow_final (l : label) : Prop := match l with LQuiet | LIssue | LCall CallFinalize => True | _ => False end.

Lemma finish_path (scoped : bool) configVersion rosterVersion s6 s7 s' :
  objects_ok (pdb s6) -> (if scoped then finalizeRound issueMS configVersion rosterVersion else mret tt) s6 = (Ok tt, s7) ->
  recordObjectTimeouts options issueMS nowMS s7 = (Ok tt, s') -> path allow_final s6 s'.
Proof.
  intros Ho Hfin Htim. assert (path allow_final s6 s7) as Hp.
  { destruct scoped; [|injection Hfin as <-; apply rtc_refl].
    eapply (runs_ok allow_final anything) in Hfin as (? & _); [done| |done]. unfold finalizeRound.
    eapply runs_bind with (Q := anything); [by apply runs_runtime|].
    intros [] _; [by apply recordIssue_runs|by apply runs_ret]. }
  eapply runs_ok in Htim as (Hp' & _); [|apply recordObjectTimeouts_runs|by eapply path_objects_ok]. etrans; [exact Hp|].
  eapply path_mono; [|exact Hp']. by intros [].
Qed.

Lemma converged_settled oldConfig oldRoster received s s' :
  objects_ok (pdb s) -> converged received oldConfig oldRoster s s' ->
  (forall body version, DocRoster received = Some body -> optionalStreamVersion StreamRoster (pdb s) = Ok version ->
     VZero version = false -> settled StreamRoster has_client RemoveClient (WCKey <$> RosClients body) s') /\
  (forall body version, DocConfig received = Some body -> optionalStreamVersion StreamConfig (pdb s) = Ok version ->
     VZero version = false -> settled StreamConfig has_listener RemoveListener (WLKey <$> CfgListeners body) s').
Proof.
  intros Ho [(cv & rv & scoped & s2 & s3 & s4 & s5 & s6 & s7 & Hcv & Hrv & Hp2 & Ho2 & _ & Hent & Hup & Hros & Hrem & Hfin & Htim)].
  eapply runs_ok in Hent as (Hp3 & Ho3 & _); [|apply enterRound_runs|exact Ho2].
  eapply (runs_ok (on_doc allow_listeners (DocConfig received)) anything) in Hup as Hup'; [| |exact Ho3].
  2: { apply when_doc_runs. intros body ->. eapply runs_then_runs, upsertListeners_then. }
  destruct Hup' as (Hp4 & Ho4 & _).
  eapply (phases_ok [path _; path _]) in Hros as Hros'; [|phases_tac| |exact Ho4].
  2: { instantiate (1 := on_doc allow_client_removal (DocRoster received)). instantiate (1 := on_doc allow_clients (DocRoster received)).
    unfold when_doc. destruct (DocRoster received); [|eapply in_phases_skip; phases_tac].
    destruct (VZero rv); [eapply in_phases_skip; phases_tac|]. apply applyRoster_phases. }
  destruct Hros' as (Hp5 & Ho5).
  eapply (runs_ok (on_doc allow_listener_removal (DocConfig received)) anything) in Hrem as Hrem'; [| |exact Ho5].
  2: { apply when_doc_runs. intros body ->. apply removeListeners_runs. }
  destruct Hrem' as (Hp6 & Ho6 & _). pose proof (finish_path _ _ _ _ _ _ Ho6 Hfin Htim) as Hp8. split.
  - intros body version Hdoc Hv Hz. assert (version = rv) as -> by congruence. rewrite Hdoc in Hros. cbn [when_doc] in Hros. rewrite Hz in Hros.
    apply applyRoster_settles in Hros; [|done]. eapply settled_clients; [|exact Hp8|eapply settled_clients; [|exact Hp6|exact Hros]].
    + intros [] Hl; unfold untouched; naive_solver.
    + destruct (DocConfig received); [|done]. intros [] Hl; unfold untouched; try naive_solver. destruct op; naive_solver.
  - intros body version Hdoc Hv Hz. assert (version = cv) as -> by congruence. rewrite Hdoc in Hrem, Hup. cbn [when_doc] in Hrem, Hup.
    rewrite Hz in Hrem, Hup. eapply settled_listeners; [|exact Hp8|eapply removeListeners_settles; [exact Ho5| |exact Hrem]].
    + intros [] Hl; unfold untouched; naive_solver.
    + intros listener Hin. eapply keeps_listener_rows; [|exact Hp5|].
      * intros l (al & Hal & Hl). apply elem_of_cons in Hal as [->|Hal%list_elem_of_singleton]; [|subst al];
          (destruct (DocRoster received); [|done]); destruct l; unfold keeps_object; naive_solver.
      * destruct (upsertListeners_then oldConfig body cv s3 Ho3) as [_ Hrows]. rewrite Hup in Hrows. by apply (Hrows tt).
Qed.

(** C8. A successful round converges.  When [Process] returns without error, the
    tables agree with the documents it received, for each document with a version
    in force: every client of the roster has its ledger row and its object row;
    a ledger row of another client remains only if the runtime refused to remove
    it, with an object row that is not applied, so that the next round tries
    again; no object row of the stream is left without either.  The same holds of
    listeners and the config.  With a runtime that accepts removals the ledgers are
    exactly the documents'. *)
Theorem round_converges response s s' :
  objects_ok (pdb s) -> directives_typed response ->
  Process unicodeToLower Load options issueMS nowMS response s = (Ok tt, s') ->
  exists received d1,
    Receive unicodeToLower Load (pdb s) (RespSegments response) (fun _ => nowMS) = (Ok received, d1) /\
    (forall body version, DocRoster received = Some body -> optionalStreamVersion StreamRoster d1 = Ok version ->
       VZero version = false -> settled StreamRoster has_client RemoveClient (WCKey <$> RosClients body) s') /\
    (forall body version, DocConfig received = Some body -> optionalStreamVersion StreamConfig d1 = Ok version ->
       VZero version = false -> settled StreamConfig has_listener RemoveListener (WLKey <$> CfgListeners body) s').
Proof.
  intros Ho Ht Hrun. pose proof (Process_split response s Ho) as Hsplit. rewrite Hrun in Hsplit. cbn [fst snd] in Hsplit.
  destruct Hsplit as [[_ ?]|(received & d1 & oc & or & s1 & Hrecv & Hcrow & Hrrow & _ & _ & Ho1 & Heq)]; [done|].
  pose proof (Receive_typed _ _ _ _ _ Ht Hrecv) as Htyped. symmetry in Heq. apply converge_run in Heq; [|done..].
  apply converged_settled in Heq as [Hr Hc]; [|done]. exists received, d1. split_and!; [done|..].
  - intros body version Hdoc Hv. apply (Hr body version Hdoc). rewrite <-Hv. unfold optionalStreamVersion. by erewrite Stream_local.
  - intros body version Hdoc Hv. apply (Hc body version Hdoc). rewrite <-Hv. unfold optionalStreamVersion. by erewrite Stream_local.
Qed.

End rounds.

Module rounds_example.
Import sample.

(** An object state machine in the spirit of the protocol's. *)
Definition restate (st : ObjectStatus) (state : string) (since : PVersion) (first : Z) (code on : string) : ObjectStatus :=
  MkObjectStatus (OStream st) (OKey st) state since first code on.

#[export] Instance sample_conformance : Conformance := {|
  AdvanceObject st t :=
    let keep := SinceVersion st in
    match TrEvent t with
    | EventAccepted => if decide (OState st = "" \/ keep <> TrVersion t)
                       then Ok (restate st ObjectPending (TrVersion t) (TrAtMS t) "" "") else Ok st
    | EventApplied => Ok (restate st ObjectApplied keep 0 "" "")
    | EventRejected => Ok (restate st ObjectRejected keep (TrAtMS t) (TrIssueCode t) "")
    | EventDependencyBlocked => Ok (restate st ObjectBlocked keep (TrAtMS t) "" (TrBlockedOn t))
    | EventDependencyReady | EventRetryableFailure => Ok (restate st ObjectPending keep (TrAtMS t) "" "")
    end;
  EvaluateAttachment input :=
    Ok (MkAttachmentDecision (if AtListenerKnown input then AttachmentReady else AttachmentUnknownListener) None);
  TimeoutIssue st now limit := Ok None;
  PVersionString v := FormatInt (Epoch v) +:+ "." +:+ FormatInt (VNum v);
  ErrorText e := "error";
  IssueDirectivesAheadOfRoster := "directives_ahead_of_roster";
  IssueDirectiveUnknownClient := "directive_unknown_client";
  IssueAttachmentUnknownListener := "attachment_unknown_listener";
  IssueTaskIdentityConflict := "task_identity_conflict";
  IssueTaskReplayFenced := "task_replay_fenced"
|}.

#[export] Instance sample_laws : ConformanceLaws.
Proof.
  split.
  - intros st t st'. simpl. destruct (TrEvent t); [case_decide|..]; by intros [= <-].
  - intros st st'. simpl. by intros [= <-].
Qed.

(** A round-scoped runtime that refuses to remove client [cli_8]. *)
#[export] Instance sample_runtime : Runtime unit := {|
  NewRound r := Some (Some tt);
  UpsertListener r db listener := (None, tt, db);
  RemoveListener r db key := (None, tt, db);
  UpsertClient r db client := (None, tt, db);
  RemoveClient r db key := (if decide (key = "cli_8") then Some (MkRuntimeError None "busy") else None, tt, db);
  Finalize r db := (None, tt, db)
|}.

#[export] Instance sample_runtime_laws : RuntimeLaws unit.
Proof. split; intros; by destruct db. Qed.

Definition listener : WListener := MkWListener "lst_1" "{}".
Definition client : WClient := MkWClient "cli_1" "usr_1" true 0 (MkCredentials "alice" "5783a3e7" "secret" "" "") ["lst_1"; "lst_7"].
Definition config : ConfigBody := MkConfigBody (MkCoreSelection "" "" false) [listener] (MkSegmentCounts 1 0 0).
Definition roster : RosterBody := MkRosterBody (MkPVersion 1 1) [client] (MkSegmentCounts 1 0 1).
Definition directives : DirectivesBody :=
  MkDirectivesBody (MkPVersion 1 1) [MkQuotaEntry "cli_1" 0 (Some 10) 0 None] [] (MkSegmentCounts 1 0 0).

(** One text per body. *)
#[export] Instance config_codec : BodyCodec ConfigBody := {| MarshalBody b := Some "{}"; UnmarshalBody s := Some config |}.
#[export] Instance roster_codec : BodyCodec RosterBody := {| MarshalBody b := Some "{}"; UnmarshalBody s := Some roster |}.
#[export] Instance directives_codec : BodyCodec DirectivesBody := {| MarshalBody b := Some "{}"; UnmarshalBody s := Some directives |}.

Definition segment {T} (body : T) : Segment T := MkSegment (MkPVersion 1 1) (sha256_hex "{}") false (Some body).
Definition response : SyncResponse := MkSyncResponse [] (MkSyncSegments (segment config) (segment roster) (segment directives)).
Definition settings : ProcessorOptions := MkProcessorOptions 3 60000 true None.

(** The node still has two clients and a listener from before. *)
Definition ops : list client_op :=
  [OpEnsure (MkClientIdentity "cli_8" "usr_8") 1; OpEnsure (MkClientIdentity "cli_9" "usr_9") 1].
Definition before : DB :=
  match EnsureListener (run_ops empty_db ops) "lst_9" 1 with Ok d => d | Err _ => empty_db end.
Definition start : pstate unit := MkPState before tt false 0 [].

Definition run : res error unit * pstate unit := Process (fun s => s) (Ok []) settings (fun _ => 5) 5 response start.

Example run_calls :
  run.1 = Ok tt /\
  calls run.2 = [CallUpsertListener listener; CallUpsertClient (withListeners client ["lst_1"]);
                 CallRemoveClient "cli_8"; CallRemoveClient "cli_9"; CallRemoveListener "lst_9"; CallFinalize].
Proof. vm_compute. split; reflexivity. Qed.

Lemma start_objects : objects_ok (pdb start).
Proof. intros k st at_ms Hk. vm_compute in Hk. discriminate. Qed.

Lemma response_typed : directives_typed response.
Proof.
  assert (quota_typed directives) as Ht by (repeat constructor; vm_compute; intuition discriminate).
  split; [intros raw body Hb|intros body Hb]; injection Hb as <-; exact Ht.
Qed.

Lemma start_node : node_ok (pdb start).
Proof.
  split.
  - intros k r Hr. vm_compute in Hr. discriminate.
  - apply (run_ops_clients_ok empty_db ops); [repeat constructor|apply clients_ok_empty].
  - apply (journal_ok_ext empty_db); [reflexivity..|apply journal_ok_empty].
  - apply start_objects.
Qed.

Lemma round_calls_ordered_witness :
  exists cs config roster, calls run.2 = cs /\ round_calls config roster cs true.
Proof.
  pose proof (round_calls_ordered (fun s => s) (Ok []) settings (fun _ => 5) 5 response start start_objects response_typed) as Hw.
  fold run in Hw. pose proof (proj1 run_calls) as Hok. destruct run as [r s']. simpl in Hok.
  destruct Hw as (cs & finalized & config & roster & Hcs & Hgroups & _ & Hfin). exists cs, config, roster.
  split; [exact Hcs|]. rewrite Hok in Hfin. specialize (Hfin eq_refl). rewrite Hfin in Hgroups. exact Hgroups.
Defined.

Lemma round_keeps_store_witness :
  node_ok (pdb run.2) /\ CallRemoveClient "cli_9" ∈ calls run.2.
Proof.
  destruct (round_keeps_store (fun s => s) (Ok []) settings (fun _ => 5) 5 response start start_node response_typed eq_refl)
    as (Hn & _ & _ & _ & Hk).
  split; [exact Hn|]. destruct (Hk "cli_9" (freshClient "usr_9" 1)) as [(c' & Hc & _)|Hin].
  - vm_compute. reflexivity.
  - vm_compute in Hc. discriminate.
  - exact Hin.
Defined.

Lemma round_converges_witness :
  settled StreamRoster has_client RemoveClient ["cli_1"] run.2 /\ settled StreamConfig has_listener RemoveListener ["lst_1"] run.2.
Proof.
  assert (run = (Ok tt, run.2)) as Hrun by (rewrite <-(proj1 run_calls); by destruct run).
  destruct (round_converges (fun s => s) (Ok []) settings (fun _ => 5) 5 response start run.2 start_objects response_typed Hrun)
    as (received & d1 & Hrecv & Hros & Hcfg).
  vm_compute in Hrecv. injection Hrecv as <- <-. split.
  - apply (Hros roster (MkPVersion 1 1)); vm_compute; reflexivity.
  - apply (Hcfg config (MkPVersion 1 1)); vm_compute; reflexivity.
Defined.

End rounds_example.
