(* ===== verification/CoreRuntime.v ===== *)
(** * The core runtime ([internal/core/runtime/runtime.go])

    The stored documents and the ledger's gates become one snapshot, one compiled
    artifact and at most one deployment per round.  The compiler, the installer,
    the supervisor and the clock are interfaces of the source and arguments
    here. *)
From S2P Require Import Prelude GoStrings Sha256 GoJson Protocol Store Streams Objects Clients Deployment Catalog Documents Receive Issues Processor Rounds.

(** ** The boundary ([internal/core/core.go]) *)

Record Snapshot := MkSnapshot { SnListeners : list WListener; SnClients : list WClient; SnNow : Z }.

Record Artifact := MkArtifact { ArConfig : string; ArDigest : string }.

Inductive ProcessState := ProcessStopped | ProcessStarting | ProcessRunning | ProcessDegraded.

#[global] Instance ProcessState_eq_dec : EqDecision ProcessState.
Proof. solve_decision. Defined.

(** The fields of [Status] the agent reads; times are in nanoseconds, [None] for
    the zero time. *)
Record CoreStatus := MkCoreStatus {
  CsState : ProcessState;
  CsEngine : string;
  CsVersion : string;
  CsConfigDigest : string;
  CsRestartCount : Z;
  CsUnexpectedExitCount : Z;
  CsLastUnexpectedExitAt : option Z;
  CsLastChangedAt : option Z
}.

Record CoreDeploy := MkCoreDeploy { DpArtifact : Artifact; DpEngine : string; DpBinaryPath : string; DpVersion : string }.

Record ObjectError := MkObjectError { OeStream : string; OeKey : string; OeCode : string }.

(** A non-nil error: the [ObjectError] it wraps, if any. *)
Record coreError := MkCoreError { ceObject : option ObjectError; ceText : string }.

Definition plain (text : string) : coreError := MkCoreError None text.

Record InstallRequest := MkInstallRequest { IrEngine : string; IrVersion : string; IrRestricted : bool; IrConfiguration : string }.
Record Installation := MkInstallation { InEngine : string; InVersion : string; InBinaryPath : string }.

(** The installer, the supervisor and the clock, with state [W].  The clock is in
    nanoseconds since the Unix epoch. *)
Class CoreWorld (W : Type) := {
  Install : W -> InstallRequest -> res coreError Installation * W;
  Deploy : W -> CoreDeploy -> option coreError * W;
  Status : W -> CoreStatus;
  Now : W -> Z * W
}.

Definition UnixMilli (t : Z) : Z := t / 1000000.

Definition Compiler : Type := Snapshot -> res coreError Artifact.

(** ** Pure parts *)

Definition withEnabled (client : WClient) (enabled : bool) : WClient :=
  MkWClient (WCKey client) (WCSubject client) enabled (WCExpiresAtMS client) (WCCredentials client) (WCListeners client).

(** A closed gate, or a grant whose counters were reset. *)
Definition gateDenies (local : ClientRuntime) : bool :=
  bool_decide (Gate local = GateClosed \/ (Gate local = GateUnconfigured /\ HeadroomBytes local <> None)).

Definition gateClient (db : DB) (client : WClient) : WClient :=
  match client_runtime db !! WCKey client with
  | Some local => if gateDenies local then withEnabled client false else client
  | None => client
  end.

Definition validateArtifact (artifact : Artifact) : res coreError unit :=
  if decide (ArConfig artifact = "") then Err (plain "configuration is empty") else
  if decide (ArDigest artifact <> sha256_hex (ArConfig artifact)) then Err (plain "digest does not match") else Ok tt.

(** [xrayCompiler] is [xray.Compiler] at a version and a restriction flag. *)
Definition defaultCompilerFactory (xrayCompiler : string -> bool -> Compiler) (selection : CoreSelection) : res coreError Compiler :=
  if decide (SelEngine selection <> "xray") then Err (plain "core engine is unsupported") else
  Ok (xrayCompiler (SelVersion selection) (AllowRestrictedReality selection)).

(** [err] of the store, wrapped. *)
Definition wrapped {A} (text : string) (m : res error A) : res coreError A :=
  match m with Ok a => Ok a | Err _ => Err (plain text) end.

(** Durations in nanoseconds. *)
Definition second : Z := 1000000000.

Definition nextExpiryRetry (previous : Z) : Z :=
  if decide (previous < second) then second else
  if decide (30 * second < previous * 2) then 30 * second else previous * 2.

(** The loop over the clients; [0] means none yet. *)
Definition earliestStep (processedThrough earliest : Z) (client : WClient) : Z :=
  if negb (WCEnabled client) || bool_decide (WCExpiresAtMS client ≤ processedThrough) then earliest else
  if decide (earliest = 0 \/ WCExpiresAtMS client < earliest) then WCExpiresAtMS client else earliest.

Section runtime.
Context `{Protocol}.
Context `{BodyCodec ConfigBody, BodyCodec RosterBody}.
Context (unicodeToLower : string -> string) (Load : res error (list Release)).
Context (compilerFactory : CoreSelection -> res coreError Compiler).
Context {W : Type} `{CoreWorld W}.

Definition resolveSelection (selection : CoreSelection) : res coreError CoreSelection :=
  if decide (SelEngine selection = "" /\ SelVersion selection = "" /\ AllowRestrictedReality selection = false) then
    recommended ← wrapped "no recommended release" (Recommended unicodeToLower Load "xray");
    Ok (MkCoreSelection (Engine recommended) (RVersion recommended) false)
  else
  if decide (TrimSpace (SelEngine selection) <> SelEngine selection \/ TrimSpace (SelVersion selection) <> SelVersion selection)
  then Err (plain "core engine and version must be canonical") else
  release ← wrapped "resolve desired core" (Resolve unicodeToLower Load (SelEngine selection) (SelVersion selection));
  if decide (RequiresConfirmation release <> AllowRestrictedReality selection)
  then Err (plain "restricted core acknowledgement does not match the catalog") else
  Ok (MkCoreSelection (Engine release) (RVersion release) (AllowRestrictedReality selection)).

(** ** Computations

    [scheduleWake] is the buffered channel of the expiry loop. *)
Record cstate := MkCState { cworld : W; cdb : DB; scheduleWake : bool }.

Definition core (A : Type) : Type := cstate -> res coreError A * cstate.

#[global] Instance core_ret : MRet core := fun A a s => (Ok a, s).
#[global] Instance core_bind : MBind core := fun A B f m s =>
  match m s with
  | (Ok a, s') => f a s'
  | (Err e, s') => (Err e, s')
  end.

Definition check {A} (m : res coreError A) : core A := fun s => (m, s).
Definition readDB {A} (f : DB -> res coreError A) : core A := fun s => (f (cdb s), s).
Definition clock : core Z := fun s => let '(t, w) := Now (cworld s) in (Ok t, MkCState w (cdb s) (scheduleWake s)).
Definition status : core CoreStatus := fun s => (Ok (Status (cworld s)), s).
Definition install (request : InstallRequest) : core Installation :=
  fun s => let '(r, w) := Install (cworld s) request in (r, MkCState w (cdb s) (scheduleWake s)).
Definition deploy (d : CoreDeploy) : core unit :=
  fun s => let '(e, w) := Deploy (cworld s) d in
           (match e with None => Ok tt | Some e => Err e end, MkCState w (cdb s) (scheduleWake s)).
Definition save (d : CoreDeployment) : core unit :=
  fun s => match SaveCoreDeployment (cdb s) d with
           | Ok db => (Ok tt, MkCState (cworld s) db (scheduleWake s))
           | Err _ => (Err (plain "record confirmed core deployment"), s)
           end.
Definition wakeExpirySchedule : core unit := fun s => (Ok tt, MkCState (cworld s) (cdb s) true).

(** ** Convergence *)

Definition marshalOr {T} `{BodyCodec T} (text : string) (body : T) : res coreError string :=
  match MarshalBody body with Some bytes => Ok bytes | None => Err (plain text) end.

Definition saveDeployment (selection : CoreSelection) (artifact : Artifact) (config : ConfigBody) (roster : option RosterBody) : core unit :=
  configBody ← check (marshalOr "encode applied config body" config);
  rosterBody ← check (marshalOr "encode applied roster body"
                        (default (MkRosterBody (MkPVersion 0 0) [] (MkSegmentCounts 0 0 0)) roster));
  now ← clock;
  let appliedAtMS := UnixMilli now in
  if decide (appliedAtMS ≤ 0) then check (Err (plain "runtime clock must be after Unix epoch")) else
  _ ← save (MkCoreDeployment (SelEngine selection) (SelVersion selection) (ArDigest artifact) (ArConfig artifact) configBody rosterBody appliedAtMS);
  wakeExpirySchedule.

Definition optionalBody {T} `{BodyCodec T} (stream : string) (db : DB) : res error (option T) := optionalStoredBody stream db.

(** The snapshot of the documents and the gates. *)
Definition snapshotOf (db : DB) (config : ConfigBody) (roster : option RosterBody) (now : Z) : Snapshot :=
  MkSnapshot (CfgListeners config)
    match roster with Some body => gateClient db <$> RosClients body | None => [] end now.

Definition converge : core unit :=
  config ← readDB (fun db => wrapped "load desired config" (loadStoredBody db StreamConfig));
  roster ← readDB (fun db => wrapped "load desired roster" (optionalBody StreamRoster db));
  selection ← check (resolveSelection (CfgCore config));
  compile ← check (compilerFactory selection);
  now ← clock;
  snapshot ← readDB (fun db => Ok (snapshotOf db config roster now));
  artifact ← check (compile snapshot);
  _ ← check (validateArtifact artifact);
  st ← status;
  if decide (CsState st = ProcessRunning /\ CsEngine st = SelEngine selection /\ CsVersion st = SelVersion selection /\
             CsConfigDigest st = ArDigest artifact)
  then saveDeployment selection artifact config roster
  else
    installed ← install (MkInstallRequest (SelEngine selection) (SelVersion selection) (AllowRestrictedReality selection) (ArConfig artifact));
    if decide (InEngine installed <> SelEngine selection \/ InVersion installed <> SelVersion selection \/ InBinaryPath installed = "")
    then check (Err (plain "core installer returned a mismatched installation")) else
    _ ← deploy (MkCoreDeploy artifact (InEngine installed) (InBinaryPath installed) (InVersion installed));
    saveDeployment selection artifact config roster.

(** [Runtime.Converge]: the answer and the state it leaves. *)
Definition Converge (s : cstate) : option coreError * cstate :=
  let '(r, s') := converge s in (match r with Ok _ => None | Err e => Some e end, s').

(** ** Rounds *)

(** [Owner] is the runtime itself; a round remembers its answer. *)
Inductive scope := Owner | InRound (memo : option (option coreError)).

Record coreRuntime := MkCoreRuntime { crWorld : W; crWake : bool; crScope : scope }.

Definition NewCoreRound (r : coreRuntime) : coreRuntime := MkCoreRuntime (crWorld r) (crWake r) (InRound None).

(** [round.ensure] ([sync.Once]). *)
Definition ensure (r : coreRuntime) (db : DB) : option coreError * coreRuntime * DB :=
  match crScope r with
  | InRound (Some answer) => (answer, r, db)
  | _ =>
      let '(answer, s) := Converge (MkCState (crWorld r) db (crWake r)) in
      (answer, MkCoreRuntime (cworld s) (scheduleWake s) (InRound (Some answer)), cdb s)
  end.

Definition objectAnswer (stream key : string) (err : option coreError) : option RuntimeError :=
  match err with
  | None => None
  | Some e =>
      match ceObject e with
      | Some o =>
          if decide (OeStream o = stream /\ OeKey o = key) then
            let code := TrimSpace (OeCode o) in
            Some (MkRuntimeError (Some (if decide (code = "") then "core_config_rejected" else code)) (ceText e))
          else Some (MkRuntimeError None (ceText e))
      | None => Some (MkRuntimeError None (ceText e))
      end
  end.

Definition objectResult (r : coreRuntime) (db : DB) (stream key : string) : option RuntimeError * coreRuntime * DB :=
  let '(answer, r', d) := ensure r db in (objectAnswer stream key answer, r', d).

Definition roundFinalize (r : coreRuntime) (db : DB) : option RuntimeError * coreRuntime * DB :=
  let '(answer, r', d) := ensure r db in
  ((fun e => MkRuntimeError None (ceText e)) <$> answer, r', d).

(** A call on the runtime itself is a round of its own. *)
Definition runSingle (r : coreRuntime) (db : DB) (stream key : string) : option RuntimeError * coreRuntime * DB :=
  let '(err, r1, d1) := objectResult (NewCoreRound r) db stream key in
  match err with
  | Some e => (Some e, MkCoreRuntime (crWorld r1) (crWake r1) Owner, d1)
  | None =>
      let '(err, r2, d2) := roundFinalize r1 d1 in (err, MkCoreRuntime (crWorld r2) (crWake r2) Owner, d2)
  end.

Definition objectCall (r : coreRuntime) (db : DB) (stream key : string) : option RuntimeError * coreRuntime * DB :=
  match crScope r with Owner => runSingle r db stream key | InRound _ => objectResult r db stream key end.

#[global] Instance core_runtime : Runtime coreRuntime := {|
  NewRound r := Some (Some (NewCoreRound r));
  UpsertListener r db listener := objectCall r db StreamConfig (WLKey listener);
  RemoveListener r db key := objectCall r db StreamConfig key;
  UpsertClient r db client := objectCall r db StreamRoster (WCKey client);
  RemoveClient r db key := objectCall r db StreamRoster key;
  Finalize := roundFinalize
|}.

(** ** Local expiry *)

Definition nextExpiry (db : DB) : res coreError (option Z) :=
  match Stream db StreamRoster with
  | Err ErrNotFound => Ok None
  | Err _ => Err (plain "read desired roster")
  | Ok document =>
      match UnmarshalBody (DBody document) with
      | None => Err (plain "decode desired roster")
      | Some roster =>
          processedThrough ← match CoreDeploymentOf db with
                             | Ok deployment => Ok (if decide (DBody document = CDRosterBody deployment) then CDAppliedAtMS deployment else 0)
                             | Err ErrNotFound => Ok 0
                             | Err _ => Err (plain "read confirmed core deployment")
                             end;
          let earliest := foldl (earliestStep processedThrough) 0 (RosClients roster) in
          Ok (if decide (earliest = 0) then None else Some earliest)
      end
  end.

(** What ends the wait of one turn. *)
Inductive expiryEvent := ExpiryDone | ExpiryWoken | ExpiryFired.

Record expiryEnv := MkExpiryEnv { eeCancelledRead : bool; eeEvent : expiryEvent; eeCancelledConverge : bool }.

(** The timer of a turn in nanoseconds; [None] waits for an event. *)
Definition expiryDelay (retry : Z) (deadline : option Z) (now : Z) : option Z :=
  if decide (0 < retry) then Some retry else
  match deadline with
  | Some ms => Some (Z.max 0 (ms * 1000000 - now))
  | None => None
  end.

(** One turn of [RunExpiryLoop]: the next [retry], or [None] to return. *)
Definition expiryTurn (s : cstate) (retry : Z) (env : expiryEnv) : option Z * cstate :=
  let next := nextExpiry (cdb s) in
  if negb (is_Ok next) && eeCancelledRead env then (None, s) else
  let retry := if is_Ok next then retry else nextExpiryRetry retry in
  match eeEvent env with
  | ExpiryDone => (None, s)
  | ExpiryWoken => (Some 0, MkCState (cworld s) (cdb s) false)
  | ExpiryFired =>
      let '(err, s') := Converge s in
      match err with
      | Some _ => if eeCancelledConverge env then (None, s') else (Some (nextExpiryRetry retry), s')
      | None => (Some 0, s')
      end
  end.

(** ** What a convergence does *)

Lemma core_bind_Ok {A B} (m : core A) (f : A -> core B) s b s' :
  (m ≫= f) s = (Ok b, s') -> exists a s1, m s = (Ok a, s1) /\ f a s1 = (Ok b, s').
Proof. unfold mbind, core_bind. destruct (m s) as [[a|e] s1]; [eauto|done]. Qed.

(** Computations that do not write the store. *)
Definition pure_store {A} (m : core A) : Prop := forall s, cdb (m s).2 = cdb s.

(** Computations that write it only when they succeed, and then a deployment. *)
Definition saves {A} (m : core A) : Prop := forall s,
  match m s with
  | (Ok _, s') => exists d, SaveCoreDeployment (cdb s) d = Ok (cdb s')
  | (Err _, s') => cdb s' = cdb s
  end.

Lemma pure_clock : pure_store clock.
Proof. intros s. unfold clock. by destruct (Now _). Qed.
Lemma pure_install request : pure_store (install request).
Proof. intros s. unfold install. by destruct (Install _ _). Qed.
Lemma pure_deploy d : pure_store (deploy d).
Proof. intros s. unfold deploy. by destruct (Deploy _ _). Qed.

Lemma pure_run {A} (m : core A) s r s' : pure_store m -> m s = (r, s') -> cdb s' = cdb s.
Proof. intros Hm Hr. specialize (Hm s). by rewrite Hr in Hm. Qed.

Lemma saves_bind {A B} (m : core A) (f : A -> core B) : pure_store m -> (forall a, saves (f a)) -> saves (m ≫= f).
Proof.
  intros Hm Hf s. specialize (Hm s). unfold mbind, core_bind. destruct (m s) as [[a|e] s1]; simpl in Hm; [|done].
  specialize (Hf a s1). destruct (f a s1) as [[b|e] s2]; by rewrite Hm in Hf.
Qed.

Lemma saves_fail {A} (e : coreError) : saves (@check A (Err e)).
Proof. by intros s. Qed.

Lemma saveDeployment_saves selection artifact config roster : saves (saveDeployment selection artifact config roster).
Proof.
  unfold saveDeployment. do 2 (apply saves_bind; [by intros s|]; intros ?). apply saves_bind; [apply pure_clock|]. intros now.
  case_decide; [apply saves_fail|]. intros s. unfold mbind, core_bind, save.
  destruct (SaveCoreDeployment (cdb s) _) as [db|e] eqn:Hs; simpl; [by eexists|done].
Qed.

Lemma converge_saves : saves converge.
Proof.
  unfold converge. do 4 (apply saves_bind; [by intros s|]; intros ?). apply saves_bind; [apply pure_clock|]. intros now.
  do 4 (apply saves_bind; [by intros s|]; intros ?). case_decide; [apply saveDeployment_saves|].
  apply saves_bind; [apply pure_install|]. intros installed. case_decide; [apply saves_fail|].
  apply saves_bind; [apply pure_deploy|]. intros _. apply saveDeployment_saves.
Qed.

Lemma Converge_store s :
  match Converge s with
  | (None, s') => exists d, SaveCoreDeployment (cdb s) d = Ok (cdb s')
  | (Some _, s') => cdb s' = cdb s
  end.
Proof. unfold Converge. pose proof (converge_saves s) as Hs. by destruct (converge s) as [[u|e] s']. Qed.

Lemma Converge_frame s : deployment_frame (cdb s) (cdb (Converge s).2).
Proof.
  pose proof (Converge_store s) as Hs. destruct (Converge s) as [[e|] s']; simpl in *.
  - rewrite Hs. unfold deployment_frame. by destruct (cdb s).
  - destruct Hs as (d & Hs). unfold SaveCoreDeployment in Hs. apply bind_Ok in Hs as (_ & _ & Hs). injection Hs as <-. by destruct (cdb s).
Qed.

Lemma deployment_frame_refl db : deployment_frame db db.
Proof. unfold deployment_frame. by destruct db. Qed.

Lemma ensure_frame r db : deployment_frame db (ensure r db).2.
Proof.
  unfold ensure. destruct (crScope r) as [|[answer|]]; try apply deployment_frame_refl;
    pose proof (Converge_frame (MkCState (crWorld r) db (crWake r))) as Hf; destruct (Converge _) as [answer s]; exact Hf.
Qed.

Lemma ensure_round r db : crScope (ensure r db).1.2 = InRound (Some (ensure r db).1.1).
Proof. unfold ensure. destruct (crScope r) as [|[answer|]] eqn:Hr; try (by destruct (Converge _)). done. Qed.

Lemma ensure_again r db db' : ensure (ensure r db).1.2 db' = ((ensure r db).1.1, (ensure r db).1.2, db').
Proof. pose proof (ensure_round r db) as Hr. destruct (ensure r db) as [[answer r'] d]. simpl in *. unfold ensure. by rewrite Hr. Qed.

Lemma objectCall_frame r db stream key : deployment_frame db (objectCall r db stream key).2.
Proof.
  unfold objectCall, runSingle, objectResult, roundFinalize. destruct (crScope r).
  - pose proof (ensure_frame (NewCoreRound r) db) as Hf. pose proof (ensure_again (NewCoreRound r) db) as Ha.
    destruct (ensure (NewCoreRound r) db) as [[answer r1] d1]. simpl in Hf, Ha. destruct (objectAnswer stream key answer); [exact Hf|].
    rewrite Ha. exact Hf.
  - pose proof (ensure_frame r db) as Hf. by destruct (ensure r db) as [[answer r1] d1].
Qed.

(** The promise of the runtime to the processor. *)
#[global] Instance core_runtime_laws : RuntimeLaws coreRuntime.
Proof.
  split; intros; simpl; try apply objectCall_frame. unfold roundFinalize. pose proof (ensure_frame r db) as Hf.
  by destruct (ensure r db) as [[answer r1] d1].
Qed.

(** *** One transition per round *)

(** A call of a round: on an object, or [Finalize]. *)
Definition roundAnswer (call : option (string * string)) (answer : option coreError) : option RuntimeError :=
  match call with
  | Some (stream, key) => objectAnswer stream key answer
  | None => (fun e => MkRuntimeError None (ceText e)) <$> answer
  end.

Definition roundCall (r : coreRuntime) (db : DB) (call : option (string * string)) : option RuntimeError * coreRuntime * DB :=
  match call with
  | Some (stream, key) => objectCall r db stream key
  | None => roundFinalize r db
  end.

(** Calls one after the other; the store each one meets is arbitrary. *)
Fixpoint roundCalls (r : coreRuntime) (l : list (option (string * string) * DB)) : list (option RuntimeError * DB) * coreRuntime :=
  match l with
  | [] => ([], r)
  | (call, db) :: l =>
      let '(answer, r1, d) := roundCall r db call in
      let '(rest, r2) := roundCalls r1 l in ((answer, d) :: rest, r2)
  end.

Lemma roundCall_memo r db call answer :
  crScope r = InRound (Some answer) -> roundCall r db call = (roundAnswer call answer, r, db).
Proof.
  intros Hr. unfold roundCall, objectCall, objectResult, roundFinalize, ensure. destruct call as [[stream key]|]; by rewrite !Hr.
Qed.

Lemma roundCalls_memo r answer l :
  crScope r = InRound (Some answer) -> roundCalls r l = ((fun x => (roundAnswer x.1 answer, x.2)) <$> l, r).
Proof.
  intros Hr. induction l as [|[call db] l IH]; [done|]. cbn [roundCalls]. rewrite (roundCall_memo _ _ _ _ Hr), IH. done.
Qed.

(** One round, one transition.  Whatever calls the processor makes on a round, in
    whatever order and whatever it does to the store in between, the installer,
    the supervisor, the clock and the store see exactly one [Converge], at the
    first call; every answer is that one's, and the other calls change nothing. *)
Theorem round_is_one_transition r call db rest :
  crScope r = InRound None ->
  let '(answer, s) := Converge (MkCState (crWorld r) db (crWake r)) in
  roundCalls r ((call, db) :: rest) =
    ((roundAnswer call answer, cdb s) :: ((fun x => (roundAnswer x.1 answer, x.2)) <$> rest),
     MkCoreRuntime (cworld s) (scheduleWake s) (InRound (Some answer))).
Proof.
  intros Hr. destruct (Converge _) as [answer s] eqn:Hc. cbn [roundCalls].
  assert (roundCall r db call = (roundAnswer call answer, MkCoreRuntime (cworld s) (scheduleWake s) (InRound (Some answer)), cdb s)) as ->.
  { unfold roundCall, objectCall, objectResult, roundFinalize, ensure.
    destruct call as [[stream key]|]; rewrite !Hr, Hc; done. }
  by rewrite (roundCalls_memo _ answer).
Qed.

(** *** Rejections *)

Lemma objectAnswer_rejects stream key e code :
  rejectionCode (objectAnswer stream key (Some e)) = Some code <->
  exists o, ceObject e = Some o /\ OeStream o = stream /\ OeKey o = key /\
    code = (if decide (TrimSpace (OeCode o) = "") then "core_config_rejected" else TrimSpace (OeCode o)).
Proof.
  unfold objectAnswer. destruct (ceObject e) as [o|]; [|simpl; naive_solver].
  destruct (decide (OeStream o = stream /\ OeKey o = key)) as [[<- <-]|Hn]; cbn [rejectionCode ReCode].
  - set (c := if decide (TrimSpace (OeCode o) = "") then _ else _).
    assert (c <> "") as Hc by (unfold c; by case_decide). rewrite decide_False by done. unfold c in *. naive_solver.
  - naive_solver.
Qed.

(** Only the culprit is rejected.  A call of a round succeeds exactly when the
    round's convergence did; when that failed because the compiler named one object,
    exactly the calls on that object are told to give up, with its code, and every
    other call gets an error it may retry. *)
Theorem only_the_culprit_is_rejected r db stream key :
  let outcome := (ensure r db).1.1 in
  let answer := (objectResult r db stream key).1.1 in
  (answer = None <-> outcome = None) /\
  forall code, rejectionCode answer = Some code <->
    exists e o, outcome = Some e /\ ceObject e = Some o /\ OeStream o = stream /\ OeKey o = key /\
      code = (if decide (TrimSpace (OeCode o) = "") then "core_config_rejected" else TrimSpace (OeCode o)).
Proof.
  cbv zeta. unfold objectResult. destruct (ensure r db) as [[[e|] r'] d]; cbn [fst snd].
  - split; [split; [|done]|].
    + unfold objectAnswer. destruct (ceObject e); [case_decide|]; done.
    + intros code. rewrite objectAnswer_rejects. naive_solver.
  - split; [done|]. intros code. simpl. naive_solver.
Qed.

(** *** Quotas *)

(** The row of a client that may be active: no limit, or usage inside the grant. *)
Definition within_grant (row : ClientRuntime) : Prop :=
  forall headroom, HeadroomBytes row = Some headroom ->
  exists baseline, BaselineBytes row = Some baseline /\ baseline ≤ UpBytes row + DownBytes row < baseline + headroom.

Lemma gate_allows row : client_ok row -> gateDenies row = false -> within_grant row.
Proof.
  intros Hok Hg headroom Hh. destruct (client_ok_gate row Hok) as [_ Harmed].
  unfold gateDenies in Hg. apply bool_decide_eq_false in Hg. destruct (Gate row) eqn:Hgate.
  - exfalso. apply Hg. right. by rewrite Hh.
  - destruct (proj1 Harmed eq_refl) as (b & h & Hb & Hh' & Hle). rewrite Hh in Hh'. injection Hh' as ->. eauto.
  - exfalso. apply Hg. by left.
Qed.

Lemma saveDeployment_Ok selection artifact config roster s s' :
  saveDeployment selection artifact config roster s = (Ok tt, s') ->
  exists d now, CoreDeploymentOf (cdb s') = Ok d /\ CDEngine d = SelEngine selection /\ CDVersion d = SelVersion selection /\
    CDArtifact d = ArConfig artifact /\ CDConfigDigest d = ArDigest artifact /\ now = (Now (cworld s)).1 /\
    CDAppliedAtMS d = UnixMilli now /\ 0 < UnixMilli now /\ scheduleWake s' = true /\
    (forall body, roster = Some body -> MarshalBody body = Some (CDRosterBody d)).
Proof.
  unfold saveDeployment. intros (cb & s1 & [= _ <-] & Hr)%core_bind_Ok. apply core_bind_Ok in Hr as (rb & s2 & [= Hrb <-] & Hr).
  apply core_bind_Ok in Hr as (now & s3 & Hnow & Hr). unfold clock in Hnow. destruct (Now (cworld s)) as [t w]. injection Hnow as <- <-.
  case_decide; [done|]. apply core_bind_Ok in Hr as ([] & s4 & Hs & Hr). unfold save in Hs. cbn [cdb] in Hs.
  destruct (SaveCoreDeployment _ _) as [db|e] eqn:Hsave; [|done]. injection Hs as <-. injection Hr as <-.
  apply deployment_roundtrip in Hsave. eexists _, t. split; [exact Hsave|]. simpl. split_and!; try done; [lia|].
  intros body ->. simpl in Hrb. unfold marshalOr in Hrb. destruct (MarshalBody body); [|done]. by injection Hrb as ->.
Qed.

Lemma validateArtifact_Ok artifact : validateArtifact artifact = Ok tt -> ArDigest artifact = sha256_hex (ArConfig artifact).
Proof.
  unfold validateArtifact. case_decide; [done|]. destruct (decide (ArDigest artifact = sha256_hex (ArConfig artifact))); [done|].
  by rewrite decide_True.
Qed.

(** What a convergence does to the host besides a deployment. *)
Inductive world_step : W -> W -> Prop :=
| ws_now w : world_step w (Now w).2
| ws_install w request : world_step w (Install w request).2.

Lemma clock_now s a s' : clock s = (Ok a, s') -> cworld s' = (Now (cworld s)).2.
Proof. unfold clock. destruct (Now (cworld s)) as [t w]. by intros [= _ <-]. Qed.

Lemma clock_time s a s' : clock s = (Ok a, s') -> a = (Now (cworld s)).1.
Proof. unfold clock. destruct (Now (cworld s)) as [t w]. by intros [= <- _]. Qed.

Lemma clock_world s a s' : clock s = (Ok a, s') -> world_step (cworld s) (cworld s').
Proof. intros ->%clock_now. constructor. Qed.

Lemma install_world request s a s' : install request s = (Ok a, s') -> world_step (cworld s) (cworld s').
Proof. unfold install. pose proof (ws_install (cworld s) request) as Hw. destruct (Install (cworld s) request) as [x w]. by intros [= _ <-]. Qed.

Lemma saveDeployment_world selection artifact config roster s s' :
  saveDeployment selection artifact config roster s = (Ok tt, s') -> cworld s' = (Now (cworld s)).2.
Proof.
  unfold saveDeployment. intros (cb & s1 & [= _ <-] & Hr)%core_bind_Ok. apply core_bind_Ok in Hr as (rb & s2 & [= _ <-] & Hr).
  apply core_bind_Ok in Hr as (now & s3 & Hnow%clock_now & Hr). case_decide; [done|]. apply core_bind_Ok in Hr as ([] & s4 & Hs & [= <-]).
  unfold save in Hs. destruct (SaveCoreDeployment _ _); [|done]. by injection Hs as <-.
Qed.

(** The core the host runs in [w] is this artifact, or the supervisor has just
    accepted to run it; [w'] is one clock reading later. *)
Definition runs_artifact (artifact : Artifact) (engine version : string) (w w' : W) : Prop :=
  (CsState (Status w) = ProcessRunning /\ CsEngine (Status w) = engine /\ CsVersion (Status w) = version /\
   CsConfigDigest (Status w) = ArDigest artifact /\ w' = (Now w).2) \/
  exists path w1, Deploy w (MkCoreDeploy artifact engine path version) = (None, w1) /\ w' = (Now w1).2.

(** The states of a successful convergence. *)
Lemma converge_Ok s s' :
  converge s = (Ok tt, s') ->
  exists config roster selection compile artifact w,
    loadStoredBody (cdb s) StreamConfig = Ok config /\ optionalBody StreamRoster (cdb s) = Ok roster /\
    resolveSelection (CfgCore config) = Ok selection /\ compilerFactory selection = Ok compile /\
    compile (snapshotOf (cdb s) config roster (Now (cworld s)).1) = Ok artifact /\ ArDigest artifact = sha256_hex (ArConfig artifact) /\
    rtc world_step (cworld s) w /\ runs_artifact artifact (SelEngine selection) (SelVersion selection) w (cworld s') /\
    exists s1, cdb s1 = cdb s /\ saveDeployment selection artifact config roster s1 = (Ok tt, s').
Proof.
  unfold converge. intros (config & s1 & [= Hc <-] & Hr)%core_bind_Ok. apply core_bind_Ok in Hr as (roster & s2 & [= Hro <-] & Hr).
  apply core_bind_Ok in Hr as (selection & s3 & [= Hsel <-] & Hr). apply core_bind_Ok in Hr as (compile & s4 & [= Hf <-] & Hr).
  apply core_bind_Ok in Hr as (now & s5 & Hnow & Hr). pose proof (pure_run _ _ _ _ pure_clock Hnow) as Hs5.
  apply core_bind_Ok in Hr as (snapshot & s6 & [= <- <-] & Hr). apply core_bind_Ok in Hr as (artifact & s7 & [= Ha <-] & Hr).
  apply core_bind_Ok in Hr as ([] & s8 & [= Hv <-] & Hr). apply core_bind_Ok in Hr as (st & s9 & [= <- <-] & Hr).
  assert (ArDigest artifact = sha256_hex (ArConfig artifact)) as Hdig by (by apply validateArtifact_Ok).
  assert (loadStoredBody (cdb s) StreamConfig = Ok config) as Hc' by (destruct (loadStoredBody (cdb s) StreamConfig); [by injection Hc as ->|done]).
  assert (optionalBody StreamRoster (cdb s) = Ok roster) as Hro' by (destruct (optionalBody StreamRoster (cdb s)); [by injection Hro as ->|done]).
  pose proof (clock_time _ _ _ Hnow) as Ht.
  rewrite Hs5, Ht in Ha. exists config, roster, selection, compile, artifact. case_decide as Hrun.
  - exists (cworld s5). split_and!; try done; [by apply rtc_once, (clock_world _ now)| |by exists s5].
    left. destruct Hrun as (? & ? & ? & ?). split_and!; try done. by eapply saveDeployment_world.
  - apply core_bind_Ok in Hr as (installed & s10 & Hi & Hr). pose proof (pure_run _ _ _ _ (pure_install _) Hi) as Hs10.
    case_decide as Hmis; [done|]. apply core_bind_Ok in Hr as ([] & s11 & Hd & Hr). pose proof (pure_run _ _ _ _ (pure_deploy _) Hd) as Hs11.
    apply install_world in Hi as Hws.
    exists (cworld s10). split_and!; try done; [by eapply rtc_l, rtc_once; [by apply (clock_world _ now)|]| |exists s11; split; [congruence|done]].
    right. exists (InBinaryPath installed), (cworld s11). unfold deploy in Hd. destruct (Deploy _ _) as [[e|] w] eqn:Hdep; [done|].
    injection Hd as <-. apply saveDeployment_world in Hr as Hsw.
    assert (InEngine installed = SelEngine selection) as He by (destruct (decide (InEngine installed = SelEngine selection)); tauto).
    assert (InVersion installed = SelVersion selection) as Hve by (destruct (decide (InVersion installed = SelVersion selection)); tauto).
    rewrite He, Hve in Hdep. split; [exact Hdep|done].
Qed.

(** The client has no ledger row, or one inside its grant. *)
Definition inside_grant (db : DB) (client : WClient) : Prop := forall row, client_runtime db !! WCKey client = Some row -> within_grant row.

(** The snapshot shows the listeners of the config and the clients of the roster in
    order, each as it is if it is inside its grant, and disabled if not. *)
Record gated_snapshot (db : DB) (config : ConfigBody) (roster : option RosterBody) (now : Z) (snapshot : Snapshot) : Prop := {
  gs_listeners : SnListeners snapshot = CfgListeners config;
  gs_now : SnNow snapshot = now;
  gs_clients : Forall2 (fun client shown => inside_grant db client /\ shown = client \/ ~ inside_grant db client /\ shown = withEnabled client false)
    (from_option RosClients [] roster) (SnClients snapshot)
}.

Lemma gated_enabled db config roster now snapshot client : gated_snapshot db config roster now snapshot ->
  client ∈ SnClients snapshot -> WCEnabled client = true -> client ∈ from_option RosClients [] roster /\ inside_grant db client.
Proof.
  intros [_ _ Hcl] [j Hj]%list_elem_of_lookup Hen. destruct (Forall2_lookup_r _ _ _ _ _ Hcl Hj) as (c & Hc & [[Hin ->]|[_ ->]]); [|done].
  split; [by eapply list_elem_of_lookup_2|done].
Qed.

(** The deployment on record in [db] is what the documents and the ledger of [db]
    compile to at the moment the clock gave in [w0], and the host, which came from
    [w0] to [w'], runs it. *)
Definition enforced_deployment (db : DB) (w0 w' : W) : Prop :=
  exists config roster selection compile artifact d w, let snapshot := snapshotOf db config roster (Now w0).1 in
    loadStoredBody db StreamConfig = Ok config /\ optionalBody StreamRoster db = Ok roster /\
    resolveSelection (CfgCore config) = Ok selection /\ compilerFactory selection = Ok compile /\ compile snapshot = Ok artifact /\
    gated_snapshot db config roster (Now w0).1 snapshot /\
    CoreDeploymentOf db = Ok d /\ CDEngine d = SelEngine selection /\ CDVersion d = SelVersion selection /\
    CDArtifact d = ArConfig artifact /\ CDConfigDigest d = ArDigest artifact /\ ArDigest artifact = sha256_hex (ArConfig artifact) /\
    rtc world_step w0 w /\ runs_artifact artifact (CDEngine d) (CDVersion d) w w'.

Lemma gate_denies row : client_ok row -> gateDenies row = true -> ~ within_grant row.
Proof.
  intros Hok Hg%bool_decide_eq_true Hw. destruct (client_ok_gate row Hok) as [Hclosed Harmed].
  assert (exists h, HeadroomBytes row = Some h) as [h Hh].
  { destruct Hg as [Hg|[_ Hg]]; [|by destruct (HeadroomBytes row); eauto]. destruct (proj1 Hclosed Hg) as (b & h & _ & Hh & _). eauto. }
  destruct (Hw h Hh) as (b & Hb & Hle). assert (Gate row = GateArmed) as Ha by (apply Harmed; eauto). rewrite Ha in Hg. naive_solver.
Qed.

Lemma gateClient_cases db client : clients_ok db ->
  inside_grant db client /\ gateClient db client = client \/ ~ inside_grant db client /\ gateClient db client = withEnabled client false.
Proof.
  intros Hok. unfold gateClient, inside_grant. destruct (client_runtime db !! WCKey client) as [row|] eqn:Hrow; [|by left].
  assert (client_ok row) as Hrok by (by eapply (Hok (WCKey client))). destruct (gateDenies row) eqn:Hg; [right|left]; (split; [|done]).
  - intros Hw. by apply (gate_denies row Hrok Hg), Hw.
  - intros row' [= <-]. by apply gate_allows.
Qed.

Lemma snapshotOf_gated db config roster now : clients_ok db -> gated_snapshot db config roster now (snapshotOf db config roster now).
Proof.
  intros Hok. split; [done|done|]. assert (SnClients (snapshotOf db config roster now) = gateClient db <$> from_option RosClients [] roster) as -> by (by destruct roster).
  apply Forall2_fmap_r, Forall_Forall2_diag, Forall_forall. intros client _. by apply gateClient_cases.
Qed.

(** A deployment changes neither the documents nor the ledger. *)
Lemma deployment_frame_loads {T} `{BodyCodec T} db d stream : deployment_frame db d ->
  loadStoredBody (T := T) d stream = loadStoredBody db stream /\ optionalBody (T := T) stream d = optionalBody stream db.
Proof. by intros ->. Qed.

Lemma Converge_enforces s s' : clients_ok (cdb s) -> Converge s = (None, s') -> enforced_deployment (cdb s') (cworld s) (cworld s').
Proof.
  intros Hok Hc. pose proof (Converge_frame s) as Hfr. rewrite Hc in Hfr. simpl in Hfr.
  unfold Converge in Hc. destruct (converge s) as [[[]|e] s1] eqn:Hrun; [|done]. injection Hc as <-.
  apply converge_Ok in Hrun as (config & roster & selection & compile & artifact & w & Hcfg & Hros & Hsel & Hf & Ha & Hdig & Hreach & Hw & s2 & _ & Hsave).
  apply saveDeployment_Ok in Hsave as (d & t & Hd & He & Hv & Hart & Hcd & _).
  assert (client_runtime (cdb s1) = client_runtime (cdb s)) as Hcl by (by rewrite Hfr).
  assert (snapshotOf (cdb s1) config roster (Now (cworld s)).1 = snapshotOf (cdb s) config roster (Now (cworld s)).1) as Hsn
    by (unfold snapshotOf, gateClient; by rewrite Hcl).
  exists config, roster, selection, compile, artifact, d, w. cbv zeta. split_and!; try done.
  - by rewrite (proj1 (deployment_frame_loads _ _ _ Hfr)).
  - by rewrite (proj2 (deployment_frame_loads _ _ _ Hfr)).
  - by rewrite Hsn.
  - apply snapshotOf_gated. unfold clients_ok. by rewrite Hcl.
  - by rewrite He, Hv.
Qed.

(** *** Expiry *)

(** A deadline that is still to be enforced. *)
Definition pending_expiry (processedThrough : Z) (client : WClient) : Prop :=
  WCEnabled client = true /\ processedThrough < WCExpiresAtMS client.

Lemma earliestStep_pending p e client : pending_expiry p client ->
  earliestStep p e client = if decide (e = 0 \/ WCExpiresAtMS client < e) then WCExpiresAtMS client else e.
Proof. intros [He Hp]. unfold earliestStep. rewrite He. rewrite bool_decide_eq_false_2 by lia. done. Qed.

Lemma earliestStep_skip p e client : ~ pending_expiry p client -> earliestStep p e client = e.
Proof.
  intros Hn. unfold earliestStep, pending_expiry in *. destruct (WCEnabled client); [|done]. simpl.
  by rewrite bool_decide_eq_true_2 by (destruct (decide (p < WCExpiresAtMS client)); [tauto|lia]).
Qed.

#[local] Instance pending_dec p client : Decision (pending_expiry p client).
Proof. unfold pending_expiry. apply _. Defined.

(** The minimum of the deadlines ahead; [0] when there is none. *)
Lemma earliest_spec p clients : 0 ≤ p ->
  let earliest := foldl (earliestStep p) 0 clients in
  (earliest = 0 -> forall client, client ∈ clients -> ~ pending_expiry p client) /\
  (earliest <> 0 -> p < earliest /\ (exists client, client ∈ clients /\ pending_expiry p client /\ WCExpiresAtMS client = earliest) /\
     forall client, client ∈ clients -> pending_expiry p client -> earliest ≤ WCExpiresAtMS client).
Proof.
  intros Hp. induction clients as [|client clients IH] using rev_ind.
  { split; [intros _ client Hc|done]. by apply not_elem_of_nil in Hc. }
  simpl. rewrite foldl_app. simpl. set (e := foldl (earliestStep p) 0 clients) in *. destruct IH as [Hzero Hpos].
  destruct (decide (pending_expiry p client)) as [Hd|Hd].
  - rewrite (earliestStep_pending _ _ _ Hd). pose proof Hd as [Hen Hgt].
    destruct (decide (e = 0 \/ WCExpiresAtMS client < e)) as [Hlt|Hge].
    + split; [lia|]. intros _. split; [done|]. split; [exists client; set_solver|].
      intros c [Hc| ->%list_elem_of_singleton]%elem_of_app Hcp; [|lia]. destruct (decide (e = 0)) as [He|He]; [by destruct (Hzero He c Hc)|].
      destruct (Hpos He) as (_ & _ & Hmin). specialize (Hmin c Hc Hcp). lia.
    + assert (e <> 0) as He by tauto. destruct (Hpos He) as (Hpe & (c0 & Hc0 & Hp0 & Heq) & Hmin). split; [done|]. intros _.
      split; [done|]. split; [exists c0; set_solver|]. intros c [Hc| ->%list_elem_of_singleton]%elem_of_app Hcp; [by apply Hmin|lia].
  - rewrite (earliestStep_skip _ _ _ Hd). split.
    + intros He c [Hc| ->%list_elem_of_singleton]%elem_of_app; [by apply Hzero|done].
    + intros He. destruct (Hpos He) as (Hpe & (c0 & Hc0 & Hp0 & Heq) & Hmin). split; [done|]. split; [exists c0; set_solver|].
      intros c [Hc| ->%list_elem_of_singleton]%elem_of_app Hcp; [by apply Hmin|done].
Qed.

(** The next deadline of a roster that was processed through [p]. *)
Definition next_deadline (p : Z) (clients : list WClient) (o : option Z) : Prop :=
  match o with
  | Some t => p < t /\ (exists client, client ∈ clients /\ WCEnabled client = true /\ WCExpiresAtMS client = t) /\
      (forall client, client ∈ clients -> WCEnabled client = true -> p < WCExpiresAtMS client -> t ≤ WCExpiresAtMS client)
  | None => forall client, client ∈ clients -> WCEnabled client = true -> WCExpiresAtMS client ≤ p
  end.

Lemma earliest_deadline p clients : 0 ≤ p ->
  let earliest := foldl (earliestStep p) 0 clients in
  next_deadline p clients (if decide (earliest = 0) then None else Some earliest).
Proof.
  intros Hp. cbv zeta. destruct (earliest_spec p clients Hp) as [Hzero Hpos]. case_decide as He; simpl.
  - intros client Hc Hen. destruct (decide (WCExpiresAtMS client ≤ p)); [done|]. exfalso. apply (Hzero He client Hc). split; [done|lia].
  - destruct (Hpos He) as (Hlt & (c & Hc & [Hen _] & Heq) & Hmin). split; [done|]. split; [eauto|]. intros client Hc' Hen' Hgt.
    by apply Hmin.
Qed.

(** After a convergence, if encoding the stored roster gives its stored text back,
    the deployment on record covers that roster, and the loop's next deadline is the
    earliest expiry of an enabled client after the moment recorded. *)
Lemma Converge_schedules s s' document roster :
  Stream (cdb s) StreamRoster = Ok document -> UnmarshalBody (DBody document) = Some roster ->
  MarshalBody roster = Some (DBody document) -> Converge s = (None, s') ->
  exists config selection compile artifact d o,
    loadStoredBody (cdb s) StreamConfig = Ok config /\ compilerFactory selection = Ok compile /\
    compile (snapshotOf (cdb s) config (Some roster) (Now (cworld s)).1) = Ok artifact /\
    CoreDeploymentOf (cdb s') = Ok d /\ CDArtifact d = ArConfig artifact /\ 0 < CDAppliedAtMS d /\
    nextExpiry (cdb s') = Ok o /\ next_deadline (CDAppliedAtMS d) (RosClients roster) o.
Proof.
  intros Hdoc Hun Hma Hc. pose proof (Converge_frame s) as Hfr. rewrite Hc in Hfr. simpl in Hfr.
  unfold Converge in Hc. destruct (converge s) as [[[]|e] s1] eqn:Hrun; [|done]. injection Hc as <-.
  apply converge_Ok in Hrun as (config & ros & selection & compile & artifact & w & Hcfg & Hros & _ & Hf & Ha & _ & _ & _ & s2 & _ & Hsave).
  apply saveDeployment_Ok in Hsave as (d & t & Hd & _ & _ & Hart & _ & _ & Hat & Hpos & _ & Hbody).
  assert (ros = Some roster) as ->.
  { unfold optionalBody, optionalStoredBody in Hros. rewrite (proj2 (loadStoredBody_Ok (cdb s) StreamRoster roster)) in Hros by eauto.
    by injection Hros as <-. }
  assert (Stream (cdb s1) StreamRoster = Ok document) as Hdoc' by (rewrite Hfr; by rewrite <-Hdoc).
  assert (CDRosterBody d = DBody document) as Hb by (specialize (Hbody roster eq_refl); congruence).
  exists config, selection, compile, artifact, d. eexists. do 5 (split; [done|]). split; [lia|]. unfold nextExpiry. rewrite Hdoc', Hun, Hd. cbn [mbind res_bind].
  rewrite (decide_True (P := DBody document = CDRosterBody d)) by (by rewrite Hb). split; [reflexivity|]. apply earliest_deadline. lia.
Qed.

(** The retry delay stays between one and thirty seconds and doubles until it
    gets there. *)
Lemma expiry_retry_bounds previous :
  second ≤ nextExpiryRetry previous ≤ 30 * second /\
  (second ≤ previous -> nextExpiryRetry previous = Z.min (2 * previous) (30 * second)).
Proof. unfold nextExpiryRetry, second. repeat case_decide; lia. Qed.

End runtime.

Module core_example.
Import sample.
Import rounds_example.

(** A host whose installer and supervisor always succeed; the world is the clock
    and what runs. *)
#[export] Instance sample_world : CoreWorld (Z * CoreStatus) := {|
  Install w request := (Ok (MkInstallation (IrEngine request) (IrVersion request) "/opt/core"), w);
  Deploy w d := (None, (w.1, MkCoreStatus ProcessRunning (DpEngine d) (DpVersion d) (ArDigest (DpArtifact d)) 0 0 None (Some w.1)));
  Status w := w.2;
  Now w := (w.1, w)
|}.

Definition release : Release :=
  MkRelease "xray" "1.8.0" TierRecommended false true false (Some 1) "" (MkLocalizedText "" "")
    (MkRealityCompatibility "supported" "supported" "supported" "supported" "" "" false) (MkEvidence true true true (Some 1) []) [].
Definition catalog : res error (list Release) := Ok [release].
Definition compiler (snapshot : Snapshot) : res coreError Artifact := Ok (MkArtifact "{}" (sha256_hex "{}")).
Definition factory : CoreSelection -> res coreError Compiler := defaultCompilerFactory (fun _ _ => compiler).

Definition idle : Z * CoreStatus := (9000000, MkCoreStatus ProcessStopped "" "" "" 0 0 None None).

(** The documents of the round example, stored. *)
Definition stored : DB := (Receive (fun s => s) (Ok []) before (RespSegments response) (fun _ => 5)).2.
Definition stopped : cstate := MkCState idle stored false.
Definition converged_state : cstate := (Converge (fun s => s) catalog factory stopped).2.

Lemma converged : Converge (fun s => s) catalog factory stopped = (None, converged_state).
Proof. vm_compute. reflexivity. Qed.

Lemma stored_clients : clients_ok (cdb stopped).
Proof.
  assert (client_runtime (cdb stopped) = client_runtime (run_ops empty_db ops)) as Heq by (vm_compute; reflexivity).
  unfold clients_ok. rewrite Heq. apply (run_ops_clients_ok empty_db ops); [repeat constructor|apply clients_ok_empty].
Qed.

Lemma round_is_one_transition_witness :
  fst (roundCalls (fun s => s) catalog factory (MkCoreRuntime idle false (InRound None))
    [(Some (StreamConfig, "lst_1"), stored); (Some (StreamRoster, "cli_1"), stored); (None, stored)])
  = [(None, cdb converged_state); (None, stored); (None, stored)].
Proof.
  pose proof (round_is_one_transition (fun s => s) catalog factory (MkCoreRuntime idle false (InRound None))
    (Some (StreamConfig, "lst_1")) stored [(Some (StreamRoster, "cli_1"), stored); (None, stored)] eq_refl) as Hr.
  change (MkCState (crWorld (MkCoreRuntime idle false (InRound None))) stored (crWake (MkCoreRuntime idle false (InRound None)))) with stopped in Hr.
  rewrite converged in Hr. rewrite Hr. reflexivity.
Defined.

End core_example.
