(* ===== verification/Supervisor.v ===== *)
(** * The core supervisor ([internal/core/process/supervisor.go])

    One child process, its configuration files and its published status.  Every
    transition happens on the goroutine of [Run]; what the operating system
    answers (spawning, signals, exits, files, timers, the context) is an input of
    each operation, and a computation threads the supervisor's state. *)
From S2P Require Import Prelude GoStrings Sha256 CoreRuntime.

(** ** Options and state *)

(** One engine's command builders; the flags say which are set. *)
Record Command := MkCommand { RunArgs : bool; ValidateArgs : bool }.

Record SupervisorOptions := MkSupervisorOptions {
  SoBinary : string;
  SoEngine : string;
  SoVersion : string;
  SoStateDir : string;
  SoCommands : option (string -> option Command);
  SoCheckTimeout : Z;
  SoStartGrace : Z;
  SoStopTimeout : Z;
  SoRetryMin : Z;
  SoRetryMax : Z;
  SoRequireInitialConfigDigest : bool;
  SoInitialConfigDigest : string
}.

(** [Status]: the fields the agent reads and the three only people read. *)
Record SupStatus := MkSupStatus { ssCore : CoreStatus; ssBinaryPath : string; ssLastUnexpectedExit : string; ssLastError : string }.

(** A started process that has not been reaped: its binary, and the contents of
    the configuration file when it was started. *)
Record managedProcess := MkManaged { mpPid : Z; mpEngine : string; mpBinary : string; mpConfig : option string }.

(** [current.json] and [previous.json]. *)
Record disk := MkDisk { dkCurrent : option string; dkPrevious : option string }.

Inductive supEvent := EventCoreStarted | EventCoreRestarted (restarts : Z) | EventCoreStopped | EventUnexpectedExit (detail : string).

Record supervisor := MkSupervisor {
  svStatus : SupStatus;
  svLaunches : Z;
  svEngine : string;
  svBinary : string;
  svHandle : Z * Z;
  svDisk : disk;
  svProcs : list managedProcess;
  svReads : nat;
  svEvents : list supEvent
}.

(** The local variables of [Run]. *)
Record runLoop := MkRunLoop {
  lpCurrent : Artifact;
  lpEngine : string;
  lpBinary : string;
  lpVersion : string;
  lpChild : option managedProcess;
  lpRetry : Z
}.

Definition noArtifact : Artifact := MkArtifact "" "".

(** ** Computations *)

Definition supM (A : Type) : Type := supervisor -> A * supervisor.

#[global] Instance supM_ret : MRet supM := fun A a s => (a, s).
#[global] Instance supM_bind : MBind supM := fun A B f m s => let '(a, s') := m s in f a s'.

Definition modify (f : supervisor -> supervisor) : supM unit := fun s => (tt, f s).

Definition setStatus (st : SupStatus) (s : supervisor) : supervisor :=
  MkSupervisor st (svLaunches s) (svEngine s) (svBinary s) (svHandle s) (svDisk s) (svProcs s) (svReads s) (svEvents s).
Definition setHandle (h : Z * Z) : supM unit := modify (fun s =>
  MkSupervisor (svStatus s) (svLaunches s) (svEngine s) (svBinary s) h (svDisk s) (svProcs s) (svReads s) (svEvents s)).
Definition setDisk (d : disk) (s : supervisor) : supervisor :=
  MkSupervisor (svStatus s) (svLaunches s) (svEngine s) (svBinary s) (svHandle s) d (svProcs s) (svReads s) (svEvents s).
Definition setProcs (ps : list managedProcess) (s : supervisor) : supervisor :=
  MkSupervisor (svStatus s) (svLaunches s) (svEngine s) (svBinary s) (svHandle s) (svDisk s) ps (svReads s) (svEvents s).

(** The child has been waited for. *)
Definition reap (p : managedProcess) : supM unit := modify (fun s =>
  setProcs (filter (fun q => mpPid q <> mpPid p) (svProcs s)) s).

Definition record (e : supEvent) : supM unit := modify (fun s =>
  MkSupervisor (svStatus s) (svLaunches s) (svEngine s) (svBinary s) (svHandle s) (svDisk s) (svProcs s) (svReads s) (svEvents s ++ [e])).

(** ** Pure parts *)

Definition IsAbs (path : string) : bool := HasPrefix path "/".

Definition processExitDetail (err : option string) : string := default "without an error status" err.

Definition supValidateArtifact (artifact : Artifact) : option string :=
  if decide (ArConfig artifact = "") then Some "core config is empty" else
  if decide (ArDigest artifact <> sha256_hex (ArConfig artifact)) then Some "core config digest mismatch" else None.

(** [stat] is the kind and the execute bits of a file, [None] its failure. *)
Definition validateDeployment (stat : string -> option (bool * bool)) (d : CoreDeploy) : option string :=
  match supValidateArtifact (DpArtifact d) with
  | Some e => Some e
  | None =>
      if negb (IsAbs (DpBinaryPath d)) then Some "deployment core binary path must be absolute" else
      if decide (TrimSpace (DpEngine d) = "" \/ TrimSpace (DpEngine d) <> DpEngine d) then Some "deployment core engine is required and must be canonical" else
      match stat (DpBinaryPath d) with
      | None => Some "inspect deployment core binary"
      | Some (regular, executable) =>
          if negb regular then Some "deployment core binary must be a regular file" else
          if negb executable then Some "deployment core binary must be executable" else
          if decide (TrimSpace (DpVersion d) = "") then Some "deployment core version is required" else None
      end
  end.

Definition resolveCommand (resolve : string -> option Command) (engine : string) : res string Command :=
  match resolve engine with
  | None => Err "unsupported engine"
  | Some command => if RunArgs command && ValidateArgs command then Ok command else Err "incomplete command builders"
  end.

Definition artifactFromConfig (config : string) : Artifact :=
  if decide (config = "") then noArtifact else MkArtifact config (sha256_hex config).

(** Nanoseconds; a doubled delay stays below the maximum. *)
Definition nextBackoff (current maximum : Z) : Z := if decide (Z.quot maximum 2 ≤ current) then maximum else current * 2.

(** [limitBuffer.Write]: the buffer and what remains. *)
Definition limitWrite (b : string * Z) (contents : string) : string * Z :=
  let '(buffer, remaining) := b in
  if decide (0 < remaining) then
    let write := if decide (remaining < Z.of_nat (String.length contents)) then String.substring 0 (Z.to_nat remaining) contents else contents in
    (buffer +:+ write, remaining - Z.of_nat (String.length write))
  else (buffer, remaining).

(** Lowercase hexadecimal of a SHA-256: what decodes and encodes back. *)
Definition lowerHex (a : ascii) : bool :=
  let n := Z.of_nat (nat_of_ascii a) in bool_decide (48 ≤ n ≤ 57 \/ 97 ≤ n ≤ 102).
Definition canonicalDigest (s : string) : bool :=
  bool_decide (String.length s = 64%nat) && forallb lowerHex (String.list_ascii_of_string s).

Definition orDefault (d default : Z) : Z := if decide (d ≤ 0) then default else d.

Definition millisecond : Z := 1000000.

(** The options with their defaults, and the stopped supervisor. *)
Definition NewSupervisor (o : SupervisorOptions) (files : disk) (now : Z) : res string (SupervisorOptions * supervisor) :=
  if negb (IsAbs (SoBinary o)) then Err "core binary path must be absolute" else
  if bool_decide (SoStateDir o = "") || negb (IsAbs (SoStateDir o)) then Err "core state directory must be absolute" else
  if decide (TrimSpace (SoEngine o) = "" \/ TrimSpace (SoEngine o) <> SoEngine o) then Err "initial core engine is required and must be canonical" else
  match SoCommands o with
  | None => Err "core command resolver is required"
  | Some resolve =>
      _ ← resolveCommand resolve (SoEngine o);
      let retryMin := orDefault (SoRetryMin o) (500 * millisecond) in
      let retryMax := orDefault (SoRetryMax o) (30 * second) in
      if decide (retryMax < retryMin) then Err "maximum retry delay is below minimum retry delay" else
      if SoRequireInitialConfigDigest o && negb (bool_decide (SoInitialConfigDigest o = "")) && negb (canonicalDigest (SoInitialConfigDigest o))
      then Err "initial core config digest must be lowercase SHA-256" else
      Ok (MkSupervisorOptions (SoBinary o) (SoEngine o) (SoVersion o) (SoStateDir o) (SoCommands o)
            (orDefault (SoCheckTimeout o) (15 * second)) (orDefault (SoStartGrace o) (750 * millisecond)) (orDefault (SoStopTimeout o) (10 * second))
            retryMin retryMax (SoRequireInitialConfigDigest o) (SoInitialConfigDigest o),
          MkSupervisor
            (MkSupStatus (MkCoreStatus ProcessStopped (SoEngine o) (SoVersion o) "" 0 0 None (Some now)) (SoBinary o) "" "")
            0 (SoEngine o) (SoBinary o) (0, 0) files [] 0 [])
  end.

(** A new supervisor is stopped and holds nothing. *)
Definition stoppedSupervisor (o : SupervisorOptions) (files : disk) (now : Z) : supervisor :=
  MkSupervisor (MkSupStatus (MkCoreStatus ProcessStopped (SoEngine o) (SoVersion o) "" 0 0 None (Some now)) (SoBinary o) "" "")
    0 (SoEngine o) (SoBinary o) (0, 0) files [] 0 [].

Lemma NewSupervisor_Ok o files now o' s0 :
  NewSupervisor o files now = Ok (o', s0) -> s0 = stoppedSupervisor o' files now /\ 0 < SoRetryMin o' ≤ SoRetryMax o'.
Proof.
  unfold NewSupervisor. destruct (negb _); [done|]. destruct (_ || _); [done|]. case_decide; [done|]. destruct (SoCommands o) as [resolve|]; [|done].
  destruct (resolveCommand _ _); [|done]. simpl. case_decide as Hlt; [done|]. destruct (_ && _ && _); [done|]. intros [= <- <-]. split; [done|].
  simpl. unfold orDefault, millisecond, second in *. repeat case_decide; lia.
Qed.

Section supervisor.
Context (options : SupervisorOptions) (Clock : nat -> Z).

(** ** The published status *)

Definition readClock : supM Z := fun s =>
  (Clock (svReads s), MkSupervisor (svStatus s) (svLaunches s) (svEngine s) (svBinary s) (svHandle s) (svDisk s) (svProcs s) (S (svReads s)) (svEvents s)).

Definition recordStateChange (previous next : ProcessState) (restarts : Z) : supM unit :=
  if decide (previous = next) then mret tt else
  match next with
  | ProcessRunning => record (if decide (0 < restarts) then EventCoreRestarted restarts else EventCoreStarted)
  | ProcessStopped => record EventCoreStopped
  | _ => mret tt
  end.

Definition putStatus (st : SupStatus) : supM unit := modify (setStatus st).
Definition getStatus : supM SupStatus := fun s => (svStatus s, s).

Definition withChangedAt (t : Z) (st : SupStatus) : SupStatus :=
  let c := ssCore st in
  MkSupStatus (MkCoreStatus (CsState c) (CsEngine c) (CsVersion c) (CsConfigDigest c) (CsRestartCount c) (CsUnexpectedExitCount c)
    (CsLastUnexpectedExitAt c) (Some t)) (ssBinaryPath st) (ssLastUnexpectedExit st) (ssLastError st).

Definition updateStatus (update : SupStatus -> SupStatus) : supM unit :=
  before ← getStatus;
  t ← readClock;
  let after := withChangedAt t (update before) in
  _ ← putStatus after;
  recordStateChange (CsState (ssCore before)) (CsState (ssCore after)) (CsRestartCount (ssCore after)).

Definition withState (state : ProcessState) (lastError : option string) (st : SupStatus) : SupStatus :=
  let c := ssCore st in
  MkSupStatus (MkCoreStatus state (CsEngine c) (CsVersion c) (CsConfigDigest c) (CsRestartCount c) (CsUnexpectedExitCount c)
    (CsLastUnexpectedExitAt c) (CsLastChangedAt c)) (ssBinaryPath st) (ssLastUnexpectedExit st) (default (ssLastError st) lastError).

Definition withDigest (digest : string) (st : SupStatus) : SupStatus :=
  let c := ssCore st in
  MkSupStatus (MkCoreStatus (CsState c) (CsEngine c) (CsVersion c) digest (CsRestartCount c) (CsUnexpectedExitCount c)
    (CsLastUnexpectedExitAt c) (CsLastChangedAt c)) (ssBinaryPath st) (ssLastUnexpectedExit st) (ssLastError st).

Definition setStarting : supM unit := updateStatus (withState ProcessStarting None).
Definition setRunning (lastError : string) : supM unit := updateStatus (withState ProcessRunning (Some lastError)).
Definition setDegraded (lastError : string) : supM unit := updateStatus (withState ProcessDegraded (Some lastError)).
Definition setStopped (lastError : string) : supM unit := updateStatus (withState ProcessStopped (Some lastError)).
Definition setDigest (digest : string) : supM unit := updateStatus (withDigest digest).

Definition setDeployment (engine binary version digest : string) : supM unit :=
  t ← readClock;
  modify (fun s =>
    let c := ssCore (svStatus s) in
    MkSupervisor
      (MkSupStatus (MkCoreStatus (CsState c) engine version digest (CsRestartCount c) (CsUnexpectedExitCount c) (CsLastUnexpectedExitAt c) (Some t))
        binary (ssLastUnexpectedExit (svStatus s)) (ssLastError (svStatus s)))
      (svLaunches s) engine binary (svHandle s) (svDisk s) (svProcs s) (svReads s) (svEvents s)).

Definition noteStart : supM unit :=
  t ← readClock;
  modify (fun s =>
    let c := ssCore (svStatus s) in
    let restarts := if decide (0 < svLaunches s) then (CsRestartCount c + 1) mod 2 ^ 64 else CsRestartCount c in
    MkSupervisor
      (MkSupStatus (MkCoreStatus (CsState c) (CsEngine c) (CsVersion c) (CsConfigDigest c) restarts (CsUnexpectedExitCount c) (CsLastUnexpectedExitAt c) (Some t))
        (ssBinaryPath (svStatus s)) (ssLastUnexpectedExit (svStatus s)) (ssLastError (svStatus s)))
      ((svLaunches s + 1) mod 2 ^ 64) (svEngine s) (svBinary s) (svHandle s) (svDisk s) (svProcs s) (svReads s) (svEvents s)).

Definition noteUnexpectedExit (err : option string) : supM unit :=
  let detail := processExitDetail err in
  t ← readClock;
  _ ← modify (fun s =>
    let c := ssCore (svStatus s) in
    setStatus (MkSupStatus (MkCoreStatus (CsState c) (CsEngine c) (CsVersion c) (CsConfigDigest c) (CsRestartCount c)
        ((CsUnexpectedExitCount c + 1) mod 2 ^ 64) (Some t) (CsLastChangedAt c)) (ssBinaryPath (svStatus s)) detail (ssLastError (svStatus s))) s);
  record (EventUnexpectedExit detail).

(** [ProcessHandle]: [None] says that no core is running. *)
Definition ProcessHandleOf (s : supervisor) : option (Z * Z) := if decide ((svHandle s).1 = 0) then None else Some (svHandle s).
Definition Verifiable (h : Z * Z) : bool := bool_decide (0 < h.1) && bool_decide (0 < h.2).

(** [ticks] is the start time the kernel gives, [None] a failed read. *)
Definition recordHandle (pid : Z) (ticks : option Z) : supM unit := setHandle (pid, default 0 ticks).
Definition clearHandle : supM unit := setHandle (0, 0).

(** ** Stopping and starting a process *)

Inductive signalResult := SignalSent | SignalGone | SignalFailed (e : string).

Record stopEnv := MkStopEnv { steSignal : signalResult; steExited : bool; steKill : signalResult }.

Definition stop (child : managedProcess) (env : stopEnv) : supM (option string) :=
  r ← (match steSignal env with
       | SignalFailed e => mret (Some e)
       | _ =>
           if steExited env then _ ← reap child; mret None else
           match steKill env with
           | SignalFailed e => mret (Some e)
           | _ => _ ← reap child; mret None
           end
       end);
  _ ← clearHandle;
  mret r.

(** What the select after a spawn sees: an exit (and whether a context was done),
    one of the contexts, or the timer and then perhaps an exit. *)
Inductive startSelect :=
| StartExited (err : option string) (waitDone runDone : bool)
| StartWaitDone (env : stopEnv)
| StartRunDone (env : stopEnv)
| StartTimer (exited : option (option string)) (ticks : option Z).

(** [sePid] is the new process, [None] a failed spawn. *)
Record startEnv := MkStartEnv { sePid : option Z; seSelect : startSelect }.

Definition spawn (engine binary : string) (pid : Z) : supM managedProcess := fun s =>
  let p := MkManaged pid engine binary (dkCurrent (svDisk s)) in (p, setProcs (svProcs s ++ [p]) s).

Definition Commands : string -> option Command := default (fun _ => None) (SoCommands options).

Definition start (engine binary : string) (env : startEnv) : supM (res string managedProcess) :=
  match resolveCommand Commands engine with
  | Err e => mret (Err e)
  | Ok _ =>
      _ ← setStarting;
      match sePid env with
      | None => mret (Err "spawn")
      | Some pid =>
          child ← spawn engine binary pid;
          _ ← noteStart;
          match seSelect env with
          | StartExited err waitDone runDone =>
              _ ← reap child;
              _ ← (if negb waitDone && negb runDone then noteUnexpectedExit err else mret tt);
              mret (Err ("exited during startup: " +:+ processExitDetail err))
          | StartWaitDone st => _ ← stop child st; mret (Err "wait context done")
          | StartRunDone st => _ ← stop child st; mret (Err "run context done")
          | StartTimer (Some err) _ => _ ← reap child; mret (Err ("exited during startup: " +:+ processExitDetail err))
          | StartTimer None ticks => _ ← recordHandle pid ticks; mret (Ok child)
          end
      end
  end.

(** ** Files *)

Inductive configFile := CurrentFile | PreviousFile.

Definition putFile (f : configFile) (contents : option string) : supM unit := modify (fun s =>
  setDisk match f with
               | CurrentFile => MkDisk contents (dkPrevious (svDisk s))
               | PreviousFile => MkDisk (dkCurrent (svDisk s)) contents
               end s).

(** Which steps of a replacement succeed: the temporary file, the rename (or the
    removal) and the sync of the directory. *)
Record writeEnv := MkWriteEnv { weWritten : bool; weReplaced : bool; weSynced : bool }.

Definition writeAtomic (f : configFile) (contents : string) (env : writeEnv) : supM (option string) :=
  if negb (weWritten env) then mret (Some "write") else
  if negb (weReplaced env) then mret (Some "replace") else
  _ ← putFile f (Some contents);
  mret (if weSynced env then None else Some "sync directory").

Record installEnv := MkInstallEnv { iePrevious : writeEnv; ieReplaced : bool; ieSynced : bool }.

Definition installCandidate (candidate oldConfig : string) (env : installEnv) : supM (option string) :=
  preserved ← (if decide (oldConfig = "") then mret None else writeAtomic PreviousFile oldConfig (iePrevious env));
  match preserved with
  | Some _ => mret (Some "preserve previous config")
  | None =>
      if negb (ieReplaced env) then mret (Some "replace") else
      _ ← putFile CurrentFile (Some candidate);
      mret (if ieSynced env then None else Some "sync directory")
  end.

Definition restoreConfig (oldConfig : string) (env : writeEnv) : supM (option string) :=
  if decide (oldConfig = "") then
    if negb (weReplaced env) then mret (Some "remove") else
    _ ← putFile CurrentFile None;
    mret (if weSynced env then None else Some "sync directory")
  else writeAtomic CurrentFile oldConfig env.

(** ** Applying a deployment *)

Record applyEnv := MkApplyEnv { aeInstall : installEnv; aeStop : stopEnv; aeStart : startEnv; aeRestore : writeEnv; aeRollback : startEnv }.

(** The end of a deployment that failed to start: the old configuration is back
    and, unless there was none, its core is started again. *)
Definition rollBack (applyErr : string) (env : applyEnv) (l : runLoop) : supM (option string * runLoop) :=
  let old := lpCurrent l in
  restored ← restoreConfig (ArConfig old) (aeRestore env);
  match restored with
  | Some _ =>
      _ ← setDigest "";
      _ ← setDegraded applyErr;
      mret (Some applyErr, MkRunLoop noArtifact (lpEngine l) (lpBinary l) (lpVersion l) None (lpRetry l))
  | None =>
      _ ← setDigest (ArDigest old);
      child ← (if decide (ArConfig old = "") then mret None else
               rolledBack ← start (lpEngine l) (lpBinary l) (aeRollback env);
               mret (match rolledBack with Ok p => Some p | Err _ => None end));
      _ ← setDegraded applyErr;
      mret (Some applyErr, MkRunLoop old (lpEngine l) (lpBinary l) (lpVersion l) child (lpRetry l))
  end.

(** The answer to the request and the loop's variables. *)
Definition handleApply (d : CoreDeploy) (env : applyEnv) (l : runLoop) : supM (option string * runLoop) :=
  let old := lpCurrent l in
  if decide (ArDigest (DpArtifact d) = ArDigest old /\ DpEngine d = lpEngine l /\ DpBinaryPath d = lpBinary l /\ DpVersion d = lpVersion l /\ is_Some (lpChild l))
  then mret (None, l) else
  installed ← installCandidate (ArConfig (DpArtifact d)) (ArConfig old) (aeInstall env);
  match installed with
  | Some _ => mret (Some "install core config", l)
  | None =>
      _ ← setDigest (ArDigest (DpArtifact d));
      stopped ← (match lpChild l with Some child => stop child (aeStop env) | None => mret None end);
      match stopped with
      | Some e =>
          _ ← restoreConfig (ArConfig old) (aeRestore env);
          _ ← setDigest (ArDigest old);
          _ ← setDegraded e;
          mret (Some e, l)
      | None =>
          started ← start (DpEngine d) (DpBinaryPath d) (aeStart env);
          match started with
          | Ok child =>
              _ ← setDeployment (DpEngine d) (DpBinaryPath d) (DpVersion d) (ArDigest (DpArtifact d));
              _ ← setRunning "";
              mret (None, MkRunLoop (DpArtifact d) (DpEngine d) (DpBinaryPath d) (DpVersion d) (Some child) (lpRetry l))
          | Err e => rollBack ("start candidate core config: " +:+ e) env l
          end
      end
  end.

(** What a deployment meets before and while the loop has it: the validation by
    the engine's own checker, and whether the caller sees the answer, its context
    or the end of the supervisor first. *)
Inductive handover := HandoverCancelled | HandoverStopped | HandoverTaken (env : applyEnv) (answered : bool).

Record deployEnv := MkDeployEnv {
  deStat : string -> option (bool * bool);
  deCandidate : bool;
  deCheck : bool;
  deHandover : handover
}.

Definition validateCandidate (engine : string) (ok : bool) : option string :=
  match resolveCommand Commands engine with
  | Err e => Some e
  | Ok _ => if ok then None else Some "validate core config"
  end.

Definition deployLocked (d : CoreDeploy) (env : deployEnv) (l : runLoop) : supM (option string * runLoop) :=
  match validateDeployment (deStat env) d with
  | Some e => mret (Some e, l)
  | None =>
      if negb (deCandidate env) then mret (Some "write candidate config", l) else
      match validateCandidate (DpEngine d) (deCheck env) with
      | Some e => mret (Some e, l)
      | None =>
          match deHandover env with
          | HandoverCancelled => mret (Some "context done", l)
          | HandoverStopped => mret (Some "core supervisor stopped", l)
          | HandoverTaken apply answered =>
              '(answer, l') ← handleApply d apply l;
              mret (if answered then answer else Some "context done", l')
          end
      end
  end.

(** [Apply] redeploys the active binary with another artifact. *)
Definition Apply (artifact : Artifact) (env : deployEnv) (l : runLoop) : supM (option string * runLoop) := fun s =>
  deployLocked (MkCoreDeploy artifact (svEngine s) (svBinary s) (CsVersion (ssCore (svStatus s)))) env l s.

(** ** The loop *)

(** The prologue of [Run]; [readable] says whether [current.json] is a regular
    file that can be read, or absent. *)
Definition runBegin (readable : bool) : supM (res string runLoop) := fun s =>
  if negb readable then (Err "read current core config", s) else
  let config := default "" (dkCurrent (svDisk s)) in
  let current := artifactFromConfig config in
  let begin (artifact : Artifact) := MkRunLoop artifact (SoEngine options) (SoBinary options) (SoVersion options) None (SoRetryMin options) in
  if SoRequireInitialConfigDigest options && negb (bool_decide (ArDigest current = SoInitialConfigDigest options)) then
    let '(_, s') := (if decide (config = "" /\ SoInitialConfigDigest options = "") then mret tt
                     else setDegraded "stored core config does not match the last confirmed deployment") s in
    (Ok (begin noArtifact), s')
  else
    let '(_, s') := (if decide (config = "") then mret tt else setDigest (ArDigest current)) s in
    (Ok (begin current), s').

(** What the select at the end of a turn receives.  After an exit the loop waits
    again, for one of the first three. *)
Inductive supWait := WaitCancelled | WaitApply (d : CoreDeploy) (env : deployEnv) | WaitTimer.
Inductive supSelect := SelectWait (w : supWait) | SelectExit (err : option string) (cancelled : bool) (after : supWait).

Definition setRetry (delay : Z) (l : runLoop) : runLoop := MkRunLoop (lpCurrent l) (lpEngine l) (lpBinary l) (lpVersion l) (lpChild l) delay.
Definition setChild (child : option managedProcess) (l : runLoop) : runLoop :=
  MkRunLoop (lpCurrent l) (lpEngine l) (lpBinary l) (lpVersion l) child (lpRetry l).

Definition waitStep (w : supWait) (l : runLoop) : supM runLoop :=
  match w with
  | WaitCancelled => mret l
  | WaitApply d env => '(_, l') ← deployLocked d env l; mret l'
  | WaitTimer => mret (setRetry (nextBackoff (lpRetry l) (SoRetryMax options)) l)
  end.

(** The top of a turn: a core that should run is started. *)
Definition turnStart (env : startEnv) (cancelled : bool) (l : runLoop) : supM runLoop :=
  if decide (lpChild l = None /\ ArConfig (lpCurrent l) <> "") then
    started ← start (lpEngine l) (lpBinary l) env;
    match started with
    | Ok child => _ ← setRunning ""; mret (setRetry (SoRetryMin options) (setChild (Some child) l))
    | Err e => _ ← (if cancelled : bool then mret tt else setDegraded ("start core: " +:+ e)); mret l
    end
  else mret l.

(** The rest of a turn; a selection that cannot occur in this state is skipped. *)
Definition turnWait (sel : supSelect) (l : runLoop) : supM runLoop :=
  match lpChild l, sel with
  | None, SelectWait WaitTimer => if decide (ArConfig (lpCurrent l) = "") then mret l else waitStep WaitTimer l
  | None, SelectWait w => waitStep w l
  | None, SelectExit _ _ _ => mret l
  | Some _, SelectWait WaitTimer => mret l
  | Some _, SelectWait w => waitStep w l
  | Some child, SelectExit err cancelled after =>
      _ ← reap child;
      _ ← (if cancelled : bool then mret tt else noteUnexpectedExit err);
      _ ← clearHandle;
      _ ← setDegraded ("core exited: " +:+ processExitDetail err);
      let l := setChild None l in
      l' ← waitStep after l;
      mret (match after, lpChild l' with WaitApply _ _, Some _ => setRetry (SoRetryMin options) l' | _, _ => l' end)
  end.

Record supTurn := MkSupTurn { tuStart : startEnv; tuStartCancelled : bool; tuCancelled : bool; tuStop : stopEnv; tuSelect : supSelect }.

(** One turn of [Run]; [None] is its return. *)
Definition superviseTurn (env : supTurn) (l : runLoop) : supM (option runLoop) :=
  l ← turnStart (tuStart env) (tuStartCancelled env) l;
  if tuCancelled env then
    _ ← (match lpChild l with Some child => _ ← stop child (tuStop env); mret tt | None => mret tt end);
    _ ← setStopped "";
    mret None
  else l' ← turnWait (tuSelect env) l; mret (Some l').

(** ** Effects of the operations *)

(** Only the status, the clock and the events differ. *)
Record quiet (s s' : supervisor) : Prop := {
  qt_launches : svLaunches s' = svLaunches s;
  qt_engine : svEngine s' = svEngine s;
  qt_binary : svBinary s' = svBinary s;
  qt_handle : svHandle s' = svHandle s;
  qt_disk : svDisk s' = svDisk s;
  qt_procs : svProcs s' = svProcs s
}.

Lemma updateStatus_run f s s' :
  updateStatus f s = (tt, s') -> quiet s s' /\ exists t, svStatus s' = withChangedAt t (f (svStatus s)).
Proof.
  unfold updateStatus, recordStateChange, mbind, supM_bind. simpl. intros Hr.
  case_decide; [|destruct (CsState (ssCore (f (svStatus s))))]; injection Hr as <-; (split; [by split|by eexists]).
Qed.

(** What a reader of the status acts on. *)
Record face := MkFace { fcState : ProcessState; fcEngine : string; fcVersion : string; fcDigest : string; fcBinary : string }.

Definition faceOf (s : supervisor) : face :=
  let c := ssCore (svStatus s) in MkFace (CsState c) (CsEngine c) (CsVersion c) (CsConfigDigest c) (ssBinaryPath (svStatus s)).

Definition faceState (state : ProcessState) (f : face) : face := MkFace state (fcEngine f) (fcVersion f) (fcDigest f) (fcBinary f).
Definition faceDigest (digest : string) (f : face) : face := MkFace (fcState f) (fcEngine f) (fcVersion f) digest (fcBinary f).

Lemma setState_run state e s s' : updateStatus (withState state e) s = (tt, s') -> quiet s s' /\ faceOf s' = faceState state (faceOf s).
Proof. intros [Hq [t Ht]]%updateStatus_run. split; [done|]. unfold faceOf. by rewrite Ht. Qed.

Lemma setDigest_run digest s s' : setDigest digest s = (tt, s') -> quiet s s' /\ faceOf s' = faceDigest digest (faceOf s).
Proof. intros [Hq [t Ht]]%updateStatus_run. split; [done|]. unfold faceOf. by rewrite Ht. Qed.

Definition stopFails (env : stopEnv) : bool :=
  match steSignal env with
  | SignalFailed _ => true
  | _ => negb (steExited env) && match steKill env with SignalFailed _ => true | _ => false end
  end.

(** What a stop leaves. *)
Lemma stop_run p env s r s' :
  stop p env s = (r, s') ->
  faceOf s' = faceOf s /\ svDisk s' = svDisk s /\ svEngine s' = svEngine s /\ svBinary s' = svBinary s /\ svHandle s' = (0, 0) /\
  (if stopFails env then is_Some r /\ svProcs s' = svProcs s
   else r = None /\ svProcs s' = filter (fun q => mpPid q <> mpPid p) (svProcs s)).
Proof.
  unfold stop, stopFails, mbind, supM_bind. destruct (steSignal env), (steExited env), (steKill env); simpl; intros [= <- <-]; simpl; repeat split; eauto.
Qed.

(** A process that was started and could not be stopped is left behind. *)
Definition startLeaks (env : startEnv) : bool :=
  match seSelect env with StartWaitDone st | StartRunDone st => stopFails st | _ => false end.

(** The kernel gives no pid that belongs to a process not yet reaped. *)
Definition freshPid (env : startEnv) (s : supervisor) : Prop :=
  forall pid q, sePid env = Some pid -> q ∈ svProcs s -> mpPid q <> pid.

Lemma reap_last (p : managedProcess) ps : (forall q, q ∈ ps -> mpPid q <> mpPid p) -> filter (fun q => mpPid q <> mpPid p) (ps ++ [p]) = ps.
Proof.
  intros Hf. rewrite filter_app. assert (filter (fun q => mpPid q <> mpPid p) [p] = []) as -> by (rewrite filter_cons_False; [done|naive_solver]).
  rewrite app_nil_r. by apply filter_keeps_all.
Qed.

(** What a start leaves: a new process reading the file of that moment, or an
    error and at most a process that could not be stopped. *)
Lemma start_run engine binary env s r s' :
  start engine binary env s = (r, s') ->
  svDisk s' = svDisk s /\ svEngine s' = svEngine s /\ svBinary s' = svBinary s /\
  (exists state, faceOf s' = faceState state (faceOf s) /\ (state = ProcessStarting \/ state = fcState (faceOf s))) /\
  match r with
  | Ok p => mpEngine p = engine /\ mpBinary p = binary /\ mpConfig p = dkCurrent (svDisk s) /\ svProcs s' = svProcs s ++ [p] /\
            sePid env = Some (mpPid p) /\ (svHandle s').1 = mpPid p
  | Err _ => (svHandle s' = svHandle s \/ svHandle s' = (0, 0)) /\ (startLeaks env = false -> freshPid env s -> svProcs s' = svProcs s)
  end.
Proof.
  unfold start. destruct (resolveCommand _ _) as [c|e].
  2:{ intros [= <- <-]. split_and!; try done; [|by left]. exists (fcState (faceOf s)). split; [|by right]. unfold faceOf. done. }
  unfold mbind at 1, supM_bind at 1. destruct (setStarting s) as [[] s1] eqn:H1. apply setState_run in H1 as [[_ He Hb Hh Hd Hp] Hf].
  destruct (sePid env) as [pid|] eqn:Hpid.
  2:{ intros [= <- <-]. split_and!; try done; [|by left]. exists ProcessStarting. split; [done|by left]. }
  unfold mbind at 1, supM_bind at 1. simpl. set (p := MkManaged pid engine binary (dkCurrent (svDisk s1))).
  unfold noteStart, mbind at 1, supM_bind at 1. simpl. set (s2 := MkSupervisor _ _ _ _ _ _ _ _ _).
  assert (faceOf s2 = faceState ProcessStarting (faceOf s)) as Hf2 by (rewrite <-Hf; done).
  assert (svProcs s2 = svProcs s ++ [p]) as Hp2 by (simpl; by rewrite Hp).
  assert (svDisk s2 = svDisk s /\ svEngine s2 = svEngine s /\ svBinary s2 = svBinary s /\ svHandle s2 = svHandle s) as (Hd2 & He2 & Hb2 & Hh2) by done.
  assert (freshPid env s -> filter (fun q => mpPid q <> mpPid p) (svProcs s2) = svProcs s) as Hreap.
  { intros Hfr. rewrite Hp2. apply reap_last. intros q Hq. by eapply Hfr. }
  clearbody s2. assert (exists state, faceOf s2 = faceState state (faceOf s) /\ (state = ProcessStarting \/ state = fcState (faceOf s))) as Hst
    by (exists ProcessStarting; split; [done|by left]).
  unfold startLeaks. destruct (seSelect env) as [err waitDone runDone|st|st|[err|] ticks].
  - unfold mbind, supM_bind. destruct (negb waitDone && negb runDone); intros [= <- <-]; simpl; split_and!; try done; try (by left); intros _ Hfr; by apply Hreap.
  - unfold mbind, supM_bind. destruct (stop p st s2) as [r0 s3] eqn:Hs. apply stop_run in Hs as (Hf3 & Hd3 & He3 & Hb3 & Hh3 & Hp3).
    intros [= <- <-]. rewrite Hf3, Hd3, He3, Hb3. split_and!; try done; [by right|]. intros Hl Hfr. rewrite Hl in Hp3. rewrite (proj2 Hp3). by apply Hreap.
  - unfold mbind, supM_bind. destruct (stop p st s2) as [r0 s3] eqn:Hs. apply stop_run in Hs as (Hf3 & Hd3 & He3 & Hb3 & Hh3 & Hp3).
    intros [= <- <-]. rewrite Hf3, Hd3, He3, Hb3. split_and!; try done; [by right|]. intros Hl Hfr. rewrite Hl in Hp3. rewrite (proj2 Hp3). by apply Hreap.
  - intros [= <- <-]. simpl. split_and!; try done; try (by left); intros _ Hfr; by apply Hreap.
  - intros [= <- <-]. simpl. split_and!; try done. by rewrite Hd.
Qed.

Lemma supM_bind_run {A B} (m : supM A) (f : A -> supM B) s r s' :
  (m ≫= f) s = (r, s') -> exists a s1, m s = (a, s1) /\ f a s1 = (r, s').
Proof. unfold mbind, supM_bind. destruct (m s) as [a s1]. by exists a, s1. Qed.

(** Only the files differ. *)
Record files_only (s s' : supervisor) : Prop := {
  fo_face : faceOf s' = faceOf s;
  fo_engine : svEngine s' = svEngine s;
  fo_binary : svBinary s' = svBinary s;
  fo_handle : svHandle s' = svHandle s;
  fo_procs : svProcs s' = svProcs s
}.

Lemma writeAtomic_run f contents env s r s' :
  writeAtomic f contents env s = (r, s') ->
  files_only s s' /\
  svDisk s' = (if weWritten env && weReplaced env
               then match f with CurrentFile => MkDisk (Some contents) (dkPrevious (svDisk s)) | PreviousFile => MkDisk (dkCurrent (svDisk s)) (Some contents) end
               else svDisk s) /\
  (r = None -> weWritten env && weReplaced env = true).
Proof. unfold writeAtomic, mbind, supM_bind. destruct (weWritten env), (weReplaced env); simpl; intros [= <- <-]; simpl; repeat split; done. Qed.

Lemma installCandidate_run candidate old env s r s' :
  installCandidate candidate old env s = (r, s') ->
  files_only s s' /\ (r = None -> dkCurrent (svDisk s') = Some candidate) /\
  (is_Some r -> (ieReplaced env = true -> ieSynced env = true) -> dkCurrent (svDisk s') = dkCurrent (svDisk s)).
Proof.
  intros (pre & s1 & Hp & Hr)%supM_bind_run.
  assert (files_only s s1 /\ dkCurrent (svDisk s1) = dkCurrent (svDisk s)) as [[F1 F2 F3 F4 F5] Hd].
  { case_decide; [by injection Hp as _ <-|]. apply writeAtomic_run in Hp as (Hf & -> & _). split; [done|]. by destruct (_ && _). }
  destruct pre as [e|]; [injection Hr as <- <-; by repeat split|].
  destruct (ieReplaced env); simpl in Hr; [|injection Hr as <- <-; by repeat split].
  injection Hr as <- <-. split; [by split|]. simpl. split; [done|]. destruct (ieSynced env); [by intros []|]. intros _ Hs. by specialize (Hs eq_refl).
Qed.

Lemma restoreConfig_run old env s r s' :
  restoreConfig old env s = (r, s') ->
  files_only s s' /\
  (r = None \/ weWritten env && weReplaced env = true -> dkCurrent (svDisk s') = if decide (old = "") then None else Some old).
Proof.
  unfold restoreConfig. case_decide.
  - destruct (weReplaced env) eqn:Hw; simpl; intros [= <- <-]; [by repeat split|]. split; [done|]. rewrite andb_false_r. by intros [|].
  - intros (Hf & Hd & Hn)%writeAtomic_run. split; [done|]. intros Hc. rewrite Hd. assert (weWritten env && weReplaced env = true) as -> by tauto. done.
Qed.

(** ** The invariant *)

Definition artifact_wf (a : Artifact) : Prop := a = noArtifact \/ (ArConfig a <> "" /\ ArDigest a = sha256_hex (ArConfig a)).

(** The process reads the configuration the loop holds, with its binary. *)
Record runs (p : managedProcess) (l : runLoop) : Prop := {
  ru_config : mpConfig p = Some (ArConfig (lpCurrent l));
  ru_set : ArConfig (lpCurrent l) <> "";
  ru_engine : mpEngine p = lpEngine l;
  ru_binary : mpBinary p = lpBinary l
}.

(** The published identity. *)
Definition identity (l : runLoop) (f : face) : Prop :=
  fcDigest f = ArDigest (lpCurrent l) /\ fcEngine f = lpEngine l /\ fcVersion f = lpVersion l /\ fcBinary f = lpBinary l.

(** What the status says is so. *)
Record honest (s : supervisor) (l : runLoop) : Prop := {
  ho_artifact : artifact_wf (lpCurrent l);
  ho_identity : identity l (faceOf s);
  ho_active : svEngine s = lpEngine l /\ svBinary s = lpBinary l;
  ho_file : ArConfig (lpCurrent l) <> "" -> dkCurrent (svDisk s) = Some (ArConfig (lpCurrent l));
  ho_child : match lpChild l with
             | Some p => p ∈ svProcs s /\ runs p l /\ (svHandle s = (0, 0) \/ (svHandle s).1 = mpPid p)
             | None => fcState (faceOf s) <> ProcessRunning /\ svHandle s = (0, 0)
             end
}.

(** No failed step leaves a configuration on disk that the loop has given up. *)
Definition diskFaithful (env : applyEnv) : Prop :=
  (ieReplaced (aeInstall env) = true -> ieSynced (aeInstall env) = true) /\
  (stopFails (aeStop env) = true -> weWritten (aeRestore env) && weReplaced (aeRestore env) = true).

(** What the answer to a deployment means. *)
Definition deployed (d : CoreDeploy) (l l' : runLoop) (answer : option string) : Prop :=
  match answer with
  | None => ArDigest (lpCurrent l') = ArDigest (DpArtifact d) /\ lpEngine l' = DpEngine d /\ lpBinary l' = DpBinaryPath d /\
            lpVersion l' = DpVersion d /\ is_Some (lpChild l')
  | Some _ => (lpCurrent l' = lpCurrent l \/ lpCurrent l' = noArtifact /\ lpChild l' = None) /\
              lpEngine l' = lpEngine l /\ lpBinary l' = lpBinary l /\ lpVersion l' = lpVersion l
  end.

Lemma supValidateArtifact_wf a : supValidateArtifact a = None -> ArConfig a <> "" /\ ArDigest a = sha256_hex (ArConfig a).
Proof. unfold supValidateArtifact. repeat case_decide; naive_solver. Qed.

Lemma honest_files s s' l : files_only s s' -> (ArConfig (lpCurrent l) <> "" -> dkCurrent (svDisk s') = Some (ArConfig (lpCurrent l))) -> honest s l -> honest s' l.
Proof. intros [F1 F2 F3 F4 F5] Hd [A B C D E]. split; rewrite ?F1, ?F2, ?F3, ?F4, ?F5; done. Qed.

(** Everything but what the state claims. *)
Record settled (s : supervisor) (l : runLoop) : Prop := {
  se_artifact : artifact_wf (lpCurrent l);
  se_identity : identity l (faceOf s);
  se_active : svEngine s = lpEngine l /\ svBinary s = lpBinary l;
  se_file : ArConfig (lpCurrent l) <> "" -> dkCurrent (svDisk s) = Some (ArConfig (lpCurrent l));
  se_child : match lpChild l with
             | Some p => p ∈ svProcs s /\ runs p l /\ (svHandle s = (0, 0) \/ (svHandle s).1 = mpPid p)
             | None => svHandle s = (0, 0)
             end
}.

Lemma honest_settled s l : honest s l -> settled s l.
Proof. intros [A B C D E]. split; try done. destruct (lpChild l); tauto. Qed.

(** Publishing a state that the child backs. *)
Lemma settled_state state e s s' l :
  updateStatus (withState state e) s = (tt, s') -> state <> ProcessRunning \/ is_Some (lpChild l) -> settled s l -> honest s' l.
Proof.
  intros [[_ Q1 Q2 Q3 Q4 Q5] F]%setState_run Hst [A B C D E]. split; rewrite ?Q1, ?Q2, ?Q3, ?Q4, ?Q5, ?F; try done.
  destruct (lpChild l); [done|]. split; [|done]. destruct Hst as [Hst|[? Hst]]; done.
Qed.

(** The parts of the identity that only a successful deployment changes. *)
Record carries (s : supervisor) (l : runLoop) : Prop := {
  ca_engine : fcEngine (faceOf s) = lpEngine l;
  ca_version : fcVersion (faceOf s) = lpVersion l;
  ca_binary : fcBinary (faceOf s) = lpBinary l;
  ca_active : svEngine s = lpEngine l /\ svBinary s = lpBinary l
}.

Lemma carries_keep s s' l :
  svEngine s' = svEngine s -> svBinary s' = svBinary s ->
  fcEngine (faceOf s') = fcEngine (faceOf s) -> fcVersion (faceOf s') = fcVersion (faceOf s) -> fcBinary (faceOf s') = fcBinary (faceOf s) ->
  carries s l -> carries s' l.
Proof. intros E1 E2 E3 E4 E5 [A B C D]. split; rewrite ?E1, ?E2, ?E3, ?E4, ?E5; done. Qed.

Lemma carries_stop p env s r s' l : stop p env s = (r, s') -> carries s l -> carries s' l.
Proof. intros (Hf & _ & He & Hb & _)%stop_run. apply carries_keep; by rewrite ?Hf. Qed.

Lemma carries_start engine binary env s r s' l : start engine binary env s = (r, s') -> carries s l -> carries s' l.
Proof. intros (_ & He & Hb & (st & Hf & _) & _)%start_run. apply carries_keep; by rewrite ?Hf. Qed.

Lemma carries_files s s' l : files_only s s' -> carries s l -> carries s' l.
Proof. intros [Hf He Hb _ _]. apply carries_keep; by rewrite ?Hf. Qed.

Lemma carries_digest digest s s' l : setDigest digest s = (tt, s') -> carries s l -> carries s' l.
Proof. intros [[_ He Hb _ _ _] Hf]%setDigest_run. apply carries_keep; by rewrite ?Hf. Qed.

Lemma honest_carries s l : honest s l -> carries s l.
Proof. intros [_ (_ & B & C & D) E _ _]. by split. Qed.

(** Publishing the digest of an artifact. *)
Lemma settled_digest s s' l :
  setDigest (ArDigest (lpCurrent l)) s = (tt, s') -> carries s l -> artifact_wf (lpCurrent l) ->
  (ArConfig (lpCurrent l) <> "" -> dkCurrent (svDisk s) = Some (ArConfig (lpCurrent l))) ->
  match lpChild l with
  | Some p => p ∈ svProcs s /\ runs p l /\ (svHandle s = (0, 0) \/ (svHandle s).1 = mpPid p)
  | None => svHandle s = (0, 0)
  end -> settled s' l.
Proof.
  intros Hs Hc Hwf Hd Hch. pose proof (carries_digest _ _ _ _ Hs Hc) as [C1 C2 C3 C4]. apply setDigest_run in Hs as [[_ Q1 Q2 Q3 Q4 Q5] F].
  split; rewrite ?Q3, ?Q4, ?Q5; try done. split; [by rewrite F|done].
Qed.

Lemma rollBack_honest applyErr env l s a l' s' :
  artifact_wf (lpCurrent l) -> carries s l -> svHandle s = (0, 0) -> rollBack applyErr env l s = ((a, l'), s') ->
  honest s' l' /\ is_Some a /\ deployed (MkCoreDeploy noArtifact "" "" "") l l' a.
Proof.
  intros Hwf Hca Hh (re & s1 & Hre & Hr)%supM_bind_run. apply restoreConfig_run in Hre as [Fo Hd]. pose proof (carries_files _ _ _ Fo Hca) as Hca1.
  destruct Fo as [_ _ _ Fh _]. rewrite Hh in Fh. destruct re as [e|].
  { apply supM_bind_run in Hr as ([] & s2 & Hsd & Hr). apply supM_bind_run in Hr as ([] & s3 & Hsg & [= <- <- <-]).
    split; [|split; [done|by repeat split; right]]. eapply settled_state; [exact Hsg|by left|].
    eapply settled_digest; [exact Hsd|destruct Hca1; by split|by left|done|done]. }
  specialize (Hd (or_introl eq_refl)). apply supM_bind_run in Hr as ([] & s2 & Hsd & Hr). apply supM_bind_run in Hr as (child & s3 & Hc & Hr).
  apply supM_bind_run in Hr as ([] & s4 & Hsg & [= <- <- <-]). split; [|split; [done|by repeat split; left]].
  eapply settled_state; [exact Hsg|by left|]. set (l' := MkRunLoop _ _ _ _ _ _).
  assert (settled s2 (MkRunLoop (lpCurrent l) (lpEngine l) (lpBinary l) (lpVersion l) None (lpRetry l))) as Hset.
  { eapply settled_digest; [exact Hsd|destruct Hca1; by split|done| |done]. simpl. intros Hne. rewrite Hd. by rewrite decide_False. }
  case_decide as Hem; [by injection Hc as <- <-|]. apply supM_bind_run in Hc as (rb & s5 & Hst & [= <- <-]).
  apply start_run in Hst as (Sd & Se & Sb & (state & Sf & _) & Sr). destruct Hset as [B1 (B2 & B3 & B4 & B5) [B6 B7] B8 B9]. simpl in B9.
  split; rewrite ?Sd, ?Se, ?Sb, ?Sf; try done. simpl. destruct rb as [p|e].
  - destruct Sr as (R1 & R2 & R3 & R4 & R5 & R6). rewrite R4. split_and!; [set_solver| |by right]. split; simpl; [|done..]. by rewrite R3, B8.
  - destruct Sr as [[->| ->] _]; done.
Qed.

Lemma handleApply_honest d env l s a l' s' :
  honest s l -> supValidateArtifact (DpArtifact d) = None -> diskFaithful env -> handleApply d env l s = ((a, l'), s') ->
  honest s' l' /\ deployed d l l' a.
Proof.
  intros Hho Hval [Hin Hre] Hr. pose proof (supValidateArtifact_wf _ Hval) as [Hne Hdig]. unfold handleApply in Hr. case_decide as Hsame.
  { injection Hr as <- <- <-. split; [done|]. simpl. naive_solver. }
  apply supM_bind_run in Hr as (inst & s1 & Hi & Hr). apply installCandidate_run in Hi as (Fo & Hdisk & Hfail).
  destruct inst as [e|].
  { injection Hr as <- <- <-. split; [|by repeat split; left]. eapply honest_files; [exact Fo| |done]. intros Hc. rewrite Hfail by eauto. by apply Hho. }
  specialize (Hdisk eq_refl). clear Hfail. pose proof (carries_files _ _ _ Fo (honest_carries _ _ Hho)) as C1. destruct Fo as [F1 F2 F3 F4 F5].
  destruct Hho as [Hwf _ _ Hfile Hch].
  apply supM_bind_run in Hr as ([] & s2 & Hsd & Hr). pose proof (carries_digest _ _ _ _ Hsd C1) as C2. apply setDigest_run in Hsd as [[_ Q1 Q2 Q3 Q4 Q5] _].
  apply supM_bind_run in Hr as (st & s3 & Hst & Hr).
  assert (carries s3 l /\ svHandle s3 = (0, 0) /\ svDisk s3 = svDisk s2 /\
    (is_Some st -> weWritten (aeRestore env) && weReplaced (aeRestore env) = true /\ svProcs s3 = svProcs s /\ is_Some (lpChild l))) as (C3 & H3 & D3 & P3).
  { destruct (lpChild l) as [p|].
    - pose proof (carries_stop _ _ _ _ _ _ Hst C2) as C3. apply stop_run in Hst as (_ & Hd & _ & _ & Hh & Hp). split_and!; try done.
      destruct (stopFails (aeStop env)); [|by destruct Hp as [-> _]; intros []]. intros _. rewrite Hre by done. destruct Hp as [_ ->]. by rewrite Q5, F5.
    - injection Hst as <- <-. destruct Hch as [_ Hh]. split_and!; [done|by rewrite Q3, F4|done|by intros []]. }
  destruct st as [e|].
  - destruct (P3 ltac:(eauto)) as (Hw & Hp & Hsome). apply supM_bind_run in Hr as (re & s4 & Hrs & Hr). apply restoreConfig_run in Hrs as [Fo Hd].
    apply supM_bind_run in Hr as ([] & s5 & Hsd & Hr). apply supM_bind_run in Hr as ([] & s6 & Hsg & [= <- <- <-]). split; [|by repeat split; left].
    eapply settled_state; [exact Hsg|by left|]. eapply settled_digest; [exact Hsd|by eapply carries_files|done| |].
    + intros Hc. rewrite Hd by auto. by rewrite decide_False.
    + destruct Fo as [_ _ _ Fh Fp]. rewrite Fh, Fp, H3, Hp. destruct (lpChild l) as [p|]; [|by destruct Hsome]. naive_solver.
  - apply supM_bind_run in Hr as (sr & s4 & Hstart & Hr). pose proof (carries_start _ _ _ _ _ _ _ Hstart C3) as C4.
    apply start_run in Hstart as (Sd & Se & Sb & (state & Sf & _) & Sr). destruct sr as [p|e].
    + destruct Sr as (R1 & R2 & R3 & R4 & R5 & R6). apply supM_bind_run in Hr as ([] & s5 & Hdep & Hr).
      apply supM_bind_run in Hr as ([] & s6 & Hsr & [= <- <- <-]). split; [|by repeat split; eauto].
      eapply settled_state; [exact Hsr|right; eauto|]. injection Hdep as <-. split; simpl; try done.
      * right. done.
      * intros _. by rewrite Sd, D3, Q4, Hdisk.
      * rewrite R4. split_and!; [set_solver| |by right]. split; simpl; try done. by rewrite R3, D3, Q4, Hdisk.
    + destruct (rollBack_honest ("start candidate core config: " +:+ e) env l s4 a l' s' Hwf C4) as (Hh & [e' ->] & Hdep); [|exact Hr|done].
      destruct Sr as [[->| ->] _]; done.
Qed.

Lemma deployLocked_honest d env l s a l' s' :
  honest s l -> (forall apply answered, deHandover env = HandoverTaken apply answered -> diskFaithful apply) ->
  deployLocked d env l s = ((a, l'), s') ->
  honest s' l' /\ (a = None -> deployed d l l' None) /\ (exists a', deployed d l l' a').
Proof.
  intros Hho Hd. unfold deployLocked.
  assert (forall e, ((Some e, l), s) = ((a, l'), s') -> honest s' l' /\ (a = None -> deployed d l l' None) /\ (exists a', deployed d l l' a')) as Hno.
  { intros e [= <- <- <-]. split_and!; [done|done|]. exists (Some e). by repeat split; left. }
  destruct (validateDeployment _ d) eqn:Hv; [apply Hno|]. destruct (negb _); [apply Hno|]. destruct (validateCandidate _ _); [apply Hno|].
  destruct (deHandover env) as [| |apply answered] eqn:Hh; [apply Hno..|]. intros ([a0 l0] & s1 & Ha & Hr)%supM_bind_run. injection Hr as <- <- <-.
  assert (supValidateArtifact (DpArtifact d) = None) as Hva by (unfold validateDeployment in Hv; by destruct (supValidateArtifact _)).
  destruct (handleApply_honest _ _ _ _ _ _ _ Hho Hva (Hd _ _ eq_refl) Ha) as [Hh' Hdep]. split_and!; [done| |by exists a0].
  destruct answered; [|done]. by intros ->.
Qed.

(** ** Reachable states *)

Definition waitFaithful (w : supWait) : Prop :=
  match w with WaitApply _ env => forall apply answered, deHandover env = HandoverTaken apply answered -> diskFaithful apply | _ => True end.
Definition selectFaithful (sel : supSelect) : Prop := match sel with SelectWait w => waitFaithful w | SelectExit _ _ w => waitFaithful w end.

Lemma honest_retry delay s l : honest s l -> honest s (setRetry delay l).
Proof. intros [A B C D E]. split; try done. simpl. destruct (lpChild l); [|done]. destruct E as (E1 & [] & E2). by repeat split. Qed.

Lemma waitStep_honest w l s l' s' : honest s l -> waitFaithful w -> waitStep w l s = (l', s') -> honest s' l'.
Proof.
  intros Hho Hw. destruct w as [|d env|]; simpl.
  - by intros [= <- <-].
  - intros ([a l1] & s1 & Hd & [= <- <-])%supM_bind_run. by eapply deployLocked_honest.
  - intros [= <- <-]. by apply honest_retry.
Qed.

Lemma turnStart_honest env cancelled l s l' s' : honest s l -> turnStart env cancelled l s = (l', s') -> honest s' l' /\ lpCurrent l' = lpCurrent l.
Proof.
  intros Hho. unfold turnStart. case_decide as Hc; [|by intros [= <- <-]]. destruct Hc as [Hn Hne]. intros (r & s1 & Hs & Hr)%supM_bind_run.
  pose proof (carries_start _ _ _ _ _ _ _ Hs (honest_carries _ _ Hho)) as [K1 K2 K3 K4]. apply start_run in Hs as (Sd & _ & _ & (state & Sf & Sst) & Sr).
  destruct Hho as [Hwf (I1 & _) _ Hfile Hch]. rewrite Hn in Hch. destruct Hch as [Hst Hh]. assert (fcDigest (faceOf s1) = ArDigest (lpCurrent l)) as Hdg by (by rewrite Sf).
  destruct r as [p|e].
  - destruct Sr as (R1 & R2 & R3 & R4 & R5 & R6). apply supM_bind_run in Hr as ([] & s2 & Hsr & [= <- <-]). split; [|done].
    eapply settled_state; [exact Hsr|right; simpl; eauto|]. split; simpl; rewrite ?Sd; try done.
    rewrite R4. split_and!; [set_solver| |by right]. split; simpl; [|done..]. by rewrite R3, Hfile.
  - destruct Sr as [Hh' _]. assert (settled s1 l) as Hset.
    { split; rewrite ?Sd; try done. rewrite Hn. destruct Hh' as [->| ->]; done. }
    apply supM_bind_run in Hr as ([] & s2 & Hsr & [= <- <-]). split; [|done]. destruct cancelled; [|by eapply settled_state; [exact Hsr|by left|]].
    injection Hsr as <-. destruct Hset as [A B C D E]. split; try done. rewrite Hn in E |- *. split; [|done]. rewrite Sf. destruct Sst as [-> | ->]; done.
Qed.

Lemma turnWait_honest sel l s l' s' : honest s l -> selectFaithful sel -> turnWait sel l s = (l', s') -> honest s' l'.
Proof.
  intros Hho Hsel. unfold turnWait. destruct (lpChild l) as [p|] eqn:Hc, sel as [[|d env|]|err cancelled after]; try (by apply waitStep_honest); try (by intros [= <- <-]).
  - intros ([] & s1 & Hr1 & Hr)%supM_bind_run. apply supM_bind_run in Hr as ([] & s2 & Hr2 & Hr). apply supM_bind_run in Hr as ([] & s3 & Hr3 & Hr).
    apply supM_bind_run in Hr as ([] & s4 & Hr4 & Hr). apply supM_bind_run in Hr as (l1 & s5 & Hw & [= <- <-]).
    assert (honest s4 (setChild None l)) as H4.
    { eapply settled_state; [exact Hr4|by left|]. injection Hr1 as <-. injection Hr3 as <-. destruct Hho as [A B C D _].
      destruct cancelled; [injection Hr2 as <-|unfold noteUnexpectedExit, mbind, supM_bind in Hr2; simpl in Hr2; injection Hr2 as <-]; by split. }
    apply waitStep_honest in Hw; [|done..]. destruct after as [|d env|]; [done| |done]. destruct (lpChild l1); [|done]. by apply honest_retry.
  - case_decide; [by intros [= <- <-]|by apply waitStep_honest].
Qed.

Lemma begin_honest o files now s0 l s :
  NewSupervisor o files now = Ok (options, s0) -> runBegin true s0 = (Ok l, s) ->
  honest s l /\ svProcs s = [] /\ lpChild l = None /\
  (SoRequireInitialConfigDigest options = true -> lpCurrent l = noArtifact \/ ArDigest (lpCurrent l) = SoInitialConfigDigest options).
Proof.
  intros [-> _]%NewSupervisor_Ok Hb.
  unfold runBegin in Hb. simpl in Hb. set (config := default "" (dkCurrent files)) in *.
  assert (artifact_wf (artifactFromConfig config) /\ (ArConfig (artifactFromConfig config) <> "" -> dkCurrent files = Some (ArConfig (artifactFromConfig config)))) as [Hwf Hfile].
  { unfold artifactFromConfig. destruct (decide (config = "")) as [Hc|Hc]; [split; [by left|done]|]. split; [by right|]. intros _. unfold config in *. by destruct (dkCurrent files). }
  destruct (SoRequireInitialConfigDigest options && _) eqn:Hq.
  - assert (settled (stoppedSupervisor options files now) (MkRunLoop noArtifact (SoEngine options) (SoBinary options) (SoVersion options) None (SoRetryMin options))) as Hset
      by (split; [by left|done..]).
    destruct (decide (config = "" /\ SoInitialConfigDigest options = "")).
    + injection Hb as <- <-. split_and!; [|done|done|by intros _; left]. by split; [left|..].
    + destruct (setDegraded _ _) as [[] s1] eqn:Hs. injection Hb as <- <-. split_and!; [by eapply settled_state; [exact Hs|left|]| |done|by intros _; left].
      apply setState_run in Hs as [[_ _ _ _ _ ->] _]. done.
  - assert (SoRequireInitialConfigDigest options = true -> artifactFromConfig config = noArtifact \/ ArDigest (artifactFromConfig config) = SoInitialConfigDigest options) as Hreq.
    { intros Hreq. rewrite Hreq in Hq. simpl in Hq. right. by apply negb_false_iff, bool_decide_eq_true in Hq. }
    assert (carries (stoppedSupervisor options files now) (MkRunLoop (artifactFromConfig config) (SoEngine options) (SoBinary options) (SoVersion options) None (SoRetryMin options))) as Hca by done.
    destruct (decide (config = "")) as [Hc|Hc].
    + injection Hb as <- <-. split_and!; [|done|done|done]. rewrite Hc. unfold artifactFromConfig. rewrite decide_True by done. by split; [left|..].
    + destruct (setDigest _ _) as [[] s1] eqn:Hs. injection Hb as <- <-. pose proof (settled_digest _ s1 (MkRunLoop (artifactFromConfig config) _ _ _ None _) Hs Hca Hwf Hfile eq_refl) as [A B C D E].
      apply setDigest_run in Hs as [[_ _ _ _ _ Hp] F]. split_and!; [|by rewrite Hp|done|done]. split; try done. cbn [lpChild] in E |- *. by rewrite F.
Qed.

(** *** One process *)

(** The child is the only process not yet reaped. *)
Definition only (s : supervisor) (l : runLoop) : Prop := svProcs s = match lpChild l with Some p => [p] | None => [] end.

(** Whatever fails to start is stopped. *)
Definition noLeak (env : applyEnv) : Prop := startLeaks (aeStart env) = false /\ startLeaks (aeRollback env) = false.

Lemma stop_only p env s r s' : stop p env s = (r, s') -> svProcs s = [p] -> svProcs s' = match r with None => [] | Some _ => [p] end.
Proof.
  intros (_ & _ & _ & _ & _ & Hp)%stop_run Hs. destruct (stopFails env); destruct Hp as [Hr ->].
  - by destruct Hr as [? ->].
  - rewrite Hr, Hs. apply (reap_last p []). set_solver.
Qed.

Lemma start_only engine binary env s r s' :
  start engine binary env s = (r, s') -> startLeaks env = false -> svProcs s = [] -> svProcs s' = match r with Ok p => [p] | Err _ => [] end.
Proof.
  intros (_ & _ & _ & _ & Hr)%start_run Hl Hs. destruct r as [p|e].
  - destruct Hr as (_ & _ & _ & -> & _). by rewrite Hs.
  - destruct Hr as [_ Hp]. rewrite <-Hs. apply Hp; [done|]. intros pid q _. rewrite Hs. set_solver.
Qed.

Lemma rollBack_only applyErr env l s a l' s' :
  svProcs s = [] -> noLeak env -> rollBack applyErr env l s = ((a, l'), s') -> only s' l'.
Proof.
  intros Hs [_ Hl] (re & s1 & [[_ _ _ _ Fp] _]%restoreConfig_run & Hr)%supM_bind_run. rewrite Hs in Fp. destruct re as [e|].
  - apply supM_bind_run in Hr as ([] & s2 & [[_ _ _ _ _ Q2] _]%setDigest_run & Hr).
    apply supM_bind_run in Hr as ([] & s3 & [[_ _ _ _ _ Q3] _]%setState_run & [= _ <- <-]). unfold only. simpl. congruence.
  - apply supM_bind_run in Hr as ([] & s2 & [[_ _ _ _ _ Q2] _]%setDigest_run & Hr). apply supM_bind_run in Hr as (child & s3 & Hc & Hr).
    apply supM_bind_run in Hr as ([] & s4 & [[_ _ _ _ _ Q4] _]%setState_run & [= _ <- <-]). unfold only. simpl. rewrite Q4.
    case_decide; [injection Hc as <- <-; congruence|]. apply supM_bind_run in Hc as (rb & s5 & Hst & [= <- <-]).
    apply start_only in Hst; [|done|congruence]. rewrite Hst. by destruct rb.
Qed.

Lemma handleApply_only d env l s a l' s' : only s l -> noLeak env -> handleApply d env l s = ((a, l'), s') -> only s' l'.
Proof.
  intros Ho Hl Hr. unfold handleApply in Hr. case_decide; [by injection Hr as _ <- <-|].
  apply supM_bind_run in Hr as (inst & s1 & [[_ _ _ _ Fp] _]%installCandidate_run & Hr). destruct inst as [e|]; [injection Hr as _ <- <-; unfold only; by rewrite Fp|].
  apply supM_bind_run in Hr as ([] & s2 & [[_ _ _ _ _ Q2] _]%setDigest_run & Hr). apply supM_bind_run in Hr as (st & s3 & Hst & Hr).
  assert (svProcs s3 = match st with None => [] | Some _ => match lpChild l with Some p => [p] | None => [] end end) as P3.
  { unfold only in Ho. destruct (lpChild l) as [p|]; [apply stop_only in Hst; [by destruct st|congruence]|]. injection Hst as <- <-. congruence. }
  destruct st as [e|].
  - apply supM_bind_run in Hr as (re & s4 & [[_ _ _ _ Fp4] _]%restoreConfig_run & Hr).
    apply supM_bind_run in Hr as ([] & s5 & [[_ _ _ _ _ Q5] _]%setDigest_run & Hr).
    apply supM_bind_run in Hr as ([] & s6 & [[_ _ _ _ _ Q6] _]%setState_run & [= _ <- <-]). unfold only. congruence.
  - apply supM_bind_run in Hr as (sr & s4 & Hs & Hr). apply start_only in Hs; [|apply Hl|done]. destruct sr as [p|e].
    + apply supM_bind_run in Hr as ([] & s5 & [= <-] & Hr). apply supM_bind_run in Hr as ([] & s6 & [[_ _ _ _ _ Q6] _]%setState_run & [= _ <- <-]).
      unfold only. simpl. by rewrite Q6.
    + eapply rollBack_only; [exact Hs|exact Hl|exact Hr].
Qed.

Definition waitNoLeak (w : supWait) : Prop :=
  match w with WaitApply _ env => forall apply answered, deHandover env = HandoverTaken apply answered -> noLeak apply | _ => True end.
Definition selectNoLeak (sel : supSelect) : Prop := match sel with SelectWait w => waitNoLeak w | SelectExit _ _ w => waitNoLeak w end.

Lemma deployLocked_only d env l s a l' s' :
  only s l -> (forall apply answered, deHandover env = HandoverTaken apply answered -> noLeak apply) -> deployLocked d env l s = ((a, l'), s') -> only s' l'.
Proof.
  intros Ho Hn. unfold deployLocked. destruct (validateDeployment _ d); [by intros [= _ <- <-]|]. destruct (negb _); [by intros [= _ <- <-]|].
  destruct (validateCandidate _ _); [by intros [= _ <- <-]|]. destruct (deHandover env) as [| |apply answered]; [by intros [= _ <- <-]..|].
  intros ([a0 l0] & s1 & Ha & [= _ <- <-])%supM_bind_run. by eapply handleApply_only; [| |exact Ha]; [|eapply Hn].
Qed.

Lemma waitStep_only w l s l' s' : only s l -> waitNoLeak w -> waitStep w l s = (l', s') -> only s' l'.
Proof.
  intros Ho Hw. destruct w as [|d env|]; simpl; [by intros [= <- <-]| |by intros [= <- <-]].
  intros ([a l1] & s1 & Hd & [= <- <-])%supM_bind_run. by eapply deployLocked_only.
Qed.

Lemma turn_only env l s l' s' :
  only s l -> startLeaks (tuStart env) = false -> selectNoLeak (tuSelect env) -> superviseTurn env l s = (Some l', s') -> only s' l'.
Proof.
  intros Ho Hl Hsel (l1 & s1 & Hst & Hr)%supM_bind_run.
  assert (only s1 l1) as Ho1.
  { unfold turnStart in Hst. case_decide as Hc; [|by injection Hst as <- <-]. unfold only in Ho. rewrite (proj1 Hc) in Ho.
    apply supM_bind_run in Hst as (r & s2 & Hs & Hst). apply start_only in Hs; [|done..]. destruct r as [p|e].
    - apply supM_bind_run in Hst as ([] & s3 & [[_ _ _ _ _ Q] _]%setState_run & [= <- <-]). unfold only. simpl. by rewrite Q.
    - apply supM_bind_run in Hst as ([] & s3 & Hd & [= <- <-]). unfold only. rewrite (proj1 Hc). destruct (tuStartCancelled env); [by injection Hd as <-|].
      apply setState_run in Hd as [[_ _ _ _ _ Q] _]. by rewrite Q. }
  destruct (tuCancelled env).
  { apply supM_bind_run in Hr as ([] & s2 & _ & Hr). apply supM_bind_run in Hr as ([] & s3 & _ & Hr). discriminate Hr. }
  apply supM_bind_run in Hr as (l2 & s2 & Hw & [= <- <-]). unfold turnWait in Hw.
  destruct (lpChild l1) as [p|] eqn:Hc, (tuSelect env) as [[|d e|]|err cancelled after]; try (exact (waitStep_only _ _ _ _ _ Ho1 Hsel Hw)); try (by injection Hw as <- <-).
  - apply supM_bind_run in Hw as ([] & s3 & [= <-] & Hw). apply supM_bind_run in Hw as ([] & s4 & Hn & Hw). apply supM_bind_run in Hw as ([] & s5 & [= <-] & Hw).
    apply supM_bind_run in Hw as ([] & s6 & [[_ _ _ _ _ Q6] _]%setState_run & Hw). apply supM_bind_run in Hw as (l3 & s7 & Hw & [= <- <-]).
    apply waitStep_only in Hw; [|unfold only; simpl|done].
    + destruct after; [done| |done]. by destruct (lpChild l3) eqn:Hl3; unfold only; simpl.
    + rewrite Q6. simpl. unfold only in Ho1. rewrite Hc in Ho1.
      assert (svProcs s4 = svProcs (setProcs (filter (fun q => mpPid q <> mpPid p) (svProcs s1)) s1)) as ->
        by (destruct cancelled; [injection Hn as <-|unfold noteUnexpectedExit, mbind, supM_bind in Hn; simpl in Hn; injection Hn as <-]; done).
      simpl. rewrite Ho1. apply (reap_last p []). set_solver.
  - case_decide; [by injection Hw as <- <-|exact (waitStep_only _ _ _ _ _ Ho1 Hsel Hw)].
Qed.

(** ** Properties *)

(** The states of [Run] between turns that satisfy [allow].  What [Status] shows while
    a turn is under way is not among them. *)
Inductive reachable (allow : supTurn -> Prop) (o : SupervisorOptions) (files : disk) : supervisor -> runLoop -> Prop :=
| reach_begin now s0 l s : NewSupervisor o files now = Ok (options, s0) -> runBegin true s0 = (Ok l, s) -> reachable allow o files s l
| reach_turn env l s l' s' : reachable allow o files s l -> allow env -> superviseTurn env l s = (Some l', s') -> reachable allow o files s' l'.

Definition faithfulTurn (env : supTurn) : Prop := selectFaithful (tuSelect env).

Lemma turn_split env l s l' s' :
  superviseTurn env l s = (Some l', s') ->
  exists l1 s1, turnStart (tuStart env) (tuStartCancelled env) l s = (l1, s1) /\ turnWait (tuSelect env) l1 s1 = (l', s').
Proof.
  intros (l1 & s1 & Hst & Hr)%supM_bind_run. exists l1, s1. split; [done|]. destruct (tuCancelled env).
  - apply supM_bind_run in Hr as ([] & s2 & _ & Hr). apply supM_bind_run in Hr as ([] & s3 & _ & Hr). discriminate Hr.
  - by apply supM_bind_run in Hr as (l2 & s2 & Hw & [= <- <-]).
Qed.

Lemma turn_honest env l s l' s' : honest s l -> faithfulTurn env -> superviseTurn env l s = (Some l', s') -> honest s' l'.
Proof. intros Hho Hf (l1 & s1 & [Hh _]%turnStart_honest & Hw)%turn_split; [|done]. by eapply turnWait_honest. Qed.

Lemma reachable_honest o files s l : reachable faithfulTurn o files s l -> honest s l.
Proof. induction 1; [by eapply begin_honest|by eapply turn_honest]. Qed.

Lemma honest_running s l :
  honest s l -> fcState (faceOf s) = ProcessRunning ->
  exists p config, lpChild l = Some p /\ p ∈ svProcs s /\ mpConfig p = Some config /\ sha256_hex config = fcDigest (faceOf s) /\
    mpEngine p = fcEngine (faceOf s) /\ mpBinary p = fcBinary (faceOf s).
Proof.
  intros [Hwf (I1 & I2 & I3 & I4) _ _ Hc] Hrun. destruct (lpChild l) as [p|]; [|naive_solver]. destruct Hc as (Hin & [Hcfg Hne He Hb] & _).
  exists p, (ArConfig (lpCurrent l)). rewrite I1, I2, I4. destruct Hwf as [Hn|[_ ->]]; [by rewrite Hn in Hne|done].
Qed.

(** C16. The published status is true between turns.  In every state the loop can be in
    between two of its turns, if no disk step that failed has left a configuration
    that was given up: a status that says running names the binary and the digest of
    the configuration the child was started with, and a published handle is that of
    the child.  While a turn carries out a deployment this is not so: [handleApply]
    publishes the candidate's digest before it stops the old child. *)
Theorem supervisor_status_honest o files s l :
  reachable faithfulTurn o files s l ->
  (fcState (faceOf s) = ProcessRunning ->
     exists p config, lpChild l = Some p /\ p ∈ svProcs s /\ mpConfig p = Some config /\ sha256_hex config = fcDigest (faceOf s) /\
       mpEngine p = fcEngine (faceOf s) /\ mpBinary p = fcBinary (faceOf s)) /\
  (forall h, ProcessHandleOf s = Some h -> exists p, lpChild l = Some p /\ p ∈ svProcs s /\ h.1 = mpPid p).
Proof.
  intros Hho%reachable_honest. split; [by apply honest_running|]. destruct Hho as [_ _ _ _ Hc].
  intros h. unfold ProcessHandleOf. case_decide as Hz; [done|]. intros [= <-]. destruct (lpChild l) as [p|].
  - destruct Hc as (Hin & _ & [Hh|Hh]); [by rewrite Hh in Hz|]. by exists p.
  - destruct Hc as [_ Hh]. by rewrite Hh in Hz.
Qed.

(** C17. A deployment is all or nothing, on a disk whose steps are.  If no disk step of
    this deployment or of an earlier turn reports an error after it took effect, and
    the configuration is restored when the old child could not be stopped, then
    afterwards the published identity is that of the deployment, with a child started
    from a configuration of its digest; or it is the identity from before; or there is
    no configuration and no child.  The first is the case whenever the caller is told
    success. *)
Theorem deployment_all_or_nothing o files s l d env a l' s' :
  reachable faithfulTurn o files s l -> (forall apply answered, deHandover env = HandoverTaken apply answered -> diskFaithful apply) ->
  deployLocked d env l s = ((a, l'), s') ->
  let new := fcDigest (faceOf s') = ArDigest (DpArtifact d) /\ fcEngine (faceOf s') = DpEngine d /\ fcBinary (faceOf s') = DpBinaryPath d /\ fcVersion (faceOf s') = DpVersion d /\
    exists p config, lpChild l' = Some p /\ p ∈ svProcs s' /\ mpConfig p = Some config /\ sha256_hex config = ArDigest (DpArtifact d) /\
      mpEngine p = DpEngine d /\ mpBinary p = DpBinaryPath d in
  (a = None -> new) /\
  (new \/ (fcEngine (faceOf s') = fcEngine (faceOf s) /\ fcBinary (faceOf s') = fcBinary (faceOf s) /\ fcVersion (faceOf s') = fcVersion (faceOf s) /\
          (fcDigest (faceOf s') = fcDigest (faceOf s) \/ fcDigest (faceOf s') = "" /\ lpChild l' = None))).
Proof.
  intros Hho%reachable_honest Hf Hd new. destruct (deployLocked_honest _ _ _ _ _ _ _ Hho Hf Hd) as (Hh & Hok & a' & Hdep).
  assert (deployed d l l' None -> new) as Hnew.
  { intros (D1 & D2 & D3 & D4 & [p Hp]). destruct Hh as [Hwf (I1 & I2 & I3 & I4) _ _ Hc]. rewrite Hp in Hc. destruct Hc as (Hin & [R1 R2 R3 R4] & _).
    unfold new. split_and!; [congruence..|]. exists p, (ArConfig (lpCurrent l')). split_and!; try done; [|congruence..].
    destruct Hwf as [Hn|[_ <-]]; [by rewrite Hn in R2|done]. }
  split; [by intros ->; apply Hnew, Hok|]. destruct a' as [e|]; [right|left; by apply Hnew]. destruct Hdep as (Hcur & E1 & E2 & E3).
  destruct Hh as [_ (I1 & I2 & I3 & I4) _ _ _], Hho as [_ (J1 & J2 & J3 & J4) _ _ _]. rewrite I1, I2, I3, I4, J1, J2, J3, J4. split_and!; try done.
  destruct Hcur as [->|[-> ->]]; [by left|by right].
Qed.

(** Turns before any deployment. *)
Definition idleTurn (env : supTurn) : Prop :=
  match tuSelect env with SelectWait (WaitApply _ _) | SelectExit _ _ (WaitApply _ _) => False | _ => True end.

Lemma idle_turn env l s l' s' : idleTurn env -> superviseTurn env l s = (Some l', s') -> honest s l -> honest s' l' /\ lpCurrent l' = lpCurrent l.
Proof.
  intros Hi (l1 & s1 & Hst & Hw)%turn_split Hho. destruct (turnStart_honest _ _ _ _ _ _ Hho Hst) as [Hh1 Hc]. unfold idleTurn in Hi. split.
  - eapply turnWait_honest; [done| |exact Hw]. by destruct (tuSelect env) as [[]|? ? []].
  - rewrite <-Hc. unfold turnWait in Hw. destruct (lpChild l1), (tuSelect env) as [[]|err cancelled []]; try done; try (by injection Hw as <- _).
    + by apply supM_bind_run in Hw as ([] & ? & _ & Hw); apply supM_bind_run in Hw as ([] & ? & _ & Hw); apply supM_bind_run in Hw as ([] & ? & _ & Hw);
      apply supM_bind_run in Hw as ([] & ? & _ & Hw); apply supM_bind_run in Hw as (? & ? & [= <- _] & [= <- _]).
    + by apply supM_bind_run in Hw as ([] & ? & _ & Hw); apply supM_bind_run in Hw as ([] & ? & _ & Hw); apply supM_bind_run in Hw as ([] & ? & _ & Hw);
      apply supM_bind_run in Hw as ([] & ? & _ & Hw); apply supM_bind_run in Hw as (? & ? & [= <- _] & [= <- _]).
    + case_decide; by injection Hw as <- _.
Qed.

(** A restart fails closed.  If the confirmed digest is required, then until the
    first deployment every child was started from a configuration of exactly that
    digest: a stale or altered file is never run. *)
Theorem unconfirmed_config_never_starts o files s l p config :
  SoRequireInitialConfigDigest options = true -> reachable idleTurn o files s l ->
  lpChild l = Some p -> mpConfig p = Some config -> sha256_hex config = SoInitialConfigDigest options.
Proof.
  intros Hreq Hr Hp Hc. assert (honest s l /\ (lpCurrent l = noArtifact \/ ArDigest (lpCurrent l) = SoInitialConfigDigest options)) as [Hho Hcur].
  { clear Hp Hc. induction Hr as [now s0 l s Hn Hb|env l s l' s' _ IH Ha Ht].
    - destruct (begin_honest _ _ _ _ _ _ Hn Hb) as (Hh & _ & _ & Hq). split; [done|by apply Hq].
    - destruct IH as [Hh Hq]. destruct (idle_turn _ _ _ _ _ Ha Ht Hh) as [Hh' ->]. done. }
  destruct Hho as [Hwf _ _ _ Hch]. rewrite Hp in Hch. destruct Hch as (_ & [R1 R2 _ _] & _). rewrite R1 in Hc. injection Hc as <-.
  destruct Hwf as [Hn|[_ Hd]]; [by rewrite Hn in R2|]. destruct Hcur as [Hn|<-]; [by rewrite Hn in R2|done].
Qed.

Definition tightTurn (env : supTurn) : Prop := startLeaks (tuStart env) = false /\ selectNoLeak (tuSelect env).

(** There is at most one core.  If every process that fails to start can be
    signalled, the child is the only process that was started and not reaped. *)
Theorem supervisor_owns_one_process o files s l :
  reachable tightTurn o files s l -> svProcs s = match lpChild l with Some p => [p] | None => [] end.
Proof.
  induction 1 as [now s0 l s Hn Hb|env l s l' s' _ IH [Hl Hs] Ht]; [|by eapply turn_only].
  destruct (begin_honest _ _ _ _ _ _ Hn Hb) as (_ & -> & -> & _). done.
Qed.

(** The files were put in place, up to the sync of the directory. *)
Definition replaces (env : applyEnv) (l : runLoop) : Prop :=
  (ArConfig (lpCurrent l) = "" \/ weWritten (iePrevious (aeInstall env)) && weReplaced (iePrevious (aeInstall env)) && weSynced (iePrevious (aeInstall env)) = true) /\
  ieReplaced (aeInstall env) = true.

Lemma installCandidate_replaces candidate env l s r s' :
  replaces env l -> installCandidate candidate (ArConfig (lpCurrent l)) (aeInstall env) s = (r, s') ->
  dkCurrent (svDisk s') = Some candidate /\ (r = None <-> ieSynced (aeInstall env) = true).
Proof.
  intros [Hp Hrep] (pre & s1 & Hpre & Hr)%supM_bind_run. assert (pre = None) as ->.
  { case_decide; [by injection Hpre as <- _|]. destruct Hp as [|Hp]; [done|]. unfold writeAtomic, mbind, supM_bind in Hpre.
    destruct (weWritten _), (weReplaced _), (weSynced _); try done. by injection Hpre as <- _. }
  rewrite Hrep in Hr. injection Hr as <- <-. simpl. split; [done|]. by destruct (ieSynced _).
Qed.

Lemma handleApply_degraded d env l s e l' s' :
  replaces env l -> ieSynced (aeInstall env) = true -> handleApply d env l s = ((Some e, l'), s') -> fcState (faceOf s') = ProcessDegraded.
Proof.
  intros Hrep Hsy Hr. unfold handleApply in Hr. case_decide; [done|]. apply supM_bind_run in Hr as (inst & s1 & Hi & Hr).
  apply installCandidate_replaces in Hi as [_ Hi]; [|done]. rewrite (proj2 Hi Hsy) in Hr.
  apply supM_bind_run in Hr as ([] & s2 & _ & Hr). apply supM_bind_run in Hr as (st & s3 & _ & Hr). destruct st as [e'|].
  - apply supM_bind_run in Hr as (re & s4 & _ & Hr). apply supM_bind_run in Hr as ([] & s5 & _ & Hr).
    apply supM_bind_run in Hr as ([] & s6 & [_ Hf]%setState_run & [= _ _ <-]). by rewrite Hf.
  - apply supM_bind_run in Hr as ([p|e'] & s4 & _ & Hr).
    { apply supM_bind_run in Hr as ([] & s5 & _ & Hr). by apply supM_bind_run in Hr as ([] & s6 & _ & [=]). }
    apply supM_bind_run in Hr as ([e2|] & s5 & _ & Hr).
    + apply supM_bind_run in Hr as ([] & s6 & _ & Hr). apply supM_bind_run in Hr as ([] & s7 & [_ Hf]%setState_run & [= _ _ <-]). by rewrite Hf.
    + apply supM_bind_run in Hr as ([] & s6 & _ & Hr). apply supM_bind_run in Hr as (c & s7 & _ & Hr).
      apply supM_bind_run in Hr as ([] & s8 & [_ Hf]%setState_run & [= _ _ <-]). by rewrite Hf.
Qed.

(** The deployment of what the loop holds. *)
Definition redeployment (l : runLoop) : CoreDeploy := MkCoreDeploy (lpCurrent l) (lpEngine l) (lpBinary l) (lpVersion l).

Lemma redeploy_same env l s p : lpChild l = Some p -> exists a, deployLocked (redeployment l) env l s = ((a, l), s) /\
  (forall apply, validateDeployment (deStat env) (redeployment l) = None -> deCandidate env = true -> validateCandidate (lpEngine l) (deCheck env) = None ->
     deHandover env = HandoverTaken apply true -> a = None).
Proof.
  intros Hp. unfold deployLocked. destruct (validateDeployment _ _); [by eexists; split|]. destruct (deCandidate env); simpl; [|by eexists; split].
  destruct (validateCandidate _ _); [by eexists; split|]. destruct (deHandover env) as [| |apply answered]; [by eexists; split..|].
  unfold mbind, supM_bind, handleApply. rewrite decide_True by (rewrite Hp; repeat split; eauto). eexists. split; [done|]. intros a _ _ _ [= -> ->]. done.
Qed.

(** A rolled-back core stays degraded.  After a deployment that failed and whose
    predecessor runs again, the status says degraded although the child runs the
    configuration and the binary it names; and deploying exactly those again is
    answered with success and changes nothing, so the status does not recover. *)
Theorem rollback_stays_degraded d env l s e l' s' p :
  honest s l -> supValidateArtifact (DpArtifact d) = None -> diskFaithful env -> replaces env l -> ieSynced (aeInstall env) = true ->
  handleApply d env l s = ((Some e, l'), s') -> lpChild l' = Some p ->
  fcState (faceOf s') = ProcessDegraded /\ p ∈ svProcs s' /\ mpConfig p = Some (ArConfig (lpCurrent l')) /\ fcDigest (faceOf s') = sha256_hex (ArConfig (lpCurrent l')) /\
  forall env', exists a, deployLocked (redeployment l') env' l' s' = ((a, l'), s') /\
    (forall apply, validateDeployment (deStat env') (redeployment l') = None -> deCandidate env' = true -> validateCandidate (lpEngine l') (deCheck env') = None ->
       deHandover env' = HandoverTaken apply true -> a = None).
Proof.
  intros Hho Hv Hdf Hrep Hsy Hr Hp. destruct (handleApply_honest _ _ _ _ _ _ _ Hho Hv Hdf Hr) as [Hh _].
  destruct Hh as [Hwf (I1 & _) _ _ Hc]. rewrite Hp in Hc. destruct Hc as (Hin & [R1 R2 _ _] & _).
  split_and!; [by eapply handleApply_degraded|done|done| |intros env'; by eapply redeploy_same].
  rewrite I1. destruct Hwf as [Hn|[_ Hd]]; [by rewrite Hn in R2|done].
Qed.

(** A directory that cannot be synced swaps the configuration.  If the last step
    of installing a candidate fails, the deployment is answered with an error and
    nothing published changes, but the file holds the candidate; once the child
    exits, the next start runs the candidate under the old digest. *)
Theorem unsynced_install_runs_candidate d env l s a l1 s1 err l2 s2 pid ticks l3 s3 :
  honest s l -> is_Some (lpChild l) -> ArConfig (lpCurrent l) <> "" -> replaces env l -> ieSynced (aeInstall env) = false ->
  ArDigest (DpArtifact d) <> ArDigest (lpCurrent l) -> is_Ok (resolveCommand Commands (lpEngine l)) = true ->
  handleApply d env l s = ((a, l1), s1) -> turnWait (SelectExit err false WaitTimer) l1 s1 = (l2, s2) ->
  turnStart (MkStartEnv (Some pid) (StartTimer None ticks)) false l2 s2 = (l3, s3) ->
  is_Some a /\ fcState (faceOf s3) = ProcessRunning /\ fcDigest (faceOf s3) = ArDigest (lpCurrent l) /\
  exists q, lpChild l3 = Some q /\ mpConfig q = Some (ArConfig (DpArtifact d)).
Proof.
  intros Hho [p Hp] Hne Hrep Hsy Hdig Hres Ha Hw Hst. unfold handleApply in Ha. rewrite decide_False in Ha by naive_solver.
  apply supM_bind_run in Ha as (inst & s0 & Hi & Ha). pose proof Hi as [Hd Hn]%installCandidate_replaces; [|done].
  apply installCandidate_run in Hi as ([Ff _ _ _ _] & _). destruct inst as [e|]; [|exfalso; assert (ieSynced (aeInstall env) = true) by (by apply Hn); congruence].
  injection Ha as <- <- <-. split; [eauto|]. unfold turnWait in Hw. rewrite Hp in Hw.
  apply supM_bind_run in Hw as ([] & t1 & [= <-] & Hw). apply supM_bind_run in Hw as ([] & t2 & [= <-] & Hw). apply supM_bind_run in Hw as ([] & t3 & [= <-] & Hw).
  apply supM_bind_run in Hw as ([] & t4 & [[_ _ _ _ Qd _] Qf]%setState_run & Hw). apply supM_bind_run in Hw as (l4 & t5 & [= <- <-] & [= <- <-]).
  unfold turnStart in Hst. rewrite decide_True in Hst by done. apply supM_bind_run in Hst as (r & t6 & Hs & Hst). cbn [lpEngine lpBinary setRetry setChild] in Hs.
  pose proof Hs as (_ & _ & _ & (state & Sf & _) & Sr)%start_run. unfold start in Hs. destruct (resolveCommand _ _); [|done].
  assert (exists q, r = Ok q) as [q ->].
  { apply supM_bind_run in Hs as ([] & u1 & _ & Hs). simpl in Hs. apply supM_bind_run in Hs as (q & u2 & _ & Hs). apply supM_bind_run in Hs as ([] & u3 & _ & Hs).
    apply supM_bind_run in Hs as ([] & u4 & _ & [= <- _]). by exists q. }
  destruct Sr as (_ & _ & Hcfg & _). apply supM_bind_run in Hst as ([] & t7 & [_ Rf]%setState_run & [= <- <-]).
  split_and!; [by rewrite Rf| |]; [|exists q; split; [done|]; rewrite Hcfg, Qd; exact Hd].
  rewrite Rf. cbn [faceState fcDigest]. rewrite Sf. cbn [faceState fcDigest]. rewrite Qf. change (fcDigest (faceOf s0) = ArDigest (lpCurrent l)). rewrite Ff. apply Hho.
Qed.

End supervisor.

Module supervisor_example.

Definition sampleClock (n : nat) : Z := 9000000 + Z.of_nat n.
Definition raw : SupervisorOptions :=
  MkSupervisorOptions "/opt/xray" "xray" "1.8.0" "/var/lib/core"
    (Some (fun engine => if decide (engine = "xray") then Some (MkCommand true true) else None)) 0 0 0 0 0 true (sha256_hex "{}").
Definition files : disk := MkDisk (Some "{}") None.
Definition made : res string (SupervisorOptions * supervisor) := NewSupervisor raw files 1.
Definition opts : SupervisorOptions := match made with Ok (o, _) => o | Err _ => raw end.
Definition fresh : supervisor := match made with Ok (_, s) => s | Err _ => stoppedSupervisor raw files 1 end.

Definition begun : res string runLoop * supervisor := runBegin opts sampleClock true fresh.
Definition loop0 : runLoop := match begun.1 with Ok l => l | Err _ => MkRunLoop noArtifact "" "" "" None 0 end.

Definition survives (pid : Z) : startEnv := MkStartEnv (Some pid) (StartTimer None (Some 5)).
Definition dies (pid : Z) : startEnv := MkStartEnv (Some pid) (StartExited (Some "exit status 1") false false).
Definition obeys : stopEnv := MkStopEnv SignalSent true SignalSent.
Definition written : writeEnv := MkWriteEnv true true true.

Definition firstTurn : supTurn := MkSupTurn (survives 7) false false obeys (SelectWait WaitTimer).
Definition up : option runLoop * supervisor := superviseTurn opts sampleClock firstTurn loop0 begun.2.
Definition loop1 : runLoop := default loop0 up.1.

Lemma up_reachable (allow : supTurn -> Prop) : allow firstTurn -> reachable opts sampleClock allow raw files up.2 loop1.
Proof.
  intros Ha. eapply (reach_turn _ _ _ _ _ firstTurn loop0 begun.2); [|exact Ha|vm_compute; reflexivity].
  eapply (reach_begin _ _ _ _ _ 1 fresh); vm_compute; reflexivity.
Qed.

Lemma supervisor_status_honest_witness :
  fcState (faceOf up.2) = ProcessRunning /\ exists p, lpChild loop1 = Some p /\ p ∈ svProcs up.2 /\ mpEngine p = "xray".
Proof.
  assert (fcState (faceOf up.2) = ProcessRunning) as Hrun by (vm_compute; reflexivity). split; [exact Hrun|].
  destruct (supervisor_status_honest opts sampleClock raw files up.2 loop1 (up_reachable faithfulTurn I)) as [Ht _].
  destruct (Ht Hrun) as (p & config & Hp & Hin & _ & _ & He & _). exists p. split; [exact Hp|]. split; [exact Hin|]. rewrite He. vm_compute. reflexivity.
Defined.

(** A candidate whose core exits at once, and the old core started again. *)
Definition candidate : CoreDeploy := MkCoreDeploy (MkArtifact "{1}" (sha256_hex "{1}")) "xray" "/opt/xray" "1.8.0".
Definition failing : applyEnv := MkApplyEnv (MkInstallEnv written true true) obeys (dies 8) written (survives 9).
Definition stat (path : string) : option (bool * bool) := Some (true, true).
Definition attempt : deployEnv := MkDeployEnv stat true true (HandoverTaken failing true).
Definition rolled : option string * runLoop * supervisor := deployLocked opts sampleClock candidate attempt loop1 up.2.

Lemma failing_faithful : diskFaithful failing.
Proof. split; [reflexivity|intros Hs; discriminate Hs]. Qed.

Lemma deployment_all_or_nothing_witness :
  is_Some rolled.1.1 /\ fcEngine (faceOf rolled.2) = fcEngine (faceOf up.2).
Proof.
  split; [vm_compute; eauto|].
  destruct (deployment_all_or_nothing opts sampleClock raw files up.2 loop1 candidate attempt rolled.1.1 rolled.1.2 rolled.2) as [_ [Hnew|(He & _)]].
  - exact (up_reachable faithfulTurn I).
  - intros apply answered Ha. injection Ha as <- <-. exact failing_faithful.
  - unfold rolled. destruct (deployLocked _ _ _ _ _ _) as [[? ?] ?]. reflexivity.
  - exfalso. destruct Hnew as (Hd & _). vm_compute in Hd. discriminate Hd.
  - exact He.
Defined.

Lemma unconfirmed_config_never_starts_witness :
  exists p config, lpChild loop1 = Some p /\ mpConfig p = Some config /\ sha256_hex config = SoInitialConfigDigest opts.
Proof.
  assert (exists p config, lpChild loop1 = Some p /\ mpConfig p = Some config) as (p & config & Hp & Hc) by (eexists _, _; vm_compute; split; reflexivity).
  exists p, config. split; [exact Hp|]. split; [exact Hc|].
  apply (unconfirmed_config_never_starts opts sampleClock raw files up.2 loop1 p config eq_refl (up_reachable idleTurn I) Hp Hc).
Defined.

Lemma supervisor_owns_one_process_witness : exists p, svProcs up.2 = [p].
Proof.
  assert (exists p, lpChild loop1 = Some p) as [p Hp] by (eexists; vm_compute; reflexivity). exists p.
  pose proof (supervisor_owns_one_process opts sampleClock raw files up.2 loop1 (up_reachable tightTurn (conj eq_refl I))) as Ho. rewrite Hp in Ho. exact Ho.
Defined.

Lemma up_honest : honest up.2 loop1.
Proof. exact (reachable_honest _ _ _ _ _ _ (up_reachable faithfulTurn I)). Qed.

Lemma rollback_stays_degraded_witness :
  exists e l' s' p, handleApply opts sampleClock candidate failing loop1 up.2 = ((Some e, l'), s') /\ lpChild l' = Some p /\
    fcState (faceOf s') = ProcessDegraded /\ deployLocked opts sampleClock (redeployment l') attempt l' s' = ((None, l'), s').
Proof.
  assert (exists e p, (handleApply opts sampleClock candidate failing loop1 up.2).1.1 = Some e /\ lpChild (handleApply opts sampleClock candidate failing loop1 up.2).1.2 = Some p)
    as (e & p & He & Hp) by (eexists _, _; vm_compute; split; reflexivity).
  set (r := handleApply opts sampleClock candidate failing loop1 up.2) in *.
  assert (handleApply opts sampleClock candidate failing loop1 up.2 = ((Some e, r.1.2), r.2)) as Hr
    by (unfold r in *; destruct (handleApply _ _ _ _ _ _) as [[? ?] ?]; simpl in He |- *; congruence).
  exists e, r.1.2, r.2, p. split; [exact Hr|]. split; [exact Hp|].
  destruct (rollback_stays_degraded opts sampleClock candidate failing loop1 up.2 e r.1.2 r.2 p up_honest) as (Hs & _ & _ & _ & Hre).
  - vm_compute. reflexivity.
  - exact failing_faithful.
  - split; [right|]; reflexivity.
  - reflexivity.
  - exact Hr.
  - exact Hp.
  - split; [exact Hs|]. destruct (Hre attempt) as (a & Ha & Hnone). rewrite (Hnone failing) in Ha; [exact Ha| | | |reflexivity]; vm_compute; reflexivity.
Defined.

Definition unsynced : applyEnv := MkApplyEnv (MkInstallEnv written true false) obeys (dies 8) written (survives 9).

Lemma unsynced_install_runs_candidate_witness :
  exists l3 s3 q, lpChild l3 = Some q /\ mpConfig q = Some "{1}" /\ fcState (faceOf s3) = ProcessRunning /\ fcDigest (faceOf s3) = sha256_hex "{}".
Proof.
  set (r1 := handleApply opts sampleClock candidate unsynced loop1 up.2).
  set (r2 := turnWait opts sampleClock (SelectExit None false WaitTimer) r1.1.2 r1.2).
  set (r3 := turnStart opts sampleClock (MkStartEnv (Some 12) (StartTimer None None)) false r2.1 r2.2).
  destruct (unsynced_install_runs_candidate opts sampleClock candidate unsynced loop1 up.2 r1.1.1 r1.1.2 r1.2 None r2.1 r2.2 12 None r3.1 r3.2 up_honest)
    as (_ & Hs & Hd & q & Hq & Hc).
  - vm_compute. eauto.
  - vm_compute. discriminate.
  - split; [right|]; reflexivity.
  - reflexivity.
  - vm_compute. discriminate.
  - vm_compute. reflexivity.
  - unfold r1. by destruct (handleApply _ _ _ _ _ _) as [[? ?] ?].
  - unfold r2. by destruct (turnWait _ _ _ _ _).
  - unfold r3. by destruct (turnStart _ _ _ _ _ _).
  - exists r3.1, r3.2, q. split; [exact Hq|]. split; [exact Hc|]. split; [exact Hs|]. rewrite Hd. vm_compute. reflexivity.
Defined.

End supervisor_example.
