(* ===== verification/Supervised.v ===== *)
(** * The supervised host

    The supervisor of [internal/core/process] behind the interface the core runtime
    drives: while the runtime converges, the supervisor's loop takes turns of its
    own.  The theorem composes the two: quotas reach the process that runs. *)
From S2P Require Import Prelude GoStrings Sha256 Protocol Store Streams Clients Deployment Documents Receive Issues Processor Rounds Catalog CoreRuntime Supervisor.

(** What the host answers: the installer, a deployment's circumstances, the turns
    of the loop since the last call, the clock. *)
Class SupervisedEnv (E : Type) := {
  HostInstall : E -> InstallRequest -> res coreError Installation * E;
  HostDeploy : E -> CoreDeploy -> deployEnv * E;
  HostTurns : E -> list supTurn * E;
  HostNow : E -> Z * E
}.

(** No failed disk step leaves a configuration that was given up. *)
Class SupervisedLaws (E : Type) `{!SupervisedEnv E} : Prop := {
  turns_faithful e : Forall faithfulTurn (HostTurns e).1;
  deploy_faithful e d apply answered : deHandover (HostDeploy e d).1 = HandoverTaken apply answered -> diskFaithful apply
}.

Section supervised.
Context (options : SupervisorOptions) (Clock : nat -> Z) {E : Type} `{!SupervisedEnv E, !SupervisedLaws E}.

(** [sdLoop] is [None] once [Run] has returned. *)
Record supervised := MkSupervised { sdSup : supervisor; sdLoop : option runLoop; sdEnv : E }.

Fixpoint superviseTurns (turns : list supTurn) (s : supervisor) (l : option runLoop) : supervisor * option runLoop :=
  match turns, l with
  | env :: turns', Some l => let '(l', s') := superviseTurn options Clock env l s in superviseTurns turns' s' l'
  | _, _ => (s, l)
  end.

(** The turns since the last call. *)
Definition advance (w : supervised) : supervised :=
  let '(turns, e) := HostTurns (sdEnv w) in
  let '(s, l) := superviseTurns turns (sdSup w) (sdLoop w) in MkSupervised s l e.

Definition supervisedInstall (w : supervised) (request : InstallRequest) : res coreError Installation * supervised :=
  let w := advance w in
  let '(r, e) := HostInstall (sdEnv w) request in (r, MkSupervised (sdSup w) (sdLoop w) e).

Definition supervisedDeploy (w : supervised) (d : CoreDeploy) : option coreError * supervised :=
  let w := advance w in
  let '(env, e) := HostDeploy (sdEnv w) d in
  match sdLoop w with
  | None => (Some (plain "core supervisor stopped"), MkSupervised (sdSup w) None e)
  | Some l =>
      let '((answer, l'), s') := deployLocked options Clock d env l (sdSup w) in
      (plain <$> answer, MkSupervised s' (Some l') e)
  end.

Definition supervisedNow (w : supervised) : Z * supervised :=
  let w := advance w in
  let '(t, e) := HostNow (sdEnv w) in (t, MkSupervised (sdSup w) (sdLoop w) e).

#[global] Instance supervised_world : CoreWorld supervised := {|
  Install := supervisedInstall;
  Deploy := supervisedDeploy;
  Status w := ssCore (svStatus (sdSup w));
  Now := supervisedNow
|}.

(** The status is true while the loop runs; afterwards it claims no core. *)
Definition world_honest (w : supervised) : Prop :=
  match sdLoop w with Some l => honest (sdSup w) l | None => fcState (faceOf (sdSup w)) <> ProcessRunning end.

Lemma turn_returned env l s s' : superviseTurn options Clock env l s = (None, s') -> fcState (faceOf s') = ProcessStopped.
Proof.
  intros (l1 & s1 & _ & Hr)%supM_bind_run. destruct (tuCancelled env).
  - apply supM_bind_run in Hr as ([] & s2 & _ & Hr). apply supM_bind_run in Hr as ([] & s3 & [_ Hf]%setState_run & [= <-]). by rewrite Hf.
  - by apply supM_bind_run in Hr as (l2 & s2 & _ & [=]).
Qed.

Definition loop_honest (s : supervisor) (l : option runLoop) : Prop :=
  match l with Some l => honest s l | None => fcState (faceOf s) <> ProcessRunning end.

Lemma superviseTurns_honest turns : forall s l s' l', Forall faithfulTurn turns -> loop_honest s l -> superviseTurns turns s l = (s', l') -> loop_honest s' l'.
Proof.
  induction turns as [|env turns IH]; intros s l s' l' Hf Hl; simpl; [by intros [= <- <-]|]. destruct l as [l|]; [|by intros [= <- <-]].
  apply Forall_cons in Hf as [Hf Hfs]. destruct (superviseTurn _ _ env l s) as [[l1|] s1] eqn:Ht; (apply IH; [done|]).
  - by eapply turn_honest.
  - intros Hs. unfold loop_honest in *. rewrite (turn_returned _ _ _ _ Ht) in Hs. done.
Qed.

Lemma advance_honest w : world_honest w -> world_honest (advance w).
Proof.
  intros Hw. unfold advance. pose proof (turns_faithful (sdEnv w)) as Hf. destruct (HostTurns (sdEnv w)) as [turns e].
  destruct (superviseTurns turns (sdSup w) (sdLoop w)) as [s l] eqn:Ht. by eapply (superviseTurns_honest turns (sdSup w) (sdLoop w)).
Qed.

Lemma world_step_honest w w' : world_step w w' -> world_honest w -> world_honest w'.
Proof.
  destruct 1 as [w|w request]; intros Hw%advance_honest; simpl.
  - unfold supervisedNow. by destruct (HostNow _).
  - unfold supervisedInstall. by destruct (HostInstall _ _).
Qed.

(** The process that runs in [w] was started with this engine from a
    configuration of this digest. *)
Definition core_process (w : supervised) (engine digest : string) : Prop :=
  exists l p config, sdLoop w = Some l /\ lpChild l = Some p /\ p ∈ svProcs (sdSup w) /\ mpConfig p = Some config /\
    sha256_hex config = digest /\ mpEngine p = engine.

Lemma deploy_process w d w' :
  world_honest w -> Deploy w d = (None, w') -> core_process w' (DpEngine d) (ArDigest (DpArtifact d)).
Proof.
  intros Hw%advance_honest. simpl. unfold supervisedDeploy. pose proof (deploy_faithful (sdEnv (advance w)) d) as Hdf. destruct (HostDeploy _ d) as [env e].
  unfold world_honest in Hw. destruct (sdLoop (advance w)) as [l|]; [|done].
  destruct (deployLocked _ _ d env l _) as [[answer l'] s'] eqn:Hd. intros [= Ha <-]. destruct answer; [done|].
  destruct (deployLocked_honest _ _ _ _ _ _ _ _ _ Hw Hdf Hd) as (Hh & Hok & _). destruct (Hok eq_refl) as (D1 & D2 & _ & _ & [p Hp]).
  destruct Hh as [Hwf _ _ _ Hc]. rewrite Hp in Hc. destruct Hc as (Hin & [R1 R2 R3 _] & _).
  exists l', p, (ArConfig (lpCurrent l')). simpl. rewrite <-D1, <-D2. split_and!; try done. destruct Hwf as [Hn|[_ ->]]; [by rewrite Hn in R2|done].
Qed.

Lemma status_process w : world_honest w -> CsState (Status w) = ProcessRunning -> core_process w (CsEngine (Status w)) (CsConfigDigest (Status w)).
Proof.
  intros Hw Hrun. unfold world_honest in Hw. destruct (sdLoop w) as [l|] eqn:Hl; [|by destruct Hw].
  destruct (honest_running _ _ Hw Hrun) as (p & config & Hp & Hin & Hc & Hd & He & _). by exists l, p, config.
Qed.

Context `{ProtocolLaws} `{Conformance, !ConformanceLaws}.
Context `{BodyCodec ConfigBody, BodyCodec RosterBody, BodyCodec DirectivesBody}.
Context (unicodeToLower : string -> string) (Load : res error (list Release)).
Context (compilerFactory : CoreSelection -> res coreError Compiler).

(** C14. Quotas reach the process.  On a host whose disk steps take effect durably or
    not at all, and whose supervisor's loop has an honest state, when a convergence
    succeeds, whatever turns the loop has taken meanwhile, the host has passed
    through a state whose core process was started from a configuration with the
    digest on record.  That digest is of the artifact the resolved selection's
    compiler makes of the listeners of the stored config and the clients of the
    stored roster at the convergence's first reading of the clock, each client as the
    roster has it if its ledger row is inside its grant, and disabled if not. *)
Theorem quotas_reach_the_process (s s' : cstate (W := supervised)) :
  clients_ok (cdb s) -> world_honest (cworld s) -> Converge unicodeToLower Load compilerFactory s = (None, s') ->
  deployment_frame (cdb s) (cdb s') /\
  exists config roster selection compile artifact d w,
    loadStoredBody (cdb s') StreamConfig = Ok config /\ optionalBody StreamRoster (cdb s') = Ok roster /\
    resolveSelection unicodeToLower Load (CfgCore config) = Ok selection /\ compilerFactory selection = Ok compile /\
    compile (snapshotOf (cdb s') config roster (Now (cworld s)).1) = Ok artifact /\
    gated_snapshot (cdb s') config roster (Now (cworld s)).1 (snapshotOf (cdb s') config roster (Now (cworld s)).1) /\
    CoreDeploymentOf (cdb s') = Ok d /\ CDEngine d = SelEngine selection /\ CDVersion d = SelVersion selection /\ CDConfigDigest d = sha256_hex (ArConfig artifact) /\
    cworld s' = (Now w).2 /\ core_process w (CDEngine d) (CDConfigDigest d).
Proof.
  intros Hok Hw Hc. split; [by pose proof (Converge_frame unicodeToLower Load compilerFactory s) as Hfr; rewrite Hc in Hfr|].
  destruct (Converge_enforces _ _ _ _ _ Hok Hc)
    as (config & roster & selection & compile & artifact & d & w & Hcfg & Hros & Hsel & Hf & Hcomp & Hen & Hd & He & Hv & _ & Hcd & Hdig & Hsteps & Hrun).
  assert (world_honest w) as Hhw by (clear -Hsteps Hw SupervisedLaws0; induction Hsteps; [done|]; eauto using world_step_honest).
  exists config, roster, selection, compile, artifact, d. destruct Hrun as [(R1 & R2 & R3 & R4 & R5)|(path & w1 & Hdep & Hnow)].
  - exists w. split_and!; try done; [congruence|]. pose proof (status_process _ Hhw R1) as Hp. by rewrite R2, R4, <-Hcd in Hp.
  - exists w1. split_and!; try done; [congruence|]. apply deploy_process in Hdep; [|done]. simpl in Hdep. by rewrite <-Hcd in Hdep.
Qed.

End supervised.

Module supervised_example.
Import sample.
Import rounds_example.
Import core_example.
Import supervisor_example.

(** A healthy host: every start survives and every signal is obeyed. *)
Definition healthy : deployEnv :=
  MkDeployEnv stat true true (HandoverTaken (MkApplyEnv (MkInstallEnv written true true) obeys (survives 8) written (survives 9)) true).

#[export] Instance sample_host : SupervisedEnv unit := {|
  HostInstall e request := (Ok (MkInstallation (IrEngine request) (IrVersion request) "/opt/core"), e);
  HostDeploy e d := (healthy, e);
  HostTurns e := ([firstTurn], e);
  HostNow e := (9000000000, e)
|}.

#[export] Instance sample_host_laws : SupervisedLaws unit.
Proof.
  split; intros e; [by repeat constructor|]. intros d apply answered Ha. injection Ha as <- <-. split; [reflexivity|intros Hs; discriminate Hs].
Qed.

#[export] Instance host_world : CoreWorld (supervised (E := unit)) := supervised_world opts sampleClock.

Definition started : cstate := MkCState (MkSupervised up.2 (Some loop1) tt) stored false.
Definition after : cstate := (Converge (fun s => s) catalog factory started).2.

Lemma after_converged : Converge (fun s => s) catalog factory started = (None, after).
Proof. vm_compute. reflexivity. Qed.

Lemma quotas_reach_the_process_witness :
  exists d (w : supervised (E := unit)), CoreDeploymentOf (cdb after) = Ok d /\ core_process w (CDEngine d) (CDConfigDigest d).
Proof.
  destruct (quotas_reach_the_process opts sampleClock (fun s => s) catalog factory started after) as (_ & _ & _ & _ & _ & _ & d & w & _ & _ & _ & _ & _ & _ & Hd & _ & _ & _ & _ & Hp).
  - exact stored_clients.
  - exact up_honest.
  - exact after_converged.
  - exists d, w. split; [exact Hd|exact Hp].
Defined.

End supervised_example.
