(* ===== verification/XrayCompiler.v ===== *)
(** * The Xray compiler ([internal/core/xray/compiler.go], [compat.go])

    One snapshot becomes one complete Xray configuration.  A JSON object is a map
    from names to values; the decoders of listener texts and the encoder of the
    configuration are the class [XrayJSON]. *)
From S2P Require Import Prelude GoStrings Sha256 Protocol Store NetIP Catalog CatalogReview Documents Receive Rounds CoreRuntime.

(** ** JSON *)

Inductive json :=
| JNull
| JBool (b : bool)
| JInt (n : Z)
| JNum (text : string)
| JStr (s : string)
| JArr (l : list json)
| JObj (m : gmap string json).

Notation object := (gmap string json).

Record listenerSpec := MkListenerSpec {
  SpEnabled : bool;
  SpListen : string;
  SpPort : Z;
  SpProtocol : string;
  SpSettings : string;
  SpStreamSettings : string;
  SpSniffing : string;
  SpAllocate : string
}.

Record xrayConfig := MkXrayConfig {
  XcLog : object;
  XcAPI : object;
  XcStats : object;
  XcPolicy : object;
  XcInbounds : list object;
  XcOutbounds : list object
}.

(** [strictJSON] into a listener, [json.Unmarshal] into a map ([Some None] is a
    null) and [json.MarshalIndent] of a configuration. *)
Class XrayJSON := {
  decodeSpec : string -> option listenerSpec;
  decodeObject : string -> option (option object);
  encodeConfig : xrayConfig -> option string
}.

(** ** Endpoints *)

Definition colon : ascii := ":".

(** The position of the last and of the first occurrence. *)
Fixpoint lastIndex (c : ascii) (i : nat) (s : string) : option nat :=
  match s with
  | EmptyString => None
  | String a s' => match lastIndex c (S i) s' with Some j => Some j | None => if decide (a = c) then Some i else None end
  end.
Fixpoint firstIndex (c : ascii) (i : nat) (s : string) : option nat :=
  match s with
  | EmptyString => None
  | String a s' => if decide (a = c) then Some i else firstIndex c (S i) s'
  end.

(** [net.SplitHostPort]. *)
Definition SplitHostPort (hostport : string) : option (string * string) :=
  match lastIndex colon 0 hostport with
  | None => None
  | Some i =>
      let port := drop_str (S i) hostport in
      if HasPrefix hostport "[" then
        match firstIndex "]" 0 hostport with
        | None => None
        | Some close =>
            if decide (S close = i) then
              let host := String.substring 1 (close - 1) hostport in
              if Contains host "[" || Contains port "[" || Contains port "]" then None else Some (host, port)
            else None
        end
      else
        let host := take_str i hostport in
        if Contains host ":" then None else
        if Contains hostport "[" || Contains hostport "]" then None else Some (host, port)
  end.

(** [net.ParseIP] and [IsLoopback]: no zone; an IPv4-in-IPv6 address counts as
    IPv4. *)
Definition isLoopback (host : string) : bool :=
  match ParseAddr host with
  | Some a =>
      match a with
      | Addr6 _ zone => bool_decide (zone = "")
      | Addr4 _ => true
      end &&
      match Unmap a with
      | Addr4 (x :: _) => bool_decide (x = 127)
      | Addr6 groups _ => bool_decide (groups = [0; 0; 0; 0; 0; 0; 0; 1])
      | Addr4 [] => false
      end
  | None => false
  end.

Definition validateLoopbackEndpoint (endpoint : string) : bool :=
  match SplitHostPort endpoint with
  | Some (host, port) => isLoopback host && bool_decide (port <> "")
  | None => false
  end.

(** ** Releases and REALITY ([compat.go]) *)

Inductive realityPolicy := RealityBroad | RealityNeedsMinClientZero | RealityRestrictedClients.

Definition objectRejected : string := "core_config_rejected".
Definition realityClientRejected : string := "reality_client_incompatible".

(** [strings.EqualFold] with a word that has no other case variants. *)
Definition EqualFoldWord (s word : string) : bool := bool_decide (ascii_lower s = word).

(** An error of one listener: its text, a client's [ObjectError], or a refusal
    code. *)
Inductive inboundError := InboundError (text : string) | InboundClient (e : ObjectError) | InboundRejected (code : string).

Section compiler.
Context `{XrayJSON} `{Protocol} (unicodeToLower : string -> string) (Load : res error (list Release)).

Definition RealityCompatibilityFor (version : string) : res error realityPolicy :=
  release ← Resolve unicodeToLower Load "xray" version;
  if decide (ServerMinClientVer (Reality release) <> "") then Ok RealityNeedsMinClientZero else
  if decide (Tier release = TierRestricted) then Ok RealityRestrictedClients else
  if decide (RealityMihomo (Reality release) = SupportSupported /\ RealitySingBox (Reality release) = SupportSupported) then Ok RealityBroad else
  Err (Errorf "no recognized REALITY policy").

Definition objectField (parent : object) (key : string) : option object :=
  match parent !! key with
  | None | Some JNull => Some ∅
  | Some (JObj m) => Some m
  | Some _ => None
  end.

(** The stream with the release's minimum client version, where it needs one. *)
Definition applyRealityCompatibility (allowRestricted : bool) (release : Release) (stream : object) : res inboundError object :=
  let security := match stream !! "security" with Some (JStr s) => s | _ => "" end in
  if negb (EqualFoldWord (TrimSpace security) "reality") then Ok stream else
  match RealityCompatibilityFor (RVersion release) with
  | Err _ => Err (InboundError "xray version")
  | Ok RealityBroad => Ok stream
  | Ok RealityNeedsMinClientZero =>
      match objectField stream "realitySettings" with
      | None => Err (InboundError "realitySettings must be a JSON object")
      | Some settings =>
          Ok (<["realitySettings" := JObj (<["minClientVer" := JStr (ServerMinClientVer (Reality release))]> settings)]> stream)
      end
  | Ok RealityRestrictedClients => if allowRestricted then Ok stream else Err (InboundRejected realityClientRejected)
  end.

(** ** Compiling ([compiler.go]) *)

Record XrayCompiler := MkXrayCompiler {
  XAPIListen : string;
  XLogLevel : string;
  XAccessLog : string;
  XErrorLog : string;
  XCoreVersion : string;
  XAllowRestrictedReality : bool
}.

Definition defaultAPIListen : string := "127.0.0.1:10085".

Definition resolveCoreRelease (c : XrayCompiler) : res error Release :=
  let version := TrimSpace (XCoreVersion c) in
  if decide (version = "") then Recommended unicodeToLower Load "xray" else Resolve unicodeToLower Load "xray" version.

Definition validLogLevel (level : string) : bool :=
  bool_decide (level = "none" \/ level = "error" \/ level = "warning" \/ level = "info" \/ level = "debug").

Definition objectError (stream key : string) : coreError := MkCoreError (Some (MkObjectError stream key objectRejected)) "core compile".
Definition compileListenerError (key : string) : coreError := objectError StreamConfig key.
Definition compileClientError (key : string) : coreError := objectError StreamRoster key.

Definition jsonObject (raw : string) : option object :=
  if decide (TrimSpace raw = "") then Some ∅ else
  match decodeObject raw with Some (Some m) => Some m | _ => None end.

(** [Some None] if the text is blank. *)
Definition optionalJSONObject (raw : string) : option (option object) :=
  if decide (TrimSpace raw = "") then Some None else Some <$> jsonObject raw.

Definition compileUser (protocolName : string) (client : WClient) : option object :=
  let credential := WCCredentials client in
  if decide (TrimSpace (Username credential) = "") then None else
  let user : object := <["email" := JStr (Username credential)]> {["level" := JInt 0]} in
  if decide (protocolName = "vless") then
    if decide (TrimSpace (UUID credential) = "") then None else
    let user := <["id" := JStr (UUID credential)]> user in
    Some (if decide (Flow credential = "") then user else <["flow" := JStr (Flow credential)]> user)
  else if decide (protocolName = "vmess") then
    if decide (TrimSpace (UUID credential) = "") then None else
    Some (<["alterId" := JInt 0]> (<["id" := JStr (UUID credential)]> user))
  else if decide (protocolName = "trojan" \/ protocolName = "shadowsocks") then
    if decide (Password credential = "") then None else Some (<["password" := JStr (Password credential)]> user)
  else Some user.

Fixpoint compileUsers (protocolName : string) (clients : list WClient) : res inboundError (list json) :=
  match clients with
  | [] => Ok []
  | client :: rest =>
      match compileUser protocolName client with
      | None => Err (InboundClient (MkObjectError StreamRoster (WCKey client) objectRejected))
      | Some user => users ← compileUsers protocolName rest; Ok (JObj user :: users)
      end
  end.

Definition supportedProtocol (name : string) : bool := bool_decide (name = "vless" \/ name = "vmess" \/ name = "trojan" \/ name = "shadowsocks").

(** An optional object of the listener, set under a name. *)
Definition withOptional (raw name text : string) (adjust : object -> res inboundError object) (inbound : object) : res inboundError object :=
  match optionalJSONObject raw with
  | None => Err (InboundError text)
  | Some None => Ok inbound
  | Some (Some m) => m' ← adjust m; Ok (<[name := JObj m']> inbound)
  end.

(** [net.JoinHostPort]. *)
Definition JoinHostPort (host port : string) : string :=
  if Contains host ":" then "[" +:+ host +:+ "]:" +:+ port else host +:+ ":" +:+ port.

(** The inbound and its bind address, or [None] for a disabled listener. *)
Definition compileInbound (c : XrayCompiler) (release : Release) (listener : WListener) (clients : list WClient)
    : res inboundError (option (object * string)) :=
  match decodeSpec (WLConfig listener) with
  | None => Err (InboundError "decode listener config")
  | Some spec =>
      if negb (SpEnabled spec) then Ok None else
      if decide (SpPort spec < 1 \/ 65535 < SpPort spec) then Err (InboundError "port") else
      let protocolName := ToLower unicodeToLower (TrimSpace (SpProtocol spec)) in
      if negb (supportedProtocol protocolName) then Err (InboundError "protocol") else
      match jsonObject (SpSettings spec) with
      | None => Err (InboundError "settings")
      | Some settings =>
          users ← compileUsers protocolName clients;
          let inbound : object :=
            <["tag" := JStr ("psp-" +:+ WLKey listener)]> (<["port" := JInt (SpPort spec)]> (<["protocol" := JStr protocolName]>
              {["settings" := JObj (<["clients" := JArr users]> settings)]})) in
          let listen := TrimSpace (SpListen spec) in
          let inbound := if decide (listen = "") then inbound else <["listen" := JStr listen]> inbound in
          inbound ← withOptional (SpStreamSettings spec) "streamSettings" "stream_settings" (applyRealityCompatibility (XAllowRestrictedReality c) release) inbound;
          inbound ← withOptional (SpSniffing spec) "sniffing" "sniffing" Ok inbound;
          inbound ← withOptional (SpAllocate spec) "allocate" "allocate" Ok inbound;
          Ok (Some (inbound, JoinHostPort (if decide (listen = "") then "0.0.0.0" else listen) (FormatInt (SpPort spec))))
      end
  end.

(** Denied by the roster's switch, by the gates or by time.  The source also tests
    that the moment is not the zero time, which no positive expiry reaches. *)
Definition denied (now : Z) (client : WClient) : bool :=
  negb (WCEnabled client) || (bool_decide (0 < WCExpiresAtMS client) && bool_decide (WCExpiresAtMS client ≤ UnixMilli now)).

Definition attachStep (client : WClient) (s : list string * gmap string (list WClient)) (key : string) : res coreError (list string * gmap string (list WClient)) :=
  let '(seen, byListener) := s in
  if decide (key ∈ seen) then Err (compileClientError (WCKey client)) else
  Ok (key :: seen, <[key := default [] (byListener !! key) ++ [client]]> byListener).

Definition clientStep (now : Z) (s : gmap string (list WClient) * gmap string string) (client : WClient)
    : res coreError (gmap string (list WClient) * gmap string string) :=
  let '(byListener, byUsername) := s in
  if decide (ClientRowID (WCKey client) = None) then Err (compileClientError (WCKey client)) else
  if decide (SubjectRowID (WCSubject client) = None) then Err (compileClientError (WCKey client)) else
  let credential := WCCredentials client in
  if decide (Flow credential <> "" /\ Flow credential <> "xtls-rprx-vision") then Err (compileClientError (WCKey client)) else
  let username := TrimSpace (Username credential) in
  if decide (username = "") then Err (compileClientError (WCKey client)) else
  if decide (is_Some (byUsername !! username)) then Err (compileClientError (WCKey client)) else
  let byUsername := <[username := WCKey client]> byUsername in
  if denied now client then Ok (byListener, byUsername) else
  '(_, byListener) ← res_foldl (attachStep client) ([], byListener) (WCListeners client);
  Ok (byListener, byUsername).

(** The listeners seen, the binds taken and the inbounds, for the [compile] of a
    core. *)
Definition admitListener (compile : WListener -> list WClient -> res inboundError (option (object * string))) (byListener : gmap string (list WClient))
    (s : list string * gmap string string * list object) (listener : WListener) : res coreError (list string * gmap string string * list object) :=
  let '(seen, binds, inbounds) := s in
  if decide (ListenerRowID (WLKey listener) = None) then Err (compileListenerError (WLKey listener)) else
  if decide (WLKey listener ∈ seen) then Err (compileListenerError (WLKey listener)) else
  let seen := WLKey listener :: seen in
  match compile listener (default [] (byListener !! WLKey listener)) with
  | Err (InboundClient e) => Err (MkCoreError (Some e) "core compile")
  | Err (InboundRejected code) => Err (MkCoreError (Some (MkObjectError StreamConfig (WLKey listener) code)) "core compile")
  | Err (InboundError _) => Err (compileListenerError (WLKey listener))
  | Ok None => Ok (seen, binds, inbounds)
  | Ok (Some (inbound, bind)) =>
      if decide (is_Some (binds !! bind)) then Err (compileListenerError (WLKey listener)) else
      Ok (seen, <[bind := WLKey listener]> binds, inbounds ++ [inbound])
  end.

Definition listenerStep (c : XrayCompiler) (release : Release) := admitListener (compileInbound c release).

Definition client_le (a b : WClient) : Prop := String.le (WCKey a) (WCKey b).
Definition listener_le (a b : WListener) : Prop := String.le (WLKey a) (WLKey b).
#[global] Instance client_le_dec a b : Decision (client_le a b).
Proof. unfold client_le. apply _. Defined.
#[global] Instance listener_le_dec a b : Decision (listener_le a b).
Proof. unfold listener_le. apply _. Defined.

Definition bare (apiListen logLevel access errorLog : string) (inbounds : list object) : xrayConfig :=
  let log : object := {["loglevel" := JStr logLevel]} in
  let log := if decide (access = "") then log else <["access" := JStr access]> log in
  MkXrayConfig
    (if decide (errorLog = "") then log else <["error" := JStr errorLog]> log)
    (<["tag" := JStr "psp-api"]> (<["listen" := JStr apiListen]> {["services" := JArr [JStr "StatsService"]]}))
    ∅
    (<["levels" := JObj {["0" := JObj (<["statsUserUplink" := JBool true]> (<["statsUserDownlink" := JBool true]> {["statsUserOnline" := JBool true]}))]}]>
       {["system" := JObj (<["statsInboundUplink" := JBool true]> {["statsInboundDownlink" := JBool true]})]})
    inbounds
    [<["tag" := JStr "direct"]> (<["protocol" := JStr "freedom"]> {["settings" := JObj ∅]});
     <["tag" := JStr "blocked"]> (<["protocol" := JStr "blackhole"]> {["settings" := JObj ∅]})].

(** The configuration.  Go visits the attachments without a listener in any
    order; one is enough to refuse. *)
Definition compileConfig (c : XrayCompiler) (snapshot : Snapshot) : res coreError xrayConfig :=
  match resolveCoreRelease c with
  | Err _ => Err (plain "resolve Xray core release")
  | Ok release =>
      let apiListen := if decide (TrimSpace (XAPIListen c) = "") then defaultAPIListen else TrimSpace (XAPIListen c) in
      if negb (validateLoopbackEndpoint apiListen) then Err (plain "xray api listen") else
      let logLevel := if decide (TrimSpace (XLogLevel c) = "") then "warning" else TrimSpace (XLogLevel c) in
      if negb (validLogLevel logLevel) then Err (plain "xray log level is invalid") else
      '(byListener, _) ← res_foldl (clientStep (SnNow snapshot)) (∅, ∅) (merge_sort client_le (SnClients snapshot));
      '(seen, _, inbounds) ← res_foldl (listenerStep c release byListener) ([], ∅, []) (merge_sort listener_le (SnListeners snapshot));
      match filter (fun key => key ∉ seen) (map_to_list byListener).*1 with
      | key :: _ => Err (MkCoreError (Some (MkObjectError StreamRoster key "attachment_unknown_listener")) "core compile")
      | [] => Ok (bare apiListen logLevel (XAccessLog c) (XErrorLog c) inbounds)
      end
  end.

Definition newline : string := String (ascii_of_nat 10) "".

Definition XrayCompile (c : XrayCompiler) (snapshot : Snapshot) : res coreError Artifact :=
  config ← compileConfig c snapshot;
  match encodeConfig config with
  | None => Err (plain "encode xray config")
  | Some encoded => let text := encoded +:+ newline in Ok (MkArtifact text (sha256_hex text))
  end.

(** The compiler the runtime builds for a selection. *)
Definition xrayFactory : CoreSelection -> res coreError Compiler :=
  defaultCompilerFactory (fun version allow => XrayCompile (MkXrayCompiler "" "" "" "" version allow)).

(** ** Lemmas *)

(** The clients of a listener: not denied and attached to it. *)
Definition permitted (now : Z) (clients : list WClient) (key : string) : list WClient :=
  filter (fun c => denied now c = false /\ key ∈ WCListeners c) clients.

Lemma attach_Ok client keys : forall seen m seen' m',
  res_foldl (attachStep client) (seen, m) keys = Ok (seen', m') ->
  NoDup keys /\ (forall key, key ∈ keys -> key ∉ seen) /\
  forall key, m' !! key = if decide (key ∈ keys) then Some (default [] (m !! key) ++ [client]) else m !! key.
Proof.
  induction keys as [|k keys IH]; intros seen m seen' m'; cbn [res_foldl].
  { intros [= <- <-]. split_and!; [constructor|set_solver|]. intros key. by rewrite decide_False by set_solver. }
  intros ([s1 m1] & Ha & Hr)%bind_Ok. unfold attachStep in Ha. case_decide as Hk; [done|]. injection Ha as <- <-. apply IH in Hr as (Hn & Hs & Hm). split_and!.
  - constructor; [|done]. intros Hin. specialize (Hs k Hin). set_solver.
  - intros key [->|Hin]%elem_of_cons; [done|]. specialize (Hs key Hin). set_solver.
  - intros key. rewrite Hm. destruct (decide (key = k)) as [->|Hne].
    + rewrite decide_False by (intros Hin; specialize (Hs k Hin); set_solver). rewrite decide_True by set_solver. by rewrite lookup_insert_eq.
    + rewrite lookup_insert_ne by done. destruct (decide (key ∈ keys)); [by rewrite decide_True by set_solver|]. by rewrite decide_False by set_solver.
Qed.

Lemma clients_Ok now cs : forall m u m' u',
  res_foldl (clientStep now) (m, u) cs = Ok (m', u') ->
  forall key, m' !! key = match permitted now cs key with [] => m !! key | l => Some (default [] (m !! key) ++ l) end.
Proof.
  induction cs as [|c cs IH]; intros m u m' u'; simpl; [by intros [= <- <-]|]. intros ([m1 u1] & Hc & Hr)%bind_Ok key. rewrite (IH _ _ _ _ Hr key). clear IH Hr.
  unfold clientStep in Hc. do 5 (case_decide; [done|]). unfold permitted at 2. rewrite filter_cons. fold (permitted now cs key). destruct (denied now c).
  - injection Hc as <- <-. by rewrite decide_False by naive_solver.
  - apply bind_Ok in Hc as ([seen m2] & Ha & [= <- <-]). apply attach_Ok in Ha as (_ & _ & Hm). rewrite Hm. destruct (decide (key ∈ WCListeners c)) as [Hin|Hin].
    + rewrite (decide_True (P := false = false /\ key ∈ WCListeners c)) by done. simpl. destruct (permitted now cs key); [done|]. by rewrite <-app_assoc.
    + rewrite (decide_False (P := false = false /\ key ∈ WCListeners c)) by naive_solver. done.
Qed.

(** The secret of an entry is the client's own: its identifier, under the engine's
    name for it, or its password; never both, and never an empty one. *)
Definition carries_secret (idField : string) (credential : Credentials) (o : object) : Prop :=
  (o !! idField = Some (JStr (UUID credential)) /\ TrimSpace (UUID credential) <> "" /\ o !! "password" = None) \/
  (o !! "password" = Some (JStr (Password credential)) /\ Password credential <> "" /\ o !! idField = None).

(** A user entry carries its client's statistics name and secret. *)
Definition credential_of (client : WClient) (user : json) : Prop :=
  exists o, user = JObj o /\ o !! "email" = Some (JStr (Username (WCCredentials client))) /\ carries_secret "id" (WCCredentials client) o.

Lemma compileUser_credential name client user :
  supportedProtocol name = true -> compileUser name client = Some user -> credential_of client (JObj user).
Proof.
  intros Hp%bool_decide_eq_true Hc. exists user. split; [done|]. unfold carries_secret. revert Hc. unfold compileUser.
  repeat case_decide; intros [= <-]; try (exfalso; tauto); split; try by simplify_map_eq.
  all: first [left; split_and!; by simplify_map_eq|right; split_and!; by simplify_map_eq].
Qed.

Lemma compileUsers_Ok name clients :
  supportedProtocol name = true -> forall users, compileUsers name clients = Ok users -> Forall2 credential_of clients users.
Proof.
  intros Hp. induction clients as [|c clients IH]; intros users; simpl; [intros [= <-]; constructor|]. destruct (compileUser name c) as [user|] eqn:Hu; [|done].
  intros (us & Hr & [= <-])%bind_Ok. constructor; [|by apply IH]. by eapply compileUser_credential.
Qed.

(** The inbound of a listener lists exactly these clients. *)
Definition inbound_of (key : string) (clients : list WClient) (inbound : object) : Prop :=
  inbound !! "tag" = Some (JStr ("psp-" +:+ key)) /\
  exists settings users, inbound !! "settings" = Some (JObj settings) /\ settings !! "clients" = Some (JArr users) /\ Forall2 credential_of clients users.

Lemma inbound_of_insert key clients inbound name v : name <> "tag" -> name <> "settings" -> inbound_of key clients inbound -> inbound_of key clients (<[name := v]> inbound).
Proof. intros Ht Hs [Htag (st & us & Hst & Hus)]. split; [by rewrite lookup_insert_ne|]. exists st, us. by rewrite lookup_insert_ne. Qed.

Lemma withOptional_inbound raw name text adjust key clients inbound inbound' :
  name <> "tag" -> name <> "settings" -> inbound_of key clients inbound -> withOptional raw name text adjust inbound = Ok inbound' -> inbound_of key clients inbound'.
Proof.
  intros Ht Hs Hi. unfold withOptional. destruct (optionalJSONObject raw) as [[m|]|]; [|by intros [= <-]|done].
  intros (m' & _ & [= <-])%bind_Ok. by apply inbound_of_insert.
Qed.

Lemma compileInbound_Ok c release listener clients inbound bind :
  compileInbound c release listener clients = Ok (Some (inbound, bind)) ->
  inbound_of (WLKey listener) clients inbound /\ exists spec, decodeSpec (WLConfig listener) = Some spec /\ SpEnabled spec = true /\ 1 ≤ SpPort spec ≤ 65535.
Proof.
  unfold compileInbound. destruct (decodeSpec _) as [spec|]; [|done]. destruct (SpEnabled spec) eqn:Hen; [|done]. simpl. case_decide as Hport; [done|].
  destruct (supportedProtocol _) eqn:Hproto; [|done]. simpl. destruct (jsonObject (SpSettings spec)) as [settings|]; [|done].
  intros (users & Hu & Hr)%bind_Ok. apply bind_Ok in Hr as (i1 & H1 & Hr). apply bind_Ok in Hr as (i2 & H2 & Hr). apply bind_Ok in Hr as (i3 & H3 & [= <- _]).
  split; [|exists spec; split_and!; [done..|lia|lia]].
  eapply withOptional_inbound; [| | |exact H3]; [done..|]. eapply withOptional_inbound; [| | |exact H2]; [done..|]. eapply withOptional_inbound; [| | |exact H1]; [done..|].
  assert (forall proto, inbound_of (WLKey listener) clients (<["tag" := JStr ("psp-" +:+ WLKey listener)]> (<["port" := JInt (SpPort spec)]> (<["protocol" := JStr proto]>
              {["settings" := JObj (<["clients" := JArr users]> settings)]})))) as Hbase.
  { intros proto. split; [by rewrite lookup_insert_eq|]. eexists _, users. split_and!; [|by rewrite lookup_insert_eq|by eapply compileUsers_Ok].
    rewrite !lookup_insert_ne by done. by rewrite lookup_singleton_eq. }
  case_decide; [done|by apply inbound_of_insert].
Qed.

Lemma compileInbound_None c release listener clients :
  compileInbound c release listener clients = Ok None -> exists spec, decodeSpec (WLConfig listener) = Some spec /\ SpEnabled spec = false.
Proof.
  unfold compileInbound. destruct (decodeSpec _) as [spec|]; [|done]. destruct (SpEnabled spec) eqn:Hen; [|by exists spec]. simpl. case_decide as Hport; [done|].
  destruct (negb (supportedProtocol _)); [done|]. destruct (jsonObject (SpSettings spec)) as [settings|]; [|done].
  intros (users & Hu & Hr)%bind_Ok. apply bind_Ok in Hr as (i1 & H1 & Hr). apply bind_Ok in Hr as (i2 & H2 & Hr). by apply bind_Ok in Hr as (i3 & H3 & [=]).
Qed.

(** The loop over the listeners: every enabled one has its inbound, in order. *)
Lemma listeners_Ok compile m ls : forall seen binds ins seen' binds' ins',
  res_foldl (admitListener compile m) (seen, binds, ins) ls = Ok (seen', binds', ins') ->
  NoDup (WLKey <$> ls) /\ (forall l, l ∈ ls -> WLKey l ∉ seen) /\ (forall key, key ∈ seen' <-> key ∈ seen \/ key ∈ WLKey <$> ls) /\
  exists new, ins' = ins ++ new /\
    (forall i, i ∈ new -> exists l bind, l ∈ ls /\ compile l (default [] (m !! WLKey l)) = Ok (Some (i, bind))) /\
    (forall l, l ∈ ls -> compile l (default [] (m !! WLKey l)) = Ok None \/
       exists i bind, i ∈ new /\ compile l (default [] (m !! WLKey l)) = Ok (Some (i, bind))).
Proof.
  induction ls as [|l ls IH]; intros seen binds ins seen' binds' ins'; cbn [res_foldl].
  { intros [= <- <- <-]. split_and!; [constructor|set_solver|set_solver|]. exists []. rewrite app_nil_r. set_solver. }
  intros (([seen1 binds1] & ins1) & Hs & Hr)%bind_Ok. unfold admitListener in Hs. case_decide; [done|]. case_decide as Hk; [done|].
  apply IH in Hr as (Hn & Hnew & Hseen & new & -> & Hi & Hl). clear IH.
  assert (seen1 = WLKey l :: seen /\ exists first, ins1 = ins ++ first /\
    ((first = [] /\ compile l (default [] (m !! WLKey l)) = Ok None) \/
     exists i bind, first = [i] /\ compile l (default [] (m !! WLKey l)) = Ok (Some (i, bind)))) as [-> (first & -> & Hfirst)].
  { destruct (compile l _) as [[[i bind]|]|[]] eqn:Hc; try done.
    - case_decide; [done|]. injection Hs as <- <- <-. split; [done|]. exists [i]. split; [done|]. right. by exists i, bind.
    - injection Hs as <- <- <-. split; [done|]. exists []. rewrite app_nil_r. split; [done|by left]. }
  split_and!.
  - rewrite fmap_cons. constructor; [|done]. intros (l' & He & Hl')%list_elem_of_fmap. specialize (Hnew l' Hl'). rewrite <-He in Hnew. set_solver.
  - intros x [->|Hx]%elem_of_cons; [done|]. specialize (Hnew x Hx). set_solver.
  - intros key. rewrite Hseen, fmap_cons. set_solver.
  - exists (first ++ new). rewrite app_assoc. split_and!; [done| |].
    + intros i [Hin|Hin]%elem_of_app; [|destruct (Hi i Hin) as (l' & bind & ? & ?); exists l', bind; split; [set_solver|done]].
      destruct Hfirst as [[-> _]|(i' & bind & -> & Hc)]; [set_solver|]. apply list_elem_of_singleton in Hin as ->. exists l, bind. split; [set_solver|done].
    + intros x [->|Hx]%elem_of_cons.
      * destruct Hfirst as [[_ Hc]|(i' & bind & -> & Hc)]; [by left|right]. exists i', bind. split; [set_solver|done].
      * destruct (Hl x Hx) as [?|(i & bind & ? & ?)]; [by left|right]. exists i, bind. split; [set_solver|done].
Qed.

(** ** Properties *)

(** What the two loops of a compiler guarantee, for the inbounds of its [compile]. *)
Lemma compiled_loops compile (Inb : string -> list WClient -> object -> Prop) snapshot m u seen binds ins :
  (forall l cs i bind, compile l cs = Ok (Some (i, bind)) -> Inb (WLKey l) cs i) ->
  (forall l cs, compile l cs = Ok None -> exists spec, decodeSpec (WLConfig l) = Some spec /\ SpEnabled spec = false) ->
  res_foldl (clientStep (SnNow snapshot)) (∅, ∅) (merge_sort client_le (SnClients snapshot)) = Ok (m, u) ->
  res_foldl (admitListener compile m) ([], ∅, []) (merge_sort listener_le (SnListeners snapshot)) = Ok (seen, binds, ins) ->
  filter (fun key => key ∉ seen) (map_to_list m).*1 = [] ->
  let clients := merge_sort client_le (SnClients snapshot) in
  NoDup (WLKey <$> SnListeners snapshot) /\
  (forall i, i ∈ ins -> exists l, l ∈ SnListeners snapshot /\ Inb (WLKey l) (permitted (SnNow snapshot) clients (WLKey l)) i) /\
  (forall l spec, l ∈ SnListeners snapshot -> decodeSpec (WLConfig l) = Some spec -> SpEnabled spec = true ->
     exists i, i ∈ ins /\ Inb (WLKey l) (permitted (SnNow snapshot) clients (WLKey l)) i) /\
  (forall client key, client ∈ SnClients snapshot -> denied (SnNow snapshot) client = false -> key ∈ WCListeners client -> key ∈ WLKey <$> SnListeners snapshot).
Proof.
  intros HSome HNone Hc Hl Hf. cbn zeta.
  pose proof (clients_Ok _ _ _ _ _ _ Hc) as Hm. apply listeners_Ok in Hl as (Hn & _ & Hseen & new & -> & Hi & Hls).
  assert (forall l, l ∈ merge_sort listener_le (SnListeners snapshot) <-> l ∈ SnListeners snapshot) as Hels by (intros l; by rewrite merge_sort_Permutation).
  assert (forall key, default [] (m !! key) = permitted (SnNow snapshot) (merge_sort client_le (SnClients snapshot)) key) as Hper.
  { intros key. rewrite Hm, lookup_empty. by destruct (permitted _ _ key). }
  cbn [app] in *. split_and!.
  - by rewrite merge_sort_Permutation in Hn.
  - intros i Hin. destruct (Hi i Hin) as (l & bind & Hl & Hcomp). exists l. split; [by apply Hels|]. rewrite <-Hper. by eapply HSome.
  - intros l spec Hin Hd He. destruct (Hls l) as [Hno|(i & bind & Hnew & Hcomp)]; [by apply Hels| |].
    + apply HNone in Hno as (spec' & Hd' & He'). congruence.
    + exists i. split; [done|]. rewrite <-Hper. by eapply HSome.
  - intros client key Hin Hd Hk. destruct (decide (key ∈ WLKey <$> SnListeners snapshot)) as [|Hno]; [done|exfalso].
    assert (client ∈ permitted (SnNow snapshot) (merge_sort client_le (SnClients snapshot)) key) as Hp.
    { apply list_elem_of_filter. split; [done|]. by rewrite merge_sort_Permutation. }
    assert (is_Some (m !! key)) as [v Hv] by (rewrite Hm, lookup_empty; destruct (permitted _ _ key); [by apply not_elem_of_nil in Hp|eauto]).
    assert (key ∈ filter (fun k => k ∉ seen) (map_to_list m).*1) as Hx.
    { apply list_elem_of_filter. split; [|apply list_elem_of_fmap; exists (key, v); split; [done|by apply elem_of_map_to_list]].
      rewrite Hseen. intros [Hx|Hx]; [set_solver|]. rewrite merge_sort_Permutation in Hx. done. }
    rewrite Hf in Hx. by apply not_elem_of_nil in Hx.
Qed.

Lemma compileConfig_Ok c snapshot config :
  compileConfig c snapshot = Ok config ->
  let clients := merge_sort client_le (SnClients snapshot) in
  NoDup (WLKey <$> SnListeners snapshot) /\
  (forall i, i ∈ XcInbounds config -> exists l, l ∈ SnListeners snapshot /\ inbound_of (WLKey l) (permitted (SnNow snapshot) clients (WLKey l)) i) /\
  (forall l spec, l ∈ SnListeners snapshot -> decodeSpec (WLConfig l) = Some spec -> SpEnabled spec = true ->
     exists i, i ∈ XcInbounds config /\ inbound_of (WLKey l) (permitted (SnNow snapshot) clients (WLKey l)) i) /\
  (forall client key, client ∈ SnClients snapshot -> denied (SnNow snapshot) client = false -> key ∈ WCListeners client -> key ∈ WLKey <$> SnListeners snapshot).
Proof.
  unfold compileConfig. destruct (resolveCoreRelease c) as [release|]; [|done]. destruct (negb (validateLoopbackEndpoint _)); [done|]. destruct (negb (validLogLevel _)); [done|].
  intros ([m u] & Hc & Hr)%bind_Ok. apply bind_Ok in Hr as (([seen binds] & ins) & Hl & Hr). destruct (filter _ _) as [|k rest] eqn:Hf; [|done]. injection Hr as <-.
  eapply compiled_loops; [| |exact Hc|exact Hl|exact Hf].
  - intros l cs i bind Hcomp. by apply compileInbound_Ok in Hcomp as [? _].
  - intros l cs. apply compileInbound_None.
Qed.

(** The statistics names of a snapshot that compiles are distinct, and the keys of
    its listeners are well formed. *)
Lemma clientStep_names now cs : forall m u m' u',
  res_foldl (clientStep now) (m, u) cs = Ok (m', u') ->
  NoDup ((fun c => TrimSpace (Username (WCCredentials c))) <$> cs) /\
  (forall c, c ∈ cs -> TrimSpace (Username (WCCredentials c)) <> "" /\ u !! TrimSpace (Username (WCCredentials c)) = None).
Proof.
  induction cs as [|c cs IH]; intros m u m' u'; cbn [res_foldl]; [split; [constructor|set_solver]|]. intros ([m1 u1] & Hc & Hr)%bind_Ok.
  apply IH in Hr as [Hn Hu]. unfold clientStep in Hc. do 3 (case_decide; [done|]). case_decide as He; [done|]. case_decide as Hs; [done|].
  assert (u1 = <[TrimSpace (Username (WCCredentials c)) := WCKey c]> u) as ->.
  { destruct (denied now c); [by injection Hc as <- <-|]. by apply bind_Ok in Hc as ([? ?] & _ & [= <- <-]). }
  apply eq_None_not_Some in Hs. rewrite fmap_cons. split.
  - constructor; [|done]. intros (c' & Hk & Hin)%list_elem_of_fmap. destruct (Hu c' Hin) as [_ Hf]. by rewrite <-Hk, lookup_insert_eq in Hf.
  - intros c' [->|Hin]%elem_of_cons; [done|]. destruct (Hu c' Hin) as [Hne Hf]. split; [done|]. by apply lookup_insert_None in Hf as [? _].
Qed.

Lemma admitListener_ids compile m ls : forall s s', res_foldl (admitListener compile m) s ls = Ok s' -> forall l, l ∈ ls -> ListenerRowID (WLKey l) <> None.
Proof.
  induction ls as [|l ls IH]; intros s s'; cbn [res_foldl]; [set_solver|]. intros (s1 & Hs & Hr)%bind_Ok l' [->|Hin]%elem_of_cons; [|by eapply IH].
  destruct s as [[seen binds] ins]. unfold admitListener in Hs. by case_decide.
Qed.

Lemma compileConfig_names c snapshot config : compileConfig c snapshot = Ok config ->
  NoDup (Username ∘ WCCredentials <$> SnClients snapshot) /\ (forall client, client ∈ SnClients snapshot -> Username (WCCredentials client) <> "") /\
  forall l, l ∈ SnListeners snapshot -> ListenerRowID (WLKey l) <> None.
Proof.
  unfold compileConfig. destruct (resolveCoreRelease c) as [release|]; [|done]. destruct (negb (validateLoopbackEndpoint _)); [done|]. destruct (negb (validLogLevel _)); [done|].
  intros ([m u] & Hc & Hr)%bind_Ok. apply bind_Ok in Hr as (s' & Hl & _). apply clientStep_names in Hc as [Hn Hu].
  rewrite merge_sort_Permutation in Hn. split_and!.
  - apply (NoDup_fmap_1 TrimSpace). by rewrite <-list_fmap_compose.
  - intros client Hin He. destruct (Hu client) as [Hne _]; [by rewrite merge_sort_Permutation|]. by rewrite He in Hne.
  - intros l Hin. eapply admitListener_ids; [exact Hl|]. by rewrite merge_sort_Permutation.
Qed.

(** The configuration holds the credentials it should.  When a snapshot compiles,
    every inbound is that of one listener of the snapshot and lists, in key order,
    exactly the clients attached to it that are enabled and not expired; and every
    enabled listener has such an inbound. *)
Theorem compiled_credentials_exact c snapshot config :
  compileConfig c snapshot = Ok config ->
  (forall i, i ∈ XcInbounds config -> exists l, l ∈ SnListeners snapshot /\
     inbound_of (WLKey l) (permitted (SnNow snapshot) (merge_sort client_le (SnClients snapshot)) (WLKey l)) i) /\
  (forall l spec, l ∈ SnListeners snapshot -> decodeSpec (WLConfig l) = Some spec -> SpEnabled spec = true -> exists i, i ∈ XcInbounds config /\
     inbound_of (WLKey l) (permitted (SnNow snapshot) (merge_sort client_le (SnClients snapshot)) (WLKey l)) i).
Proof. intros (_ & Hi & Hl & _)%compileConfig_Ok. done. Qed.

End compiler.

Module compiler_example.
Import sample.
Import rounds_example.
Import core_example.

(** Every listener text is an enabled VLESS listener; the encoding counts the
    inbounds. *)
#[export] Instance sample_xray : XrayJSON := {|
  decodeSpec text := Some (MkListenerSpec true "" 443 "vless" "" "" "" "");
  decodeObject text := Some (Some ∅);
  encodeConfig config := Some (FormatInt (Z.of_nat (length (XcInbounds config))))
|}.

Definition attached (key subject name : string) (enabled : bool) (expiry : Z) : WClient :=
  MkWClient key subject enabled expiry (MkCredentials name "5783a3e7" "" "" "") ["lst_1"].
Definition snapshot : Snapshot :=
  MkSnapshot [listener] [attached "cli_2" "usr_2" "bob" true 5; attached "cli_1" "usr_1" "alice" true 0; attached "cli_3" "usr_3" "carol" false 0] 9000000.
Definition xray : XrayCompiler := MkXrayCompiler "" "" "" "" "1.8.0" false.

(** Bob has expired and Carol is disabled: only Alice is let in. *)
Lemma compiled_credentials_exact_witness :
  exists config inbound, compileConfig (fun s => s) catalog xray snapshot = Ok config /\ inbound ∈ XcInbounds config /\
    inbound_of "lst_1" [attached "cli_1" "usr_1" "alice" true 0] inbound.
Proof.
  destruct (compileConfig (fun s => s) catalog xray snapshot) as [config|e] eqn:Hc; [|exfalso; vm_compute in Hc; discriminate Hc].
  destruct (compiled_credentials_exact (fun s => s) catalog xray snapshot config Hc) as [_ Hl].
  destruct (Hl listener (MkListenerSpec true "" 443 "vless" "" "" "" "")) as (inbound & Hi & Hof); [left|reflexivity|reflexivity|].
  exists config, inbound. split_and!; [reflexivity|exact Hi|]. vm_compute (permitted _ _ _) in Hof. exact Hof.
Defined.

End compiler_example.
