(* ===== verification/SingboxCompiler.v ===== *)
(** * The sing-box compiler ([internal/core/singbox/compiler.go])

    One snapshot becomes one sing-box configuration.  The listener texts are those of
    Xray, and what sing-box cannot express is refused.  Objects and decoders are those
    of [XrayCompiler]. *)
From S2P Require Import Prelude GoStrings Sha256 Protocol Store NetIP Catalog CatalogReview Documents Receive Rounds CoreRuntime XrayCompiler.

Record singboxConfig := MkSingboxConfig { SbLog : object; SbServices : list object; SbInbounds : list object; SbOutbounds : list object; SbRoute : object }.

Record SingboxCompiler := MkSingboxCompiler { SbAPIListen : string; SbAPISecret : string; SbLogLevel : string }.

(** [json.MarshalIndent] of a configuration, and the [int64] of the [float64] a number
    text denotes. *)
Class SingboxJSON := { encodeSingbox : singboxConfig -> option string; numberInt64 : string -> Z }.

(** ** Values of decoded objects *)

Section values.
Context `{SingboxJSON}.

Definition mapValue (value : option json) : object := match value with Some (JObj m) => m | _ => ∅ end.
Definition isEmpty (m : object) : bool := bool_decide (size m = 0%nat).
Definition stringValue (value : option json) : string := match value with Some (JStr s) => s | _ => "" end.
Definition boolValue (value : option json) : bool := match value with Some (JBool b) => b | _ => false end.
Definition int64Value (value : option json) : Z :=
  match value with Some (JNum text) => numberInt64 text | Some (JInt n) => n | _ => 0 end.

Definition stringSlice (value : option json) : list string :=
  match value with
  | Some (JStr s) => if decide (s = "") then [] else [s]
  | Some (JArr l) => filter (fun text => text <> "") ((fun item => stringValue (Some item)) <$> l)
  | _ => []
  end.

Definition firstString (value : option json) : string := default "" (head (stringSlice value)).

Definition firstNonEmpty (values : list string) : string := default "" (head (filter (fun value => TrimSpace value <> "") values)).

Definition putNonEmpty (key value : string) (target : object) : object := if decide (TrimSpace value = "") then target else <[key := JStr value]> target.

Definition strings (l : list string) : json := JArr (JStr <$> l).
Definition putSlice (key : string) (l : list string) (target : object) : object := match l with [] => target | _ => <[key := strings l]> target end.

(** [strings.Trim(s, "[]")]. *)
Definition bracket (a : ascii) : bool := bool_decide (a = "["%char \/ a = "]"%char).
Fixpoint trimBrackets (s : string) : string := match s with String a rest => if bracket a then trimBrackets rest else s | EmptyString => s end.
Definition TrimBrackets (s : string) : string := String.rev (trimBrackets (String.rev (trimBrackets s))).

Definition splitTarget (target : string) : string * Z :=
  let target := TrimSpace target in
  if decide (target = "") then ("", 0) else
  match SplitHostPort target with
  | Some (host, portText) => (host, (ParseInt portText).1)
  | None =>
      match lastIndex colon 0 target with
      | Some (S index) =>
          match ParseInt (drop_str (S (S index)) target) with
          | (port, None) => (TrimBrackets (take_str (S index) target), port)
          | _ => (TrimBrackets target, 443)
          end
      | _ => (TrimBrackets target, 443)
      end
  end.

(** ** Parts of an inbound *)

Context `{XrayJSON} (unicodeToLower : string -> string).

Definition lowered (s : string) : string := ToLower unicodeToLower (TrimSpace s).

(** A blank text and a null are an empty object. *)
Definition jsonObject (raw : string) : option object :=
  if decide (TrimSpace raw = "" \/ TrimSpace raw = "null") then Some ∅ else
  match decodeObject raw with Some (Some m) => Some m | Some None => Some ∅ | None => None end.

Definition emptyJSON (raw : string) : bool := match jsonObject raw with Some m => isEmpty m | None => false end.

Definition enabledSniffing (raw : string) : bool :=
  match jsonObject raw with
  | None => true
  | Some settings =>
      if isEmpty settings then false else
      boolValue (settings !! "enabled") || boolValue (settings !! "metadataOnly") || boolValue (settings !! "routeOnly") ||
      negb (bool_decide (stringSlice (settings !! "destOverride") = []))
  end.

Definition compileUser (protocolName : string) (client : WClient) : option object :=
  let credential := WCCredentials client in
  let name := TrimSpace (Username credential) in
  if decide (name = "") then None else
  let user : object := {["name" := JStr name]} in
  if decide (protocolName = "vless" \/ protocolName = "vmess") then
    if decide (TrimSpace (UUID credential) = "") then None else
    let user := <["uuid" := JStr (UUID credential)]> user in
    Some (if decide (protocolName = "vless" /\ Flow credential <> "") then <["flow" := JStr (Flow credential)]> user else user)
  else if decide (protocolName = "trojan" \/ protocolName = "shadowsocks") then
    if decide (Password credential = "") then None else Some (<["password" := JStr (Password credential)]> user)
  else Some user.

Fixpoint compileUsers (protocolName : string) (clients : list WClient) : res inboundError (list json) :=
  match clients with
  | [] => Ok []
  | client :: rest =>
      match compileUser protocolName client with
      | None => Err (InboundClient (MkObjectError StreamRoster (WCKey client) objectRejected))
      | Some user => users ← compileUsers protocolName rest; Ok (JObj user :: users)
      end
  end.

Definition refuse {A} (text : string) : res inboundError A := Err (InboundError text).

(** [None]: no transport. *)
Definition compileTransport (stream : object) : res inboundError (option object) :=
  let network := lowered (stringValue (stream !! "network")) in
  if decide (network = "" \/ network = "tcp" \/ network = "raw") then
    let settings := mapValue (stream !! (if decide (network = "raw") then "rawSettings" else "tcpSettings")) in
    if boolValue (settings !! "acceptProxyProtocol") then refuse "sing-box does not support Xray acceptProxyProtocol" else
    let header := ToLower unicodeToLower (stringValue (mapValue (settings !! "header") !! "type")) in
    if decide (header <> "" /\ header <> "none") then refuse "sing-box does not support Xray TCP header type" else Ok None
  else if decide (network = "ws") then
    let settings := mapValue (stream !! "wsSettings") in
    if boolValue (settings !! "acceptProxyProtocol") then refuse "sing-box does not support Xray acceptProxyProtocol" else
    let out := putNonEmpty "path" (stringValue (settings !! "path")) {["type" := JStr "ws"]} in
    let headers := mapValue (settings !! "headers") in
    let host := stringValue (settings !! "host") in
    Ok (Some (if negb (isEmpty headers) then <["headers" := JObj headers]> out else
              if decide (host <> "") then <["headers" := JObj {["Host" := JStr host]}]> out else out))
  else if decide (network = "grpc") then
    let settings := mapValue (stream !! "grpcSettings") in
    if bool_decide (stringValue (settings !! "authority") <> "") || boolValue (settings !! "multiMode")
    then refuse "sing-box does not support Xray gRPC authority or multiMode" else
    Ok (Some (putNonEmpty "service_name" (stringValue (settings !! "serviceName")) {["type" := JStr "grpc"]}))
  else if decide (network = "httpupgrade") then
    let settings := mapValue (stream !! "httpupgradeSettings") in
    if boolValue (settings !! "acceptProxyProtocol") then refuse "sing-box does not support Xray acceptProxyProtocol" else
    let out := putNonEmpty "path" (stringValue (settings !! "path")) (putNonEmpty "host" (stringValue (settings !! "host")) {["type" := JStr "httpupgrade"]}) in
    let headers := mapValue (settings !! "headers") in
    Ok (Some (if negb (isEmpty headers) then <["headers" := JObj headers]> out else out))
  else if decide (network = "http" \/ network = "h2") then
    let settings := mapValue (stream !! "httpSettings") in
    let out := putNonEmpty "path" (firstString (settings !! "path")) {["type" := JStr "http"]} in
    Ok (Some (putSlice "host" (stringSlice (settings !! "host")) out))
  else refuse "transport is not supported by the sing-box compiler".

(** The certificate of a TLS inbound: files, or texts. *)
Definition withCertificate (certificates : list json) (out : object) : res inboundError object :=
  match certificates with
  | [] => refuse "sing-box TLS inbound requires a certificate and private key"
  | first :: _ =>
      let certificate := mapValue (Some first) in
      let certificatePath := stringValue (certificate !! "certificateFile") in
      let keyPath := stringValue (certificate !! "keyFile") in
      let certificatePEM := stringSlice (certificate !! "certificate") in
      let keyPEM := stringSlice (certificate !! "key") in
      if negb (Bool.eqb (bool_decide (certificatePath = "")) (bool_decide (keyPath = ""))) ||
         negb (Bool.eqb (bool_decide (certificatePEM = [])) (bool_decide (keyPEM = [])))
      then refuse "TLS certificate and key must be supplied together" else
      if decide (certificatePath <> "") then Ok (<["key_path" := JStr keyPath]> (<["certificate_path" := JStr certificatePath]> out)) else
      if decide (certificatePEM <> []) then Ok (<["key" := strings keyPEM]> (<["certificate" := strings certificatePEM]> out)) else
      refuse "sing-box TLS inbound requires a certificate and private key"
  end.

Definition compileReality (settings : object) : res inboundError object :=
  if bool_decide (int64Value (settings !! "xver") <> 0) || bool_decide (stringValue (settings !! "maxClientVer") <> "")
  then refuse "sing-box does not support Xray REALITY xver or client-version gates" else
  let minimum := stringValue (settings !! "minClientVer") in
  if decide (minimum <> "" /\ minimum <> "1.0.0") then refuse "sing-box does not support Xray REALITY minClientVer" else
  let '(host, port) := splitTarget (firstNonEmpty [stringValue (settings !! "target"); stringValue (settings !! "dest")]) in
  let privateKey := stringValue (settings !! "privateKey") in
  match stringSlice (settings !! "serverNames") with
  | [] => refuse "sing-box REALITY requires server name, handshake target, and private key"
  | serverName :: _ =>
      if decide (host = "" \/ port < 1 \/ privateKey = "") then refuse "sing-box REALITY requires server name, handshake target, and private key" else
      let reality : object :=
        <["private_key" := JStr privateKey]> (<["handshake" := JObj (<["server_port" := JInt port]> {["server" := JStr host]})]> {["enabled" := JBool true]}) in
      let reality := putSlice "short_id" (stringSlice (settings !! "shortIds")) reality in
      let difference := int64Value (settings !! "maxTimediff") in
      let reality := if decide (0 < difference) then <["max_time_difference" := JStr (FormatInt difference +:+ "ms")]> reality else reality in
      Ok (<["reality" := JObj reality]> (<["server_name" := JStr serverName]> {["enabled" := JBool true]}))
  end.

Definition compileTLS (protocolName : string) (stream : object) : res inboundError (option object) :=
  let security := lowered (stringValue (stream !! "security")) in
  if decide (protocolName = "shadowsocks" /\ security <> "" /\ security <> "none")
  then refuse "sing-box Shadowsocks does not support Xray TLS or REALITY transport security" else
  if decide (security = "" \/ security = "none") then Ok None else
  if decide (security = "tls") then
    let settings := mapValue (stream !! "tlsSettings") in
    if boolValue (settings !! "rejectUnknownSni") then refuse "sing-box does not support rejectUnknownSni" else
    let out := putNonEmpty "max_version" (stringValue (settings !! "maxVersion")) (putNonEmpty "min_version" (stringValue (settings !! "minVersion"))
                 (putNonEmpty "server_name" (stringValue (settings !! "serverName")) {["enabled" := JBool true]})) in
    let out := putSlice "alpn" (stringSlice (settings !! "alpn")) out in
    Some <$> withCertificate (match settings !! "certificates" with Some (JArr l) => l | _ => [] end) out
  else if decide (security = "reality") then
    if decide (protocolName <> "vless") then refuse "sing-box REALITY is supported only for VLESS" else
    Some <$> compileReality (mapValue (stream !! "realitySettings"))
  else refuse "security is not supported by the sing-box compiler".

Definition putPositive (key : string) (n : Z) (value : json) (target : object) : object := if decide (0 < n) then <[key := value]> target else target.

Definition compileSocket (inbound stream : object) : res inboundError object :=
  let settings := mapValue (stream !! "sockopt") in
  let tproxy := stringValue (settings !! "tproxy") in
  if boolValue (settings !! "acceptProxyProtocol") || bool_decide (0 < int64Value (settings !! "tcpUserTimeout")) ||
     (bool_decide (TrimSpace tproxy <> "") && bool_decide (tproxy <> "off"))
  then refuse "sing-box does not support the requested Xray inbound socket options" else
  let mark := int64Value (settings !! "mark") in
  let interval := int64Value (settings !! "tcpKeepAliveInterval") in
  let idle := int64Value (settings !! "tcpKeepAliveIdle") in
  let inbound := putPositive "routing_mark" mark (JInt mark) inbound in
  let inbound := if boolValue (settings !! "tcpFastOpen") then <["tcp_fast_open" := JBool true]> inbound else inbound in
  let inbound := putPositive "tcp_keep_alive_interval" interval (JStr (FormatInt interval +:+ "s")) inbound in
  Ok (putPositive "tcp_keep_alive" idle (JStr (FormatInt idle +:+ "s")) inbound).

Definition withoutSpaces (s : string) : string := String.string_of_list_ascii (filter (fun a => a <> " "%char) (String.list_ascii_of_string s)).

Definition compileNetwork (value : option json) : res inboundError (list string) :=
  let raw := ToLower unicodeToLower (withoutSpaces (stringValue value)) in
  if decide (raw = "" \/ raw = "tcp,udp" \/ raw = "udp,tcp") then Ok [] else
  if decide (raw = "tcp") then Ok ["tcp"] else
  if decide (raw = "udp") then Ok ["udp"] else refuse "Shadowsocks network must be tcp, udp, or both".

(** The users, and for Shadowsocks the server's own settings. *)
Definition withUsers (protocolName : string) (settings : object) (users : list json) (inbound : object) : res inboundError object :=
  if decide (protocolName = "shadowsocks") then
    let method := stringValue (settings !! "method") in
    let password := stringValue (settings !! "password") in
    if negb (HasPrefix method "2022-blake3-") || bool_decide (password = "")
    then refuse "sing-box multi-user Shadowsocks requires a 2022 method and server password" else
    network ← compileNetwork (settings !! "network");
    Ok (putSlice "network" network (<["users" := JArr users]> (<["password" := JStr password]> (<["method" := JStr method]> inbound))))
  else Ok (<["users" := JArr users]> inbound).

Definition withTransport (protocolName : string) (stream inbound : object) : res inboundError object :=
  if decide (protocolName = "shadowsocks") then
    let network := lowered (stringValue (stream !! "network")) in
    if decide (network <> "" /\ network <> "tcp" /\ network <> "raw") then refuse "sing-box Shadowsocks does not support Xray transport" else Ok inbound
  else
    transport ← compileTransport stream;
    Ok (match transport with Some transport => <["transport" := JObj transport]> inbound | None => inbound end).

(** The inbound and its bind address, or [None] for a disabled listener. *)
Definition compileInbound (listener : WListener) (clients : list WClient) : res inboundError (option (object * string)) :=
  match decodeSpec (WLConfig listener) with
  | None => refuse "decode listener config"
  | Some spec =>
      if negb (SpEnabled spec) then Ok None else
      if decide (SpPort spec < 1 \/ 65535 < SpPort spec) then refuse "port" else
      if negb (emptyJSON (SpAllocate spec)) then refuse "sing-box does not support Xray inbound allocation settings" else
      if enabledSniffing (SpSniffing spec) then refuse "sing-box 1.14 does not support legacy per-inbound sniffing settings" else
      let protocolName := lowered (SpProtocol spec) in
      if negb (supportedProtocol protocolName) then refuse "protocol is not supported by the sing-box compiler" else
      match jsonObject (SpSettings spec) with
      | None => refuse "settings"
      | Some settings =>
          let listen := if decide (TrimSpace (SpListen spec) = "") then "::" else TrimSpace (SpListen spec) in
          let inbound : object :=
            <["listen" := JStr listen]> (<["type" := JStr protocolName]> (<["tag" := JStr ("psp-" +:+ WLKey listener)]> {["listen_port" := JInt (SpPort spec)]})) in
          users ← compileUsers protocolName clients;
          inbound ← withUsers protocolName settings users inbound;
          match jsonObject (SpStreamSettings spec) with
          | None => refuse "stream_settings"
          | Some stream =>
              inbound ← withTransport protocolName stream inbound;
              tls ← compileTLS protocolName stream;
              if decide (protocolName = "trojan" /\ tls = None) then refuse "sing-box Trojan inbound requires TLS" else
              inbound ← compileSocket (match tls with Some tls => <["tls" := JObj tls]> inbound | None => inbound end) stream;
              Ok (Some (inbound, JoinHostPort listen (FormatInt (SpPort spec))))
          end
      end
  end.

(** ** The configuration *)

Context `{Protocol}.

Definition validLogLevel (level : string) : bool := bool_decide (level ∈ ["panic"; "fatal"; "error"; "warn"; "info"; "debug"; "trace"]).

Definition bareSingbox (apiHost : string) (apiPort : Z) (secret logLevel : string) (inbounds : list object) : singboxConfig :=
  MkSingboxConfig {["level" := JStr logLevel]}
    [<["type" := JStr "api"]> (<["tag" := JStr "psp-api"]> (<["listen" := JStr apiHost]> (<["listen_port" := JInt apiPort]> {["secret" := JStr secret]})))]
    inbounds
    [<["type" := JStr "direct"]> {["tag" := JStr "direct"]}; <["type" := JStr "block"]> {["tag" := JStr "blocked"]}]
    {["final" := JStr "direct"]}.

(** The loops over clients and listeners are those of the Xray compiler. *)
Definition compileSingbox (c : SingboxCompiler) (snapshot : Snapshot) : res coreError singboxConfig :=
  let apiListen := TrimSpace (SbAPIListen c) in
  if negb (validateLoopbackEndpoint apiListen) then Err (plain "sing-box API listen") else
  let '(apiHost, apiPortText) := default ("", "") (SplitHostPort apiListen) in
  if bool_decide (TrimSpace (SbAPISecret c) <> SbAPISecret c) || bool_decide (len (SbAPISecret c) < 32)
  then Err (plain "sing-box API secret must be at least 32 canonical characters") else
  let logLevel := if decide (TrimSpace (SbLogLevel c) = "") then "warn" else TrimSpace (SbLogLevel c) in
  if negb (validLogLevel logLevel) then Err (plain "sing-box log level is invalid") else
  '(byListener, _) ← res_foldl (clientStep (SnNow snapshot)) (∅, ∅) (merge_sort client_le (SnClients snapshot));
  '(seen, _, inbounds) ← res_foldl (admitListener compileInbound byListener) ([], ∅, []) (merge_sort listener_le (SnListeners snapshot));
  match filter (fun key => key ∉ seen) (map_to_list byListener).*1 with
  | key :: _ => Err (MkCoreError (Some (MkObjectError StreamRoster key "attachment_unknown_listener")) "core compile")
  | [] => Ok (bareSingbox apiHost (ParseInt apiPortText).1 (SbAPISecret c) logLevel inbounds)
  end.

Definition SingboxCompile (c : SingboxCompiler) (snapshot : Snapshot) : res coreError Artifact :=
  config ← compileSingbox c snapshot;
  match encodeSingbox config with
  | None => Err (plain "encode sing-box config")
  | Some encoded => let text := encoded +:+ newline in Ok (MkArtifact text (sha256_hex text))
  end.

(** ** What is compiled *)

(** A user entry carries its client's statistics name and secret. *)
Definition named_of (client : WClient) (user : json) : Prop :=
  exists o, user = JObj o /\ o !! "name" = Some (JStr (TrimSpace (Username (WCCredentials client)))) /\ carries_secret "uuid" (WCCredentials client) o.

Lemma compileUser_named name client user :
  supportedProtocol name = true -> compileUser name client = Some user -> named_of client (JObj user).
Proof.
  intros Hp%bool_decide_eq_true Hc. exists user. split; [done|]. unfold carries_secret. revert Hc. unfold compileUser.
  repeat case_decide; intros [= <-]; try (exfalso; tauto); split; try by simplify_map_eq.
  all: first [left; split_and!; by simplify_map_eq|right; split_and!; by simplify_map_eq].
Qed.

Lemma compileUsers_named name clients :
  supportedProtocol name = true -> forall users, compileUsers name clients = Ok users -> Forall2 named_of clients users.
Proof.
  intros Hp. induction clients as [|c clients IH]; intros users; simpl; [intros [= <-]; constructor|]. destruct (compileUser name c) as [user|] eqn:Hu; [|done].
  intros (us & Hr & [= <-])%bind_Ok. constructor; [|by apply IH]. by eapply compileUser_named.
Qed.

(** The inbound of a listener lists exactly these clients. *)
Definition singbox_inbound (key : string) (clients : list WClient) (inbound : object) : Prop :=
  inbound !! "tag" = Some (JStr ("psp-" +:+ key)) /\ exists users, inbound !! "users" = Some (JArr users) /\ Forall2 named_of clients users.

Lemma singbox_insert key clients inbound name v : name <> "tag" -> name <> "users" -> singbox_inbound key clients inbound -> singbox_inbound key clients (<[name := v]> inbound).
Proof. intros Ht Hu [Htag (us & Hus & Hall)]. split; [by rewrite lookup_insert_ne|]. exists us. by rewrite lookup_insert_ne. Qed.

Lemma singbox_positive key clients inbound name n v : name <> "tag" -> name <> "users" -> singbox_inbound key clients inbound -> singbox_inbound key clients (putPositive name n v inbound).
Proof. intros Ht Hu Hi. unfold putPositive. case_decide; [by apply singbox_insert|done]. Qed.

Lemma withUsers_inbound key proto settings clients users inbound inbound' :
  inbound !! "tag" = Some (JStr ("psp-" +:+ key)) -> Forall2 named_of clients users -> withUsers proto settings users inbound = Ok inbound' -> singbox_inbound key clients inbound'.
Proof.
  intros Ht Hu. assert (forall base : object, base !! "tag" = Some (JStr ("psp-" +:+ key)) -> singbox_inbound key clients (<["users" := JArr users]> base)) as Hbase.
  { intros base Hb. split; [by rewrite lookup_insert_ne|]. exists users. by rewrite lookup_insert_eq. }
  unfold withUsers. case_decide; [|intros [= <-]; by apply Hbase]. destruct (_ || _); [done|]. intros (network & _ & [= <-])%bind_Ok.
  assert (singbox_inbound key clients (<["users" := JArr users]> (<["password" := JStr (stringValue (settings !! "password"))]> (<["method" := JStr (stringValue (settings !! "method"))]> inbound)))) as Hi
    by (apply Hbase; by rewrite !lookup_insert_ne).
  unfold putSlice. destruct network; [done|by apply singbox_insert].
Qed.

Lemma withTransport_inbound key clients proto stream inbound inbound' :
  singbox_inbound key clients inbound -> withTransport proto stream inbound = Ok inbound' -> singbox_inbound key clients inbound'.
Proof.
  intros Hi. unfold withTransport. case_decide; [case_decide; [done|]; by intros [= <-]|]. intros ([transport|] & _ & [= <-])%bind_Ok; [by apply singbox_insert|done].
Qed.

Lemma compileSocket_inbound key clients stream inbound inbound' :
  singbox_inbound key clients inbound -> compileSocket inbound stream = Ok inbound' -> singbox_inbound key clients inbound'.
Proof.
  intros Hi. unfold compileSocket. destruct (_ || _); [done|]. intros [= <-]. do 2 (apply singbox_positive; [done..|]).
  assert (forall base, singbox_inbound key clients base -> singbox_inbound key clients (if boolValue (mapValue (stream !! "sockopt") !! "tcpFastOpen") then <["tcp_fast_open" := JBool true]> base else base)) as Hfast
    by (intros base Hb; destruct (boolValue _); [by apply singbox_insert|done]).
  apply Hfast. by apply singbox_positive.
Qed.

Lemma singbox_compiled listener clients inbound bind : compileInbound listener clients = Ok (Some (inbound, bind)) -> singbox_inbound (WLKey listener) clients inbound.
Proof.
  unfold compileInbound. destruct (decodeSpec _) as [spec|]; [|done]. destruct (negb (SpEnabled spec)); [done|]. case_decide; [done|]. destruct (negb (emptyJSON _)); [done|].
  destruct (enabledSniffing _); [done|]. destruct (supportedProtocol _) eqn:Hproto; [|done]. simpl. destruct (jsonObject (SpSettings spec)) as [settings|]; [|done].
  intros (users & Hu & Hr)%bind_Ok. apply bind_Ok in Hr as (i1 & Hi1 & Hr). destruct (jsonObject (SpStreamSettings spec)) as [stream|]; [|done].
  apply bind_Ok in Hr as (i2 & Hi2 & Hr). apply bind_Ok in Hr as (tls & _ & Hr). destruct (decide (_ /\ tls = None)); [done|]. apply bind_Ok in Hr as (i3 & Hi3 & [= <- _]).
  eapply compileSocket_inbound; [|exact Hi3]. assert (singbox_inbound (WLKey listener) clients i2) as Hi.
  { eapply withTransport_inbound; [|exact Hi2]. eapply withUsers_inbound; [|by eapply compileUsers_named|exact Hi1]. by rewrite !lookup_insert_ne, lookup_insert_eq by done. }
  destruct tls; [by apply singbox_insert|done].
Qed.

Lemma singbox_disabled listener clients : compileInbound listener clients = Ok None -> exists spec, decodeSpec (WLConfig listener) = Some spec /\ SpEnabled spec = false.
Proof.
  unfold compileInbound. destruct (decodeSpec _) as [spec|]; [|done]. destruct (SpEnabled spec) eqn:Hen; [|by exists spec]. cbn [negb]. case_decide; [done|]. destruct (negb (emptyJSON _)); [done|].
  destruct (enabledSniffing _); [done|]. destruct (negb (supportedProtocol _)); [done|]. destruct (jsonObject (SpSettings spec)) as [settings|]; [|done].
  intros (users & Hu & Hr)%bind_Ok. apply bind_Ok in Hr as (i1 & Hi1 & Hr). destruct (jsonObject (SpStreamSettings spec)) as [stream|]; [|done].
  apply bind_Ok in Hr as (i2 & Hi2 & Hr). apply bind_Ok in Hr as (tls & _ & Hr). destruct (decide (_ /\ tls = None)); [done|]. by apply bind_Ok in Hr as (i3 & Hi3 & [=]).
Qed.

Lemma compileSingbox_Ok c snapshot config :
  compileSingbox c snapshot = Ok config ->
  let clients := merge_sort client_le (SnClients snapshot) in
  NoDup (WLKey <$> SnListeners snapshot) /\
  (forall i, i ∈ SbInbounds config -> exists l, l ∈ SnListeners snapshot /\ singbox_inbound (WLKey l) (permitted (SnNow snapshot) clients (WLKey l)) i) /\
  (forall l spec, l ∈ SnListeners snapshot -> decodeSpec (WLConfig l) = Some spec -> SpEnabled spec = true ->
     exists i, i ∈ SbInbounds config /\ singbox_inbound (WLKey l) (permitted (SnNow snapshot) clients (WLKey l)) i) /\
  (forall client key, client ∈ SnClients snapshot -> denied (SnNow snapshot) client = false -> key ∈ WCListeners client -> key ∈ WLKey <$> SnListeners snapshot).
Proof.
  unfold compileSingbox. destruct (negb (validateLoopbackEndpoint _)); [done|]. destruct (default _ _) as [host port]. destruct (_ || _); [done|]. destruct (negb (validLogLevel _)); [done|].
  intros ([m u] & Hc & Hr)%bind_Ok. apply bind_Ok in Hr as (([seen binds] & ins) & Hl & Hr). destruct (filter _ _) as [|k rest] eqn:Hf; [|done]. injection Hr as <-.
  eapply (compiled_loops unicodeToLower compileInbound singbox_inbound); [apply singbox_compiled|apply singbox_disabled|exact Hc|exact Hl|exact Hf].
Qed.

Lemma clientStep_ids now cs : forall s s', res_foldl (clientStep now) s cs = Ok s' -> forall c, c ∈ cs -> ClientRowID (WCKey c) <> None.
Proof.
  induction cs as [|c cs IH]; intros s s'; cbn [res_foldl]; [set_solver|]. intros (s1 & Hs & Hr)%bind_Ok c' [->|Hin]%elem_of_cons; [|by eapply IH].
  destruct s as [m u]. unfold clientStep in Hs. by case_decide.
Qed.

Lemma compileSingbox_names c snapshot config : compileSingbox c snapshot = Ok config ->
  NoDup ((fun c => TrimSpace (Username (WCCredentials c))) <$> SnClients snapshot) /\
  (forall client, client ∈ SnClients snapshot -> Username (WCCredentials client) <> "" /\ ClientRowID (WCKey client) <> None) /\
  forall l, l ∈ SnListeners snapshot -> ListenerRowID (WLKey l) <> None.
Proof.
  unfold compileSingbox. destruct (negb (validateLoopbackEndpoint _)); [done|]. destruct (default _ _) as [host port]. destruct (_ || _); [done|]. destruct (negb (validLogLevel _)); [done|].
  intros ([m u] & Hc & Hr)%bind_Ok. apply bind_Ok in Hr as (s' & Hl & _). pose proof (clientStep_ids _ _ _ _ Hc) as Hids. apply clientStep_names in Hc as [Hn Hu].
  rewrite merge_sort_Permutation in Hn. split_and!; [done| |].
  - intros client Hin. assert (client ∈ merge_sort client_le (SnClients snapshot)) as Hin' by (by rewrite merge_sort_Permutation). split; [|by apply Hids].
    intros He. destruct (Hu client Hin') as [Hne _]. by rewrite He in Hne.
  - intros l Hin. eapply admitListener_ids; [exact Hl|]. by rewrite merge_sort_Permutation.
Qed.

End values.

Module singbox_example.
Import sample.
Import rounds_example.
Import core_example.
Import compiler_example.

#[export] Instance sample_singbox : SingboxJSON := {| encodeSingbox config := Some (FormatInt (Z.of_nat (length (SbInbounds config)))); numberInt64 text := (ParseInt text).1 |}.

Definition sampleSecret : string := "0123456789abcdef0123456789abcdef".

(** The snapshot of the Xray example: Alice alone is let in by sing-box too. *)
Example singbox_lets_alice_in :
  exists config inbound, compileSingbox (fun s => s) (MkSingboxCompiler "127.0.0.1:10086" sampleSecret "") snapshot = Ok config /\ SbInbounds config = [inbound] /\
    inbound !! "users" = Some (JArr [JObj (<["uuid" := JStr "5783a3e7"]> {["name" := JStr "alice"]})]).
Proof.
  destruct (compileSingbox (fun s => s) (MkSingboxCompiler "127.0.0.1:10086" sampleSecret "") snapshot) as [config|] eqn:Hc; [|vm_compute in Hc; discriminate Hc].
  exists config. vm_compute in Hc. injection Hc as <-. eexists. split; [done|]. split; [done|]. vm_compute. reflexivity.
Qed.

End singbox_example.
