(* ===== verification/NodeCore.v ===== *)
(** * The core runtime with the compilers of the node ([cmd/node/main.go])

    The runtime of [internal/core/runtime] with the compilers the node builds, one
    for each engine: which credentials a deployment holds, and when nothing can be
    deployed. *)
From S2P Require Import Prelude GoStrings Sha256 GoJson Protocol Store Streams Objects Clients Deployment Catalog CatalogReview Documents Receive Issues Processor Rounds CoreRuntime XrayCompiler SingboxCompiler.

(** The addresses of the cores' own interfaces, and the secret of one. *)
Record coreEndpoints := MkCoreEndpoints { XrayAPIListen : string; SingBoxAPIListen : string; singBoxAPISecret : string }.

(** A configuration of either engine. *)
Inductive coreConfig := OfXray (x : xrayConfig) | OfSingbox (c : singboxConfig).

Definition inboundsOf (cc : coreConfig) : list object := match cc with OfXray x => XcInbounds x | OfSingbox c => SbInbounds c end.

(** The users an inbound lists. *)
Definition usersOf (cc : coreConfig) (inbound : object) : option (list json) :=
  match cc with
  | OfXray _ => match inbound !! "settings" with Some (JObj settings) => match settings !! "clients" with Some (JArr users) => Some users | _ => None end | _ => None end
  | OfSingbox _ => match inbound !! "users" with Some (JArr users) => Some users | _ => None end
  end.

(** The user is this client's: its statistics name and its secret. *)
Definition userOf (cc : coreConfig) : WClient -> json -> Prop := match cc with OfXray _ => credential_of | OfSingbox _ => named_of end.

(** An inbound lists a user of the client. *)
Definition lists (cc : coreConfig) (inbound : object) (client : WClient) : Prop :=
  exists users user, usersOf cc inbound = Some users /\ user ∈ users /\ userOf cc client user.

Section node_core.
Context `{ProtocolLaws} `{Conformance, !ConformanceLaws} `{XrayJSON} `{SingboxJSON}.
Context `{BodyCodec ConfigBody, BodyCodec RosterBody, BodyCodec DirectivesBody}.
Context (unicodeToLower : string -> string) (Load : res error (list Release)) (endpoints : coreEndpoints) {W : Type} `{CoreWorld W}.
Implicit Types (s : cstate (W := W)).

Definition encodeCore (cc : coreConfig) : option string := match cc with OfXray x => encodeConfig x | OfSingbox c => encodeSingbox c end.

(** The compiler for a selection. *)
Definition nodeFactory (selection : CoreSelection) : res coreError Compiler :=
  if decide (SelEngine selection = "xray")
  then Ok (XrayCompile unicodeToLower Load (MkXrayCompiler (XrayAPIListen endpoints) "" "" "" (SelVersion selection) (AllowRestrictedReality selection))) else
  if decide (SelEngine selection = "sing-box") then Ok (SingboxCompile unicodeToLower (MkSingboxCompiler (SingBoxAPIListen endpoints) (singBoxAPISecret endpoints) ""))
  else Err (plain "core engine is unsupported").

Notation NodeConverge := (Converge unicodeToLower Load nodeFactory).

(** What either compiler guarantees of what it compiles. *)
Record exactly (snapshot : Snapshot) (cc : coreConfig) : Prop := {
  ex_inbounds : forall inbound, inbound ∈ inboundsOf cc -> exists l users, l ∈ SnListeners snapshot /\ inbound !! "tag" = Some (JStr ("psp-" +:+ WLKey l)) /\
    usersOf cc inbound = Some users /\ Forall2 (userOf cc) (permitted (SnNow snapshot) (merge_sort client_le (SnClients snapshot)) (WLKey l)) users;
  ex_attached : forall client key, client ∈ SnClients snapshot -> denied (SnNow snapshot) client = false -> key ∈ WCListeners client -> key ∈ WLKey <$> SnListeners snapshot;
  ex_apart : forall c c' user, c ∈ SnClients snapshot -> c' ∈ SnClients snapshot -> userOf cc c user -> userOf cc c' user -> c = c'
}.

Lemma nodeFactory_Ok selection compile snapshot artifact :
  nodeFactory selection = Ok compile -> compile snapshot = Ok artifact ->
  exists cc text, exactly snapshot cc /\ encodeCore cc = Some text /\ ArConfig artifact = text +:+ newline.
Proof.
  unfold nodeFactory. case_decide; [|case_decide; [|done]]; intros [= <-].
  - unfold XrayCompile. intros (config & Hc & Ha)%bind_Ok. destruct (encodeConfig config) as [text|] eqn:He; [|done]. injection Ha as <-. exists (OfXray config), text.
    split_and!; [|done..]. destruct (compileConfig_Ok _ _ _ _ _ Hc) as (_ & Hi & _ & Hd). split; [|done|].
    + intros inbound Hin. destruct (Hi inbound Hin) as (l & Hl & Ht & settings & users & Hs & Hu & Hall). exists l, users. split_and!; try done. cbn. by rewrite Hs, Hu.
    + intros c c' user Hin Hin' (o & -> & Ho & _) (o' & [= <-] & Ho' & _). eapply NoDup_fmap_elem; [apply (compileConfig_names _ _ _ _ _ Hc)|done|done|]. simpl. congruence.
  - unfold SingboxCompile. intros (config & Hc & Ha)%bind_Ok. destruct (encodeSingbox config) as [text|] eqn:He; [|done]. injection Ha as <-. exists (OfSingbox config), text.
    split_and!; [|done..]. destruct (compileSingbox_Ok _ _ _ _ Hc) as (_ & Hi & _ & Hd). split; [|done|].
    + intros inbound Hin. destruct (Hi inbound Hin) as (l & Hl & Ht & users & Hu & Hall). exists l, users. split_and!; try done. cbn. by rewrite Hu.
    + intros c c' user Hin Hin' (o & -> & Ho & _) (o' & [= <-] & Ho' & _). eapply NoDup_fmap_elem; [apply (compileSingbox_names _ _ _ _ Hc)|done|done|]. simpl. congruence.
Qed.

(** The listed users are those of the permitted clients. *)
Lemma lists_permitted snapshot cc inbound client : exactly snapshot cc -> inbound ∈ inboundsOf cc -> client ∈ SnClients snapshot ->
  exists l, l ∈ SnListeners snapshot /\ inbound !! "tag" = Some (JStr ("psp-" +:+ WLKey l)) /\
    (lists cc inbound client <-> denied (SnNow snapshot) client = false /\ WLKey l ∈ WCListeners client).
Proof.
  intros Hex Hi Hcl. destruct (ex_inbounds _ _ Hex inbound Hi) as (l & users & Hl & Htag & Hus & Hall). exists l. split_and!; [done..|].
  assert (forall c, c ∈ permitted (SnNow snapshot) (merge_sort client_le (SnClients snapshot)) (WLKey l) <->
    (denied (SnNow snapshot) c = false /\ WLKey l ∈ WCListeners c) /\ c ∈ SnClients snapshot) as Hperm
    by (intros c; unfold permitted; by rewrite list_elem_of_filter, merge_sort_Permutation).
  split.
  - intros (us & user & Hus' & Hu & Hof). rewrite Hus in Hus'. injection Hus' as <-. apply list_elem_of_lookup in Hu as [j Hj].
    destruct (Forall2_lookup_r _ _ _ _ _ Hall Hj) as (c & Hc%list_elem_of_lookup_2%Hperm & Hof'). destruct Hc as [Hc Hin].
    by rewrite (ex_apart _ _ Hex client c user).
  - intros Hp. assert (client ∈ permitted (SnNow snapshot) (merge_sort client_le (SnClients snapshot)) (WLKey l)) as Hin by (by apply Hperm).
    apply list_elem_of_lookup in Hin as [j Hj]. destruct (Forall2_lookup_l _ _ _ _ _ Hall Hj) as (user & Hu & Hof).
    exists users, user. split_and!; [done|by eapply list_elem_of_lookup_2|done].
Qed.

(** C15. Every credential is inside its grant.  When a convergence of the node succeeds,
    with either engine, it changes nothing of the store but the deployment record,
    and the recorded configuration is the encoding of one in which each inbound
    belongs to a listener of the stored config, and each user in it carries the
    statistics name and the secret of a client of the stored roster that is enabled,
    attached to that listener and not expired at the convergence's first reading of
    the clock, and whose ledger row is inside its grant. *)
Theorem deployed_credentials_inside_grant s s' :
  clients_ok (cdb s) -> NodeConverge s = (None, s') ->
  deployment_frame (cdb s) (cdb s') /\
  exists config roster d cc text,
    loadStoredBody (cdb s') StreamConfig = Ok config /\ optionalBody StreamRoster (cdb s') = Ok roster /\
    CoreDeploymentOf (cdb s') = Ok d /\ encodeCore cc = Some text /\ CDArtifact d = text +:+ newline /\
    forall inbound, inbound ∈ inboundsOf cc -> exists l users, l ∈ CfgListeners config /\ inbound !! "tag" = Some (JStr ("psp-" +:+ WLKey l)) /\ usersOf cc inbound = Some users /\
      forall user, user ∈ users -> exists client, userOf cc client user /\ client ∈ from_option RosClients [] roster /\
        WCEnabled client = true /\ WLKey l ∈ WCListeners client /\ (0 < WCExpiresAtMS client -> UnixMilli (Now (cworld s)).1 < WCExpiresAtMS client) /\
        inside_grant (cdb s') client.
Proof.
  intros Hok Hc. split; [by pose proof (Converge_frame unicodeToLower Load nodeFactory s) as Hfr; rewrite Hc in Hfr|].
  destruct (Converge_enforces _ _ _ _ _ Hok Hc) as (config & roster & selection & compile & artifact & d & w & Hcfg & Hros & _ & Hf & Hcomp & Hen & Hd & _ & _ & Hart & _).
  destruct (nodeFactory_Ok _ _ _ _ Hf Hcomp) as (cc & text & Hex & Henc & Htext).
  exists config, roster, d, cc, text. split_and!; try done; [congruence|]. intros inbound Hi.
  destruct (ex_inbounds _ _ Hex inbound Hi) as (l & users & Hl & Htag & Hus & Hall). exists l, users. split_and!; try done.
  intros user Hu. apply list_elem_of_lookup in Hu as [j Hj]. destruct (Forall2_lookup_r _ _ _ _ _ Hall Hj) as (client & Hcl & Hcred).
  apply list_elem_of_lookup_2, list_elem_of_filter in Hcl as [[Hden Hkey] Hcl]. rewrite merge_sort_Permutation in Hcl.
  unfold denied in Hden. apply orb_false_iff in Hden as [Hena Hexp]. apply negb_false_iff in Hena. destruct (gated_enabled _ _ _ _ _ _ Hen Hcl Hena) as [Hros' Hrow].
  exists client. split_and!; try done. intros Hpos. rewrite bool_decide_eq_true_2 in Hexp by done. simpl in Hexp. apply bool_decide_eq_false in Hexp. lia.
Qed.

Lemma gateClient_listeners db client : WCListeners (gateClient db client) = WCListeners client.
Proof. unfold gateClient. destruct (client_runtime db !! _) as [row|]; [by destruct (gateDenies row)|done]. Qed.

Lemma gateClient_expiry db client : WCExpiresAtMS (gateClient db client) = WCExpiresAtMS client.
Proof. unfold gateClient. destruct (client_runtime db !! _) as [row|]; [by destruct (gateDenies row)|done]. Qed.

Lemma gateClient_lists db cc inbound client : lists cc inbound (gateClient db client) <-> lists cc inbound client.
Proof.
  assert (WCCredentials (gateClient db client) = WCCredentials client) as Hc
    by (unfold gateClient; destruct (client_runtime db !! _) as [row|]; [by destruct (gateDenies row)|done]).
  assert (forall user, userOf cc (gateClient db client) user <-> userOf cc client user) as Hu
    by (intros user; destruct cc; unfold userOf, credential_of, named_of; by rewrite Hc).
  unfold lists. by setoid_rewrite Hu.
Qed.


(** [m], run at [s], fails with the store of [s0] and at most one reading of its
    clock. *)
Definition stuck {A} s0 (m : core (W := W) A) s : Prop :=
  exists e s', m s = (Err e, s') /\ cdb s' = cdb s0 /\ (cworld s' = cworld s0 \/ cworld s' = (Now (cworld s0)).2).

Lemma stuck_check {A B} s0 (m : res coreError A) (f : A -> core (W := W) B) s :
  cdb s = cdb s0 -> cworld s = cworld s0 \/ cworld s = (Now (cworld s0)).2 -> (forall a, m = Ok a -> stuck s0 (f a) s) -> stuck s0 (check m ≫= f) s.
Proof. intros Hd Hw Hf. unfold check, mbind, core_bind, stuck. destruct m as [a|e]; [by apply Hf|]. by exists e, s. Qed.

Lemma stuck_read {A B} s0 (read : DB -> res coreError A) (f : A -> core (W := W) B) s :
  cdb s = cdb s0 -> cworld s = cworld s0 \/ cworld s = (Now (cworld s0)).2 -> (forall a, read (cdb s) = Ok a -> stuck s0 (f a) s) -> stuck s0 (readDB read ≫= f) s.
Proof. apply stuck_check. Qed.

Lemma stuck_clock {B} (f : Z -> core (W := W) B) s :
  (forall s1, cdb s1 = cdb s -> cworld s1 = (Now (cworld s)).2 -> stuck s (f (Now (cworld s)).1) s1) -> stuck s (clock ≫= f) s.
Proof.
  intros Hf. specialize (Hf (MkCState (Now (cworld s)).2 (cdb s) (scheduleWake s)) eq_refl eq_refl).
  unfold stuck, clock, mbind, core_bind in *. by destruct (Now (cworld s)).
Qed.

(** C22. One dangling attachment stops every deployment.  While the stored roster
    attaches one client that is enabled, not expired by the clock and not denied by
    its quota gate to a listener the stored config does not have, every convergence
    fails and leaves the store, the deployment on record and the running core as
    they were: no other change, a closed quota gate included, reaches the core. *)
Theorem dangling_attachment_blocks_core s config body client key :
  loadStoredBody (cdb s) StreamConfig = Ok config -> optionalBody StreamRoster (cdb s) = Ok (Some body) ->
  client ∈ RosClients body -> WCEnabled client = true -> (0 < WCExpiresAtMS client -> UnixMilli (Now (cworld s)).1 < WCExpiresAtMS client) ->
  key ∈ WCListeners client -> key ∉ WLKey <$> CfgListeners config ->
  (forall row, client_runtime (cdb s) !! WCKey client = Some row -> gateDenies row = false) ->
  exists e s', Converge unicodeToLower Load nodeFactory s = (Some e, s') /\ cdb s' = cdb s /\ (cworld s' = cworld s \/ cworld s' = (Now (cworld s)).2).
Proof.
  intros Hcfg Hros Hin Hen Hexp Hkey Hdang Hgate. enough (stuck s (converge unicodeToLower Load nodeFactory) s) as (e & s' & Hc & Hd & Hw).
  { exists e, s'. unfold Converge. by rewrite Hc. }
  unfold converge. apply stuck_read; [done|by left|]. intros config' Hc. rewrite Hcfg in Hc. injection Hc as <-.
  apply stuck_read; [done|by left|]. intros roster Hr. rewrite Hros in Hr. injection Hr as <-.
  apply stuck_check; [done|by left|]. intros selection _. apply stuck_check; [done|by left|]. intros compile Hf.
  apply stuck_clock. intros s1 Hd Hw. apply stuck_read; [done|by right|]. intros snapshot [= <-].
  apply stuck_check; [done|by right|]. intros artifact Ha. exfalso.
  destruct (nodeFactory_Ok _ _ _ _ Hf Ha) as (cc & text & Hex & _).
  apply Hdang, (ex_attached _ _ Hex client); [..|done].
  - apply list_elem_of_fmap. exists client. split; [|done]. unfold gateClient. rewrite Hd.
    destruct (client_runtime (cdb s) !! WCKey client) as [row|] eqn:Hrow; [by rewrite (Hgate row)|done].
  - unfold denied. rewrite Hen. simpl. destruct (decide (0 < WCExpiresAtMS client)) as [Hpos|Hpos].
    + rewrite (bool_decide_eq_false_2 (_ ≤ _)) by (specialize (Hexp Hpos); lia). apply andb_false_r.
    + by rewrite bool_decide_eq_false_2.
Qed.

End node_core.

Module node_core_example.
Import sample.
Import rounds_example.
Import core_example.
Import compiler_example.

Import singbox_example.

Definition sampleEndpoints : coreEndpoints := MkCoreEndpoints "127.0.0.1:10085" "127.0.0.1:10086" sampleSecret.
Notation sampleFactory := (nodeFactory (fun s => s) catalog sampleEndpoints).

(** The roster of the round attaches [lst_7], which the config does not have. *)
Lemma dangling_attachment_blocks_core_witness :
  exists e s', Converge (fun s => s) catalog sampleFactory stopped = (Some e, s') /\ cdb s' = stored.
Proof.
  destruct (dangling_attachment_blocks_core (fun s => s) catalog sampleEndpoints stopped config roster client "lst_7") as (e & s' & Hc & Hd & _).
  - vm_compute. reflexivity.
  - vm_compute. reflexivity.
  - left.
  - reflexivity.
  - simpl. lia.
  - right. left.
  - intros Hin. vm_compute in Hin. by apply list_elem_of_singleton in Hin.
  - assert (client_runtime (cdb stopped) !! WCKey client = None) as -> by (vm_compute; reflexivity). intros row Hrow. discriminate Hrow.
  - exists e, s'. split; [exact Hc|exact Hd].
Defined.

(** A host whose clock ticks five milliseconds at each reading. *)
#[local] Instance ticking_world : CoreWorld (Z * CoreStatus) := {|
  Install := @Install _ sample_world;
  Deploy := @Deploy _ sample_world;
  Status := @Status _ sample_world;
  Now w := (w.1, (w.1 + 5000000, w.2))
|}.

(** The same texts, read as a roster of three clients attached to the listener that
    exists: at the ninth millisecond Alice has expired, Bob expires three
    milliseconds later and Carol much later. *)
Definition alice : WClient := attached "cli_1" "usr_1" "alice" true 8.
Definition bob : WClient := attached "cli_2" "usr_2" "bob" true 12.
Definition carol : WClient := attached "cli_3" "usr_3" "carol" true 100.
Definition expiring : RosterBody := MkRosterBody (MkPVersion 1 1) [alice; bob; carol] (MkSegmentCounts 1 0 3).
#[local] Instance expiring_codec : BodyCodec RosterBody := {| MarshalBody b := Some "{}"; UnmarshalBody s := Some expiring |}.

Notation converge_expiring := (Converge (fun s => s) catalog sampleFactory stopped).

(** Bob and Carol are let in, with the secrets of the roster. *)
Lemma deployed_credentials_inside_grant_witness :
  exists s' d cc text, converge_expiring = (None, s') /\ CoreDeploymentOf (cdb s') = Ok d /\ encodeCore cc = Some text /\ CDArtifact d = text +:+ newline.
Proof.
  destruct converge_expiring as [[e|] s'] eqn:Hc; [exfalso; vm_compute in Hc; discriminate Hc|].
  destruct (deployed_credentials_inside_grant (fun s => s) catalog sampleEndpoints stopped s' stored_clients Hc)
    as (_ & config & ros & d & cc & text & _ & _ & Hd & He & Ht & _).
  exists s', d, cc, text. split_and!; [reflexivity|exact Hd|exact He|exact Ht].
Defined.


End node_core_example.
