(* ===== verification/Diagnostics.v ===== *)
(** * Diagnostics ([internal/diagnostics/ring.go], [handler.go])

    The ring is a fixed buffer with a write position and a length; its contents are
    the last events recorded, oldest first.  The handler answers one collection
    task. *)
From S2P Require Import Prelude GoStrings Protocol.

(** The event of the protocol module. *)
Record DiagnosticsEvent := MkDiagnosticsEvent { EvCode : string; EvAtMS : Z; EvSeverity : string; EvSummary : string }.

Definition zeroEvent : DiagnosticsEvent := MkDiagnosticsEvent "" 0 "" "".

Definition DefaultRingCapacity : Z := 256.

Record Ring := MkRing { buffer : list DiagnosticsEvent; head : Z; length_ : Z }.

Definition NewRing (capacity : Z) : Ring :=
  let capacity := if decide (capacity ≤ 0) then DefaultRingCapacity else capacity in
  MkRing (replicate (Z.to_nat capacity) zeroEvent) 0 0.

Definition capacityOf (r : Ring) : Z := Z.of_nat (length (buffer r)).

(** ** Truncation *)

(** [b & 0xC0 != 0x80]. *)
Definition utf8Start (b : nat) : bool := bool_decide (Z.land (Z.of_nat b) 192 <> 128).

Fixpoint cutBack (cut : nat) (s : string) : nat :=
  match cut with
  | O => O
  | S cut' => if utf8Start (byte_at s cut) then cut else cutBack cut' s
  end.

Definition truncateUTF8 (s : string) (limit : Z) : string :=
  if decide (len s ≤ limit) then s else take_str (cutBack (Z.to_nat limit) s) s.

Section ring.
(** [protocol.IsDiagnosticsEventCode], [IsDiagnosticsSeverity] and
    [MaxDiagnosticsSummaryBytes]. *)
Context (IsDiagnosticsEventCode IsDiagnosticsSeverity : string -> bool) (MaxDiagnosticsSummaryBytes : Z).

(** What is written for one call; [None] when the event is dropped. *)
Definition accepted (code severity summary : string) (now : Z) : option DiagnosticsEvent :=
  if negb (IsDiagnosticsEventCode code) || negb (IsDiagnosticsSeverity severity) then None else
  let summary := if decide (MaxDiagnosticsSummaryBytes < len summary) then truncateUTF8 summary MaxDiagnosticsSummaryBytes else summary in
  Some (MkDiagnosticsEvent code now severity summary).

(** [None] is an index out of range. *)
Definition RecordEvent (r : Ring) (code severity summary : string) (now : Z) : option Ring :=
  match accepted code severity summary now with
  | None => Some r
  | Some event =>
      _ ← buffer r !! Z.to_nat (head r);
      Some (MkRing (<[Z.to_nat (head r) := event]> (buffer r)) ((head r + 1) mod capacityOf r)
             (if decide (length_ r < capacityOf r) then length_ r + 1 else length_ r))
  end.

Definition Snapshot (r : Ring) : option (list DiagnosticsEvent) :=
  mapM (fun offset : nat => buffer r !! Z.to_nat ((head r - length_ r + Z.of_nat offset + capacityOf r) mod capacityOf r))
    (seq 0 (Z.to_nat (length_ r))).

(** ** The ring and the log of everything recorded *)

(** [log] is every accepted event, oldest first: event [i] sits in slot [i mod n]
    until event [i + n] replaces it. *)
Record ring_log (r : Ring) (log : list DiagnosticsEvent) : Prop := {
  rl_cap : 0 < capacityOf r;
  rl_head : head r = Z.of_nat (length log) mod capacityOf r;
  rl_length : length_ r = Z.min (Z.of_nat (length log)) (capacityOf r);
  rl_slots : forall i e, log !! i = Some e -> Z.of_nat (length log) - capacityOf r ≤ Z.of_nat i ->
    buffer r !! Z.to_nat (Z.of_nat i mod capacityOf r) = Some e
}.

Lemma NewRing_log capacity : ring_log (NewRing capacity) [].
Proof.
  unfold NewRing, DefaultRingCapacity. set (n := if decide (capacity ≤ 0) then 256 else capacity).
  assert (0 < n) by (unfold n; case_decide; lia).
  assert (capacityOf (MkRing (replicate (Z.to_nat n) zeroEvent) 0 0) = n) as Hcap by (unfold capacityOf; simpl; rewrite length_replicate; lia).
  split; rewrite ?Hcap; simpl; [lia|by rewrite Z.mod_0_l by lia|lia|]. intros i e Hi. by rewrite lookup_nil in Hi.
Qed.

Lemma slot_bound r i : 0 < capacityOf r -> (Z.to_nat (i mod capacityOf r) < length (buffer r))%nat.
Proof. intros Hc. pose proof (Z.mod_pos_bound i (capacityOf r) Hc). unfold capacityOf in *. lia. Qed.

(** Slots of two events less than a buffer apart differ. *)
Lemma slots_differ n i j : 0 < n -> i < j < i + n -> i mod n <> j mod n.
Proof.
  intros Hn Hij He. pose proof (Z.div_mod i n ltac:(lia)). pose proof (Z.div_mod j n ltac:(lia)).
  assert (j - i = n * (j / n - i / n)) as Hd by lia. destruct (decide (j / n - i / n ≤ 0)); nia.
Qed.

Lemma RecordEvent_log r log code severity summary now :
  ring_log r log ->
  exists r', RecordEvent r code severity summary now = Some r' /\
    ring_log r' (log ++ option_list (accepted code severity summary now)) /\ capacityOf r' = capacityOf r.
Proof.
  intros Hl. unfold RecordEvent. destruct (accepted code severity summary now) as [event|].
  2:{ exists r. simpl. by rewrite app_nil_r. }
  destruct Hl as [Hc Hh Hlen Hs].
  destruct (lookup_lt_is_Some_2 (buffer r) (Z.to_nat (head r)) ltac:(rewrite Hh; by apply slot_bound)) as [old Hold].
  rewrite Hold. simpl. eexists. split; [done|].
  set (r' := MkRing _ _ _). assert (capacityOf r' = capacityOf r) as Hcap by (unfold capacityOf; simpl; by rewrite length_insert).
  split; [|done]. split; rewrite ?Hcap.
  - done.
  - rewrite length_app. simpl. rewrite Hh. rewrite Zplus_mod_idemp_l. f_equal. lia.
  - rewrite length_app. simpl. case_decide; lia.
  - intros i e Hi Hge. rewrite length_app in Hge. simpl in Hge. simpl. rewrite lookup_app in Hi.
    destruct (log !! i) as [e'|] eqn:Hlog.
    + injection Hi as ->. pose proof (lookup_lt_Some _ _ _ Hlog). rewrite list_lookup_insert_ne; [apply Hs; [done|lia]|].
      rewrite Hh. intros He. pose proof (Z.mod_pos_bound (Z.of_nat i) (capacityOf r) Hc).
      pose proof (Z.mod_pos_bound (Z.of_nat (length log)) (capacityOf r) Hc).
      apply (slots_differ (capacityOf r) (Z.of_nat i) (Z.of_nat (length log))); lia.
    + apply lookup_ge_None_1 in Hlog. destruct (i - length log)%nat as [|k] eqn:Hk; [|done]. injection Hi as <-.
      replace i with (length log) by lia. rewrite <-Hh. apply list_lookup_insert_eq. by eapply lookup_lt_Some.
Qed.

Lemma Snapshot_log r log :
  ring_log r log -> Snapshot r = Some (drop (length log - Z.to_nat (capacityOf r)) log).
Proof.
  intros [Hc Hh Hlen Hs]. unfold Snapshot. apply mapM_Some_2. apply Forall2_same_length_lookup_2.
  { rewrite length_seq, length_drop. lia. }
  intros k offset e Hk He. apply lookup_seq in Hk as [-> Hlt]. rewrite lookup_drop in He. simpl.
  pose proof (lookup_lt_Some _ _ _ He). set (n := capacityOf r) in *.
  rewrite <-(Hs _ _ He ltac:(lia)). do 2 f_equal.
  replace (head r - length_ r + Z.of_nat k + n) with (head r + (Z.of_nat k + n - length_ r)) by lia. rewrite Hh, Zplus_mod_idemp_l.
  destruct (decide (Z.of_nat (length log) ≤ n)) as [Hle|Hgt].
  - replace (length log - Z.to_nat n + k)%nat with k by lia. rewrite Hlen.
    replace (Z.of_nat (length log) + (Z.of_nat k + n - Z.min (Z.of_nat (length log)) n)) with (Z.of_nat k + 1 * n) by lia.
    apply Z_mod_plus_full.
  - replace (Z.of_nat (length log) + (Z.of_nat k + n - length_ r)) with (Z.of_nat (length log - Z.to_nat n + k) + 1 * n) by lia.
    apply Z_mod_plus_full.
Qed.

(** A history of calls: code, severity, summary and time. *)
Fixpoint recordAll (r : Ring) (calls : list (string * string * string * Z)) : option Ring :=
  match calls with
  | [] => Some r
  | (code, severity, summary, now) :: calls => r' ← RecordEvent r code severity summary now; recordAll r' calls
  end.

Definition acceptedOf (calls : list (string * string * string * Z)) : list DiagnosticsEvent :=
  calls ≫= fun '(code, severity, summary, now) => option_list (accepted code severity summary now).

Lemma recordAll_log calls : forall r log,
  ring_log r log -> exists r', recordAll r calls = Some r' /\ ring_log r' (log ++ acceptedOf calls) /\ capacityOf r' = capacityOf r.
Proof.
  induction calls as [|[[[code severity] summary] now] calls IH]; intros r log Hl; cbn [recordAll].
  { exists r. by rewrite app_nil_r. }
  destruct (RecordEvent_log r log code severity summary now Hl) as (r1 & -> & Hl1 & Hc1).
  destruct (IH r1 _ Hl1) as (r2 & Hr2 & Hl2 & Hc2). exists r2. simpl. split; [done|]. rewrite <-app_assoc in Hl2. split; [done|congruence].
Qed.

(** The ring refines a log.  For any capacity and any history of calls, no index
    is ever out of range, and the snapshot is the last [capacity] accepted events
    in the order they were recorded: the ring loses only the oldest. *)
Theorem ring_refines_log capacity calls :
  exists r, recordAll (NewRing capacity) calls = Some r /\
    Snapshot r = Some (drop (length (acceptedOf calls) - Z.to_nat (capacityOf (NewRing capacity))) (acceptedOf calls)).
Proof.
  destruct (recordAll_log calls _ _ (NewRing_log capacity)) as (r & Hr & Hl & Hc). exists r. split; [done|].
  rewrite <-Hc. by apply Snapshot_log.
Qed.

End ring.

(** *** Truncation keeps whole runes *)

Lemma cutBack_le n s : (cutBack n s <= n)%nat.
Proof. induction n as [|n IH]; cbn [cutBack]; [done|]. destruct (utf8Start _); lia. Qed.

Lemma truncateUTF8_length s limit : 0 ≤ limit -> len (truncateUTF8 s limit) ≤ limit.
Proof.
  intros Hl. unfold truncateUTF8. case_decide; [done|]. pose proof (cutBack_le (Z.to_nat limit) s). unfold len in *.
  rewrite take_str_length by lia. lia.
Qed.

(** What is cut starts at a rune boundary, and nothing shorter was possible. *)
Lemma cutBack_boundary n s :
  (cutBack n s = 0%nat \/ utf8Start (byte_at s (cutBack n s)) = true) /\
  forall k, (cutBack n s < k <= n)%nat -> utf8Start (byte_at s k) = false.
Proof.
  induction n as [|n [Hb Hk]]; cbn [cutBack]; [split; [by left|lia]|]. destruct (utf8Start (byte_at s (S n))) eqn:Hs.
  - split; [by right|lia].
  - split; [done|]. intros k Hr. destruct (decide (k = S n)) as [->|]; [done|]. apply Hk. lia.
Qed.

(** ** The handler *)

Definition ErrCodeInvalidArgs : string := "diagnostics_invalid_args".
Definition ErrCodeCollect : string := "diagnostics_collect_failed".
Definition ErrCodeTooLarge : string := "diagnostics_result_too_large".

(** A [TaskError], or a slice expression out of range. *)
Inductive diagnosticsError := DiagnosticsTaskError (code : string) | DiagnosticsPanic.

Record DiagnosticsArgs := MkDiagnosticsArgs { DSections : list string; DMaxEvents : Z }.

(** Sections of the other module: checks, host, runtime and state observations. *)
Class DiagnosticsProtocol (Check Host Rt St : Type) := {
  DiagnosticsSectionHost : string;
  DiagnosticsSectionRuntime : string;
  DiagnosticsSectionState : string;
  DiagnosticsSectionEvents : string;
  DecodeDiagnosticsArgs : string -> option DiagnosticsArgs;
  ValidateDiagnosticsArgs : DiagnosticsArgs -> bool;
  SortDiagnosticsEvents : list DiagnosticsEvent -> list DiagnosticsEvent;
  MaxDiagnosticsResultBytes : Z
}.

Record Collection (Check Host : Type) := MkCollection { ColChecks : list Check; ColHost : option Host; ColQuickCheck : string }.
Arguments MkCollection {Check Host}.
Arguments ColChecks {Check Host}.
Arguments ColHost {Check Host}.
Arguments ColQuickCheck {Check Host}.

Record DiagnosticsResult (Check Host Rt St : Type) := MkDiagnosticsResult {
  DCollectedAtMS : Z;
  DRecovered : bool;
  DChecks : list Check;
  DHost : option Host;
  DRuntime : option Rt;
  DState : option St;
  DEvents : list DiagnosticsEvent
}.
Arguments MkDiagnosticsResult {Check Host Rt St}.
Arguments DCollectedAtMS {Check Host Rt St}.
Arguments DRecovered {Check Host Rt St}.
Arguments DChecks {Check Host Rt St}.
Arguments DHost {Check Host Rt St}.
Arguments DRuntime {Check Host Rt St}.
Arguments DState {Check Host Rt St}.
Arguments DEvents {Check Host Rt St}.

(** [events[len(events)-maxEvents:]] when there are more. *)
Definition newest (maxEvents : Z) (events : list DiagnosticsEvent) : res diagnosticsError (list DiagnosticsEvent) :=
  if decide (maxEvents < Z.of_nat (length events)) then
    if decide (maxEvents < 0) then Err DiagnosticsPanic else Ok (drop (length events - Z.to_nat maxEvents) events)
  else Ok events.

Section handler.
Context {Check Host Rt St : Type} `{DiagnosticsProtocol Check Host Rt St}.
Context (MarshalResult : DiagnosticsResult Check Host Rt St -> option string).
Context (ValidateDiagnosticsResult : DiagnosticsResult Check Host Rt St -> bool).

(** The fields of [Handler]; a reader that is [None] is not configured, and one
    that answers [None] failed. *)
Record DiagnosticsHandler := MkDiagnosticsHandler {
  HRing : option Ring;
  HCollect : option (option (Collection Check Host));
  HRuntime : option (option Rt);
  HState : option (Collection Check Host -> option St);
  HNow : Z
}.

Definition collectFailed {A} : res diagnosticsError A := Err (DiagnosticsTaskError ErrCodeCollect).

Definition fill (h : DiagnosticsHandler) (maxEvents : Z) (collection : Collection Check Host)
    (result : DiagnosticsResult Check Host Rt St) (section : string) : res diagnosticsError (DiagnosticsResult Check Host Rt St) :=
  let '(MkDiagnosticsResult at_ recovered checks host runtime state events) := result in
  if decide (section = DiagnosticsSectionHost) then
    match ColHost collection with
    | None => collectFailed
    | Some sample => Ok (MkDiagnosticsResult at_ recovered checks (Some sample) runtime state events)
    end
  else if decide (section = DiagnosticsSectionRuntime) then
    match HRuntime h with
    | Some (Some posture) => Ok (MkDiagnosticsResult at_ recovered checks host (Some posture) state events)
    | _ => collectFailed
    end
  else if decide (section = DiagnosticsSectionState) then
    match HState h with
    | Some read =>
        match read collection with
        | Some rows => Ok (MkDiagnosticsResult at_ recovered checks host runtime (Some rows) events)
        | None => collectFailed
        end
    | None => collectFailed
    end
  else if decide (section = DiagnosticsSectionEvents) then
    match HRing h with
    | None => Ok result
    | Some ring =>
        match Snapshot ring with
        | None => Err DiagnosticsPanic
        | Some snapshot =>
            kept ← newest maxEvents snapshot;
            Ok (MkDiagnosticsResult at_ recovered checks host runtime state (SortDiagnosticsEvents kept))
        end
    end
  else Ok result.

Definition fit (result : DiagnosticsResult Check Host Rt St) : res diagnosticsError string :=
  match MarshalResult result with
  | None => collectFailed
  | Some encoded =>
      if decide (MaxDiagnosticsResultBytes < len encoded) then Err (DiagnosticsTaskError ErrCodeTooLarge) else
      if negb (ValidateDiagnosticsResult result) then collectFailed else Ok encoded
  end.

Definition collect (h : DiagnosticsHandler) (args : string) (recovered : bool) : res diagnosticsError string :=
  match DecodeDiagnosticsArgs args with
  | None => Err (DiagnosticsTaskError ErrCodeInvalidArgs)
  | Some args =>
      if negb (ValidateDiagnosticsArgs args) then Err (DiagnosticsTaskError ErrCodeInvalidArgs) else
      match HCollect h with
      | Some (Some collection) =>
          result ← res_foldl (fill h (DMaxEvents args) collection)
                     (MkDiagnosticsResult (HNow h) recovered (ColChecks collection) None None None []) (DSections args);
          fit result
      | _ => collectFailed
      end
  end.

(** [Execute] and [Recover]. *)
Definition DiagnosticsExecute (h : DiagnosticsHandler) (task : Task) : res diagnosticsError string := collect h (TArgs task) false.
Definition DiagnosticsRecover (h : DiagnosticsHandler) (args : string) : res diagnosticsError string := collect h args true.

(** *** What a result holds *)

(** The section names of the contract are distinct. *)
Class DiagnosticsLaws : Prop :=
  sections_distinct : NoDup [DiagnosticsSectionHost; DiagnosticsSectionRuntime; DiagnosticsSectionState; DiagnosticsSectionEvents].

(** What [result] must say of the sections filled so far. *)
Record filled (h : DiagnosticsHandler) (maxEvents : Z) (collection : Collection Check Host) (recovered : bool) (sections : list string)
    (result : DiagnosticsResult Check Host Rt St) : Prop := {
  fi_at : DCollectedAtMS result = HNow h;
  fi_recovered : DRecovered result = recovered;
  fi_checks : DChecks result = ColChecks collection;
  fi_host : DHost result = if decide (DiagnosticsSectionHost ∈ sections) then ColHost collection else None;
  fi_host_some : DiagnosticsSectionHost ∈ sections -> DHost result <> None;
  fi_runtime : is_Some (DRuntime result) <-> DiagnosticsSectionRuntime ∈ sections;
  fi_state : is_Some (DState result) <-> DiagnosticsSectionState ∈ sections;
  fi_events : DEvents result = [] \/ DiagnosticsSectionEvents ∈ sections;
  fi_ring : DiagnosticsSectionEvents ∈ sections -> forall ring, HRing h = Some ring ->
    exists snapshot, Snapshot ring = Some snapshot /\
      DEvents result = SortDiagnosticsEvents (drop (length snapshot - Z.to_nat maxEvents) snapshot)
}.

Lemma newest_Ok maxEvents events kept :
  newest maxEvents events = Ok kept -> kept = drop (length events - Z.to_nat maxEvents) events.
Proof.
  unfold newest. repeat case_decide; try done; intros [= <-]; [done|].
  by replace (length events - Z.to_nat maxEvents)%nat with 0%nat by lia.
Qed.

(** One section; the others keep what they have. *)
Lemma fill_filled `{!DiagnosticsLaws} h maxEvents collection recovered sections section result result' :
  filled h maxEvents collection recovered sections result ->
  fill h maxEvents collection result section = Ok result' ->
  filled h maxEvents collection recovered (sections ++ [section]) result'.
Proof.
  pose proof sections_distinct as Hd. repeat (apply NoDup_cons in Hd as [? Hd]).
  assert (forall name, name ∈ sections ++ [section] <-> name ∈ sections \/ name = section) as Hin by set_solver.
  intros [Hat Hre Hck Hho Hhs Hru Hst Hev Hri]. destruct result as [at_ re checks host runtime state events].
  cbn [DCollectedAtMS DRecovered DChecks DHost DRuntime DState DEvents] in *. unfold fill.
  destruct (decide (section = DiagnosticsSectionHost)) as [->|Hnh].
  { destruct (ColHost collection) as [sample|] eqn:Hc; [|done]. intros [= <-].
    split; cbn [DCollectedAtMS DRecovered DChecks DHost DRuntime DState DEvents]; try done; rewrite ?Hin.
    - rewrite decide_True by set_solver. done.
    - rewrite Hru. set_solver.
    - rewrite Hst. set_solver.
    - tauto.
    - intros [?|?] ring Hr; [by apply Hri|set_solver]. }
  assert ((if decide (DiagnosticsSectionHost ∈ sections ++ [section]) then ColHost collection else None) = host) as Hho'.
  { rewrite Hho. repeat case_decide; try done; set_solver. }
  assert (DiagnosticsSectionHost ∈ sections ++ [section] -> host <> None) as Hhs' by (rewrite Hin; intros [?|?]; [by apply Hhs|done]).
  destruct (decide (section = DiagnosticsSectionRuntime)) as [->|Hnr].
  { destruct (HRuntime h) as [[posture|]|]; try done. intros [= <-].
    split; cbn [DCollectedAtMS DRecovered DChecks DHost DRuntime DState DEvents]; try done; rewrite ?Hin.
    - split; [by right|by eexists].
    - rewrite Hst. set_solver.
    - tauto.
    - intros [?|?] ring Hr; [by apply Hri|set_solver]. }
  assert (is_Some runtime <-> DiagnosticsSectionRuntime ∈ sections ++ [section]) as Hru' by (rewrite Hin; naive_solver).
  destruct (decide (section = DiagnosticsSectionState)) as [->|Hns].
  { destruct (HState h) as [read|]; [|done]. destruct (read collection) as [rows|]; [|done]. intros [= <-].
    split; cbn [DCollectedAtMS DRecovered DChecks DHost DRuntime DState DEvents]; try done; rewrite ?Hin.
    - split; [by right|by eexists].
    - tauto.
    - intros [?|?] ring Hr; [by apply Hri|set_solver]. }
  assert (is_Some state <-> DiagnosticsSectionState ∈ sections ++ [section]) as Hst' by (rewrite Hin; naive_solver).
  destruct (decide (section = DiagnosticsSectionEvents)) as [->|Hne].
  - destruct (HRing h) as [ring|] eqn:Hring.
    + destruct (Snapshot ring) as [snapshot|] eqn:Hsn; [|done]. intros (kept & Hk%newest_Ok & [= <-])%bind_Ok. subst kept.
      split; cbn [DCollectedAtMS DRecovered DChecks DHost DRuntime DState DEvents]; try done; [rewrite Hin; by right; right|].
      intros _ ring' Hr'. rewrite Hring in Hr'. injection Hr' as <-. eauto.
    + intros [= <-]. split; cbn [DCollectedAtMS DRecovered DChecks DHost DRuntime DState DEvents]; try done; [rewrite Hin; tauto|].
      intros _ ring' Hr'. by rewrite Hring in Hr'.
  - intros [= <-]. split; cbn [DCollectedAtMS DRecovered DChecks DHost DRuntime DState DEvents]; try done; rewrite ?Hin; [tauto|].
    intros [?|?] ring Hr; [by apply Hri|done].
Qed.

Lemma fill_all `{!DiagnosticsLaws} h maxEvents collection recovered todo : forall sections result result',
  filled h maxEvents collection recovered sections result ->
  res_foldl (fill h maxEvents collection) result todo = Ok result' ->
  filled h maxEvents collection recovered (sections ++ todo) result'.
Proof.
  induction todo as [|section todo IH]; intros sections result result' Hf Hr.
  - injection Hr as <-. by rewrite app_nil_r.
  - cbn [res_foldl] in Hr. apply bind_Ok in Hr as (r1 & H1 & Hr). apply (fill_filled _ _ _ _ _ _ _ _ Hf) in H1.
    specialize (IH _ _ _ H1 Hr). by rewrite <-app_assoc in IH.
Qed.

(** A diagnostic is complete or refused.  A collection that succeeds encodes a
    valid result within the wire bound that says whether it was recovered, carries
    the pass's checks, holds exactly the requested sections, and its events are the
    newest of the ring, up to the requested number. *)
Theorem diagnostics_complete `{!DiagnosticsLaws} h args recovered encoded :
  collect h args recovered = Ok encoded ->
  exists a collection result,
    DecodeDiagnosticsArgs args = Some a /\ HCollect h = Some (Some collection) /\
    filled h (DMaxEvents a) collection recovered (DSections a) result /\
    MarshalResult result = Some encoded /\ ValidateDiagnosticsResult result = true /\ len encoded ≤ MaxDiagnosticsResultBytes.
Proof.
  unfold collect. destruct (DecodeDiagnosticsArgs args) as [a|]; [|done]. destruct (ValidateDiagnosticsArgs a); [|done]. simpl.
  destruct (HCollect h) as [[collection|]|]; try done. intros (result & Hf & Hfit)%bind_Ok. exists a, collection, result.
  split; [done|]. split; [done|]. split.
  - apply (fill_all h (DMaxEvents a) collection recovered (DSections a) []) in Hf; [done|]. split; simpl; try done; try (by split; [intros [? [=]]|intros ?%not_elem_of_nil]).
    + intros ?%not_elem_of_nil. done.
    + by left.
    + intros ?%not_elem_of_nil. done.
  - unfold fit in Hfit. destruct (MarshalResult result) as [e|]; [|done]. case_decide; [done|].
    destruct (ValidateDiagnosticsResult result); [|done]. injection Hfit as <-. split_and!; try done. lia.
Qed.

End handler.

Module diagnostics_example.

#[export] Instance sample_diagnostics : DiagnosticsProtocol string string string string := {|
  DiagnosticsSectionHost := "host";
  DiagnosticsSectionRuntime := "runtime";
  DiagnosticsSectionState := "state";
  DiagnosticsSectionEvents := "events";
  DecodeDiagnosticsArgs s := Some (MkDiagnosticsArgs ["events"; "host"] 1);
  ValidateDiagnosticsArgs a := bool_decide (0 ≤ DMaxEvents a);
  SortDiagnosticsEvents l := l;
  MaxDiagnosticsResultBytes := 512
|}.

#[export] Instance sample_diagnostics_laws : DiagnosticsLaws.
Proof. unfold DiagnosticsLaws. apply (bool_decide_unpack _). vm_compute. exact I. Qed.

(** Three events in a ring of two. *)
Definition known (s : string) : bool := bool_decide (s <> "").
Definition calls : list (string * string * string * Z) :=
  [("a", "info", "first", 1); ("b", "info", "second", 2); ("", "info", "dropped", 3); ("c", "warning", "third", 4)].

Lemma ring_example :
  exists r, recordAll known known 64 (NewRing 2) calls = Some r /\ EvCode <$> default [] (Snapshot r) = ["b"; "c"].
Proof. eexists. split; reflexivity. Qed.

Definition handler : @DiagnosticsHandler string string string string :=
  MkDiagnosticsHandler (recordAll known known 64 (NewRing 2) calls) (Some (Some (MkCollection ["ok"] (Some "sample") "ok")))
    None None 9.

Definition marshal (r : DiagnosticsResult string string string string) : option string := DHost r.

Lemma diagnostics_complete_witness :
  collect marshal (fun _ => true) handler "{}" false = Ok "sample" /\
  exists result : DiagnosticsResult string string string string, DHost result = Some "sample" /\ EvCode <$> DEvents result = ["c"].
Proof.
  assert (collect marshal (fun _ => true) handler "{}" false = Ok "sample") as Hc by (vm_compute; reflexivity).
  split; [exact Hc|].
  destruct (diagnostics_complete marshal (fun _ => true) handler "{}" false "sample" Hc)
    as (a & collection & result & Ha & Hcol & [_ _ _ Hh _ _ _ _ Hri] & _).
  exists result. injection Ha as <-. injection Hcol as <-. split.
  - rewrite Hh. vm_compute. reflexivity.
  - destruct (Hri ltac:(apply (bool_decide_unpack _); vm_compute; exact I) _ eq_refl) as (snapshot & Hs & ->).
    vm_compute in Hs. injection Hs as <-. vm_compute. reflexivity.
Defined.

End diagnostics_example.
