(* ===== verification/Observation.v ===== *)
(** * Observing the core ([internal/agent/observation.go], [readiness.go],
      [runtime_stats.go], [internal/core/telemetry.go])

    One telemetry sample becomes one atomic write of the ledgers; an outage becomes
    one durable issue per episode.  The readiness gate reports changes only, and the
    sync statistics count what was synced. *)
From S2P Require Import Prelude GoStrings Protocol Store Clients Listeners Counters Outbox Journal Deployment Issues Processor Rounds CoreRuntime.

(** ** Samples ([internal/core/core.go]) *)

Record CoreClientCounters := MkCoreClientCounters {
  CoKey : string; CoPresent : bool; CoUpBytes : Z; CoDownBytes : Z; CoCounterEpoch : Z; CoLiveIPs : list string }.
Record CoreListenerCounters := MkCoreListenerCounters {
  ClKey : string; ClPresent : bool; ClUpBytes : Z; ClDownBytes : Z; ClCounterEpoch : Z }.
Record CoreCounters := MkCoreCounters { CoClients : list CoreClientCounters; CoListeners : list CoreListenerCounters }.

(** [TelemetryRouter.Collect]; an adapter is the answer it gives. *)
Definition RouterCollect (status : option CoreStatus) (adapters : gmap string (res error CoreCounters)) : res error CoreCounters :=
  match status with
  | None => Err (Errorf "core status provider is required")
  | Some status =>
      match adapters !! CsEngine status with
      | None => Err (Errorf "core engine has no telemetry adapter")
      | Some answer => answer
      end
  end.

(** ** The observation service *)

Record ObservationResult := MkObservationResult { Collected : bool; GateChanged : bool }.

Record ObservationService := MkObservationService { failing : bool; episode : Z }.

(** What one call reads: the telemetry, the status, the clock (nanoseconds) and
    the clock of the issue sink (milliseconds). *)
Record observeEnv := MkObserveEnv {
  oeTelemetry : res error CoreCounters; oeStatus : CoreStatus; oeNow : Z; oeIssueNowMS : Z }.

Definition clientUpdate (c : CoreClientCounters) : CounterUpdate :=
  MkCounterUpdate (CoKey c) (CoPresent c) (CoUpBytes c) (CoDownBytes c) (CoCounterEpoch c) (CoLiveIPs c).
Definition listenerUpdate (c : CoreListenerCounters) : ListenerCounterUpdate :=
  MkListenerCounterUpdate (ClKey c) (ClPresent c) (ClUpBytes c) (ClDownBytes c) (ClCounterEpoch c).
Definition counterBatch (counters : CoreCounters) : CounterBatch :=
  MkCounterBatch (clientUpdate <$> CoClients counters) (listenerUpdate <$> CoListeners counters).

(** [t.UnixNano()]; the zero time wraps around. *)
Definition UnixNano (t : option Z) : Z := default (wrap64 (-62135596800 * 1000000000)) t.

Definition LocalIssueCoreTelemetryFailed : string := "core_telemetry_failed".

Definition outageKey (status : CoreStatus) (episode : Z) : string :=
  let identity := CsEngine status +:+ ":" +:+ CsVersion status +:+ ":" +:+ CsConfigDigest status +:+ ":" +:+
                  FormatInt (CsRestartCount status) +:+ ":" +:+ FormatInt (UnixNano (CsLastChangedAt status)) in
  "core-telemetry:" +:+ identity +:+ ":" +:+ FormatInt episode.

Section observation.
Context `{Protocol} `{Conformance}.

Definition observeFail (s : ObservationService) (db : DB) (env : observeEnv) (failure : error)
    : res error ObservationResult * ObservationService * DB :=
  let s := if failing s then s else MkObservationService true ((episode s + 1) mod 2 ^ 64) in
  let status := oeStatus env in
  let issue := MkLocalIssue LocalIssueCoreTelemetryFailed "core" (CsEngine status +:+ "/" +:+ CsVersion status)
                 (outageKey status (episode s)) (ErrorText failure) in
  match RecordIssue DefaultIssueMapper db issue (oeIssueNowMS env) with
  | Ok (_, db') => (Ok (MkObservationResult false false), s, db')
  | Err _ => (Err (Errorf "record core telemetry failure"), s, db)
  end.

Definition Observe (s : ObservationService) (db : DB) (env : observeEnv) : res error ObservationResult * ObservationService * DB :=
  match CoreDeploymentOf db with
  | Err ErrNotFound => (Ok (MkObservationResult false false), s, db)
  | Err _ => (Err (Errorf "read confirmed core deployment before telemetry"), s, db)
  | Ok _ =>
      match oeTelemetry env with
      | Err e => observeFail s db env e
      | Ok counters =>
          if decide (UnixMilli (oeNow env) ≤ 0) then (Err (Errorf "observation clock must be after Unix epoch"), s, db) else
          match ApplyCounterBatch db (counterBatch counters) (UnixMilli (oeNow env)) with
          | Err e => observeFail s db env e
          | Ok (gateChanged, db') => (Ok (MkObservationResult true gateChanged), MkObservationService false (episode s), db')
          end
      end
  end.

End observation.

(** ** The readiness gate *)

(** A check's answer: [None] is ready, otherwise the error's text. *)
Definition errReadinessUnconfigured : string := "readiness check is not configured".

Record ReadinessGate := MkReadinessGate { observed : bool; gready : bool; greason : string }.

Definition NewReadinessGate : ReadinessGate := MkReadinessGate false false "".

(** [Check]: the answer, the gate, and what [onChange] is told. *)
Definition GateCheck (g : ReadinessGate) (check : option (option string)) : option string * ReadinessGate * list (option string) :=
  let err := match check with Some answer => answer | None => Some errReadinessUnconfigured end in
  let ready := bool_decide (err = None) in
  let reason := default "" err in
  if observed g && bool_decide (ready = gready g) && bool_decide (reason = greason g) then (err, g, []) else
  (err, MkReadinessGate true ready reason, [err]).

(** ** The sync statistics *)

(** Counters are uint64; times are milliseconds. *)
Record RuntimeStats := MkRuntimeStats {
  agentStartedAtMS : Z;
  lastSuccessAtMS : Z;
  lastFailureAtMS : Z;
  consecutiveFailures : Z;
  successCount : Z;
  failureCount : Z;
  lastRoundTripMS : option Z;
  lastRequestBytes : option Z;
  lastResponseBytes : option Z
}.

Definition NewRuntimeStats (now : Z) : RuntimeStats := MkRuntimeStats (UnixMilli now) 0 0 0 0 0 None None None.

Definition inc64 (n : Z) : Z := (n + 1) mod 2 ^ 64.

Definition RecordRequestBytes (s : RuntimeStats) (size : Z) : RuntimeStats :=
  if decide (size < 0) then s else
  MkRuntimeStats (agentStartedAtMS s) (lastSuccessAtMS s) (lastFailureAtMS s) (consecutiveFailures s) (successCount s)
    (failureCount s) (lastRoundTripMS s) (Some size) (lastResponseBytes s).

(** [roundTrip] is in nanoseconds. *)
Definition RecordResponse (s : RuntimeStats) (size roundTrip : Z) : RuntimeStats :=
  MkRuntimeStats (agentStartedAtMS s) (lastSuccessAtMS s) (lastFailureAtMS s) (consecutiveFailures s) (successCount s)
    (failureCount s) (if decide (0 ≤ roundTrip) then Some (roundTrip / 1000000) else lastRoundTripMS s) (lastRequestBytes s)
    (if decide (0 ≤ size) then Some size else lastResponseBytes s).

Definition RecordSuccess (s : RuntimeStats) (at_ : Z) : RuntimeStats :=
  MkRuntimeStats (agentStartedAtMS s) (UnixMilli at_) (lastFailureAtMS s) 0 (inc64 (successCount s))
    (failureCount s) (lastRoundTripMS s) (lastRequestBytes s) (lastResponseBytes s).

Definition RecordFailure (s : RuntimeStats) (at_ : Z) : RuntimeStats :=
  MkRuntimeStats (agentStartedAtMS s) (lastSuccessAtMS s) (UnixMilli at_) (inc64 (consecutiveFailures s)) (successCount s)
    (inc64 (failureCount s)) (lastRoundTripMS s) (lastRequestBytes s) (lastResponseBytes s).

Record RuntimeObservation := MkRuntimeObservation {
  RoStats : RuntimeStats;
  CoreRestartCount : Z;
  CoreUnexpectedExitCount : option Z;
  LastCoreUnexpectedExitAtMS : Z
}.

(** [Observation]: the supervisor's snapshot wins over the bare restart count. *)
Definition StatsObservation (s : RuntimeStats) (coreRestarts : option Z) (status : option CoreStatus) : RuntimeObservation :=
  match status with
  | Some status =>
      MkRuntimeObservation s (CsRestartCount status) (Some (CsUnexpectedExitCount status))
        (match CsLastUnexpectedExitAt status with Some t => UnixMilli t | None => 0 end)
  | None => MkRuntimeObservation s (default 0 coreRestarts) None 0
  end.

(** ** Properties *)

Section outage.
Context `{Protocol} `{Conformance}.

(** Both ledgers as before. *)
Definition ledgers_kept (db db' : DB) : Prop :=
  client_runtime db' = client_runtime db /\ listener_runtime db' = listener_runtime db.

(** The outbox as before, or with one new issue waiting. *)
Definition one_issue_more (key : string) (db db' : DB) : Prop :=
  db' = db \/ exists payload atMS, outbox_find outboxIssue key (report_outbox db) = None /\ db' = outbox_insert outboxIssue key payload atMS db.

Definition outageService (s : ObservationService) : ObservationService :=
  if failing s then s else MkObservationService true ((episode s + 1) mod 2 ^ 64).

Lemma observeFail_spec s db env failure r s' db' :
  observeFail s db env failure = (r, s', db') ->
  s' = outageService s /\ one_issue_more (outageKey (oeStatus env) (episode s')) db db' /\
  (is_Ok r = true -> r = Ok (MkObservationResult false false) /\
     exists row, outbox_find outboxIssue (outageKey (oeStatus env) (episode s')) (report_outbox db') = Some row).
Proof.
  unfold observeFail. fold (outageService s).
  destruct (RecordIssue _ _ _ _) as [[created d]|e] eqn:Hr; intros [= <- <- <-]; (split; [done|]).
  - apply RecordIssue_Ok in Hr as [(row & Hf & _ & ->)|(Hn & _ & payload & ->)]; cbn [IssDedupeKey] in *.
    + split; [by left|]. eauto.
    + split; [right; eauto|]. intros _. split; [done|]. apply outbox_find_insert.
  - split; [by left|done].
Qed.

(** What one observation may do, by outcome. *)
Lemma Observe_cases s db env r s' db' :
  Observe s db env = (r, s', db') ->
  (db' = db /\ s' = s /\ (r = Ok (MkObservationResult false false) \/ is_Ok r = false)) \/
  (exists changed counters, oeTelemetry env = Ok counters /\ r = Ok (MkObservationResult true changed) /\
     s' = MkObservationService false (episode s) /\
     ApplyCounterBatch db (counterBatch counters) (UnixMilli (oeNow env)) = Ok (changed, db')) \/
  (exists failure, is_Ok (CoreDeploymentOf db) = true /\ observeFail s db env failure = (r, s', db')).
Proof.
  unfold Observe. destruct (CoreDeploymentOf db) as [d|e] eqn:Hd.
  2:{ intros Ho. left. destruct e; injection Ho as <- <- <-; eauto. }
  destruct (oeTelemetry env) as [counters|e]; [|right; right; eauto].
  case_decide; [intros [= <- <- <-]; left; eauto|].
  destruct (ApplyCounterBatch _ _ _) as [[changed d']|e] eqn:Hb; [|right; right; eauto].
  intros [= <- <- <-]. right. left. eauto 10.
Qed.

(** Telemetry never harms.  One observation either stores a whole sample, and then
    says whether a gate moved, or leaves both ledgers exactly as they were and adds
    at most one issue; in either case no task, no document and no deployment
    changes. *)
Theorem observation_is_atomic s db env r s' db' :
  Observe s db env = (r, s', db') ->
  stream_documents db' = stream_documents db /\ task_executions db' = task_executions db /\ core_deployment db' = core_deployment db /\
  ((exists changed counters, r = Ok (MkObservationResult true changed) /\ oeTelemetry env = Ok counters /\ report_outbox db' = report_outbox db /\
      Forall (fun c => exists row, client_runtime db' !! CoKey c = Some row /\ UpBytes row = CoUpBytes c /\ DownBytes row = CoDownBytes c)
        (CoClients counters) /\
      (changed = true <-> exists k, gateOf (client_runtime db) k <> gateOf (client_runtime db') k)) \/
   (r = Ok (MkObservationResult false false) \/ is_Ok r = false) /\ ledgers_kept db db' /\
     one_issue_more (outageKey (oeStatus env) (episode s')) db db').
Proof.
  intros [(-> & -> & Hr)|[(changed & counters & Ht & -> & -> & Hb)|(failure & _ & Hf)]]%Observe_cases.
  - split_and!; try done. right. split_and!; try done. by left.
  - pose proof (ApplyCounterBatch_frame _ _ _ _ _ Hb) as Hfr. rewrite Hfr. split_and!; try done. left. exists changed, counters.
    split_and!; try done; rewrite <-Hfr; [|exact (ApplyCounterBatch_gates _ _ _ _ _ Hb)].
    apply Forall_forall. intros c Hc. apply (ApplyCounterBatch_client _ _ _ _ _ (clientUpdate c) Hb).
    simpl. by apply list_elem_of_fmap_2.
  - apply observeFail_spec in Hf as (-> & Hone & Hok). assert (ledgers_kept db db' /\ stream_documents db' = stream_documents db /\
      task_executions db' = task_executions db /\ core_deployment db' = core_deployment db) as (Hl & Hs & Htk & Hc).
    { destruct Hone as [->|(payload & atMS & _ & ->)]; done. }
    split_and!; try done. right. split; [|done]. destruct r as [x|]; [left; by apply Hok|by right].
Qed.

Fixpoint observeAll (s : ObservationService) (db : DB) (envs : list observeEnv) : ObservationService * DB :=
  match envs with
  | [] => (s, db)
  | env :: envs => let '(_, s', db') := Observe s db env in observeAll s' db' envs
  end.

(** A failed collection under a known core. *)
Definition outage (status : CoreStatus) (env : observeEnv) : Prop := is_Ok (oeTelemetry env) = false /\ oeStatus env = status.

Lemma one_issue_more_deployment key db db' : one_issue_more key db db' -> CoreDeploymentOf db' = CoreDeploymentOf db.
Proof. by intros [->|(payload & atMS & _ & ->)]. Qed.

Lemma Observe_outage s db env : is_Ok (CoreDeploymentOf db) = true -> is_Ok (oeTelemetry env) = false ->
  exists failure, Observe s db env = observeFail s db env failure.
Proof. intros Hd Ht. unfold Observe. destruct (CoreDeploymentOf db); [|done]. destruct (oeTelemetry env); [done|]. by eauto. Qed.

(** One outage, one issue.  Once an outage of a deployed core has been recorded,
    every further failed collection under the same core status changes neither the
    service nor the store, however long it lasts; and the key it was recorded under
    belongs to this episode only, so the next outage is a new issue. *)
Theorem one_issue_per_outage s db env s1 db1 envs :
  is_Ok (CoreDeploymentOf db) = true -> is_Ok (oeTelemetry env) = false ->
  Observe s db env = (Ok (MkObservationResult false false), s1, db1) -> Forall (outage (oeStatus env)) envs ->
  observeAll s1 db1 envs = (s1, db1) /\ failing s1 = true /\
  (exists row, outbox_find outboxIssue (outageKey (oeStatus env) (episode s1)) (report_outbox db1) = Some row) /\
  one_issue_more (outageKey (oeStatus env) (episode s1)) db db1 /\
  forall ep, 0 ≤ ep ≤ max_int64 -> 0 ≤ episode s1 ≤ max_int64 ->
    outageKey (oeStatus env) ep = outageKey (oeStatus env) (episode s1) -> ep = episode s1.
Proof.
  intros Hd Ht Ho Henvs. destruct (Observe_outage s db env Hd Ht) as (failure & He). rewrite He in Ho.
  apply observeFail_spec in Ho as (Hs1 & Hone & Hok). destruct (Hok eq_refl) as (_ & row & Hrow).
  assert (failing s1 = true) as Hfail by (rewrite Hs1; unfold outageService; by destruct (failing s) eqn:?).
  assert (is_Ok (CoreDeploymentOf db1) = true) as Hd1 by (by rewrite (one_issue_more_deployment _ _ _ Hone)).
  split_and!; try done; [|by eauto|].
  - induction Henvs as [|env' envs [Ht' Hst] _ IH]; [done|]. cbn [observeAll].
    destruct (Observe_outage s1 db1 env' Hd1 Ht') as (f' & ->). destruct (observeFail s1 db1 env' f') as [[r' s'] d'] eqn:Hf.
    apply observeFail_spec in Hf as (Hs' & Hone' & _). unfold outageService in Hs'. rewrite Hfail in Hs'. subst s'.
    destruct Hone' as [->|(payload & atMS & Hn & _)]; [exact IH|]. rewrite Hst in Hn. congruence.
  - intros ep Hep Hep1 Hk. unfold outageKey in Hk. rewrite <-!sapp_assoc in Hk. apply String.app_inj in Hk. by apply FormatInt_inj.
Qed.

End outage.

(** *** Readiness *)

(** Consecutive repetitions collapsed; [last] is what came before. *)
Fixpoint changes (last : option (option string)) (answers : list (option string)) : list (option string) :=
  match answers with
  | [] => []
  | a :: answers => if decide (last = Some a) then changes last answers else a :: changes (Some a) answers
  end.

Definition answerOf (check : option (option string)) : option string :=
  match check with Some answer => answer | None => Some errReadinessUnconfigured end.

Fixpoint gateRun (g : ReadinessGate) (checks : list (option (option string))) : list (option string) * list (option string) :=
  match checks with
  | [] => ([], [])
  | check :: checks =>
      let '(answer, g', told) := GateCheck g check in
      let '(answers, reports) := gateRun g' checks in (answer :: answers, told ++ reports)
  end.

(** The last answer the gate holds. *)
Definition gateLast (g : ReadinessGate) : option (option string) :=
  if observed g then Some (if gready g then None else Some (greason g)) else None.

Definition gate_wf (g : ReadinessGate) : Prop := gready g = true -> greason g = "".

Lemma GateCheck_spec g check : gate_wf g ->
  exists g', GateCheck g check = (answerOf check, g', if decide (gateLast g = Some (answerOf check)) then [] else [answerOf check]) /\
    gateLast g' = Some (answerOf check) /\ gate_wf g'.
Proof.
  intros Hwf. unfold GateCheck, gateLast, gate_wf in *. fold (answerOf check). set (a := answerOf check).
  destruct g as [[] rdy rsn]; cbn [observed gready greason] in *; simpl.
  2:{ eexists. split; [done|]. destruct a; simpl; split; done. }
  destruct (bool_decide (bool_decide (a = None) = rdy) && bool_decide (default "" a = rsn)) eqn:Hb.
  - apply andb_true_iff in Hb as [H1%bool_decide_eq_true H2%bool_decide_eq_true]. subst rdy rsn.
    eexists. rewrite decide_True by (by destruct a). split; [done|]. simpl. destruct a; done.
  - assert (Some (if rdy then None else Some rsn) <> Some a) as Hne.
    { intros [= <-]. destruct rdy; simpl in Hb; [by rewrite (Hwf eq_refl) in Hb|by rewrite bool_decide_eq_true_2 in Hb]. }
    rewrite (decide_False (P := Some (if rdy then None else Some rsn) = Some a)) by exact Hne. eexists. split; [done|]. by destruct a.
Qed.

Lemma gateRun_changes checks : forall g, gate_wf g ->
  gateRun g checks = (answerOf <$> checks, changes (gateLast g) (answerOf <$> checks)).
Proof.
  induction checks as [|check checks IH]; intros g Hg; [done|]. cbn [gateRun].
  destruct (GateCheck_spec g check Hg) as (g' & -> & Hl & Hg'). rewrite (IH g' Hg'), Hl. simpl. case_decide as Hd; [|done].
  by rewrite Hd.
Qed.

(** The gate never answers from memory and reports exactly the changes: whatever
    the checks say over time, each caller gets the current answer, and the owner is
    told the first one and then each one that differs from the one before. *)
Theorem readiness_reports_changes checks :
  gateRun NewReadinessGate checks = (answerOf <$> checks, changes None (answerOf <$> checks)).
Proof. by rewrite gateRun_changes. Qed.

(** *** Sync statistics *)

(** The outcomes of rounds, oldest first, with their times. *)
Definition recordRound (s : RuntimeStats) (round : bool * Z) : RuntimeStats :=
  if round.1 then RecordSuccess s round.2 else RecordFailure s round.2.

Definition trailingFailures (rounds : list (bool * Z)) : nat :=
  foldl (fun n (round : bool * Z) => if round.1 then 0%nat else S n) 0%nat rounds.

Definition count (ok : bool) (rounds : list (bool * Z)) : Z := Z.of_nat (length (filter (fun r => r.1 = ok) rounds)).

Definition lastAt (ok : bool) (rounds : list (bool * Z)) : Z :=
  foldl (fun at_ (round : bool * Z) => if decide (round.1 = ok) then UnixMilli round.2 else at_) 0 rounds.

Lemma count_snoc ok rounds round : count ok (rounds ++ [round]) = count ok rounds + (if decide (round.1 = ok) then 1 else 0).
Proof. unfold count. rewrite filter_app, length_app, filter_cons. case_decide; simpl; lia. Qed.

Lemma trailing_le rounds : (trailingFailures rounds <= length rounds)%nat.
Proof.
  induction rounds as [|[ok t] rounds IH] using rev_ind; [done|]. unfold trailingFailures in *. rewrite foldl_app, length_app. simpl.
  destruct ok; lia.
Qed.

Lemma inc64_small n : 0 ≤ n < max_uint64 -> inc64 n = n + 1.
Proof. unfold inc64, max_uint64. intros Hn. apply Z.mod_small. lia. Qed.

(** The statistics are exact: after any history shorter than the counters' range,
    the counts are the numbers of successful and failed rounds, the streak is the
    number of failures since the last success, and the times are those of the last
    round of each kind. *)
Theorem sync_stats_exact now rounds :
  Z.of_nat (length rounds) ≤ max_uint64 ->
  let s := foldl recordRound (NewRuntimeStats now) rounds in
  successCount s = count true rounds /\ failureCount s = count false rounds /\
  consecutiveFailures s = Z.of_nat (trailingFailures rounds) /\
  lastSuccessAtMS s = lastAt true rounds /\ lastFailureAtMS s = lastAt false rounds /\
  count true rounds + count false rounds = Z.of_nat (length rounds).
Proof.
  cbv zeta. induction rounds as [|[ok t] rounds IH] using rev_ind; [done|]. intros Hl. rewrite length_app in Hl. simpl in Hl.
  specialize (IH ltac:(lia)). destruct IH as (Hs & Hf & Hc & Hls & Hlf & Hsum). pose proof (trailing_le rounds).
  assert (0 ≤ count true rounds /\ 0 ≤ count false rounds) as [? ?] by (unfold count; lia).
  rewrite !count_snoc. unfold trailingFailures, lastAt in *. rewrite !foldl_app, length_app. simpl.
  set (s := foldl recordRound _ rounds) in *. unfold recordRound. cbn [fst snd]. destruct ok; simpl.
  - rewrite inc64_small by lia. split_and!; lia.
  - rewrite !inc64_small by lia. split_and!; lia.
Qed.

Module observation_example.
Import sample.
Import rounds_example.

Definition running : CoreStatus := MkCoreStatus ProcessRunning "xray" "1.8.0" "digest" 2 0 None (Some 7).
Definition deployed : DB := cdb core_example.converged_state.
Definition broken : observeEnv := MkObserveEnv (Err (Errorf "refused")) running 9000000 9.
Definition healthy : observeEnv :=
  MkObserveEnv (Ok (MkCoreCounters [MkCoreClientCounters "cli_8" true 40 2 1 []] [])) running 9000000 9.
Definition fresh : ObservationService := MkObservationService false 0.

Definition after_broken : res error ObservationResult * ObservationService * DB := Observe fresh deployed broken.
Definition after_healthy : res error ObservationResult * ObservationService * DB := Observe fresh deployed healthy.

Lemma one_issue_per_outage_witness :
  exists s1 db1, Observe fresh deployed broken = (Ok (MkObservationResult false false), s1, db1) /\
    observeAll s1 db1 [broken; broken] = (s1, db1).
Proof.
  exists after_broken.1.2, after_broken.2.
  assert (Observe fresh deployed broken = (Ok (MkObservationResult false false), after_broken.1.2, after_broken.2)) as Ho
    by (vm_compute; reflexivity).
  split; [exact Ho|].
  apply (one_issue_per_outage fresh deployed broken after_broken.1.2 after_broken.2 [broken; broken]).
  - vm_compute. reflexivity.
  - reflexivity.
  - exact Ho.
  - repeat constructor.
Defined.

Lemma observation_is_atomic_witness :
  exists row, client_runtime after_healthy.2 !! "cli_8" = Some row /\ UpBytes row = 40.
Proof.
  assert (Observe fresh deployed healthy = (after_healthy.1.1, after_healthy.1.2, after_healthy.2)) as Ho
    by (unfold after_healthy; by destruct (Observe fresh deployed healthy) as [[? ?] ?]).
  assert (is_Ok after_healthy.1.1 = true /\ (Collected <$> after_healthy.1.1) = Ok true) as [Hok Hcol] by (vm_compute; split; reflexivity).
  destruct (observation_is_atomic fresh deployed healthy _ _ _ Ho) as (_ & _ & _ & [(ch & counters & _ & Ht & _ & Hc & _)|([Hr|Hr] & _)]).
  - injection Ht as <-. apply Forall_cons in Hc as [(row & Hrow & Hup & _) _]. exists row. split; [exact Hrow|exact Hup].
  - exfalso. clear -Hr Hcol. rewrite Hr in Hcol. discriminate Hcol.
  - exfalso. clear -Hr Hok. rewrite Hok in Hr. discriminate Hr.
Defined.

Lemma sync_stats_exact_witness :
  consecutiveFailures (foldl recordRound (NewRuntimeStats 0) [(false, 1); (true, 2); (false, 3); (false, 4)]) = 2.
Proof. apply (sync_stats_exact 0 [(false, 1); (true, 2); (false, 3); (false, 4)]). vm_compute. discriminate. Defined.

End observation_example.
