(* ===== verification/XrayTelemetry.v ===== *)
(** * Xray telemetry ([internal/core/xray/telemetry.go])

    The counters of the running core, mapped by the deployment on record.  The
    decoders of its documents and of the command's answers are the class
    [XrayTelemetryJSON]; the command is a function of its arguments. *)
From S2P Require Import Prelude GoStrings Sha256 Protocol Store Clients Counters Deployment Catalog Documents Receive Outbox Issues Processor Rounds CoreRuntime Supervisor XrayCompiler Observation.

(** ** Decoding *)

(** [json.Unmarshal] at the types of this file: the clients of a roster, the tag
    and the raw settings of the inbounds, the names in settings, the counters with
    their raw value (absent is [None]), a quoted string, the online users. *)
Class XrayTelemetryJSON := {
  decodeClients : string -> option (list WClient);
  decodeInbounds : string -> option (list (string * string));
  decodeEmails : string -> option (list string);
  decodeStatRows : string -> option (list (string * option string));
  decodeQuoted : string -> option string;
  decodeUsers : string -> option (list (string * list string))
}.

(** The double quote. *)
Definition quote : ascii := ascii_of_nat 34.

Definition maxTelemetryOutput : Z := 16 * 2 ^ 20.

(** *** The command's output *)

Definition boundedWrite (limit : Z) (buffer value : string) : string :=
  if decide (len buffer < limit) then buffer +:+ take_str (Z.to_nat (limit - len buffer)) value else buffer.

(** The chunks the child writes, and whether it succeeds. *)
Definition runTelemetryCommand (chunks : list string) (succeeds : bool) : res error string :=
  if succeeds then Ok (foldl (boundedWrite (maxTelemetryOutput + 1)) "" chunks) else Err (Errorf "xray command").

(** [Telemetry.command]. *)
Definition limitOutput (answer : res error string) : res error string :=
  output ← answer;
  if decide (maxTelemetryOutput < len output) then Err (Errorf "Xray API output exceeds the limit") else Ok output.

Section telemetry.
Context `{XrayTelemetryJSON} `{Protocol} `{BodyCodec ConfigBody}.

Definition jsonInt64 (body : string) : option Z :=
  let body := TrimSpace body in
  match body with
  | EmptyString => None
  | String a _ =>
      text ← (if decide (a = quote) then decodeQuoted body else Some body);
      match ParseInt text with (n, None) => Some n | _ => None end
  end.

Definition listenerSeen (s : list string) (listener : WListener) : res error (list string) :=
  if decide (ListenerRowID (WLKey listener) = None) then Err (Errorf "applied listener key") else
  if decide (WLKey listener ∈ s) then Err (Errorf "applied listener is duplicated") else Ok (s ++ [WLKey listener]).

Definition decodeTelemetryConfig (body : string) : res error (list string) :=
  match UnmarshalBody body with
  | None => Err (Errorf "decode applied config")
  | Some config => res_foldl listenerSeen [] (CfgListeners config)
  end.

Definition emailStep (byEmail : gmap string string) (client : WClient) : res error (gmap string string) :=
  let email := Username (WCCredentials client) in
  if decide (email = "") then Err (Errorf "applied client has no statistics username") else
  if decide (is_Some (byEmail !! email)) then Err (Errorf "statistics username belongs to both") else
  Ok (<[email := WCKey client]> byEmail).

Definition decodeTelemetryRoster (body : string) : res error (list WClient * gmap string string) :=
  match decodeClients body with
  | None => Err (Errorf "decode applied roster")
  | Some clients => byEmail ← res_foldl emailStep ∅ clients; Ok (clients, byEmail)
  end.

Definition presenceUser (byEmail : gmap string string) (clients : gset string) (email : string) : res error (gset string) :=
  match byEmail !! email with
  | None => Err (Errorf "applied Xray inbound contains unknown statistics username")
  | Some key => Ok ({[key]} ∪ clients)
  end.

Definition presenceStep (byEmail : gmap string string) (s : gset string * gset string) (inbound : string * string)
    : res error (gset string * gset string) :=
  let '(listeners, clients) := s in
  match CutPrefix inbound.1 "psp-" with
  | None => Ok s
  | Some key =>
      if decide (ListenerRowID key = None) then Err (Errorf "applied Xray inbound tag") else
      match (if decide (inbound.2 = "") then Some [] else decodeEmails inbound.2) with
      | None => Err (Errorf "decode applied Xray inbound clients")
      | Some emails => clients ← res_foldl (presenceUser byEmail) clients emails; Ok ({[key]} ∪ listeners, clients)
      end
  end.

(** The listeners and the clients of the artifact. *)
Definition decodeXrayPresence (artifact : string) (byEmail : gmap string string) : res error (gset string * gset string) :=
  match decodeInbounds artifact with
  | None => Err (Errorf "decode applied Xray artifact")
  | Some inbounds => res_foldl (presenceStep byEmail) (∅, ∅) inbounds
  end.

Definition statStep (result : gmap string Z) (stat : string * Z) : res error (gmap string Z) :=
  if decide (stat.1 = "" \/ stat.2 < 0) then Err (Errorf "Xray returned an invalid counter name or value") else
  if decide (is_Some (result !! stat.1)) then Err (Errorf "Xray returned duplicate counter") else
  Ok (<[stat.1 := stat.2]> result).

Definition statValue (row : string * option string) : option (string * Z) :=
  n ← match row.2 with None => Some 0 | Some raw => jsonInt64 raw end; Some (row.1, n).

Definition decodeStats (body : string) : res error (gmap string Z) :=
  match decodeStatRows body ≫= mapM statValue with
  | None => Err (Errorf "decode Xray counters")
  | Some stats => res_foldl statStep ∅ stats
  end.

(** A user without addresses leaves no entry. *)
Definition onlineStep (result : gmap string (list string)) (user : string * list string) : res error (gmap string (list string)) :=
  if decide (user.1 = "") then Err (Errorf "Xray returned an online user without email") else
  if decide (is_Some (result !! user.1)) then Err (Errorf "Xray returned duplicate online user") else
  if decide ("" ∈ user.2) then Err (Errorf "Xray returned an empty online IP") else
  Ok (if decide (user.2 = []) then result else <[user.1 := user.2]> result).

Definition decodeOnline (body : string) : res error (gmap string (list string)) :=
  match decodeUsers body with
  | None => Err (Errorf "decode Xray online IPs")
  | Some users => res_foldl onlineStep ∅ users
  end.

(** ** Collecting *)

Definition clientRow_le (a b : CoreClientCounters) : Prop := String.le (CoKey a) (CoKey b).
Definition listenerRow_le (a b : CoreListenerCounters) : Prop := String.le (ClKey a) (ClKey b).
#[global] Instance clientRow_le_dec a b : Decision (clientRow_le a b).
Proof. unfold clientRow_le. apply _. Defined.
#[global] Instance listenerRow_le_dec a b : Decision (listenerRow_le a b).
Proof. unfold listenerRow_le. apply _. Defined.

Definition userStat (email direction : string) : string := "user>>>" +:+ email +:+ ">>>traffic>>>" +:+ direction.
Definition inboundStat (key direction : string) : string := "inbound>>>psp-" +:+ key +:+ ">>>traffic>>>" +:+ direction.

(** [clientEmail] inverts the map; the keys of a roster are unique. *)
Definition clientEmails (byEmail : gmap string string) : gmap string string :=
  map_fold (fun email key m => <[key := email]> m) ∅ byEmail.

Definition assembleCounters (listeners : list string) (roster : list WClient) (byEmail : gmap string string) (presentListeners presentClients : gset string)
    (stats : gmap string Z) (online : gmap string (list string)) (epoch : Z) : CoreCounters :=
  let clientRow client :=
    let email := default "" (clientEmails byEmail !! WCKey client) in
    MkCoreClientCounters (WCKey client) (bool_decide (WCKey client ∈ presentClients))
      (default 0 (stats !! userStat email "uplink")) (default 0 (stats !! userStat email "downlink")) epoch (default [] (online !! email)) in
  let listenerRow key :=
    MkCoreListenerCounters key (bool_decide (key ∈ presentListeners))
      (default 0 (stats !! inboundStat key "uplink")) (default 0 (stats !! inboundStat key "downlink")) epoch in
  MkCoreCounters (merge_sort clientRow_le (clientRow <$> roster)) (merge_sort listenerRow_le (listenerRow <$> listeners)).

Record Telemetry := MkTelemetry { tApiListen : string; tTimeout : Z }.

(** A timeout in nanoseconds. *)
Definition NewTelemetry (apiListen : string) (timeout : Z) : option Telemetry :=
  let apiListen := TrimSpace apiListen in
  let apiListen := if decide (apiListen = "") then defaultAPIListen else apiListen in
  if negb (validateLoopbackEndpoint apiListen) then None else
  Some (MkTelemetry apiListen (if decide (timeout ≤ 0) then 5 * second else timeout)).

Definition timeoutSeconds (t : Telemetry) : Z := Z.max 1 (Z.quot (tTimeout t + second - 1) second).

Definition serverArgs (t : Telemetry) : list string := ["--server=" +:+ tApiListen t; "--timeout=" +:+ FormatInt (timeoutSeconds t)].

Definition processIdentity (status : SupStatus) : string :=
  CsVersion (ssCore status) +:+ "|" +:+ ssBinaryPath status +:+ "|" +:+ CsConfigDigest (ssCore status) +:+ "|" +:+
  FormatInt (CsRestartCount (ssCore status)) +:+ "|" +:+ FormatInt (UnixNano (CsLastChangedAt (ssCore status))).

(** Everything before the namespace is claimed; [runCommand] is the binary and its
    arguments. *)
Definition collectParts (t : Telemetry) (runCommand : string -> list string -> res error string) (status : SupStatus) (db : DB)
    : res error (Z -> CoreCounters) :=
  let core := ssCore status in
  if decide (CsState core <> ProcessRunning) then Err (Errorf "xray process is not running") else
  if decide (CsEngine core <> "xray") then Err (Errorf "running core engine is not xray") else
  if decide (CsVersion core = "" \/ ssBinaryPath status = "" \/ CsConfigDigest core = "" \/ CsLastChangedAt core = None)
  then Err (Errorf "running Xray status is incomplete") else
  deployment ← CoreDeploymentOf db;
  if decide (CDEngine deployment <> "xray" \/ CDVersion deployment <> CsVersion core \/ CDConfigDigest deployment <> CsConfigDigest core)
  then Err (Errorf "running Xray status does not match the confirmed deployment snapshot") else
  listeners ← decodeTelemetryConfig (CDConfigBody deployment);
  '(roster, byEmail) ← decodeTelemetryRoster (CDRosterBody deployment);
  '(presentListeners, presentClients) ← decodeXrayPresence (CDArtifact deployment) byEmail;
  statsJSON ← limitOutput (runCommand (ssBinaryPath status) (["api"; "statsquery"] ++ serverArgs t));
  onlineJSON ← limitOutput (runCommand (ssBinaryPath status) (["api"; "statsonlineiplist"] ++ serverArgs t ++ ["-all"]));
  stats ← decodeStats statsJSON;
  online ← decodeOnline onlineJSON;
  Ok (assembleCounters listeners roster byEmail presentListeners presentClients stats online).

Definition Collect (t : Telemetry) (runCommand : string -> list string -> res error string) (seed : Z) (status : SupStatus) (db : DB)
    : res error (CoreCounters * DB) :=
  counters ← collectParts t runCommand status db;
  '(epoch, db') ← ClaimCoreCounterEpoch seed db (processIdentity status);
  Ok (counters epoch, db').

(** ** Lemmas *)

Lemma emails_Ok clients : forall m byEmail, res_foldl emailStep m clients = Ok byEmail ->
  NoDup (Username ∘ WCCredentials <$> clients) /\ (forall client, client ∈ clients -> m !! Username (WCCredentials client) = None) /\
  byEmail = list_to_map ((fun c => (Username (WCCredentials c), WCKey c)) <$> clients) ∪ m.
Proof.
  induction clients as [|c clients IH]; intros m byEmail; cbn [res_foldl].
  { intros [= <-]. split_and!; [constructor|set_solver|]. simpl. by rewrite (left_id_L ∅ (∪)). }
  intros (m1 & Hc & Hr)%bind_Ok. unfold emailStep in Hc. case_decide; [done|]. case_decide as Hs; [done|]. injection Hc as <-.
  apply IH in Hr as (Hn & Hm & ->). apply eq_None_not_Some in Hs.
  assert (Username (WCCredentials c) ∉ (Username ∘ WCCredentials <$> clients)) as Hnot.
  { intros (c' & He & Hin)%list_elem_of_fmap. specialize (Hm c' Hin). simpl in He. rewrite <-He, lookup_insert_eq in Hm. done. }
  split_and!.
  - by constructor.
  - intros c' [->|Hin]%elem_of_cons; [done|]. specialize (Hm c' Hin).
    destruct (decide (Username (WCCredentials c) = Username (WCCredentials c'))) as [He|He]; [by rewrite <-He|by rewrite lookup_insert_ne in Hm].
  - rewrite fmap_cons. simpl. rewrite <-insert_union_l. symmetry. apply insert_union_r. apply not_elem_of_list_to_map_1.
    rewrite <-list_fmap_compose. exact Hnot.
Qed.

Lemma byEmail_lookup clients byEmail email key : res_foldl emailStep ∅ clients = Ok byEmail ->
  byEmail !! email = Some key <-> exists client, client ∈ clients /\ Username (WCCredentials client) = email /\ WCKey client = key.
Proof.
  intros (Hn & _ & ->)%emails_Ok. rewrite (right_id_L ∅ (∪)), <-elem_of_list_to_map.
  - rewrite list_elem_of_fmap. naive_solver.
  - rewrite <-list_fmap_compose. exact Hn.
Qed.

Lemma clientEmails_lookup (m : gmap string string) :
  (forall e1 e2 key, m !! e1 = Some key -> m !! e2 = Some key -> e1 = e2) ->
  forall email key, clientEmails m !! key = Some email <-> m !! email = Some key.
Proof.
  unfold clientEmails.
  apply (map_fold_weak_ind (fun r (m : gmap string string) => (forall e1 e2 key, m !! e1 = Some key -> m !! e2 = Some key -> e1 = e2) ->
    forall email key, r !! key = Some email <-> m !! email = Some key)).
  { intros _ email key. by rewrite !lookup_empty. }
  clear m. intros e k m r Hnone IH Huniq email key.
  assert (forall e', m !! e' = Some k -> False) as Hk.
  { intros e' He'. assert (e' = e) as ->; [|congruence]. apply (Huniq e' e k); [|by rewrite lookup_insert_eq].
    rewrite lookup_insert_ne; [done|]. intros ->. congruence. }
  assert (forall email key, r !! key = Some email <-> m !! email = Some key) as IH'.
  { apply IH. intros e1 e2 k' He1 He2. apply (Huniq e1 e2 k'); (rewrite lookup_insert_ne; [done|intros ->; congruence]). }
  rewrite !lookup_insert. repeat case_decide; simplify_eq; try done.
  - split; [by intros [= ->]|]. intros He. by destruct (Hk email).
  - rewrite IH', Hnone. split; [done|by intros [= ->]].
Qed.

Lemma ParseUint_nonneg s : forall acc n e, 0 ≤ acc -> ParseUint acc s = (n, e) -> 0 ≤ n.
Proof.
  induction s as [|a s IH]; intros acc n e Hacc; simpl; [by intros [= <- _]|]. unfold digit_value. case_decide; [|intros [= <- _]; lia].
  case_decide; [intros [= <- _]; unfold max_uint64; lia|]. apply IH. lia.
Qed.

Lemma ParseInt_range s n : ParseInt s = (n, None) -> in_int64 n.
Proof.
  unfold ParseInt. destruct (match s with EmptyString => _ | String a s' => _ end) as [neg body]. case_decide; [done|].
  destruct (ParseUint 0 body) as [un e] eqn:Hu. apply ParseUint_nonneg in Hu; [|lia]. unfold in_int64, min_int64, max_int64.
  destruct e as [[]|]; [done| |]; destruct neg; case_decide; intros [= <-]; lia.
Qed.

Lemma statValue_typed row stat : statValue row = Some stat -> in_int64 stat.2.
Proof.
  unfold statValue. intros (n & Hn & [= <-])%bind_Some. simpl. destruct row as [name [raw|]]; simpl in Hn; [|injection Hn as <-; by vm_compute].
  unfold jsonInt64 in Hn. destruct (TrimSpace raw) as [|a b]; [done|]. apply bind_Some in Hn as (text & _ & Hn).
  destruct (ParseInt text) as [n' [e|]] eqn:Hp; [done|]. injection Hn as <-. by eapply ParseInt_range.
Qed.

(** The counters are non-negative int64 values. *)
Lemma decodeStats_typed body stats name v : decodeStats body = Ok stats -> stats !! name = Some v -> 0 ≤ v ≤ max_int64.
Proof.
  unfold decodeStats. destruct (decodeStatRows body ≫= mapM statValue) as [rows|] eqn:Hr; [|done]. apply bind_Some in Hr as (raw & _ & Hm).
  apply mapM_Some in Hm. intros Hf. revert name v.
  apply (res_foldl_inv statStep (fun m => forall name v, m !! name = Some v -> 0 ≤ v ≤ max_int64) rows ∅ stats); [| |done].
  - intros m [name v] m' Hm' Hin. unfold statStep. simpl. case_decide as Hv; [done|]. case_decide; [done|]. intros [= <-] name' v'.
    rewrite lookup_insert. case_decide; [|by apply Hm']. intros [= <-]. apply list_elem_of_lookup in Hin as [i Hi].
    destruct (Forall2_lookup_r _ _ _ _ _ Hm Hi) as (row & _ & Hrow). apply statValue_typed in Hrow. unfold in_int64 in Hrow. simpl in Hrow. lia.
  - intros name v. by rewrite lookup_empty.
Qed.

Lemma presenceUsers_Ok byEmail emails : forall clients,
  (forall email, email ∈ emails -> is_Some (byEmail !! email)) ->
  exists clients', res_foldl (presenceUser byEmail) clients emails = Ok clients' /\
    forall key, key ∈ clients' <-> key ∈ clients \/ exists email, email ∈ emails /\ byEmail !! email = Some key.
Proof.
  induction emails as [|e emails IH]; intros clients Hall; cbn [res_foldl]; [exists clients; set_solver|].
  destruct (Hall e) as [k Hk]; [left|]. assert (presenceUser byEmail clients e = Ok ({[k]} ∪ clients)) as -> by (unfold presenceUser; by rewrite Hk). cbn [mbind res_bind].
  destruct (IH ({[k]} ∪ clients)) as (clients' & Hr & Hin); [set_solver|]. exists clients'. split; [done|]. intros key. rewrite Hin, elem_of_union, elem_of_singleton.
  split; [|intros [?|(e' & [->|He']%elem_of_cons & ?)]; [by eauto| |by eauto]].
  - intros [[->|?]|(e' & ? & ?)]; [right; exists e; split; [left|done]|by left|right; exists e'; split; [by right|done]].
  - left. left. congruence.
Qed.

(** What [decodeXrayPresence] reads in one inbound of the node. *)
Definition readable (byEmail : gmap string string) (key : string) (emails : list string) (row : string * string) : Prop :=
  row.1 = "psp-" +:+ key /\ ListenerRowID key <> None /\ row.2 <> "" /\ decodeEmails row.2 = Some emails /\
  forall email, email ∈ emails -> is_Some (byEmail !! email).

Lemma CutPrefix_app p s : CutPrefix (p +:+ s) p = Some s.
Proof. induction p as [|a p IH]; [by destruct s|]. simpl. by rewrite decide_True. Qed.

Lemma presence_Ok byEmail rows : forall inbounds listeners clients, Forall2 (fun row inbound => readable byEmail row.1 row.2 inbound) rows inbounds ->
  exists listeners' clients', res_foldl (presenceStep byEmail) (listeners, clients) inbounds = Ok (listeners', clients') /\
    (forall key, key ∈ listeners' <-> key ∈ listeners \/ key ∈ rows.*1) /\
    (forall key, key ∈ clients' <-> key ∈ clients \/ exists row email, row ∈ rows /\ email ∈ row.2 /\ byEmail !! email = Some key).
Proof.
  induction rows as [|[k emails] rows IH]; intros inbounds listeners clients; inversion 1 as [|? [tag raw] ? ? Hr Hall]; subst; cbn [res_foldl].
  { exists listeners, clients. split_and!; [done|set_solver|]. intros key. split; [by left|]. intros [?|(? & ? & []%not_elem_of_nil & _)]; done. }
  destruct Hr as (Ht & Hid & Hraw & Hde & Hem). simpl in Ht, Hraw, Hde, Hem, Hid. subst tag.
  destruct (presenceUsers_Ok byEmail emails clients Hem) as (c1 & Hu & Hc1).
  assert (presenceStep byEmail (listeners, clients) ("psp-" +:+ k, raw) = Ok ({[k]} ∪ listeners, c1)) as ->.
  { unfold presenceStep. cbn [fst snd]. by rewrite CutPrefix_app, decide_False, (decide_False (P := raw = "")), Hde, Hu by done. }
  cbn [mbind res_bind].
  destruct (IH _ ({[k]} ∪ listeners) c1 Hall) as (ls & cs & -> & Hls & Hcs). exists ls, cs. split_and!; [done| |].
  - intros key. rewrite Hls. cbn. set_solver.
  - intros key. rewrite Hcs, Hc1. split.
    + intros [[?|(e & ? & ?)]|(row & e & ? & ? & ?)]; [by left|right|right]; [exists (k, emails), e; split_and!; [left|done|done]|exists row, e; split_and!; [by right|done|done]].
    + intros [?|(row & e & [->|Hin]%elem_of_cons & ? & ?)]; [by left; left|left; right; by exists e|right; by exists row, e].
Qed.

Lemma clientEmail_of clients byEmail client : res_foldl emailStep ∅ clients = Ok byEmail -> NoDup (WCKey <$> clients) -> client ∈ clients ->
  clientEmails byEmail !! WCKey client = Some (Username (WCCredentials client)).
Proof.
  intros He Hn Hin. apply clientEmails_lookup; [|apply (byEmail_lookup clients); [done|by exists client]]. intros e1 e2 key.
  rewrite !(byEmail_lookup _ _ _ _ He). intros (c1 & H1c & <- & <-) (c2 & H2c & <- & Hk). by rewrite (NoDup_fmap_elem WCKey clients c2 c1 Hn H2c H1c Hk).
Qed.

Lemma collectParts_Ok t run status db f : collectParts t run status db = Ok f ->
  let core := ssCore status in
  CsState core = ProcessRunning /\ exists d listeners clients byEmail pl pc statsJSON stats online,
    CoreDeploymentOf db = Ok d /\ CDEngine d = CsEngine core /\ CDVersion d = CsVersion core /\ CDConfigDigest d = CsConfigDigest core /\
    decodeClients (CDRosterBody d) = Some clients /\ res_foldl emailStep ∅ clients = Ok byEmail /\ decodeXrayPresence (CDArtifact d) byEmail = Ok (pl, pc) /\
    run (ssBinaryPath status) (["api"; "statsquery"] ++ serverArgs t) = Ok statsJSON /\ decodeStats statsJSON = Ok stats /\
    f = assembleCounters listeners clients byEmail pl pc stats online.
Proof.
  unfold collectParts. cbv zeta. case_decide as Hs; [done|]. case_decide as He; [done|]. case_decide as Hi; [done|]. intros (d & Hd & Hr)%bind_Ok.
  case_decide as Hm; [done|]. apply bind_Ok in Hr as (listeners & _ & Hr). apply bind_Ok in Hr as ([clients byEmail] & Hros & Hr).
  apply bind_Ok in Hr as ([pl pc] & Hp & Hr). apply bind_Ok in Hr as (statsJSON & Hj & Hr). apply bind_Ok in Hr as (onlineJSON & _ & Hr).
  apply bind_Ok in Hr as (stats & Hst & Hr). apply bind_Ok in Hr as (online & _ & [= <-]).
  unfold decodeTelemetryRoster in Hros. destruct (decodeClients (CDRosterBody d)) as [cs|] eqn:Hcs; [|done]. apply bind_Ok in Hros as (m & Hm' & [= -> ->]).
  unfold limitOutput in Hj. apply bind_Ok in Hj as (out & Hj & Hlim). case_decide; [done|]. injection Hlim as <-.
  split; [done|]. exists d, listeners, clients, byEmail, pl, pc, out, stats, online. rewrite He.
  split_and!; try done; apply dec_stable; intros Hne; apply Hm; eauto.
Qed.

(** A sample belongs to the deployment.  When a collection succeeds, the core is
    running the version and digest on record; there is one row per client of the
    recorded roster; each row holds what the core counted under that client's
    statistics name, as non-negative int64 values; and only the counter namespace
    is written. *)
Theorem sample_matches_deployment t run seed status db counters db' :
  Collect t run seed status db = Ok (counters, db') ->
  CsState (ssCore status) = ProcessRunning /\ db' = set_core_counter_epoch (core_counter_epoch db') db /\
  exists d clients statsJSON stats,
    CoreDeploymentOf db = Ok d /\ CDVersion d = CsVersion (ssCore status) /\ CDConfigDigest d = CsConfigDigest (ssCore status) /\
    decodeClients (CDRosterBody d) = Some clients /\ CoKey <$> CoClients counters ≡ₚ WCKey <$> clients /\
    run (ssBinaryPath status) (["api"; "statsquery"] ++ serverArgs t) = Ok statsJSON /\ decodeStats statsJSON = Ok stats /\
    (NoDup (WCKey <$> clients) -> forall client, client ∈ clients -> exists row, row ∈ CoClients counters /\ CoKey row = WCKey client /\
       CoUpBytes row = default 0 (stats !! userStat (Username (WCCredentials client)) "uplink") /\
       CoDownBytes row = default 0 (stats !! userStat (Username (WCCredentials client)) "downlink")) /\
    Forall (fun row => 0 ≤ CoUpBytes row ≤ max_int64 /\ 0 ≤ CoDownBytes row ≤ max_int64 /\ update_typed (clientUpdate row)) (CoClients counters).
Proof.
  unfold Collect. intros (f & Hf & Hr)%bind_Ok. apply bind_Ok in Hr as ([epoch d'] & Hc & [= <- <-]).
  apply collectParts_Ok in Hf as (Hs & d & ls & clients & byEmail & pl & pc & statsJSON & stats & online & Hd & _ & Hv & Hdig & Hcl & He & _ & Hj & Hst & ->).
  split; [done|]. split.
  { unfold ClaimCoreCounterEpoch in Hc. repeat (case_decide || case_match); simplify_eq; first [done|by destruct d']. }
  exists d, clients, statsJSON, stats. unfold assembleCounters. cbn [CoClients]. split_and!; try done.
  - by rewrite merge_sort_Permutation, <-list_fmap_compose.
  - intros Hn client Hin. eexists. rewrite merge_sort_Permutation. split; [by apply list_elem_of_fmap_2|]. cbn [CoKey CoUpBytes CoDownBytes].
    by rewrite (clientEmail_of clients).
  - rewrite merge_sort_Permutation. apply Forall_fmap, Forall_true. intros client. cbn.
    assert (forall name, 0 ≤ default 0 (stats !! name) ≤ max_int64) as Hb.
    { intros name. destruct (stats !! name) as [v|] eqn:Hl; simpl; [by eapply decodeStats_typed|by vm_compute]. }
    split_and!; try apply Hb. unfold update_typed, in_int64, min_int64. cbn. split; (split; [etrans; [|apply Hb]; lia|apply Hb]).
Qed.

Lemma emails_total clients : forall m, NoDup (Username ∘ WCCredentials <$> clients) ->
  (forall c, c ∈ clients -> Username (WCCredentials c) <> "" /\ m !! Username (WCCredentials c) = None) -> exists byEmail, res_foldl emailStep m clients = Ok byEmail.
Proof.
  induction clients as [|c clients IH]; intros m Hn Hall; cbn [res_foldl]; [by eexists|]. apply NoDup_cons in Hn as [Hc Hn].
  destruct (Hall c) as [Hne Hnone]; [left|]. assert (emailStep m c = Ok (<[Username (WCCredentials c) := WCKey c]> m)) as ->.
  { unfold emailStep. rewrite decide_False by done. rewrite decide_False by (rewrite Hnone; apply is_Some_None). done. }
  apply IH; [done|]. intros c' Hin. destruct (Hall c') as [Hne' Hnone']; [by right|]. split; [done|]. rewrite lookup_insert_ne; [done|].
  intros He. apply Hc, list_elem_of_fmap. by exists c'.
Qed.

(** ** Reading back what was compiled *)

Definition email_of (user : json) : string :=
  match user with JObj o => match o !! "email" with Some (JStr email) => email | _ => "" end | _ => "" end.

(** Decoding [text] gives each inbound's tag and the names of its users back. *)
Definition artifact_reads (config : xrayConfig) (text : string) : Prop :=
  exists rows, decodeInbounds text = Some rows /\
    Forall2 (fun (inbound : object) row => forall tag settings users, inbound !! "tag" = Some (JStr tag) -> inbound !! "settings" = Some (JObj settings) ->
      settings !! "clients" = Some (JArr users) -> row.1 = tag /\ row.2 <> "" /\ decodeEmails row.2 = Some (email_of <$> users)) (XcInbounds config) rows.

Context `{XrayJSON} (unicodeToLower : string -> string) (Load : res error (list Release)).

(** One inbound as the node reads it: its key and the names it lets in. *)
Definition reads_inbound (snapshot : Snapshot) (inbound : object) (ke : string * list string) : Prop :=
  inbound !! "tag" = Some (JStr ("psp-" +:+ ke.1)) /\ ke.1 ∈ WLKey <$> SnListeners snapshot /\
  ke.2 = Username ∘ WCCredentials <$> permitted (SnNow snapshot) (merge_sort client_le (SnClients snapshot)) ke.1.

Lemma credential_emails clients users : Forall2 credential_of clients users -> email_of <$> users = Username ∘ WCCredentials <$> clients.
Proof. induction 1 as [|c u cs us (o & -> & Ho & _) _ IH]; [done|]. rewrite !fmap_cons, IH. simpl. by rewrite Ho. Qed.

Lemma inbounds_readable c snapshot config text byEmail :
  compileConfig unicodeToLower Load c snapshot = Ok config -> artifact_reads config text ->
  (forall client, client ∈ SnClients snapshot -> is_Some (byEmail !! Username (WCCredentials client))) ->
  exists rows kes, decodeInbounds text = Some rows /\ Forall2 (reads_inbound snapshot) (XcInbounds config) kes /\
    Forall2 (fun ke row => readable byEmail ke.1 ke.2 row) kes rows.
Proof.
  intros Hc (rows & Hrows & Hall) Hby. exists rows. destruct (compileConfig_Ok _ _ _ _ _ Hc) as (_ & Hin & _). destruct (compileConfig_names _ _ _ _ _ Hc) as (_ & _ & Hid).
  revert Hin Hrows. generalize (XcInbounds config) as ins, Hall. clear Hall Hc. generalize (decodeInbounds text). intros o ins Hall Hin Hrows.
  assert (exists kes, Forall2 (reads_inbound snapshot) ins kes /\ Forall2 (fun ke row => readable byEmail ke.1 ke.2 row) kes rows) as (kes & ? & ?); [|by exists kes].
  clear Hrows o. induction Hall as [|i row ins rows Hi _ IH]; [by exists []|]. destruct IH as (kes & H1k & H2k); [set_solver|].
  destruct (Hin i) as (l & Hl & Htag & settings & users & Hset & Hus & Hcr); [left|]. destruct (Hi _ _ _ Htag Hset Hus) as (Ht & Hne & Hde).
  rewrite (credential_emails _ _ Hcr) in Hde. exists ((WLKey l, Username ∘ WCCredentials <$> permitted (SnNow snapshot) (merge_sort client_le (SnClients snapshot)) (WLKey l)) :: kes).
  split; constructor; try done; [split_and!; [done|by apply (list_elem_of_fmap_2 WLKey)|done]|]. split_and!; try done; [by apply Hid|].
  intros email (client & -> & (_ & Hcl)%list_elem_of_filter)%list_elem_of_fmap. apply Hby. by rewrite merge_sort_Permutation in Hcl.
Qed.

Definition statName (client : WClient) : string * string := (WCKey client, Username (WCCredentials client)).

Lemma statName_elem (l l' : list WClient) : statName <$> l = statName <$> l' ->
  forall x, x ∈ l -> exists y, y ∈ l' /\ WCKey x = WCKey y /\ Username (WCCredentials x) = Username (WCCredentials y).
Proof. intros He x Hx%(list_elem_of_fmap_2 statName). rewrite He in Hx. apply list_elem_of_fmap in Hx as (y & [= ? ?] & Hy). by exists y. Qed.

(** C18. Telemetry reads what the compiler wrote.  For a snapshot that compiles and an
    artifact that decodes to what was encoded, reading the roster and the artifact
    back succeeds; the listeners found are listeners of the snapshot and include
    every enabled one; and, the client keys being distinct, a client is found
    exactly when it was let in through one of them. *)
Theorem telemetry_reads_what_was_compiled c snapshot config text body clients :
  compileConfig unicodeToLower Load c snapshot = Ok config -> artifact_reads config text ->
  decodeClients body = Some clients -> statName <$> clients = statName <$> SnClients snapshot ->
  NoDup (WCKey <$> SnClients snapshot) ->
  exists byEmail present admitted, decodeTelemetryRoster body = Ok (clients, byEmail) /\ decodeXrayPresence text byEmail = Ok (present, admitted) /\
    (forall key, key ∈ present -> key ∈ WLKey <$> SnListeners snapshot) /\
    (forall l spec, l ∈ SnListeners snapshot -> decodeSpec (WLConfig l) = Some spec -> SpEnabled spec = true -> WLKey l ∈ present) /\
    (forall client, client ∈ SnClients snapshot ->
       WCKey client ∈ admitted <-> denied (SnNow snapshot) client = false /\ exists key, key ∈ present /\ key ∈ WCListeners client).
Proof.
  intros Hc Hreads Hdec Heq Hkeys. destruct (compileConfig_names _ _ _ _ _ Hc) as (Hn & Hne & _).
  assert (Username ∘ WCCredentials <$> clients = Username ∘ WCCredentials <$> SnClients snapshot) as Hnames.
  { apply (f_equal (fmap snd)) in Heq. by rewrite <-!list_fmap_compose in Heq. }
  destruct (emails_total clients ∅) as (byEmail & Hby); [by rewrite Hnames| |].
  { intros x (y & Hy & _ & Hu)%(statName_elem _ _ Heq). rewrite Hu, lookup_empty. split; [by apply Hne|done]. }
  assert (forall y, y ∈ SnClients snapshot -> byEmail !! Username (WCCredentials y) = Some (WCKey y)) as Hlook.
  { intros y (x & Hx & Hk & Hu)%(statName_elem _ _ (eq_sym Heq)). rewrite Hk, Hu. apply (byEmail_lookup clients); [done|by exists x]. }
  destruct (inbounds_readable c snapshot config text byEmail Hc Hreads) as (rows & kes & Hrows & Hkes & Hread); [by eauto|].
  destruct (presence_Ok byEmail kes rows ∅ ∅ Hread) as (present & admitted & Hp & Hpl & Hpc).
  destruct (compileConfig_Ok _ _ _ _ _ Hc) as (_ & _ & Hen & _).
  exists byEmail, present, admitted. unfold decodeTelemetryRoster, decodeXrayPresence. rewrite Hdec, Hrows, Hby. split_and!; try done.
  - intros key [[]%not_elem_of_empty|Hk]%Hpl. apply list_elem_of_fmap in Hk as (ke & -> & Hke). apply list_elem_of_lookup in Hke as [i Hi].
    by destruct (Forall2_lookup_r _ _ _ _ _ Hkes Hi) as (inbound & _ & _ & ? & _).
  - intros l spec Hl Hspec Hena. destruct (Hen l spec Hl Hspec Hena) as (i & Hi & Htag & _). apply Hpl. right. apply list_elem_of_lookup in Hi as [j Hj].
    destruct (Forall2_lookup_l _ _ _ _ _ Hkes Hj) as (ke & Hke & Htag' & _). rewrite Htag in Htag'. injection Htag' as Hk%String.app_inj. 
    apply list_elem_of_fmap. exists ke. split; [done|by eapply list_elem_of_lookup_2].
  - intros client Hcl. rewrite Hpc. split.
    + intros [[]%not_elem_of_empty|([k emails] & email & Hke & Hem & Hl)]. pose proof Hke as Hke'. apply list_elem_of_lookup in Hke as [i Hi].
      destruct (Forall2_lookup_r _ _ _ _ _ Hkes Hi) as (inbound & _ & _ & _ & Hnm). simpl in Hnm, Hem. subst emails.
      apply list_elem_of_fmap in Hem as (y & -> & [[Hden Hat] Hy]%list_elem_of_filter). rewrite merge_sort_Permutation in Hy. simpl in Hl. rewrite (Hlook y Hy) in Hl.
      injection Hl as Hk. rewrite (NoDup_fmap_elem WCKey _ _ _ Hkeys Hy Hcl Hk) in Hden, Hat. split; [done|]. exists k. split; [|done]. apply Hpl. right.
      by apply (list_elem_of_fmap_2 fst) in Hke'.
    + intros (Hden & key & Hpk & Hat). right. apply Hpl in Hpk as [[]%not_elem_of_empty|Hk]. apply list_elem_of_fmap in Hk as (ke & -> & Hke).
      exists ke, (Username (WCCredentials client)). split_and!; [done| |by apply Hlook]. apply list_elem_of_lookup in Hke as [i Hi].
      destruct (Forall2_lookup_r _ _ _ _ _ Hkes Hi) as (inbound & _ & _ & _ & ->). apply (list_elem_of_fmap_2 (Username ∘ WCCredentials)).
      apply list_elem_of_filter. by rewrite merge_sort_Permutation.
Qed.

(** *** Output *)

Lemma boundedWrite_full limit chunks : forall buffer, limit ≤ len buffer -> foldl (boundedWrite limit) buffer chunks = buffer.
Proof. induction chunks as [|c chunks IH]; intros buffer Hb; simpl; [done|]. unfold boundedWrite at 2. rewrite decide_False by lia. by apply IH. Qed.

Lemma substring_all n c : (String.length c ≤ n)%nat -> String.substring 0 n c = c.
Proof. revert n. induction c as [|a c IH]; intros [|n] Hn; simpl in *; try done; [lia|]. f_equal. apply IH. lia. Qed.

Lemma boundedWrite_case limit buffer value : len buffer < limit ->
  boundedWrite limit buffer value = buffer +:+ value \/ limit ≤ len (boundedWrite limit buffer value).
Proof.
  intros Hb. unfold boundedWrite. rewrite decide_True by done. unfold len in *. set (n := Z.to_nat _). destruct (decide (String.length value ≤ n)%nat) as [Hle|Hgt].
  - left. unfold take_str. by rewrite substring_all.
  - right. rewrite length_sapp, take_str_length by lia. lia.
Qed.

Lemma boundedWrite_whole limit chunks : forall buffer, len buffer < limit -> len (foldl (boundedWrite limit) buffer chunks) < limit ->
  foldl (boundedWrite limit) buffer chunks = foldl String.app buffer chunks.
Proof.
  induction chunks as [|c chunks IH]; intros buffer Hb; simpl; [done|]. destruct (boundedWrite_case limit buffer c Hb) as [He|Hfull].
  - rewrite He. intros Hout. destruct (decide (len (buffer +:+ c) < limit)); [by apply IH|]. rewrite boundedWrite_full in Hout by lia. lia.
  - rewrite boundedWrite_full by done. lia.
Qed.

(** An answer is whole or refused: the output limit never truncates what is
    decoded. *)
Theorem output_whole_or_refused chunks succeeds out :
  limitOutput (runTelemetryCommand chunks succeeds) = Ok out -> succeeds = true /\ out = foldl String.app "" chunks /\ len out ≤ maxTelemetryOutput.
Proof.
  unfold limitOutput, runTelemetryCommand. destruct succeeds; [|done]. cbn [mbind res_bind]. case_decide as Hl; [done|]. intros [= <-].
  split_and!; [done| |lia]. apply boundedWrite_whole; [vm_compute; done|lia].
Qed.

(** *** Without a running core *)

Lemma Collect_needs_running t run seed status db : CsState (ssCore status) <> ProcessRunning -> is_Ok (Collect t run seed status db) = false.
Proof. intros Hs. unfold Collect, collectParts. by rewrite decide_True. Qed.

End telemetry.

Module telemetry_example.
Import sample.
Import rounds_example.
Import core_example.
Import compiler_example.

(** The core has counted for Alice, and she is online from one address. *)
#[export] Instance sample_telemetry : XrayTelemetryJSON := {|
  decodeClients text := Some (SnClients snapshot);
  decodeInbounds text := Some [("psp-lst_1", "{}")];
  decodeEmails text := Some ["alice"];
  decodeStatRows text := Some [("user>>>alice>>>traffic>>>uplink", Some " 40 "); ("user>>>alice>>>traffic>>>downlink", None)];
  decodeQuoted text := Some text;
  decodeUsers text := Some [("alice", ["10.0.0.1"])]
|}.

Definition adapter : Telemetry := MkTelemetry defaultAPIListen (5 * second).
Definition answers (binary : string) (args : list string) : res error string := Ok "{}".
Definition serving : SupStatus := MkSupStatus (MkCoreStatus ProcessRunning "xray" "1.8.0" (sha256_hex "{}") 0 0 None (Some 7)) "/opt/core" "" "".
Definition ledger : DB := cdb converged_state.

Lemma sample_matches_deployment_witness :
  exists counters db', Collect adapter answers 3 serving ledger = Ok (counters, db') /\
    exists row, row ∈ CoClients counters /\ CoKey row = "cli_1" /\ CoUpBytes row = 40.
Proof.
  destruct (Collect adapter answers 3 serving ledger) as [[counters db']|e] eqn:Hc; [|exfalso; vm_compute in Hc; discriminate Hc].
  exists counters, db'. split; [reflexivity|].
  destruct (sample_matches_deployment adapter answers 3 serving ledger counters db' Hc) as (_ & _ & d & clients & statsJSON & stats & _ & _ & _ & Hcl & _ & _ & Hst & Hrow & _).
  injection Hcl as <-. destruct (Hrow ltac:(apply (bool_decide_unpack _); vm_compute; exact I) (attached "cli_1" "usr_1" "alice" true 0)) as (row & Hin & Hk & Hup & _); [right; left|].
  exists row. split; [exact Hin|]. split; [exact Hk|]. rewrite Hup. vm_compute in Hst. injection Hst as <-. vm_compute. reflexivity.
Defined.

Lemma telemetry_reads_what_was_compiled_witness :
  exists byEmail present admitted, decodeTelemetryRoster "{}" = Ok (SnClients snapshot, byEmail) /\ decodeXrayPresence "{}" byEmail = Ok (present, admitted) /\
    "cli_1" ∈ admitted /\ "cli_2" ∉ admitted.
Proof.
  destruct (compileConfig (fun s => s) catalog xray snapshot) as [config|e] eqn:Hc; [|exfalso; vm_compute in Hc; discriminate Hc].
  destruct (telemetry_reads_what_was_compiled (fun s => s) catalog xray snapshot config "{}" "{}" (SnClients snapshot) Hc) as (byEmail & present & admitted & Hr & Hp & _ & Hen & Had).
  - exists [("psp-lst_1", "{}")]. split; [reflexivity|]. vm_compute in Hc. injection Hc as <-. repeat constructor; cbn [fst snd].
    + vm_compute in H. congruence.
    + discriminate.
    + vm_compute in H, H0. injection H0 as <-. vm_compute in H1. injection H1 as <-. vm_compute. reflexivity.
  - reflexivity.
  - reflexivity.
  - apply (bool_decide_unpack _). vm_compute. exact I.
  - exists byEmail, present, admitted. split; [exact Hr|]. split; [exact Hp|]. split.
    + apply (Had (attached "cli_1" "usr_1" "alice" true 0)); [right; left|]. split; [vm_compute; reflexivity|]. exists "lst_1". split; [|left].
      apply (Hen listener (MkListenerSpec true "" 443 "vless" "" "" "" "")); [left|reflexivity..].
    + intros Hin. apply (Had (attached "cli_2" "usr_2" "bob" true 5)) in Hin as [Hd _]; [|left]. vm_compute in Hd. discriminate Hd.
Defined.

Lemma output_whole_or_refused_witness : limitOutput (runTelemetryCommand ["a"; "b"] true) = Ok "ab" /\ "ab" = foldl String.app "" ["a"; "b"].
Proof.
  assert (limitOutput (runTelemetryCommand ["a"; "b"] true) = Ok "ab") as Hr by (vm_compute; reflexivity). split; [exact Hr|].
  exact (proj1 (proj2 (output_whole_or_refused ["a"; "b"] true "ab" Hr))).
Defined.

End telemetry_example.
