(* ===== verification/SingboxTelemetry.v ===== *)
(** * sing-box telemetry ([internal/core/singbox/telemetry.go] and [api.go])

    The core sends batches of connection events.  Each is translated with the names of
    the deployment on record and journalled by [ApplyCoreTrafficEvents]; counters are
    read from that journal.  The stream is a script of what is received, when. *)
From S2P Require Import Prelude GoStrings Sha256 NetIP Protocol Store Counters CoreTraffic Deployment Catalog Documents Receive Outbox Issues Processor Rounds CoreRuntime Supervisor XrayCompiler SingboxCompiler Observation XrayTelemetry.

(** ** Messages ([api.go]) *)

Record connection := MkConnection {
  cnID : string; cnInbound : string; cnSource : string; cnUser : string; cnClosedAt : Z; cnUplinkTotal : Z; cnDownlinkTotal : Z }.

Record connectionEvent := MkConnectionEvent {
  ceType : Z; ceID : string; ceConnection : option connection; ceUplinkDelta : Z; ceDownlinkDelta : Z; ceClosedAt : Z }.

Record connectionEvents := MkConnectionEvents { cvEvents : list (option connectionEvent); cvReset : bool }.

Definition connectionEventNew : Z := 0.
Definition connectionEventUpdate : Z := 1.
Definition connectionEventClosed : Z := 2.
Definition statusPollInterval : Z := 250 * 1000000.
Definition streamRetryMax : Z := 5 * second.

(** ** The names of a deployment *)

Record telemetryMapping := MkTelemetryMapping {
  tmListeners : list string;
  tmClients : list WClient;
  tmListenerByTag : gmap string string;
  tmClientByName : gmap string string;
  tmPresentListener : gset string;
  tmPresentClient : gset string
}.

Record connectionIdentity := MkIdentity { idClient : string; idListener : string; idSourceIP : string }.

#[global] Instance connectionIdentity_eq_dec : EqDecision connectionIdentity.
Proof. solve_decision. Defined.

(** The open connections, by id. *)
Notation connections := (gmap string connectionIdentity).

(** [json.Unmarshal] of an artifact: the tag and the user names of its inbounds. *)
Class SingboxTelemetryJSON := decodeArtifact : string -> option (list (string * list string)).

Definition key_le (a b : string) : Prop := String.le a b.
#[global] Instance key_le_dec a b : Decision (key_le a b).
Proof. unfold key_le. apply _. Defined.

Section telemetry.
Context `{SingboxTelemetryJSON} `{Protocol} `{BodyCodec ConfigBody, BodyCodec RosterBody}.

Definition listenerTag (s : list string * gmap string string) (listener : WListener) : res error (list string * gmap string string) :=
  if decide (ListenerRowID (WLKey listener) = None) then Err (Errorf "applied listener key") else
  Ok (s.1 ++ [WLKey listener], <["psp-" +:+ WLKey listener := WLKey listener]> s.2).

(** After its key, a client's name is checked as for Xray. *)
Definition clientName (byName : gmap string string) (client : WClient) : res error (gmap string string) :=
  if decide (ClientRowID (WCKey client) = None) then Err (Errorf "applied client key") else emailStep byName client.

Definition presentUser (byName : gmap string string) (clients : gset string) (name : string) : res error (gset string) :=
  match byName !! name with
  | None => Err (Errorf "applied sing-box inbound contains unknown user")
  | Some client => Ok ({[client]} ∪ clients)
  end.

Definition presentInbound (byTag byName : gmap string string) (s : gset string * gset string) (inbound : string * list string) : res error (gset string * gset string) :=
  match byTag !! inbound.1 with
  | None => Err (Errorf "applied sing-box contains unknown inbound")
  | Some listener => clients ← res_foldl (presentUser byName) s.2 inbound.2; Ok ({[listener]} ∪ s.1, clients)
  end.

Definition decodeTelemetryMapping (deployment : CoreDeployment) : res error telemetryMapping :=
  match UnmarshalBody (T := ConfigBody) (CDConfigBody deployment) with
  | None => Err (Errorf "decode applied config")
  | Some desiredConfig =>
  match UnmarshalBody (T := RosterBody) (CDRosterBody deployment) with
  | None => Err (Errorf "decode applied roster")
  | Some desiredRoster =>
      '(listeners, byTag) ← res_foldl listenerTag ([], ∅) (CfgListeners desiredConfig);
      byName ← res_foldl clientName ∅ (RosClients desiredRoster);
      match decodeArtifact (CDArtifact deployment) with
      | None => Err (Errorf "decode applied sing-box artifact")
      | Some inbounds =>
          '(presentListeners, presentClients) ← res_foldl (presentInbound byTag byName) (∅, ∅) inbounds;
          Ok (MkTelemetryMapping (merge_sort key_le listeners) (merge_sort client_le (RosClients desiredRoster)) byTag byName presentListeners presentClients)
      end
  end
  end.

Definition processIdentity (status : SupStatus) : string :=
  CsEngine (ssCore status) +:+ "|" +:+ CsVersion (ssCore status) +:+ "|" +:+ ssBinaryPath status +:+ "|" +:+ CsConfigDigest (ssCore status) +:+ "|" +:+
  FormatInt (CsRestartCount (ssCore status)) +:+ "|" +:+ FormatInt (UnixNano (CsLastChangedAt (ssCore status))).

Definition confirmedMapping (status : SupStatus) (db : DB) : res error telemetryMapping :=
  let core := ssCore status in
  if decide (CsEngine core <> "sing-box" \/ CsVersion core = "" \/ ssBinaryPath status = "" \/ CsConfigDigest core = "" \/ CsLastChangedAt core = None)
  then Err (Errorf "running sing-box status is incomplete") else
  deployment ← CoreDeploymentOf db;
  if decide (CDEngine deployment <> "sing-box" \/ CDVersion deployment <> CsVersion core \/ CDConfigDigest deployment <> CsConfigDigest core)
  then Err (Errorf "running sing-box status does not match the confirmed deployment snapshot") else
  decodeTelemetryMapping deployment.

(** ** Translation *)

Definition identifyConnection (value : connection) (mapping : telemetryMapping) : res error connectionIdentity :=
  match tmListenerByTag mapping !! cnInbound value with
  | None => Err (Errorf "unknown managed inbound")
  | Some listener =>
  match tmClientByName mapping !! cnUser value with
  | None => Err (Errorf "unknown managed user")
  | Some client =>
  match SplitHostPort (cnSource value) with
  | None => Err (Errorf "source")
  | Some (host, _) =>
  match ParseAddr host with
  | None => Err (Errorf "source IP")
  | Some address => Ok (MkIdentity client listener (AddrString (Unmap address)))
  end end end end.

Definition firstPositive (values : list Z) : Z := default 0 (head (filter (fun value => 0 < value) values)).

(** The absolute counters of an event's connection. *)
Definition absoluteCounters (event : connectionEvent) : option connection :=
  match ceConnection event with
  | Some value => if decide (cnUplinkTotal value < 0 \/ cnDownlinkTotal value < 0) then None else Some value
  | None => None
  end.

Definition translateEvent (event : connectionEvent) (identity : connectionIdentity) : res error CoreTrafficEvent :=
  let translated := MkCoreTrafficEvent (ceID event) (idClient identity) (idListener identity) (idSourceIP identity) in
  if decide (ceType event = connectionEventNew) then
    match absoluteCounters event with
    | None => Err (Errorf "new event lacks valid absolute counters")
    | Some value => Ok (translated true (cnUplinkTotal value) (cnDownlinkTotal value) (bool_decide (0 < cnClosedAt value)) (cnClosedAt value))
    end
  else if decide (ceType event = connectionEventUpdate) then Ok (translated false (ceUplinkDelta event) (ceDownlinkDelta event) false 0)
  else if decide (ceType event = connectionEventClosed) then
    match absoluteCounters event with
    | None => Err (Errorf "close event lacks valid absolute counters")
    | Some value =>
        let closedAt := firstPositive [ceClosedAt event; cnClosedAt value] in
        if decide (closedAt ≤ 0) then Err (Errorf "close event lacks timestamp")
        else Ok (translated true (cnUplinkTotal value) (cnDownlinkTotal value) true closedAt)
    end
  else Err (Errorf "unknown event type").

(** The events translated so far and the connections they leave open. *)
Definition translateStep (mapping : telemetryMapping) (s : list CoreTrafficEvent * connections) (event : option connectionEvent)
    : res error (list CoreTrafficEvent * connections) :=
  match event with
  | None => Err (Errorf "sing-box returned an invalid connection event")
  | Some event =>
      if decide (TrimSpace (ceID event) = "" \/ ceUplinkDelta event < 0 \/ ceDownlinkDelta event < 0) then Err (Errorf "sing-box returned an invalid connection event") else
      identity ← match ceConnection event with
                 | Some value => identifyConnection value mapping
                 | None => match s.2 !! ceID event with Some identity => Ok identity | None => Err (Errorf "event arrived without metadata") end
                 end;
      translated ← translateEvent event identity;
      Ok (s.1 ++ [translated], if Closed translated then delete (ceID event) s.2 else <[ceID event := identity]> s.2)
  end.

Definition translateConnectionEvents (message : option connectionEvents) (mapping : telemetryMapping) (current : connections)
    : res error (list CoreTrafficEvent * connections) :=
  match message with
  | None => Err (Errorf "nil sing-box connection event batch")
  | Some message => res_foldl (translateStep mapping) ([], if cvReset message then ∅ else current) (cvEvents message)
  end.

(** ** The stream *)

Record streamState := MkStreamState { stConnections : connections; stFirst : bool }.

Definition still (identity : string) (current : SupStatus) : Prop :=
  processIdentity current = identity /\ CsEngine (ssCore current) = "sing-box" /\ CsState (ssCore current) = ProcessRunning.

#[global] Instance still_dec identity current : Decision (still identity current).
Proof. unfold still. apply _. Defined.

(** One message; [current] is the status when it arrives. *)
Definition receiveMessage (identity : string) (mapping : telemetryMapping) (current : SupStatus) (message : connectionEvents) (s : streamState) (db : DB)
    : res error (streamState * DB) :=
  if stFirst s && negb (cvReset message) then Err (Errorf "initial connection event batch is not a reset snapshot") else
  if decide (~ still identity current) then Err (Errorf "running core changed during telemetry stream") else
  '(events, nextConnections) ← translateConnectionEvents (Some message) mapping (stConnections s);
  db' ← ApplyCoreTrafficEvents db identity (cvReset message) events;
  Ok (MkStreamState nextConnections false, db').

(** What one [Recv] returns, the status then, and what the rest of the node did to
    the database since the last one. *)
Record arrival := MkArrival { arMessage : res error connectionEvents; arStatus : SupStatus; arElsewhere : DB -> DB }.

(** The loop: its error, or [None] while it waits for more. *)
Fixpoint receiveAll (identity : string) (mapping : telemetryMapping) (script : list arrival) (s : streamState) (db : DB) : option error * streamState * DB :=
  match script with
  | [] => (None, s, db)
  | a :: rest =>
      let db := arElsewhere a db in
      match arMessage a with
      | Err e => (Some e, s, db)
      | Ok message =>
          match receiveMessage identity mapping (arStatus a) message s db with
          | Err e => (Some e, s, db)
          | Ok (s', db') => receiveAll identity mapping rest s' db'
          end
      end
  end.

(** [dialed] is the outcome of dialling and subscribing. *)
Definition stream (observed : SupStatus) (dialed : option error) (script : list arrival) (db : DB) : option error * streamState * DB :=
  let s := MkStreamState ∅ true in
  match confirmedMapping observed db with
  | Err e => (Some e, s, db)
  | Ok mapping =>
      match dialed with
      | Some e => (Some e, s, db)
      | None => receiveAll (processIdentity observed) mapping script s db
      end
  end.

(** One turn of [Run]: how long it waits, and the next retry. *)
Definition telemetryTurn (status : SupStatus) (streamed : option error) (retry : Z) : option Z * Z :=
  if decide (CsState (ssCore status) <> ProcessRunning \/ CsEngine (ssCore status) <> "sing-box") then (Some statusPollInterval, statusPollInterval) else
  match streamed with
  | Some _ => (Some retry, if decide (streamRetryMax < retry * 2) then streamRetryMax else retry * 2)
  | None => (None, statusPollInterval)
  end.

(** ** Collection *)

Definition noTraffic : CoreTrafficValue := MkCoreTrafficValue 0 0 [].

Definition assembleSingBoxCounters (mapping : telemetryMapping) (snapshot : CoreTrafficSnapshot) (epoch : Z) : CoreCounters :=
  MkCoreCounters
    ((fun client => let value := default noTraffic (SnapClients snapshot !! WCKey client) in
        MkCoreClientCounters (WCKey client) (bool_decide (WCKey client ∈ tmPresentClient mapping)) (TVUp value) (TVDown value) epoch (TVLiveIPs value)) <$> tmClients mapping)
    ((fun listener => let value := default noTraffic (SnapListeners snapshot !! listener) in
        MkCoreListenerCounters listener (bool_decide (listener ∈ tmPresentListener mapping)) (TVUp value) (TVDown value) epoch) <$> tmListeners mapping).

Definition Collect (seed : Z) (status : SupStatus) (db : DB) : res error (CoreCounters * DB) :=
  if decide (CsState (ssCore status) <> ProcessRunning) then Err (Errorf "sing-box process is not running") else
  if decide (CsEngine (ssCore status) <> "sing-box") then Err (Errorf "running core engine is not sing-box") else
  mapping ← confirmedMapping status db;
  snapshot ← CoreTrafficSnapshotOf db (processIdentity status);
  if negb (SnapReady snapshot) then Err (Errorf "sing-box telemetry stream has not completed its initial snapshot") else
  '(epoch, db') ← ClaimCoreCounterEpoch seed db (processIdentity status);
  Ok (assembleSingBoxCounters mapping snapshot epoch, db').

Record TelemetryOptions := MkTelemetryOptions { toAPIListen : string; toAPISecret : string }.

Definition NewTelemetry (options : TelemetryOptions) : option TelemetryOptions :=
  if negb (validateLoopbackEndpoint (toAPIListen options)) then None else
  if decide (TrimSpace (toAPISecret options) <> toAPISecret options \/ len (toAPISecret options) < 32) then None else Some options.

(** ** The connections in memory and those on record *)

Definition openRow (identity : string) (m : gmap (string * string) ConnectionRow) (id : string) (who : connectionIdentity) : Prop :=
  exists row, m !! (identity, id) = Some row /\ crClosed row = false /\ who = MkIdentity (crClient row) (crListener row) (crSourceIP row).

(** At one connection, memory and record agree. *)
Definition agrees (identity : string) (next : connections) (m : gmap (string * string) ConnectionRow) (id : string) : Prop :=
  forall who, next !! id = Some who <-> openRow identity m id who.

(** What a translated event does to the connections in memory. *)
Definition track (next : connections) (e : CoreTrafficEvent) : connections :=
  if Closed e then delete (ConnectionID e) next else <[ConnectionID e := MkIdentity (EClientKey e) (EListenerKey e) (SourceIP e)]> next.

Lemma translateEvent_Ok event identity e : translateEvent event identity = Ok e ->
  ConnectionID e = ceID event /\ identity = MkIdentity (EClientKey e) (EListenerKey e) (SourceIP e).
Proof.
  unfold translateEvent. destruct identity. destruct (absoluteCounters event); repeat case_decide; first [discriminate|by intros [= <-]].
Qed.

Lemma translateSteps_Ok mapping batch : forall s s', res_foldl (translateStep mapping) s batch = Ok s' ->
  exists events, s' = (s.1 ++ events, foldl track s.2 events).
Proof.
  induction batch as [|o batch IH]; intros s s'; cbn [res_foldl]; [intros [= <-]; exists []; destruct s; by rewrite app_nil_r|].
  intros (s1 & Hs & Hr)%bind_Ok. destruct (IH _ _ Hr) as (events & ->). destruct o as [event|]; [|done]. simpl in Hs. case_decide; [done|].
  apply bind_Ok in Hs as (who & _ & Hs). apply bind_Ok in Hs as (e & He & [= <-]). apply translateEvent_Ok in He as [Hid ->].
  exists (e :: events). cbn [fst snd foldl]. rewrite <-app_assoc, <-Hid. done.
Qed.

(** A key without content names no row. *)
Context (no_client : ClientRowID "" = None) (no_listener : ListenerRowID "" = None).

Lemma applied_row identity db e db' : validateCoreTrafficEvent e = Ok tt -> applyCoreTrafficEvent identity db e = Ok db' ->
  exists row, core_connection_traffic db' = <[(identity, ConnectionID e) := row]> (core_connection_traffic db) /\ crClosed row = Closed e /\
    MkIdentity (crClient row) (crListener row) (crSourceIP row) = MkIdentity (EClientKey e) (EListenerKey e) (SourceIP e).
Proof.
  intros Hv Ha. assert (EClientKey e <> "" /\ EListenerKey e <> "" /\ SourceIP e <> "" /\ (Closed e = true -> ClosedAtMS e <> 0)) as (Hc & Hl & Hip & Hclosed).
  { unfold validateCoreTrafficEvent in Hv. case_decide; [done|]. case_decide as Hc; [done|]. case_decide as Hl; [done|]. case_decide as Hip; [done|]. case_decide as Ht; [done|].
    split_and!; [congruence|congruence|intros He; by rewrite He in Hip|]. intros Hcl Hz. apply Ht. rewrite Hcl, Hz. right. right. right. done. }
  destruct (applyEvent_row _ _ _ _ Hclosed Ha) as (row & Hrow & [?|Hrc] & [?|Hrl] & [?|Hri] & Hcl & _); try done.
  exists row. rewrite Hrc, Hrl, Hri. split_and!; [|done..]. unfold applyCoreTrafficEvent in Ha. cbn zeta in Ha. case_decide; [done|].
  apply bind_Ok in Ha as ([[ck lk] ip] & _ & Ha). apply bind_Ok in Ha as ([up down] & _ & Ha). apply bind_Ok in Ha as (cl & _ & Ha). apply bind_Ok in Ha as (li & _ & [= <-]).
  simpl in Hrow |- *. rewrite lookup_insert_eq in Hrow. by injection Hrow as ->.
Qed.

Lemma track_agrees identity next m e row : crClosed row = Closed e -> MkIdentity (crClient row) (crListener row) (crSourceIP row) = MkIdentity (EClientKey e) (EListenerKey e) (SourceIP e) ->
  agrees identity (track next e) (<[(identity, ConnectionID e) := row]> m) (ConnectionID e).
Proof.
  intros Hc Hw who. unfold track, openRow. rewrite lookup_insert_eq. destruct (Closed e).
  - rewrite lookup_delete_eq. split; [done|]. intros (r & [= <-] & Hr & _). congruence.
  - rewrite lookup_insert_eq, <-Hw. split; [intros [= <-]; by exists row|]. by intros (r & [= <-] & _ & ->).
Qed.

Lemma track_elsewhere identity next m e row id : id <> ConnectionID e -> agrees identity next m id -> agrees identity (track next e) (<[(identity, ConnectionID e) := row]> m) id.
Proof.
  intros Hne Hag who. unfold openRow. rewrite lookup_insert_ne by congruence. rewrite <-(Hag who). unfold track. destruct (Closed e); [by rewrite lookup_delete_ne|by rewrite lookup_insert_ne].
Qed.

(** The loop over a batch settles every connection it names and leaves the others. *)
Lemma tracks_events identity events : Forall (fun e => validateCoreTrafficEvent e = Ok tt) events -> forall next db db',
  res_foldl (applyCoreTrafficEvent identity) db events = Ok db' ->
  forall id, agrees identity next (core_connection_traffic db) id \/ id ∈ ConnectionID <$> events -> agrees identity (foldl track next events) (core_connection_traffic db') id.
Proof.
  induction 1 as [|e events Hv _ IH]; intros next db db'; cbn [res_foldl]; [intros [= <-] id [?|[]%not_elem_of_nil]; done|].
  intros (d & Hd & Hr)%bind_Ok id Hid. destruct (applied_row _ _ _ _ Hv Hd) as (row & Hm & Hc & Hw). simpl. apply (IH _ _ _ Hr). rewrite Hm. rewrite fmap_cons in Hid.
  destruct (decide (id = ConnectionID e)) as [->|Hne]; [left; by apply track_agrees|]. destruct Hid as [Hid|[?|Hid]%elem_of_cons]; [left; by apply track_elsewhere|done|by right].
Qed.

Lemma pruned_agrees identity next m id : agrees identity next m id -> agrees identity next (pruneClosed identity m) id.
Proof.
  intros Hag who. rewrite (Hag who). unfold openRow, pruneClosed. split.
  - intros (row & Hm & Hc & ->). exists row. split_and!; [|done..]. apply map_lookup_filter_Some. split; [done|]. intros (_ & Hx & _). simpl in Hx. congruence.
  - intros (row & [Hm _]%map_lookup_filter_Some & Hc & ->). by exists row.
Qed.

(** The ledger of a node: well formed, and a process that has begun has finished its
    first snapshot. *)
Definition ledger_ok (db : DB) : Prop := traffic_ok db /\ forall p ready, core_traffic_stream db = Some (p, ready) -> ready = true.

Definition tracks (identity : string) (next : connections) (db : DB) : Prop :=
  core_traffic_stream db = Some (identity, true) /\ forall id, agrees identity next (core_connection_traffic db) id.

(** The rows a batch starts from agree, but for the connections it names. *)
Lemma prepared_agrees identity reset next events db d : ledger_ok db -> (reset = true \/ tracks identity next db) ->
  (if reset then verifyCoreTrafficResetCoverage db identity events else Ok tt) = Ok tt -> prepareCoreTrafficStream db identity reset = Ok d ->
  forall id, agrees identity (if reset then ∅ else next) (core_connection_traffic d) id \/ id ∈ ConnectionID <$> events.
Proof.
  intros [Hok Hready] Hcase Hcov Hp id. destruct reset.
  - assert (forall m, (forall row, m !! (identity, id) = Some row -> crClosed row = true) -> agrees identity ∅ m id) as Hnone.
    { intros m Hm who. rewrite lookup_empty. split; [done|]. intros (row & Hr & Hc & _). rewrite (Hm row Hr) in Hc. done. }
    unfold prepareCoreTrafficStream in Hp. destruct (core_traffic_stream db) as [[current ready]|] eqn:Hs.
    + case_decide as Hc; [|injection Hp as <-; left; apply Hnone; intros row; simpl; by rewrite lookup_empty].
      subst current. injection Hp as <-. rewrite (Hready _ _ eq_refl) in Hs. unfold verifyCoreTrafficResetCoverage in Hcov. rewrite Hs in Hcov.
      rewrite decide_False in Hcov by naive_solver. case_decide as Hf; [done|]. destruct (decide (id ∈ ConnectionID <$> events)) as [Hin|Hnin]; [by right|left].
      apply Hnone. intros row Hr. destruct (crClosed row) eqn:Hcl; [done|]. exfalso.
      assert (((identity, id), row) ∈ ([] : list ((string * string) * ConnectionRow))) as []%not_elem_of_nil.
      rewrite <-Hf. apply list_elem_of_filter. split; [done|]. by apply elem_of_map_to_list.
    + injection Hp as <-. left. apply Hnone. intros row Hr. simpl in Hr. destruct (to_owner _ Hok identity) as (ready & Hx); [exists id; right; right; by eauto|]. congruence.
  - destruct Hcase as [?|[Hs Hag]]; [done|]. unfold prepareCoreTrafficStream in Hp. rewrite Hs, decide_True in Hp by done. injection Hp as <-. by left.
Qed.

Lemma applied_tracks identity reset next events db db' : ledger_ok db -> (reset = true \/ tracks identity next db) -> Forall event_int64 events ->
  ApplyCoreTrafficEvents db identity reset events = Ok db' ->
  ledger_ok db' /\ booked_le db db' /\ tracks identity (foldl track (if reset then ∅ else next) events) db'.
Proof.
  intros Hok Hcase Hi Ha. destruct (ApplyCoreTrafficEvents_ok _ _ _ _ _ (proj1 Hok) Hi Ha) as [Hok' Hb].
  assert (tracks identity (foldl track (if reset then ∅ else next) events) db') as Ht; [|split; [split; [done|intros p ready Hs; destruct Ht; congruence]|done]].
  unfold ApplyCoreTrafficEvents in Ha. apply bind_Ok_unit in Ha as (_ & (Hv & Hr)%bind_Ok_unit). apply bind_Ok_unit in Hr as [Hcov Hr].
  apply bind_Ok in Hr as (d1 & Hp & Hr). apply bind_Ok in Hr as (d2 & Hl & [= <-]). apply validateEvents_Ok in Hv.
  assert (Forall event_typed events) as Hty by (rewrite Forall_forall in Hv, Hi |- *; intros e He; apply validated_typed; [by apply Hi|by apply Hv]).
  destruct (prepare_ok _ _ _ _ (proj1 Hok) Hp) as (Hok1 & [ready Hs1] & _). destruct (event_loop_ok _ _ _ _ _ Hok1 Hs1 Hty Hl) as (_ & Hs2 & _). rewrite Hs1 in Hs2. split.
  - destruct reset; simpl; [by rewrite Hs2, decide_True|]. destruct Hcase as [?|[Hs _]]; [done|]. unfold prepareCoreTrafficStream in Hp. rewrite Hs, decide_True in Hp by done.
    injection Hp as <-. congruence.
  - intros id. assert (agrees identity (foldl track (if reset then ∅ else next) events) (core_connection_traffic d2) id) as Hag.
    { eapply tracks_events; [|exact Hl|by eapply prepared_agrees]. eapply Forall_impl; [exact Hv|]. by intros e [? _]. }
    apply (pruned_agrees identity) in Hag. by destruct reset.
Qed.

(** ** Runs of the stream *)

Definition event_fits (o : option connectionEvent) : Prop :=
  match o with
  | None => True
  | Some event => in_int64 (ceUplinkDelta event) /\ in_int64 (ceDownlinkDelta event) /\
      forall value, ceConnection event = Some value -> in_int64 (cnUplinkTotal value) /\ in_int64 (cnDownlinkTotal value)
  end.

(** The rest of the node leaves the traffic tables alone. *)
Definition same_traffic (db db' : DB) : Prop :=
  core_traffic_stream db' = core_traffic_stream db /\ core_client_traffic db' = core_client_traffic db /\
  core_listener_traffic db' = core_listener_traffic db /\ core_connection_traffic db' = core_connection_traffic db.

Definition arrival_fits (a : arrival) : Prop :=
  (forall message, arMessage a = Ok message -> Forall event_fits (cvEvents message)) /\ forall db, same_traffic db (arElsewhere a db).

Lemma translateEvent_fits event who e : event_fits (Some event) -> translateEvent event who = Ok e -> event_int64 e.
Proof.
  intros (Hu & Hd & Hc). unfold translateEvent, absoluteCounters. destruct (ceConnection event) as [value|]; [destruct (Hc value eq_refl)|];
    repeat case_decide; first [discriminate|by intros [= <-]].
Qed.

Lemma translated_fits mapping batch : Forall event_fits batch -> forall s s', res_foldl (translateStep mapping) s batch = Ok s' -> Forall event_int64 s.1 -> Forall event_int64 s'.1.
Proof.
  induction 1 as [|o batch Ho _ IH]; intros s s'; cbn [res_foldl]; [by intros [= <-]|]. intros (s1 & Hs & Hr)%bind_Ok Hf. apply (IH _ _ Hr). destruct o as [event|]; [|done].
  simpl in Hs. case_decide; [done|]. apply bind_Ok in Hs as (who & _ & Hs). apply bind_Ok in Hs as (e & He & [= <-]). apply Forall_app. split; [done|].
  constructor; [by eapply translateEvent_fits|done].
Qed.

Lemma same_ledger db db' : same_traffic db db' -> ledger_ok db -> ledger_ok db' /\ booked_le db db'.
Proof.
  intros (Hs & Hc & Hl & Hr) [[] Hready]. split; [split; [split; rewrite ?Hs, ?Hc, ?Hl, ?Hr; done|by rewrite Hs]|].
  intros key. unfold booked. rewrite Hs, Hc, Hl. lia.
Qed.

Lemma same_tracks identity next db db' : same_traffic db db' -> tracks identity next db -> tracks identity next db'.
Proof. intros (Hs & _ & _ & Hr) [? ?]. split; [by rewrite Hs|]. by rewrite Hr. Qed.

(** Before the first batch nothing is known; from then on memory is the record. *)
Definition follows (identity : string) (s : streamState) (db : DB) : Prop := stFirst s = false -> tracks identity (stConnections s) db.

Lemma receiveMessage_follows identity mapping current message s db s' db' :
  ledger_ok db -> follows identity s db -> Forall event_fits (cvEvents message) -> receiveMessage identity mapping current message s db = Ok (s', db') ->
  ledger_ok db' /\ booked_le db db' /\ follows identity s' db'.
Proof.
  intros Hok Hf Hm. unfold receiveMessage. destruct (stFirst s && negb (cvReset message)) eqn:Hfirst; [done|]. case_decide; [done|].
  intros ([events next] & Ht & Hr)%bind_Ok. apply bind_Ok in Hr as (d & Ha & [= <- <-]). cbn [translateConnectionEvents] in Ht.
  pose proof (translated_fits _ _ Hm _ _ Ht ltac:(constructor)) as Hfit. apply translateSteps_Ok in Ht as (evs & [= -> ->]).
  assert (cvReset message = true \/ tracks identity (stConnections s) db) as Hcase.
  { destruct (cvReset message); [by left|right]. apply Hf. by destruct (stFirst s). }
  destruct (applied_tracks _ _ _ _ _ _ Hok Hcase Hfit Ha) as (? & ? & ?). split; [done|]. split; [done|]. by intros _.
Qed.

Lemma receiveAll_follows identity mapping script : Forall arrival_fits script -> forall s db r s' db',
  ledger_ok db -> follows identity s db -> receiveAll identity mapping script s db = (r, s', db') -> ledger_ok db' /\ booked_le db db' /\ follows identity s' db'.
Proof.
  induction 1 as [|a script [Hm He] _ IH]; intros s db r s' db' Hok Hf; simpl; [intros [= <- <- <-]; split_and!; [done|apply booked_le_refl|done]|].
  destruct (same_ledger _ _ (He db) Hok) as [Hok1 Hb1]. assert (follows identity s (arElsewhere a db)) as Hf1 by (intros Hx; eapply same_tracks; [apply He|by apply Hf]).
  destruct (arMessage a) as [message|e]; [|by intros [= <- <- <-]].
  destruct (receiveMessage _ _ _ _ _ _) as [[s1 d1]|e] eqn:Hr; [|by intros [= <- <- <-]]. intros Hrest.
  destruct (receiveMessage_follows _ _ _ _ _ _ _ _ Hok1 Hf1 (Hm _ eq_refl) Hr) as (Hok2 & Hb2 & Hf2). destruct (IH _ _ _ _ _ Hok2 Hf2 Hrest) as (? & Hb3 & ?).
  split; [done|]. split; [eapply booked_le_trans; [exact Hb1|by eapply booked_le_trans]|done].
Qed.

(** ** What is collected *)

Lemma processRows_elem {A} (identity : string) (m : gmap (string * string) A) (key : string) (v : A) : (key, v) ∈ processRows identity m <-> m !! (identity, key) = Some v.
Proof.
  unfold processRows. rewrite list_elem_of_fmap. split.
  - intros ([[p k] x] & [= -> ->] & [Hp Hin]%list_elem_of_filter). simpl in Hp. subst p. by apply elem_of_map_to_list in Hin.
  - intros Hm. exists ((identity, key), v). split; [done|]. apply list_elem_of_filter. split; [done|]. by apply elem_of_map_to_list.
Qed.

Lemma processRows_NoDup {A} (identity : string) (m : gmap (string * string) A) : NoDup (processRows identity m).*1.
Proof.
  unfold processRows. rewrite <-list_fmap_compose. apply NoDup_fmap_2_strong; [|apply NoDup_filter, NoDup_map_to_list].
  intros [[p k] x] [[p' k'] x'] [Hp Hx]%list_elem_of_filter [Hp' Hx']%list_elem_of_filter Hk. simpl in *. subst p p' k'.
  apply elem_of_map_to_list in Hx, Hx'. congruence.
Qed.

Lemma processRows_lookup {A B} (f : A -> B) (identity : string) (m : gmap (string * string) A) (key : string) :
  (list_to_map ((fun kv => (kv.1, f kv.2)) <$> processRows identity m) : gmap string B) !! key = f <$> m !! (identity, key).
Proof.
  apply option_eq. intros v. rewrite <-elem_of_list_to_map.
  - rewrite list_elem_of_fmap, fmap_Some. split.
    + intros ([k x] & [= -> ->] & Hin%processRows_elem). by exists x.
    + intros (x & Hm & ->). exists (key, x). split; [done|]. by apply processRows_elem.
  - rewrite <-list_fmap_compose. apply processRows_NoDup.
Qed.

Definition withIPs (L : string -> list string) (m : gmap string CoreTrafficValue) (key : string) : gmap string CoreTrafficValue :=
  let v := default noTraffic (m !! key) in <[key := MkCoreTrafficValue (TVUp v) (TVDown v) (L key)]> m.

Lemma withIPs_lookup L keys key : forall m, let v := default noTraffic (m !! key) in
  default noTraffic (foldl (withIPs L) m keys !! key) = if decide (key ∈ keys) then MkCoreTrafficValue (TVUp v) (TVDown v) (L key) else v.
Proof.
  induction keys as [|k keys IH]; intros m; simpl; [done|]. rewrite IH. unfold withIPs. destruct (decide (k = key)) as [->|Hne].
  - rewrite lookup_insert_eq. simpl. rewrite (decide_True (P := key ∈ key :: keys)) by left. by case_decide.
  - rewrite lookup_insert_ne by done. destruct (decide (key ∈ keys)); [by rewrite decide_True by (by right)|]. by rewrite decide_False by (intros [?|?]%elem_of_cons; congruence).
Qed.

Lemma liveIPs_elem (identity key : string) m ip : ip ∈ liveIPs identity key m <-> exists id row, m !! (identity, id) = Some row /\ crClosed row = false /\ crClient row = key /\ crSourceIP row = ip.
Proof.
  unfold liveIPs. rewrite merge_sort_Permutation, elem_of_elements, elem_of_list_to_set, list_elem_of_fmap. split.
  - intros (row & -> & [[Hc Hk] ([id r] & -> & Hin%processRows_elem)%list_elem_of_fmap]%list_elem_of_filter). by exists id, r.
  - intros (id & row & Hm & Hc & Hk & <-). exists row. split; [done|]. apply list_elem_of_filter. split; [done|]. apply list_elem_of_fmap. exists (id, row).
    split; [done|]. by apply processRows_elem.
Qed.

Lemma snapshot_values identity next db snap key : tracks identity next db -> CoreTrafficSnapshotOf db identity = Ok snap ->
  let v := default noTraffic (SnapClients snap !! key) in
  (TVUp v, TVDown v) = booked core_client_traffic db key /\
  forall ip, ip ∈ TVLiveIPs v <-> exists id who, next !! id = Some who /\ idClient who = key /\ idSourceIP who = ip.
Proof.
  intros [Hs Hag]. unfold CoreTrafficSnapshotOf. intros (_ & Hr)%bind_Ok_unit. rewrite Hs, decide_False in Hr by naive_solver. injection Hr as <-. cbn [SnapClients].
  set (L := fun k => liveIPs identity k (core_connection_traffic db)). change (foldl _ _ _) with (foldl (withIPs L) (list_to_map ((fun kv => (kv.1, MkCoreTrafficValue kv.2.1 kv.2.2 []))
    <$> processRows identity (core_client_traffic db))) (crClient <$> filter (fun r => crClosed r = false) (processRows identity (core_connection_traffic db)).*2)).
  rewrite withIPs_lookup, (processRows_lookup (fun v => MkCoreTrafficValue v.1 v.2 [])). unfold booked. rewrite Hs.
  assert (forall ip, ip ∈ L key <-> exists id who, next !! id = Some who /\ idClient who = key /\ idSourceIP who = ip) as Hlive.
  { intros ip. unfold L. rewrite liveIPs_elem. split.
    - intros (id & row & Hm & Hc & Hk & Hip). exists id, (MkIdentity (crClient row) (crListener row) (crSourceIP row)). split; [|done]. apply Hag. by exists row.
    - intros (id & who & (row & Hm & Hc & ->)%Hag & Hk & Hip). by exists id, row. }
  set (online := crClient <$> _). assert (key ∉ online -> forall ip, ip ∈ ([] : list string) <-> exists id who, next !! id = Some who /\ idClient who = key /\ idSourceIP who = ip) as Hoff.
  { intros Hin ip. split; [by intros []%not_elem_of_nil|]. intros (id & row & Hm & Hc & <- & _)%Hlive%liveIPs_elem. destruct Hin. apply list_elem_of_fmap. exists row. split; [done|].
    apply list_elem_of_filter. split; [done|]. apply list_elem_of_fmap. exists (id, row). split; [done|]. by apply processRows_elem. }
  destruct (core_client_traffic db !! (identity, key)) as [[up down]|]; simpl; case_decide as Hin; (split; [done|]); simpl; auto.
Qed.

(** C19. What is collected is what was streamed.  Over any run of the stream, whatever
    arrives and whatever the rest of the node does besides: the ledger stays well
    formed and nothing booked is lost; after the first batch the connections in
    memory are the open rows on record; and a collection for that process reports
    for every client the bytes booked to it and exactly the source addresses of its
    open connections. *)
Theorem collected_is_streamed observed dialed script db r s db' :
  ledger_ok db -> Forall arrival_fits script -> stream observed dialed script db = (r, s, db') ->
  ledger_ok db' /\ booked_le db db' /\
  (stFirst s = false ->
     (forall id who, stConnections s !! id = Some who <-> openRow (processIdentity observed) (core_connection_traffic db') id who) /\
     forall seed status counters db'', processIdentity status = processIdentity observed -> Collect seed status db' = Ok (counters, db'') ->
       forall row, row ∈ CoClients counters -> (CoUpBytes row, CoDownBytes row) = booked core_client_traffic db' (CoKey row) /\
         forall ip, ip ∈ CoLiveIPs row <-> exists id who, stConnections s !! id = Some who /\ idClient who = CoKey row /\ idSourceIP who = ip).
Proof.
  intros Hok Hfit Hst. assert (ledger_ok db' /\ booked_le db db' /\ follows (processIdentity observed) s db') as (? & ? & Hf).
  { unfold stream in Hst. destruct (confirmedMapping observed db) as [mapping|]; [destruct dialed|]; [|refine (receiveAll_follows _ _ _ Hfit _ _ _ _ _ Hok _ Hst); by intros [=]|]; injection Hst as <- <- <-;
      (split; [done|]; split; [apply booked_le_refl|done]). }
  split; [done|]. split; [done|]. intros Hs. specialize (Hf Hs). split; [apply Hf|]. intros seed status counters db'' Hid. unfold Collect. do 2 (case_decide; [done|]).
  intros (mapping & _ & Hr)%bind_Ok. apply bind_Ok in Hr as (snap & Hsnap & Hr). destruct (negb _); [done|]. apply bind_Ok in Hr as ([epoch d] & _ & [= <- <-]).
  intros row (client & -> & _)%list_elem_of_fmap. rewrite Hid in Hsnap. by apply (snapshot_values _ _ _ _ (WCKey client) Hf Hsnap).
Qed.

End telemetry.

(** ** Names *)

(** [json.Unmarshal] gives back the tag and the names of every inbound. *)
Definition name_of (user : json) : string := match user with JObj o => match o !! "name" with Some (JStr name) => name | _ => "" end | _ => "" end.

Definition singbox_reads `{SingboxTelemetryJSON} (config : singboxConfig) (text : string) : Prop :=
  exists rows, decodeArtifact text = Some rows /\
    Forall2 (fun (inbound : object) row => forall tag users, inbound !! "tag" = Some (JStr tag) -> inbound !! "users" = Some (JArr users) -> row = (tag, name_of <$> users)) (SbInbounds config) rows.

Definition canonical_name (client : WClient) : Prop := TrimSpace (Username (WCCredentials client)) = Username (WCCredentials client).

Section names.
Context `{SingboxTelemetryJSON} `{Protocol} `{BodyCodec ConfigBody, BodyCodec RosterBody} `{SingboxJSON} `{XrayJSON} (unicodeToLower : string -> string).

Lemma listenerTags_Ok ls : (forall l, l ∈ ls -> ListenerRowID (WLKey l) <> None) -> forall s, exists listeners byTag, res_foldl listenerTag s ls = Ok (listeners, byTag) /\
  forall tag, is_Some (byTag !! tag) <-> is_Some (s.2 !! tag) \/ exists key, key ∈ WLKey <$> ls /\ tag = "psp-" +:+ key.
Proof.
  induction ls as [|l ls IH]; intros Hid s; cbn [res_foldl].
  { destruct s as [listeners byTag]. exists listeners, byTag. split; [done|]. intros tag. split; [by left|]. intros [?|(key & []%not_elem_of_nil & _)]; done. }
  assert (listenerTag s l = Ok (s.1 ++ [WLKey l], <["psp-" +:+ WLKey l := WLKey l]> s.2)) as -> by (unfold listenerTag; by rewrite decide_False by (apply Hid; left)).
  cbn [mbind res_bind]. destruct (IH (fun l' Hl' => Hid l' (list_elem_of_further _ _ _ Hl')) (s.1 ++ [WLKey l], <["psp-" +:+ WLKey l := WLKey l]> s.2)) as (listeners & byTag & Hr & Htag).
  exists listeners, byTag. split; [done|]. intros tag. rewrite Htag. cbn [snd]. rewrite lookup_insert_is_Some, fmap_cons. split.
  - intros [[<-|[_ ?]]|(key & Hk & ->)]; [right; exists (WLKey l); split; [left|done]|by left|right; exists key; split; [by right|done]].
  - intros [Hs|(key & [->|Hk]%elem_of_cons & ->)]; [|left; by left|right; by exists key]. left. destruct (decide ("psp-" +:+ WLKey l = tag)); [by left|by right].
Qed.

Lemma clientNames_emails cs : (forall c, c ∈ cs -> ClientRowID (WCKey c) <> None) -> forall m, res_foldl clientName m cs = res_foldl emailStep m cs.
Proof.
  induction cs as [|c cs IH]; intros Hid m; [done|]. cbn [res_foldl].
  assert (clientName m c = emailStep m c) as -> by (unfold clientName; by rewrite decide_False by (apply Hid; left)). destruct (emailStep m c); [|done]. cbn [mbind res_bind]. apply IH. intros c' Hc'. apply Hid. by right.
Qed.

Lemma presentUsers_iff byName names : forall clients, is_Ok (res_foldl (presentUser byName) clients names) = true <-> forall name, name ∈ names -> is_Some (byName !! name).
Proof.
  induction names as [|n names IH]; intros clients; cbn [res_foldl]; [split; [intros _ ? []%not_elem_of_nil|done]|]. destruct (presentUser byName clients n) as [c1|] eqn:Hp; unfold presentUser in Hp; destruct (byName !! n) as [k|] eqn:Hn; try done; cbn [mbind res_bind].
  - rewrite IH. split; [|intros Hall x Hx; apply Hall; by right]. intros Hall x [->|Hx]%elem_of_cons; [by rewrite Hn|by apply Hall].
  - split; [done|]. intros Hall. destruct (Hall n) as [? Hx]; [left|]. congruence.
Qed.

Lemma presentInbounds_iff byTag byName rows : forall s, is_Ok (res_foldl (presentInbound byTag byName) s rows) = true <->
  forall row, row ∈ rows -> is_Some (byTag !! row.1) /\ forall name, name ∈ row.2 -> is_Some (byName !! name).
Proof.
  induction rows as [|row rows IH]; intros s; cbn [res_foldl]; [split; [intros _ ? []%not_elem_of_nil|done]|]. pose proof (presentUsers_iff byName row.2 s.2) as Hu.
  destruct (presentInbound byTag byName s row) as [s1|] eqn:Hp; unfold presentInbound in Hp; destruct (byTag !! row.1) as [k|] eqn:Hk; try done; cbn [mbind res_bind].
  - rewrite IH. split; [|intros Hall x Hx; apply Hall; by right]. intros Hall x [->|Hx]%elem_of_cons; [|by apply Hall]. rewrite Hk. split; [done|]. apply Hu.
    by apply bind_Ok in Hp as (clients & -> & _).
  - split; [done|]. intros Hall. destruct (Hall row) as [_ Hn]; [left|]. apply Hu in Hn. by destruct (res_foldl (presentUser byName) s.2 row.2).
  - split; [done|]. intros Hall. destruct (Hall row) as [[? Hx] _]; [left|]. congruence.
Qed.

(** The client is let in through an inbound of the configuration. *)
Definition let_in (snapshot : Snapshot) (config : singboxConfig) (client : WClient) : Prop :=
  client ∈ SnClients snapshot /\ denied (SnNow snapshot) client = false /\
  exists inbound key, inbound ∈ SbInbounds config /\ inbound !! "tag" = Some (JStr ("psp-" +:+ key)) /\ key ∈ WCListeners client.

Lemma named_names clients users : Forall2 named_of clients users -> name_of <$> users = (fun c => TrimSpace (Username (WCCredentials c))) <$> clients.
Proof. induction 1 as [|c u cs us (o & -> & Ho & _) _ IH]; [done|]. rewrite !fmap_cons, IH. simpl. by rewrite Ho. Qed.

(** A name is found exactly when it is its client's own. *)
Lemma trimmed_found c snapshot config clients byName client : compileSingbox unicodeToLower c snapshot = Ok config ->
  statName <$> clients = statName <$> SnClients snapshot -> res_foldl emailStep ∅ clients = Ok byName -> client ∈ SnClients snapshot ->
  is_Some (byName !! TrimSpace (Username (WCCredentials client))) <-> canonical_name client.
Proof.
  intros (Hn & _ & _)%compileSingbox_names Heq Hby Hin. unfold canonical_name. split.
  - intros [key (x & (y & Hy & _ & Hu)%(statName_elem _ _ Heq) & Hx & _)%(byEmail_lookup _ _ _ _ Hby)]. rewrite Hu in Hx.
    assert (y = client) as ->; [|congruence]. apply (NoDup_fmap_elem _ _ _ _ Hn Hy Hin). cbn beta. rewrite Hx. apply TrimSpace_idempotent.
  - intros ->. destruct (statName_elem _ _ (eq_sym Heq) _ Hin) as (x & Hx & _ & Hu). exists (WCKey x). apply (byEmail_lookup _ _ _ _ Hby). by exists x.
Qed.

Lemma names_total c snapshot config clients : compileSingbox unicodeToLower c snapshot = Ok config -> statName <$> clients = statName <$> SnClients snapshot ->
  exists byName, res_foldl clientName ∅ clients = Ok byName /\ res_foldl emailStep ∅ clients = Ok byName.
Proof.
  intros (Hn & Hu & _)%compileSingbox_names Heq. assert (Username ∘ WCCredentials <$> clients = Username ∘ WCCredentials <$> SnClients snapshot) as Hnames.
  { apply (f_equal (fmap snd)) in Heq. by rewrite <-!list_fmap_compose in Heq. }
  destruct (emails_total clients ∅) as (byName & Hby).
  - rewrite Hnames. apply (NoDup_fmap_1 TrimSpace). by rewrite <-list_fmap_compose.
  - intros x (y & Hy & _ & Hxy)%(statName_elem _ _ Heq). rewrite Hxy, lookup_empty. split; [by apply Hu|done].
  - exists byName. rewrite clientNames_emails; [done|]. intros x (y & Hy & -> & _)%(statName_elem _ _ Heq). by apply Hu.
Qed.

Lemma mapping_iff c snapshot config deployment cfg ros :
  compileSingbox unicodeToLower c snapshot = Ok config -> singbox_reads config (CDArtifact deployment) ->
  UnmarshalBody (CDConfigBody deployment) = Some cfg -> WLKey <$> CfgListeners cfg = WLKey <$> SnListeners snapshot ->
  UnmarshalBody (CDRosterBody deployment) = Some ros -> statName <$> RosClients ros = statName <$> SnClients snapshot ->
  is_Ok (decodeTelemetryMapping deployment) = true <-> forall client, let_in snapshot config client -> canonical_name client.
Proof.
  intros Hc (rows & Hrows & Hall) Hcfg Hkeys Hros Heq. destruct (compileSingbox_names _ _ _ _ Hc) as (_ & _ & Hid). destruct (compileSingbox_Ok _ _ _ _ Hc) as (_ & Hin & _ & _).
  destruct (listenerTags_Ok (CfgListeners cfg)) with (s := ([] : list string, ∅ : gmap string string)) as (listeners & byTag & Hl & Htag).
  { intros l Hl%(list_elem_of_fmap_2 WLKey). rewrite Hkeys in Hl. apply list_elem_of_fmap in Hl as (l' & -> & Hl'). by apply Hid. }
  destruct (names_total _ _ _ _ Hc Heq) as (byName & Hn & Hby).
  assert (forall client, client ∈ SnClients snapshot -> is_Some (byName !! TrimSpace (Username (WCCredentials client))) <-> canonical_name client) as Hfound
    by (intros client; by eapply trimmed_found).
  transitivity (is_Ok (res_foldl (presentInbound byTag byName) (∅, ∅) rows) = true).
  { unfold decodeTelemetryMapping. rewrite Hcfg, Hros, Hl. cbn [mbind res_bind]. rewrite Hn. cbn [mbind res_bind]. rewrite Hrows. by destruct (res_foldl (presentInbound byTag byName) _ rows) as [[]|]. }
  rewrite presentInbounds_iff. split.
  - intros Hok client (Hcl & Hden & inbound & key & Hi & Ht & Hk). destruct (Hin inbound Hi) as (l & Hl' & Htag' & users & Hus & Hnamed). rewrite Ht in Htag'. injection Htag' as ->%String.app_inj.
    apply list_elem_of_lookup in Hi as [i Hi]. destruct (Forall2_lookup_l _ _ _ _ _ Hall Hi) as (row & Hrow & Hr). apply list_elem_of_lookup_2 in Hrow. rewrite (Hr _ _ Ht Hus) in Hrow.
    destruct (Hok _ Hrow) as [_ Hnames]. apply Hfound; [done|]. apply Hnames. cbn [snd]. rewrite (named_names _ _ Hnamed).
    apply (list_elem_of_fmap_2 (fun c => TrimSpace (Username (WCCredentials c)))), list_elem_of_filter. by rewrite merge_sort_Permutation.
  - intros Hcan row Hrow. apply list_elem_of_lookup in Hrow as [i Hi]. destruct (Forall2_lookup_r _ _ _ _ _ Hall Hi) as (inbound & Hinb & Hr). apply list_elem_of_lookup_2 in Hinb.
    destruct (Hin inbound Hinb) as (l & Hl' & Htag' & users & Hus & Hnamed). rewrite (Hr _ _ Htag' Hus). cbn [fst snd]. split.
    + apply Htag. right. exists (WLKey l). split; [|done]. rewrite Hkeys. by apply (list_elem_of_fmap_2 WLKey).
    + rewrite (named_names _ _ Hnamed). intros name (client & -> & [[Hden Hk] Hcl]%list_elem_of_filter)%list_elem_of_fmap. rewrite merge_sort_Permutation in Hcl.
      apply Hfound; [done|]. apply Hcan. split; [done|]. split; [done|]. by exists inbound, (WLKey l).
Qed.

(** C20. A name with spaces around it blinds the telemetry of sing-box.  For a snapshot
    that compiles, recorded with an artifact that decodes to what was encoded: the
    deployment's names can be read exactly when every client let in has a username
    without surrounding space.  While one has not, every collection for that
    deployment fails and every stream ends before anything is journalled, although
    the core serves. *)
Theorem padded_name_blinds_telemetry c snapshot config deployment cfg ros :
  compileSingbox unicodeToLower c snapshot = Ok config -> singbox_reads config (CDArtifact deployment) ->
  UnmarshalBody (CDConfigBody deployment) = Some cfg -> WLKey <$> CfgListeners cfg = WLKey <$> SnListeners snapshot ->
  UnmarshalBody (CDRosterBody deployment) = Some ros -> statName <$> RosClients ros = statName <$> SnClients snapshot ->
  (is_Ok (decodeTelemetryMapping deployment) = true <-> forall client, let_in snapshot config client -> canonical_name client) /\
  forall client db, let_in snapshot config client -> ~ canonical_name client -> CoreDeploymentOf db = Ok deployment ->
    forall status, (forall seed, is_Ok (Collect seed status db) = false) /\ forall dialed script, exists e s, stream status dialed script db = (Some e, s, db).
Proof.
  intros Hc Hreads Hcfg Hkeys Hros Heq. pose proof (mapping_iff _ _ _ _ _ _ Hc Hreads Hcfg Hkeys Hros Heq) as Hiff. split; [done|].
  intros client db Hlet Hpad Hdep status. assert (exists e, confirmedMapping status db = Err e) as [e He].
  { unfold confirmedMapping. case_decide; [by eexists|]. rewrite Hdep. cbn [mbind res_bind]. case_decide; [by eexists|].
    destruct (decodeTelemetryMapping deployment) as [mapping|e]; [|by exists e]. destruct Hpad. by apply Hiff. }
  split.
  - intros seed. unfold Collect. rewrite He. by repeat case_decide.
  - intros dialed script. unfold stream. rewrite He. by eexists _, _.
Qed.

End names.

Module singbox_telemetry_example.
Import sample.
Import rounds_example.
Import core_example.
Import compiler_example.
Import singbox_example.

#[export] Instance sample_artifact : SingboxTelemetryJSON := fun text => Some [("psp-lst_1", ["alice"])].

Definition named (name : string) : Snapshot := MkSnapshot [listener] [attached "cli_1" "usr_1" name true 0] 9000000.

(** A roster text names its client. *)
#[export] Instance named_codec : BodyCodec RosterBody := {| MarshalBody b := Some "{}"; UnmarshalBody s :=
  Some (MkRosterBody (MkPVersion 1 1) (SnClients (named (if decide (s = "{}") then "alice" else "alice "))) (MkSegmentCounts 1 0 1)) |}.

Definition deployed (body : string) : CoreDeployment := MkCoreDeployment "sing-box" "1.14.0" (sha256_hex "{}") "{}" "{}" body 7.
Definition recorded (body : string) : DB := set_core_deployment (Some (deployed body)) empty_db.
Definition serving : SupStatus := MkSupStatus (MkCoreStatus ProcessRunning "sing-box" "1.14.0" (sha256_hex "{}") 0 0 None (Some 7)) "/opt/core" "" "".

(** Alice connects from two addresses, one connection grows, the other is closed. *)
Definition open (id source : string) (closedAt up : Z) : connection := MkConnection id "psp-lst_1" source "alice" closedAt up 2.
Definition arrives (reset : bool) (events : list connectionEvent) : arrival := MkArrival (Ok (MkConnectionEvents (Some <$> events) reset)) serving (fun db => db).
Definition script : list arrival :=
  [arrives true [MkConnectionEvent 0 "a" (Some (open "a" "192.0.2.1:5000" 0 10)) 0 0 0; MkConnectionEvent 0 "b" (Some (open "b" "[::ffff:192.0.2.9]:5001" 0 1)) 0 0 0];
   arrives false [MkConnectionEvent 1 "a" None 5 1 0; MkConnectionEvent 2 "b" (Some (open "b" "[::ffff:192.0.2.9]:5001" 0 4)) 0 0 9]].

Lemma arrives_fits reset events : Forall (fun event => event_fits (Some event)) events -> arrival_fits (arrives reset events).
Proof. intros Hf. split; [|done]. intros message [= <-]. simpl. by apply Forall_fmap. Qed.

Lemma script_fits : Forall arrival_fits script.
Proof.
  repeat (constructor; [apply arrives_fits|]); try done; repeat (constructor; [split; [|split]; simpl; [..|intros value [= <-]]; unfold in_int64, min_int64, max_int64; simpl; lia|]); done.
Qed.

Lemma no_client_key : ClientRowID "" = None.
Proof. vm_compute. reflexivity. Qed.

Lemma no_listener_key : ListenerRowID "" = None.
Proof. vm_compute. reflexivity. Qed.

Lemma recorded_ok body : ledger_ok (recorded body).
Proof.
  split; [|done]. destruct traffic_ok_empty. by split.
Qed.

Definition after : option error * streamState * DB := stream serving None script (recorded "{}").
Definition collected : res error (CoreCounters * DB) := Collect 3 serving after.2.

Lemma collected_row : stFirst after.1.2 = false /\ match collected with
  | Ok (counters, _) => match CoClients counters with row :: _ => CoKey row = "cli_1" /\ CoUpBytes row = 19 /\ CoLiveIPs row = ["192.0.2.1"] | [] => False end
  | Err _ => False
  end.
Proof. vm_compute. split_and!; reflexivity. Qed.

Lemma collected_is_streamed_witness :
  exists counters db'' row, collected = Ok (counters, db'') /\ row ∈ CoClients counters /\ CoUpBytes row = 19 /\ (CoUpBytes row, CoDownBytes row) = booked core_client_traffic after.2 "cli_1" /\
    exists id who, stConnections after.1.2 !! id = Some who /\ idClient who = "cli_1" /\ idSourceIP who = "192.0.2.1".
Proof.
  destruct collected_row as [Hfirst Hrow]. destruct collected as [[counters db'']|e] eqn:Hc; [|destruct Hrow]. destruct (CoClients counters) as [|row rows] eqn:Hrows; [destruct Hrow|]. destruct Hrow as (Hk & Hup & Hip).
  destruct (collected_is_streamed no_client_key no_listener_key serving None script (recorded "{}") after.1.1 after.1.2 after.2 (recorded_ok "{}") script_fits) as (_ & _ & Hf).
  { fold after. destruct after as [[? ?] ?]. reflexivity. }
  destruct (Hf Hfirst) as [_ Hcol]. destruct (Hcol 3 serving counters db'' eq_refl Hc row) as [Hb Hlive]; [rewrite Hrows; left|]. rewrite Hk in Hb, Hlive.
  exists counters, db'', row. split; [reflexivity|]. split; [rewrite Hrows; left|]. split; [exact Hup|]. split; [exact Hb|]. apply Hlive. rewrite Hip. left.
Defined.

Lemma padded_name_blinds_telemetry_witness :
  exists config, compileSingbox (fun s => s) (MkSingboxCompiler "127.0.0.1:10086" sampleSecret "") (named "alice ") = Ok config /\
    is_Ok (Collect 3 serving (recorded "[]")) = false /\ is_Ok (decodeTelemetryMapping (deployed "{}")) = true.
Proof.
  destruct (compileSingbox (fun s => s) (MkSingboxCompiler "127.0.0.1:10086" sampleSecret "") (named "alice ")) as [config|e] eqn:Hc; [|exfalso; vm_compute in Hc; discriminate Hc].
  exists config. split; [reflexivity|]. split; [|vm_compute; reflexivity].
  destruct (padded_name_blinds_telemetry (fun s => s) _ _ config (deployed "[]") rounds_example.config
    (MkRosterBody (MkPVersion 1 1) (SnClients (named "alice ")) (MkSegmentCounts 1 0 1)) Hc) as [_ Hblind].
  - exists [("psp-lst_1", ["alice"])]. split; [reflexivity|]. vm_compute in Hc. injection Hc as <-. repeat constructor. intros tag users Ht Hu.
    vm_compute in Ht, Hu. injection Ht as <-. injection Hu as <-. vm_compute. reflexivity.
  - reflexivity.
  - reflexivity.
  - reflexivity.
  - reflexivity.
  - destruct (Hblind (attached "cli_1" "usr_1" "alice " true 0) (recorded "[]")) with (status := serving) as [Hcol _].
    + split; [left|]. split; [vm_compute; reflexivity|]. vm_compute in Hc. injection Hc as <-. eexists _, "lst_1". split; [left|]. split; [vm_compute; reflexivity|left].
    + intros Hcan. vm_compute in Hcan. discriminate Hcan.
    + vm_compute. reflexivity.
    + exact (Hcol 3).
Defined.

End singbox_telemetry_example.
