(* ===== verification/Rollback.v ===== *)
(** * A rolled-back core and the telemetry of the node
      ([internal/core/process/supervisor.go], [internal/core/telemetry.go], [cmd/node/main.go])

    The router over the two engines' adapters, as the node builds it, on the status
    the supervisor publishes after a deployment that failed. *)
From S2P Require Import Prelude GoStrings Sha256 Protocol Store Catalog Documents Receive Issues Processor Rounds CoreRuntime Supervisor XrayCompiler SingboxCompiler Observation XrayTelemetry SingboxTelemetry.

Section rollback.
Context `{Protocol} `{Conformance} `{BodyCodec ConfigBody, BodyCodec RosterBody} `{XrayTelemetryJSON} `{SingboxTelemetryJSON}.

(** The node's collection: the adapter of the engine the status names.  The router and
    the adapter each read the status; here they read the same one. *)
Definition nodeCollect (t : Telemetry) (runCommand : string -> list string -> res error string) (seed : Z) (status : SupStatus) (db : DB) : res error CoreCounters :=
  RouterCollect (Some (ssCore status))
    (<["xray" := fst <$> XrayTelemetry.Collect t runCommand seed status db]> {["sing-box" := fst <$> SingboxTelemetry.Collect seed status db]}).

Lemma nodeCollect_needs_running t run seed status db : CsState (ssCore status) <> ProcessRunning -> is_Ok (nodeCollect t run seed status db) = false.
Proof.
  intros Hs. pose proof (Collect_needs_running t run seed status db Hs) as Hx.
  assert (is_Ok (SingboxTelemetry.Collect seed status db) = false) as Hb by (unfold SingboxTelemetry.Collect; by rewrite decide_True).
  unfold nodeCollect, RouterCollect. destruct (decide (CsEngine (ssCore status) = "xray")) as [->|Hn].
  - rewrite lookup_insert_eq. by destruct (XrayTelemetry.Collect _ _ _ _ _).
  - rewrite lookup_insert_ne by done. destruct (decide (CsEngine (ssCore status) = "sing-box")) as [->|Hn'].
    + rewrite lookup_singleton_eq. by destruct (SingboxTelemetry.Collect _ _ _).
    + by rewrite lookup_singleton_ne.
Qed.

Lemma Observe_failed s db env r s' db' : is_Ok (oeTelemetry env) = false -> Observe s db env = (r, s', db') -> ledgers_kept db db'.
Proof.
  intros Ht [(-> & _)|[(changed & counters & Ho & _)|(failure & _ & Hf)]]%Observe_cases; [done|by rewrite Ho in Ht|].
  apply observeFail_spec in Hf as (_ & [->|(payload & atMS & _ & ->)] & _); done.
Qed.

(** C21. A rolled-back core serves unaccounted.  Take a supervisor in an honest state and
    a deployment of a valid artifact whose files were installed and synced and which
    then failed, on a disk whose steps take effect durably or not at all.  If the
    predecessor runs again afterwards, then from there, and also after deploying
    exactly that predecessor once more, the child runs the configuration the status
    names, yet with either engine every collection of the node fails, the sing-box
    stream is not opened, and every observation leaves both ledgers as they were:
    traffic is carried, and none of it is counted. *)
Theorem rolled_back_core_is_not_accounted options Clock d env l s e l' s' p env' :
  honest s l -> supValidateArtifact (DpArtifact d) = None -> diskFaithful env -> replaces env l -> ieSynced (aeInstall env) = true ->
  handleApply options Clock d env l s = ((Some e, l'), s') -> lpChild l' = Some p ->
  let later := (deployLocked options Clock (redeployment l') env' l' s').2 in
  forall now, now = s' \/ now = later ->
  p ∈ svProcs now /\ mpConfig p = Some (ArConfig (lpCurrent l')) /\ CsConfigDigest (ssCore (svStatus now)) = sha256_hex (ArConfig (lpCurrent l')) /\
  (forall streamed retry, telemetryTurn (svStatus now) streamed retry = (Some statusPollInterval, statusPollInterval)) /\
  forall t run seed db, is_Ok (nodeCollect t run seed (svStatus now) db) = false /\
    forall o observed r o' db', oeTelemetry observed = nodeCollect t run seed (svStatus now) db -> Observe o db observed = (r, o', db') -> ledgers_kept db db'.
Proof.
  intros Hho Hv Hdf Hrep Hsy Hr Hp. destruct (rollback_stays_degraded _ _ _ _ _ _ _ _ _ _ Hho Hv Hdf Hrep Hsy Hr Hp) as (Hst & Hin & Hcfg & Hdig & Hre).
  destruct (Hre env') as (a & -> & _). cbn [snd]. cbv zeta. intros now Hnow. assert (now = s') as -> by (by destruct Hnow).
  assert (CsState (ssCore (svStatus s')) <> ProcessRunning) as Hno by (intros Hs; unfold faceOf in Hst; simpl in Hst; congruence).
  split_and!; [done..| |].
  - intros streamed retry. unfold telemetryTurn. by rewrite decide_True by (by left).
  - intros t run seed db. assert (is_Ok (nodeCollect t run seed (svStatus s') db) = false) as Hc by (by apply nodeCollect_needs_running). split; [done|].
    intros o observed r o' db' Ht Hob. eapply Observe_failed; [|exact Hob]. by rewrite Ht.
Qed.

End rollback.

Module rollback_example.
Import sample.
Import rounds_example.
Import core_example.
Import compiler_example.
Import supervisor_example.
Import singbox_example.
Import telemetry_example.
Import singbox_telemetry_example.

Lemma rolled_back_core_is_not_accounted_witness :
  exists l' s' p, p ∈ svProcs s' /\ mpConfig p = Some (ArConfig (lpCurrent l')) /\ is_Ok (nodeCollect adapter answers 3 (svStatus s') ledger) = false.
Proof.
  assert (exists e p, (handleApply opts sampleClock candidate failing loop1 up.2).1.1 = Some e /\ lpChild (handleApply opts sampleClock candidate failing loop1 up.2).1.2 = Some p)
    as (e & p & He & Hp) by (eexists _, _; vm_compute; split; reflexivity).
  set (r := handleApply opts sampleClock candidate failing loop1 up.2) in *.
  assert (handleApply opts sampleClock candidate failing loop1 up.2 = ((Some e, r.1.2), r.2)) as Hr
    by (unfold r in *; destruct (handleApply _ _ _ _ _ _) as [[? ?] ?]; simpl in He |- *; congruence).
  destruct (rolled_back_core_is_not_accounted opts sampleClock candidate failing loop1 up.2 e r.1.2 r.2 p attempt up_honest) with (now := r.2) as (Hin & Hcfg & _ & _ & Hob).
  - vm_compute. reflexivity.
  - exact failing_faithful.
  - split; [right|]; reflexivity.
  - reflexivity.
  - exact Hr.
  - exact Hp.
  - left. reflexivity.
  - exists r.1.2, r.2, p. split; [exact Hin|]. split; [exact Hcfg|]. exact (proj1 (Hob adapter answers 3 ledger)).
Defined.

End rollback_example.
