(* ===== verification/HostReporter.v ===== *)
(** * Host telemetry reporting ([internal/agent/host_reporter.go])

    The cadence, the cached sample and the failure episode.  Collection runs on a
    goroutine of its own, so the reporter is a step relation: the sync goroutine
    calls [Due], [Collect] and [MarkSent] one after the other, and the worker
    stores and sends its outcome at any moment in between. *)
From S2P Require Import Prelude GoStrings Protocol Store Outbox Issues.

(** [now.Sub(t)]: nanoseconds, saturated. *)
Definition durationSub (now t : Z) : Z := Z.max min_int64 (Z.min max_int64 (now - t)).

Section host.
(** [protocol.HostObservation] and [protocol.Envelope] with what the reporter
    uses of them. *)
Context {Host Envelope : Type}.
Context (SampleID : Host -> string) (ValidateHostObservation : Host -> bool).
Context (ShouldSendHost : Envelope -> Z -> bool) (HostReportSeconds NextPollSeconds : Envelope -> Z).
Context (EffectiveHostReportPeriod : Z -> Z -> Z).

(** ** State *)

(** What one collection produced. *)
Inductive hostCollection := HostSample (sample : Host) | HostFailed (detail : string).

(** [result] is the identity of the current channel. *)
Record HostReporter := MkHostReporter {
  lastSentAt : option Z;
  cached : option Host;
  cachedAt : Z;
  period : Z;
  episodeOpen : bool;
  inflight : bool;
  result : nat
}.

Definition NewHostReporter : HostReporter := MkHostReporter None None 0 0 false false 0.

(** ** Operations *)

Definition Due (r : HostReporter) (envelope : Envelope) (now : Z) : bool * HostReporter :=
  match cached r with
  | Some _ => (true, r)
  | None =>
      let since := match lastSentAt r with Some sent => Z.quot (durationSub now sent) 1000000000 | None => max_int64 end in
      if ShouldSendHost envelope since then
        let seconds := EffectiveHostReportPeriod (HostReportSeconds envelope) (NextPollSeconds envelope) in
        (true, MkHostReporter (lastSentAt r) (cached r) (cachedAt r) (wrap64 (seconds * 1000000000)) (episodeOpen r) (inflight r) (result r))
      else (false, r)
  end.

Definition expired (r : HostReporter) (now : Z) : bool :=
  bool_decide (0 < period r /\ wrap64 (2 * period r) < durationSub now (cachedAt r)).

(** The locked part of [Collect]: a cached sample, or the channel to wait on; a
    new collection gets the channel [fresh]. *)
Inductive collectStart := CollectCached (sample : Host) | CollectWait (channel : nat) (started : bool).

Definition CollectBegin (r : HostReporter) (now : Z) (fresh : nat) : collectStart * HostReporter :=
  match (match cached r with Some _ => if expired r now then None else cached r | None => None end) with
  | Some sample => (CollectCached sample, r)
  | None =>
      if inflight r then
        (CollectWait (result r) false, MkHostReporter (lastSentAt r) None (cachedAt r) (period r) (episodeOpen r) true (result r))
      else
        (CollectWait fresh true, MkHostReporter (lastSentAt r) None (cachedAt r) (period r) (episodeOpen r) true fresh)
  end.

(** What the collector does: panic, fail, or answer. *)
Inductive collectorAnswer := CollectorPanic | CollectorError | CollectorSample (observation : Host).

Definition collectionOutcome (answer : collectorAnswer) : hostCollection :=
  match answer with
  | CollectorPanic => HostFailed "collector_panic"
  | CollectorError => HostFailed "collector_error"
  | CollectorSample observation =>
      if ValidateHostObservation observation then HostSample observation else HostFailed "invalid_sample"
  end.

(** The locked part of [runCollection]. *)
Definition storeCollection (r : HostReporter) (outcome : hostCollection) (now : Z) : HostReporter :=
  match outcome with
  | HostSample sample => MkHostReporter (lastSentAt r) (Some sample) now (period r) (episodeOpen r) false (result r)
  | HostFailed _ => MkHostReporter (lastSentAt r) (cached r) (cachedAt r) (period r) (episodeOpen r) false (result r)
  end.

Definition MarkSent (r : HostReporter) (sampleID : string) (at_ : Z) : HostReporter :=
  if decide (sampleID = "") then r else
  MkHostReporter (Some at_) None (cachedAt r) (period r) false (inflight r) (result r).

(** *** Failure episodes *)

(** [protocol.IssueHostTelemetryFailed]. *)
Context (IssueHostTelemetryFailed : string).

Definition openEpisode (r : HostReporter) : HostReporter :=
  MkHostReporter (lastSentAt r) (cached r) (cachedAt r) (period r) true (inflight r) (result r).

(** The flag after a failure, with or without somebody to tell. *)
Definition markEpisode (sinks : bool) (r : HostReporter) : HostReporter := if sinks then openEpisode r else r.

(** [issues] and [events] say whether the sink and the recorder are set; the last
    component is what the recorder is told.  The sink's error is dropped. *)
Definition recordFailureEpisode `{Protocol} (issues events : bool) (r : HostReporter) (db : DB) (detail : string) (nowMS : Z)
    : HostReporter * DB * list string :=
  if negb issues && negb events then (r, db, []) else
  if episodeOpen r then (r, db, []) else
  let summary := truncateUTF8 detail 256 in
  let told := if events then [summary] else [] in
  if negb issues then (openEpisode r, db, told) else
  match RecordIssue DefaultIssueMapper db (MkLocalIssue IssueHostTelemetryFailed "" "" IssueHostTelemetryFailed summary) nowMS with
  | Ok (_, db') => (openEpisode r, db', told)
  | Err _ => (openEpisode r, db, told)
  end.

Definition ReportWireLimitDropped `{Protocol} (issues events : bool) (r : HostReporter) (db : DB) (nowMS : Z) : HostReporter * DB * list string :=
  recordFailureEpisode issues events r db "wire_limit" nowMS.

(** ** The reporter and its goroutines *)

(** Where the sync goroutine is: between calls, waiting in [Collect], or holding
    the sample [Collect] returned. *)
Inductive hostPhase := HostIdle | HostWaiting (channel : nat) | HostHolding (sample : Host).

Record hostConf := MkHostConf {
  reporter : HostReporter;
  nextChannel : nat;
  workers : list nat;
  sending : list (nat * hostCollection);
  channels : gmap nat hostCollection;
  phase : hostPhase
}.

Definition setReporter (r : HostReporter) (p : hostPhase) (c : hostConf) : hostConf :=
  MkHostConf r (nextChannel c) (workers c) (sending c) (channels c) p.

Definition collectConf (c : hostConf) (now : Z) : hostConf :=
  match CollectBegin (reporter c) now (nextChannel c) with
  | (CollectCached sample, r) => setReporter r (HostHolding sample) c
  | (CollectWait channel true, r) =>
      MkHostConf r (S (nextChannel c)) (channel :: workers c) (sending c) (channels c) (HostWaiting channel)
  | (CollectWait channel false, r) => setReporter r (HostWaiting channel) c
  end.

(** [sinks]: an issue sink or an event recorder is set. *)
Inductive host_step (sinks : bool) : hostConf -> hostConf -> Prop :=
| hs_due c envelope now :
    phase c = HostIdle -> host_step sinks c (setReporter (Due (reporter c) envelope now).2 HostIdle c)
| hs_collect c now : phase c = HostIdle -> host_step sinks c (collectConf c now)
| hs_store c before channel after answer now :
    workers c = before ++ channel :: after ->
    host_step sinks c (MkHostConf (storeCollection (reporter c) (collectionOutcome answer) now) (nextChannel c) (before ++ after)
                   ((channel, collectionOutcome answer) :: sending c) (channels c) (phase c))
| hs_send c before channel outcome after :
    sending c = before ++ (channel, outcome) :: after ->
    host_step sinks c (MkHostConf (reporter c) (nextChannel c) (workers c) (before ++ after) (<[channel := outcome]> (channels c)) (phase c))
| hs_receive_sample c channel sample :
    phase c = HostWaiting channel -> channels c !! channel = Some (HostSample sample) ->
    host_step sinks c (MkHostConf (reporter c) (nextChannel c) (workers c) (sending c) (delete channel (channels c)) (HostHolding sample))
| hs_receive_failure c channel detail :
    phase c = HostWaiting channel -> channels c !! channel = Some (HostFailed detail) ->
    host_step sinks c (MkHostConf (markEpisode sinks (reporter c)) (nextChannel c) (workers c) (sending c) (delete channel (channels c)) HostIdle)
| hs_leave c channel : phase c = HostWaiting channel -> host_step sinks c (setReporter (reporter c) HostIdle c)
| hs_sent c sample at_ :
    phase c = HostHolding sample -> host_step sinks c (setReporter (MarkSent (reporter c) (SampleID sample) at_) HostIdle c)
| hs_wire_limit c sample : phase c = HostHolding sample -> host_step sinks c (setReporter (markEpisode sinks (reporter c)) HostIdle c)
| hs_undelivered c sample : phase c = HostHolding sample -> host_step sinks c (setReporter (reporter c) HostIdle c).

Definition hostStart : hostConf := MkHostConf NewHostReporter 0 [] [] ∅ HostIdle.

(** *** The invariant *)

(** The sample an outcome carries is the one cached. *)
Definition held (r : HostReporter) (o : hostCollection) : Prop :=
  match o with HostSample sample => cached r = Some sample | HostFailed _ => True end.

Record host_inv (c : hostConf) : Prop := {
  hi_fresh : forall channel, channel ∈ workers c \/ channel ∈ (sending c).*1 \/ is_Some (channels c !! channel) -> (channel < nextChannel c)%nat;
  hi_flight : workers c = if inflight (reporter c) then [result (reporter c)] else [];
  hi_holding : forall sample, phase c = HostHolding sample -> cached (reporter c) = Some sample /\ inflight (reporter c) = false;
  hi_waiting : forall channel, phase c = HostWaiting channel ->
    (inflight (reporter c) = true /\ channel = result (reporter c)) \/
    (inflight (reporter c) = false /\ exists outcome, held (reporter c) outcome /\
       (channels c !! channel = Some outcome \/ (channel, outcome) ∈ sending c));
  hi_flight_empty : inflight (reporter c) = true ->
    channels c !! result (reporter c) = None /\ result (reporter c) ∉ (sending c).*1;
  hi_once : NoDup (sending c).*1 /\ forall channel, channel ∈ (sending c).*1 -> channels c !! channel = None;
  hi_cached : inflight (reporter c) = true -> cached (reporter c) = None
}.

Lemma host_inv_start : host_inv hostStart.
Proof.
  split; simpl; try done.
  - intros channel [Hin|[Hin|[x Hx]]]; [by apply not_elem_of_nil in Hin..|by rewrite lookup_empty in Hx].
  - split; [constructor|]. done.
Qed.

(** Reporters that agree on the flight and on the cache. *)
Definition same_flight (r r' : HostReporter) : Prop :=
  inflight r' = inflight r /\ result r' = result r /\ cached r' = cached r.

Lemma host_inv_same c r p :
  host_inv c -> same_flight (reporter c) r -> (p = HostIdle \/ p = phase c) -> host_inv (setReporter r p c).
Proof.
  intros [Hf Hw Hh Hwt Hfe Ho Hc] (Ei & Er & Ec) Hp. split; simpl; rewrite ?Ei, ?Er, ?Ec; try done.
  - intros sample Hs. destruct Hp as [->| ->]; [done|by apply Hh].
  - intros channel Hs. destruct Hp as [->| ->]; [done|]. destruct (Hwt channel Hs) as [?|(? & o & Hheld & ?)]; [by left|].
    right. split; [done|]. exists o. split; [|done]. unfold held in *. destruct o; [congruence|done].
Qed.

Lemma Due_flight r envelope now : same_flight r (Due r envelope now).2.
Proof. unfold Due, same_flight. destruct (cached r) eqn:Hc; [by simpl; rewrite Hc|]. destruct (ShouldSendHost _ _); simpl; by rewrite ?Hc. Qed.

Lemma markEpisode_flight sinks r : same_flight r (markEpisode sinks r).
Proof. by destruct sinks. Qed.

Lemma collect_inv c now : host_inv c -> phase c = HostIdle -> host_inv (collectConf c now).
Proof.
  intros Hi Hp. pose proof Hi as [Hf Hw Hh Hwt Hfe Ho Hc]. unfold collectConf, CollectBegin.
  set (o := match cached (reporter c) with Some _ => _ | None => _ end). assert (o = None \/ o = cached (reporter c) /\ is_Some o) as Hcase.
  { unfold o. destruct (cached (reporter c)) as [s|]; [|by left]. destruct (expired _ _); [by left|right; eauto]. }
  destruct o as [sample|].
  - destruct Hcase as [|[Ho' _]]; [done|]. split; simpl; try done.
    intros sample' [= <-]. split; [done|]. destruct (inflight (reporter c)); [|done]. rewrite (Hc eq_refl) in Ho'. done.
  - destruct (inflight (reporter c)) eqn:Hfl; cbv beta iota.
    + split; simpl; try done. intros channel [= <-]. by left.
    + assert ((sending c).*1 ## [nextChannel c] /\ channels c !! nextChannel c = None) as [Hs Hn].
      { split; [|destruct (channels c !! nextChannel c) as [x|] eqn:Hx; [|done]].
        - intros x Hx ->%list_elem_of_singleton. specialize (Hf _ (or_intror (or_introl Hx))). lia.
        - specialize (Hf (nextChannel c) ltac:(rewrite Hx; eauto)). lia. }
      split; simpl; try done.
      * intros channel Hch. destruct (decide (channel = nextChannel c)) as [->|Hne]; [lia|].
        assert (channel < nextChannel c)%nat; [|lia]. apply Hf. set_solver.
      * by rewrite Hw.
      * intros channel [= <-]. by left.
      * intros _. split; [done|]. set_solver.
Qed.

Lemma store_inv c before channel after answer now :
  host_inv c -> workers c = before ++ channel :: after ->
  host_inv (MkHostConf (storeCollection (reporter c) (collectionOutcome answer) now) (nextChannel c) (before ++ after)
              ((channel, collectionOutcome answer) :: sending c) (channels c) (phase c)).
Proof.
  intros [Hf Hw Hh Hwt Hfe Ho Hc] Hws. rewrite Hw in Hws. destruct (inflight (reporter c)) eqn:Hfl; [|by destruct before].
  assert (before = [] /\ after = [] /\ channel = result (reporter c)) as (-> & -> & ->).
  { destruct before as [|x [|y before]]; by injection Hws as -> ?. }
  set (outcome := collectionOutcome answer).
  assert (inflight (storeCollection (reporter c) outcome now) = false) as Hfl' by (by destruct outcome).
  destruct (Hfe eq_refl) as [Hn Hs]. split; simpl; rewrite ?Hfl'; try done.
  - intros channel [Hx|[Hx|Hx]]; [by apply not_elem_of_nil in Hx| |apply Hf; tauto].
    apply elem_of_cons in Hx as [->|Hx]; apply Hf; [left; rewrite Hw; by apply list_elem_of_singleton|tauto].
  - intros sample Hp. destruct (Hh sample Hp). congruence.
  - intros channel Hp. right. split; [done|]. destruct (Hwt channel Hp) as [[_ ->]|[? _]]; [|congruence].
    exists outcome. split; [by destruct outcome|]. right. by apply list_elem_of_here.
  - destruct Ho as [Hnd Hno]. split; [by constructor|]. intros channel [->|Hx]%elem_of_cons; [done|by apply Hno].
Qed.

Lemma send_inv c before channel outcome after :
  host_inv c -> sending c = before ++ (channel, outcome) :: after ->
  host_inv (MkHostConf (reporter c) (nextChannel c) (workers c) (before ++ after) (<[channel := outcome]> (channels c)) (phase c)).
Proof.
  intros [Hf Hw Hh Hwt Hfe [Hnd Hno] Hc] Hs. rewrite Hs in *. rewrite fmap_app in Hnd, Hno. simpl in Hnd, Hno.
  assert (channel ∉ (before ++ after).*1) as Hout.
  { rewrite fmap_app. apply NoDup_app in Hnd as (_ & Hd & Hnd). apply NoDup_cons in Hnd as [Hna _]. set_solver. }
  assert (NoDup (before ++ after).*1) as Hnd'.
  { rewrite fmap_app. eapply (sublist_NoDup _ _ Hnd). apply sublist_app; [done|]. by apply sublist_cons. }
  split; simpl; try done.
  - intros x Hx. rewrite lookup_insert_is_Some in Hx. apply Hf. rewrite !fmap_app in *. simpl. set_solver.
  - intros x Hp. destruct (Hwt x Hp) as [?|(? & o & Hheld & Hin)]; [by left|]. right. split; [done|]. exists o. split; [done|].
    destruct Hin as [Hin|Hin].
    + left. rewrite lookup_insert_ne; [done|]. intros <-. rewrite Hno in Hin; [done|set_solver].
    + apply elem_of_app in Hin as [Hin|[Heq|Hin]%elem_of_cons]; [right; set_solver| |right; set_solver].
      injection Heq as -> ->. left. by apply lookup_insert_eq.
  - intros Hfl. destruct (Hfe Hfl) as [Hn Hs']. rewrite fmap_app in Hs'. simpl in Hs'. split; [|rewrite fmap_app; set_solver].
    rewrite lookup_insert_ne; [done|set_solver].
  - split; [done|]. intros x Hx. rewrite lookup_insert_ne by congruence. apply Hno. rewrite fmap_app in Hx. set_solver.
Qed.

(** The sync goroutine takes an outcome out of its channel. *)
Lemma receive_inv c channel outcome p :
  host_inv c -> phase c = HostWaiting channel -> channels c !! channel = Some outcome ->
  (p = HostIdle \/ exists sample, outcome = HostSample sample /\ p = HostHolding sample) ->
  host_inv (MkHostConf (reporter c) (nextChannel c) (workers c) (sending c) (delete channel (channels c)) p).
Proof.
  intros [Hf Hw Hh Hwt Hfe [Hnd Hno] Hc] Hp Hch Hp'.
  assert (inflight (reporter c) = false /\ held (reporter c) outcome) as [Hfl Hheld].
  { destruct (Hwt channel Hp) as [[Hfl ->]|(Hfl & o & Hheld & [Ho|Ho])].
    - destruct (Hfe Hfl). congruence.
    - split; [done|]. congruence.
    - rewrite Hno in Hch; [done|]. by apply (list_elem_of_fmap_2 fst) in Ho. }
  split; simpl; rewrite ?Hfl; try done.
  - intros x Hx. rewrite lookup_delete_is_Some in Hx. apply Hf. tauto.
  - by rewrite Hw, Hfl.
  - intros sample Hs. destruct Hp' as [->|(s & -> & ->)]; [done|]. by injection Hs as <-.
  - intros x Hs. destruct Hp' as [->|(s & -> & ->)]; done.
  - split; [done|]. intros x Hx. apply lookup_delete_None. right. by apply Hno.
Qed.

Lemma host_step_inv sinks c c' : host_step sinks c c' -> host_inv c -> host_inv c'.
Proof.
  intros Hs Hi. destruct Hs as [c envelope now _|c now Hp|c before channel after answer now Hw|c before channel outcome after Hse|
    c channel sample Hp Hch|c channel detail Hp Hch|c channel _|c sample at_ Hp|c sample _|c sample _].
  - apply host_inv_same; [done|apply Due_flight|by left].
  - by apply collect_inv.
  - by apply store_inv.
  - by eapply send_inv.
  - eapply receive_inv; [done..|]. right. by exists sample.
  - pose proof (receive_inv c channel (HostFailed detail) HostIdle Hi Hp Hch ltac:(by left)) as Hr.
    apply (host_inv_same _ (markEpisode sinks (reporter c)) HostIdle Hr); [apply markEpisode_flight|by left].
  - apply host_inv_same; [done..|by left].
  - unfold MarkSent. case_decide; [apply host_inv_same; [done..|by left]|].
    destruct Hi as [Hf Hw Hh Hwt Hfe Ho Hc]. split; simpl; done.
  - apply host_inv_same; [done|apply markEpisode_flight|by left].
  - apply host_inv_same; [done..|by left].
Qed.

Lemma host_reach_inv sinks c : rtc (host_step sinks) hostStart c -> host_inv c.
Proof.
  intros Hr. assert (forall a b, rtc (host_step sinks) a b -> host_inv a -> host_inv b) as Hgen.
  { intros a b Hab. induction Hab; eauto using host_step_inv. }
  eapply Hgen; [exact Hr|apply host_inv_start].
Qed.

(** ** Properties *)

(** One collection at a time, one sample at a time.  However the goroutines
    interleave, at most one collection runs, also when callers time out again and
    again; and when [Collect] has returned a sample, that sample is the cached one
    and no collection is under way: [MarkSent] clears exactly what was delivered.
    If it was not delivered, the next report is due, and until the sample is twice
    the cadence old it carries the same sample. *)
Theorem host_sample_identity sinks c :
  rtc (host_step sinks) hostStart c ->
  (length (workers c) ≤ 1)%nat /\ (workers c <> [] <-> inflight (reporter c) = true) /\
  forall sample, phase c = HostHolding sample ->
    cached (reporter c) = Some sample /\ workers c = [] /\
    (forall envelope now, (Due (reporter c) envelope now) = (true, reporter c)) /\
    (forall now fresh, expired (reporter c) now = false ->
       CollectBegin (reporter c) now fresh = (CollectCached sample, reporter c)) /\
    (forall at_, SampleID sample <> "" -> cached (MarkSent (reporter c) (SampleID sample) at_) = None /\
       lastSentAt (MarkSent (reporter c) (SampleID sample) at_) = Some at_).
Proof.
  intros Hr%host_reach_inv. destruct Hr as [Hf Hw Hh Hwt Hfe Ho Hc]. rewrite Hw.
  split; [destruct (inflight _); simpl; lia|]. split; [by destruct (inflight _)|]. intros sample Hp. destruct (Hh sample Hp) as [Hca Hfl]. rewrite Hfl. split_and!; try done.
  - intros envelope now. unfold Due. by rewrite Hca.
  - intros now fresh He. unfold CollectBegin. by rewrite Hca, He.
  - intros at_ Hid. unfold MarkSent. by rewrite decide_False.
Qed.

End host.

(** *** Episodes *)

Section episodes.
Context {Host : Type} (IssueHostTelemetryFailed : string) `{Protocol}.
Implicit Types (r : @HostReporter Host).
#[local] Notation recordFailureEpisode := (recordFailureEpisode IssueHostTelemetryFailed).

Lemma recordFailureEpisode_reporter issues events r db detail nowMS :
  (recordFailureEpisode issues events r db detail nowMS).1.1 = markEpisode (issues || events) r.
Proof.
  unfold recordFailureEpisode, markEpisode. assert (episodeOpen r = true -> openEpisode r = r) as Ho by (intros He; destruct r; simpl in He; by subst).
  destruct (negb issues && negb events) eqn:Hb; [by destruct issues, events|]. assert (issues || events = true) as -> by (by destruct issues, events).
  destruct (episodeOpen r); [by rewrite Ho|]. destruct issues; [|done]. simpl. by destruct (RecordIssue _ _ _ _) as [[created d]|e].
Qed.

Lemma recordFailureEpisode_again issues events r db detail nowMS row :
  outbox_find outboxIssue IssueHostTelemetryFailed (report_outbox db) = Some row ->
  (recordFailureEpisode issues events r db detail nowMS).1.2 = db.
Proof.
  intros Hf. unfold recordFailureEpisode. destruct (negb issues && negb events); [done|]. destruct (episodeOpen r); [done|].
  destruct issues; [|done]. simpl.
  set (local := MkLocalIssue _ _ _ _ _). pose proof (RecordIssue_again DefaultIssueMapper db local nowMS row Hf) as Hr.
  destruct (RecordIssue _ _ _ _) as [[created d]|e]; [by destruct Hr|done].
Qed.

(** Acknowledging rows keeps every issue's key. *)
Lemma ackOne_issue db id db' key row :
  ackOne db id = Ok db' -> outbox_find outboxIssue key (report_outbox db) = Some row ->
  exists row', outbox_find outboxIssue key (report_outbox db') = Some row'.
Proof.
  unfold ackOne. case_decide; [done|]. intros [= <-] [Hin [Hk Hd]]%outbox_find_Some. simpl.
  set (rows := filter _ _). destruct (outbox_find outboxIssue key rows) as [r|] eqn:Hf; [by eauto|]. exfalso.
  eapply (proj1 (outbox_find_None _ _ _) Hf (if decide (obID row = id) then setObDelivered true row else row)).
  - apply list_elem_of_filter. split.
    + case_decide; simpl; rewrite Hk; naive_solver.
    + apply list_elem_of_fmap. by exists row.
  - unfold outbox_is. by case_decide.
Qed.

Lemma AckOutbox_issue ids : forall db db' key row,
  AckOutbox db ids = Ok db' -> outbox_find outboxIssue key (report_outbox db) = Some row ->
  exists row', outbox_find outboxIssue key (report_outbox db') = Some row'.
Proof.
  induction ids as [|id ids IH]; intros db db' key row Ha Hf.
  - injection Ha as <-. eauto.
  - unfold AckOutbox in Ha. cbn [res_foldl] in Ha. apply bind_Ok in Ha as (d1 & H1 & Ha).
    destruct (ackOne_issue _ _ _ _ _ H1 Hf) as (r1 & Hf1). by eapply IH.
Qed.

(** C40. Only the first failure ever recorded reaches the control plane.  The issue of
    an episode is queued under a constant key and a delivered issue keeps its row,
    so once one episode has been queued and acknowledged, an episode that a
    delivery has closed and a later failure has opened anew queues nothing. *)
Theorem later_host_episodes_not_queued r db detail nowMS row ids db2 sampleID at_ events detail2 nowMS2 :
  let '(r1, db1, _) := recordFailureEpisode true events r db detail nowMS in
  outbox_find outboxIssue IssueHostTelemetryFailed (report_outbox db1) = Some row ->
  AckOutbox db1 ids = Ok db2 -> sampleID <> "" ->
  let r2 := MarkSent r1 sampleID at_ in
  episodeOpen r2 = false /\
  (recordFailureEpisode true events r2 db2 detail2 nowMS2).1.2 = db2 /\
  episodeOpen (recordFailureEpisode true events r2 db2 detail2 nowMS2).1.1 = true.
Proof.
  destruct (recordFailureEpisode true events r db detail nowMS) as [[r1 db1] told]. intros Hf Ha Hid. cbv zeta.
  destruct (AckOutbox_issue _ _ _ _ _ Ha Hf) as (row2 & Hf2). split; [unfold MarkSent; by rewrite decide_False|]. split.
  - by eapply recordFailureEpisode_again.
  - by rewrite recordFailureEpisode_reporter.
Qed.

End episodes.

Module host_example.
Import sample.

Definition sample_step : hostConf -> hostConf -> Prop :=
  @host_step string unit (fun s => s) (fun _ => true) (fun _ _ => true) (fun _ => 60) (fun _ => 10) Z.max true.

(** A collection that answers after its caller has timed out; the next round gets
    its sample. *)
Definition late : @hostConf string :=
  MkHostConf (MkHostReporter None (Some "sample-1") 5 0 false false 0) 1 [] [] {[0%nat := HostSample "sample-1"]} (HostHolding "sample-1").

Lemma late_reachable : rtc sample_step hostStart late.
Proof.
  eapply rtc_l; [by apply (hs_collect _ _ _ _ _ _ _ _ 1)|].
  eapply rtc_l; [by eapply (hs_leave _ _ _ _ _ _ _ _ 0%nat)|].
  eapply rtc_l; [apply (hs_store _ _ _ _ _ _ _ _ [] 0%nat [] (CollectorSample "sample-1") 5); reflexivity|].
  eapply rtc_l; [apply (hs_send _ _ _ _ _ _ _ _ [] 0%nat (HostSample "sample-1") []); reflexivity|].
  eapply rtc_l; [by apply (hs_collect _ _ _ _ _ _ _ _ 6)|]. apply rtc_refl.
Qed.

Lemma host_sample_identity_witness : cached (reporter late) = Some "sample-1" /\ workers late = [].
Proof.
  destruct (host_sample_identity (fun s : string => s) (fun _ => true) (fun (_ : unit) _ => true) (fun _ => 60) (fun _ => 10) Z.max true late late_reachable)
    as (_ & _ & Hs).
  destruct (Hs "sample-1" eq_refl) as (Hc & Hw & _). split; [exact Hc|exact Hw].
Defined.

Definition first : @HostReporter string * DB * list string :=
  recordFailureEpisode "host_telemetry_failed" true true NewHostReporter empty_db "collector_error" 5.
Definition delivered : DB := match AckOutbox first.1.2 [1] with Ok d => d | Err _ => empty_db end.

Lemma later_host_episodes_not_queued_witness :
  PendingOutbox delivered 10 = Ok (MkOutboxBatch [] [] []) /\
  (recordFailureEpisode "host_telemetry_failed" true true (MarkSent first.1.1 "sample-2" 9) delivered "collector_panic" 20).1.2 = delivered.
Proof.
  split; [vm_compute; reflexivity|].
  assert (exists row, outbox_find outboxIssue "host_telemetry_failed" (report_outbox first.1.2) = Some row) as [row Hrow]
    by (eexists; vm_compute; reflexivity).
  assert (AckOutbox first.1.2 [1] = Ok delivered) as Ha by (vm_compute; reflexivity).
  pose proof (later_host_episodes_not_queued "host_telemetry_failed" (NewHostReporter (Host := string)) empty_db "collector_error" 5 row [1] delivered
    "sample-2" 9 true "collector_panic" 20) as Ht.
  fold first in Ht. destruct first as [[r1 db1] told]. exact (proj1 (proj2 (Ht Hrow Ha ltac:(discriminate)))).
Defined.

End host_example.
