(* ===== verification/Reports.v ===== *)
(** * Reports ([internal/agent/report.go])

    One report is built from the store: scheduled quotas are advanced first, then
    the streams, the ledgers and the outbox are read, and the result is shrunk to
    the wire's limit in a fixed order. *)
From S2P Require Import Prelude GoStrings Protocol Store Streams Objects Clients Listeners Outbox Journal CoreRuntime.

(** ** Data *)

Record StreamState := MkStreamState { Applied : PVersion; ETag : string }.

Record ReportClient := MkReportClient {
  RcKey : string; RcPresent : bool; RcUpBytes : Z; RcDownBytes : Z; RcCounterEpoch : Z; RcGate : GateState; RcLiveIPs : list string }.
Record ReportListener := MkReportListener {
  RlKey : string; RlPresent : bool; RlUpBytes : Z; RlDownBytes : Z; RlCounterEpoch : Z }.

(** The fields the node sets. *)
Record NodeReport (Host : Type) := MkNodeReport {
  AgentID : string;
  ReportedAtMS : Z;
  AgentVersion : string;
  CoreEngine : string;
  CoreVersion : string;
  CoreState : string;
  Partial : bool;
  Have : gmap string StreamState;
  Capabilities : list string;
  RObjects : list ObjectStatus;
  RListenerCounters : list ReportListener;
  RClients : list ReportClient;
  RIssues : list Issue;
  RTaskResults : list TaskResult;
  RHost : option Host
}.
Arguments MkNodeReport {Host}.
Arguments AgentID {Host}. Arguments ReportedAtMS {Host}. Arguments AgentVersion {Host}. Arguments CoreEngine {Host}.
Arguments CoreVersion {Host}. Arguments CoreState {Host}. Arguments Partial {Host}. Arguments Have {Host}. Arguments Capabilities {Host}.
Arguments RObjects {Host}. Arguments RListenerCounters {Host}. Arguments RClients {Host}. Arguments RIssues {Host}.
Arguments RTaskResults {Host}. Arguments RHost {Host}.

Record BuiltReport (Host : Type) := MkBuiltReport { Report : NodeReport Host; OutboxIDs : list Z; HostDropped : bool }.
Arguments MkBuiltReport {Host}.
Arguments Report {Host}. Arguments OutboxIDs {Host}. Arguments HostDropped {Host}.

Record ReportBuilder := MkReportBuilder {
  BAgentID : string;
  BAgentVersion : string;
  BCoreEngine : string;
  BCoreVersion : string;
  BCoreState : string;
  BCapabilities : list string;
  BOutboxLimit : Z;
  BMaxBodyBytes : Z
}.

Definition defaultOutboxBatch : Z := 256.

Definition processStateString (s : ProcessState) : string :=
  match s with
  | ProcessStopped => "stopped" | ProcessStarting => "starting" | ProcessRunning => "running" | ProcessDegraded => "degraded"
  end.

(** ** Capabilities *)

(** The loop over the sorted slice, which it overwrites from the front: [i] is
    the read position, [write] the write position. *)
Fixpoint compactLoop (todo i write : nat) (arr : list string) : list string * nat :=
  match todo with
  | O => (arr, write)
  | S todo =>
      match arr !! i with
      | None => (arr, write)
      | Some value =>
          if bool_decide (write <> 0%nat) && bool_decide (arr !! (write - 1)%nat = Some value)
          then compactLoop todo (S i) write arr
          else compactLoop todo (S i) (S write) (<[write := value]> arr)
      end
  end.

Definition sortedUniqueStrings (values : list string) : list string :=
  let sorted := merge_sort String.le values in
  let '(arr, write) := compactLoop (length sorted) 0 0 sorted in take write arr.

(** ** Issues *)

Definition seenIssue (s : list Issue * list Issue) (issue : Issue) : list Issue * list Issue :=
  let '(seen, out) := s in
  if decide (issue ∈ seen) then (seen, out) else (issue :: seen, out ++ [issue]).

Definition uniqueIssues (issues : list Issue) : list Issue := (foldl seenIssue ([], []) issues).2.

Section reports.
Context `{Protocol} {Host : Type}.
(** [json.Marshal] of a report and [protocol.MaxSyncBodyBytes]. *)
Context (MarshalReport : NodeReport Host -> option string) (MaxSyncBodyBytes : Z).

(** ** The wire limit *)

Definition withHost (host : option Host) (r : NodeReport Host) : NodeReport Host :=
  MkNodeReport (AgentID r) (ReportedAtMS r) (AgentVersion r) (CoreEngine r) (CoreVersion r) (CoreState r) (Partial r) (Have r)
    (Capabilities r) (RObjects r) (RListenerCounters r) (RClients r) (RIssues r) (RTaskResults r) host.

(** Only the outbox and the stream versions are left. *)
Definition partialOf (r : NodeReport Host) : NodeReport Host :=
  MkNodeReport (AgentID r) (ReportedAtMS r) (AgentVersion r) (CoreEngine r) (CoreVersion r) (CoreState r) true (Have r)
    (Capabilities r) [] [] [] (RIssues r) (RTaskResults r) (RHost r).

Definition encodeReport (r : NodeReport Host) : res error string :=
  match MarshalReport r with Some body => Ok body | None => Err (Errorf "encode node report for wire-size check") end.

(** The last step: drop the enumeration to let the outbox through. *)
Definition dropEnumeration (droppedHost : bool) (r : NodeReport Host) (hasOutbox : bool) (maxBytes : Z) : res error (bool * NodeReport Host) :=
  if Partial r || negb hasOutbox then Err (Errorf "node report exceeds the limit") else
  let r := partialOf r in
  body ← encodeReport r;
  if decide (maxBytes < len body) then Err (Errorf "partial node report exceeds the limit") else Ok (droppedHost, r).

Definition fitReportToWire (r : NodeReport Host) (hasOutbox : bool) (maxBytes : Z) : res error (bool * NodeReport Host) :=
  body ← encodeReport r;
  if decide (len body ≤ maxBytes) then Ok (false, r) else
  match RHost r with
  | None => dropEnumeration false r hasOutbox maxBytes
  | Some _ =>
      let r := withHost None r in
      body ← encodeReport r;
      if decide (len body ≤ maxBytes) then Ok (true, r) else dropEnumeration true r hasOutbox maxBytes
  end.

Definition bodyLimit (b : ReportBuilder) : Z := if decide (0 < BMaxBodyBytes b) then BMaxBodyBytes b else MaxSyncBodyBytes.

(** ** Building *)

Definition haveOf (db : DB) (stream : string) : res error StreamState :=
  match Stream db stream with
  | Err ErrNotFound => Ok (MkStreamState (MkPVersion 0 0) "")
  | Err _ => Err (Errorf "build report have")
  | Ok doc => Ok (MkStreamState (DVersion doc) (DETag doc))
  end.

Definition haveStep (db : DB) (have : gmap string StreamState) (stream : string) : res error (gmap string StreamState) :=
  st ← haveOf db stream; Ok (<[stream := st]> have).

Definition reportClient (row : string * ClientRuntime) : ReportClient :=
  let '(k, c) := row in MkReportClient k (Present c) (UpBytes c) (DownBytes c) (CounterEpoch c) (Gate c) (LiveIPs c).
Definition reportListener (row : string * ListenerRuntime) : ReportListener :=
  let '(k, l) := row in MkReportListener k (LPresent l) (LUpBytes l) (LDownBytes l) (LCounterEpoch l).

(** [Build].  [status] and [dynamic] are the answers of [CoreStatus] and
    [CapabilitySource] when they are set; [now] is in nanoseconds. *)
Definition Build (b : ReportBuilder) (status : option CoreStatus) (dynamic : option (list string)) (db : DB)
    (partial : bool) (host : option Host) (now : Z) : res error (BuiltReport Host) * DB :=
  if decide (BAgentID b = "") then (Err (Errorf "agent id is required"), db) else
  match ApplyScheduledQuotas db (UnixMilli now) with
  | Err _ => (Err (Errorf "advance scheduled quotas"), db)
  | Ok (_, db) =>
      (have ← res_foldl (haveStep db) ∅ [StreamConfig; StreamRoster; StreamDirectives];
       batch ← PendingOutbox db (if decide (BOutboxLimit b = 0) then defaultOutboxBatch else BOutboxLimit b);
       let '(engine, version, state) :=
         match status with
         | Some s => (CsEngine s, CsVersion s, processStateString (CsState s))
         | None => (BCoreEngine b, BCoreVersion b, BCoreState b)
         end in
       let report := MkNodeReport (BAgentID b) (UnixMilli now) (BAgentVersion b) engine version state partial have
         (sortedUniqueStrings (CapabilityTaskExecutionV1 :: BCapabilities b ++ default [] dynamic))
         (if partial then [] else Objects db) (if partial then [] else reportListener <$> Listeners db)
         (if partial then [] else reportClient <$> Clients db)
         (uniqueIssues (batchIssues batch)) (batchTaskResults batch) host in
       '(dropped, report) ← fitReportToWire report (bool_decide (batchIDs batch <> [])) (bodyLimit b);
       Ok (MkBuiltReport report (batchIDs batch) dropped), db)
  end.

End reports.

(** ** Properties *)

(** *** Capabilities *)

(** Consecutive repetitions dropped. *)
Fixpoint uniq (last : option string) (l : list string) : list string :=
  match l with
  | [] => []
  | v :: l => if decide (last = Some v) then uniq last l else v :: uniq (Some v) l
  end.

Lemma last_take_S {A} (l : list A) n : (0 < n <= length l)%nat -> last (take n l) = l !! (n - 1)%nat.
Proof.
  intros Hn. rewrite last_lookup, length_take. rewrite lookup_take. replace (n `min` length l)%nat with n by lia.
  rewrite decide_True by lia. f_equal. lia.
Qed.

(** The write position never passes the read position, so what is still to be
    read is untouched. *)
Lemma compactLoop_spec todo : forall i write arr,
  (write <= i)%nat -> (i + todo = length arr)%nat ->
  let '(arr', write') := compactLoop todo i write arr in
  take write' arr' = take write arr ++ uniq (last (take write arr)) (drop i arr).
Proof.
  induction todo as [|todo IH]; intros i write arr Hle Hlen; cbn [compactLoop].
  { rewrite drop_ge by lia. by rewrite app_nil_r. }
  destruct (lookup_lt_is_Some_2 arr i ltac:(lia)) as [value Hv]. rewrite Hv. rewrite (drop_S _ _ _ Hv). cbn [uniq].
  assert (bool_decide (write <> 0%nat) && bool_decide (arr !! (write - 1)%nat = Some value) = bool_decide (last (take write arr) = Some value)) as ->.
  { destruct write as [|write]; [done|]. rewrite last_take_S by lia. done. }
  destruct (decide (last (take write arr) = Some value)) as [Hl|Hl].
  - rewrite bool_decide_eq_true_2 by done. specialize (IH (S i) write arr ltac:(lia) ltac:(lia)). by destruct (compactLoop _ _ _ _).
  - rewrite bool_decide_eq_false_2 by done. specialize (IH (S i) (S write) (<[write := value]> arr) ltac:(lia) ltac:(rewrite length_insert; lia)).
    destruct (compactLoop _ _ _ _) as [arr' write']. rewrite IH.
    assert (take (S write) (<[write := value]> arr) = take write arr ++ [value]) as ->.
    { rewrite (take_S_r _ _ value) by (apply list_lookup_insert_eq; lia). by rewrite take_insert_ge by lia. }
    rewrite last_snoc, drop_insert_lt by lia. by rewrite <-app_assoc.
Qed.

Lemma uniq_sorted l : forall last, StronglySorted String.le l -> (forall v, last = Some v -> Forall (String.le v) l) ->
  StronglySorted String.le (uniq last l) /\ NoDup (uniq last l) /\ (forall v, v ∈ uniq last l <-> v ∈ l /\ last <> Some v).
Proof.
  induction l as [|a l IH]; intros last Hs Hl; cbn [uniq].
  { split_and!; try constructor; set_solver. }
  apply StronglySorted_inv in Hs as [Hs Ha]. case_decide as Hd.
  - subst last. destruct (IH (Some a) Hs) as (H1 & H2 & H3); [by intros v [= <-]|]. split_and!; try done. intros v. rewrite H3, elem_of_cons. naive_solver.
  - destruct (IH (Some a) Hs) as (H1 & H2 & H3); [by intros v [= <-]|]. split_and!.
    + constructor; [done|]. apply Forall_forall. intros v [Hv _]%H3. by eapply Forall_forall in Ha.
    + constructor; [|done]. rewrite H3. naive_solver.
    + intros v. rewrite !elem_of_cons, H3. destruct (decide (v = a)) as [->|]; [tauto|]. split; [|naive_solver].
      intros [?|[Hv _]]; [done|]. split; [by right|]. intros ->. specialize (Hl v eq_refl). apply Forall_cons in Hl as [Hva _].
      eapply Forall_forall in Ha; [|exact Hv]. apply n. by apply (anti_symm String.le).
Qed.

(** A report's capabilities are in order and named once: the in-place compaction
    of the sorted slice yields a strictly sorted list of exactly the given names. *)
Theorem capabilities_sorted_once values :
  let caps := sortedUniqueStrings values in
  StronglySorted String.le caps /\ NoDup caps /\ forall v, v ∈ caps <-> v ∈ values.
Proof.
  cbv zeta. unfold sortedUniqueStrings. set (sorted := merge_sort String.le values).
  pose proof (compactLoop_spec (length sorted) 0 0 sorted ltac:(lia) ltac:(lia)) as Hc. destruct (compactLoop _ _ _ _) as [arr write].
  rewrite Hc. simpl. rewrite drop_0. assert (StronglySorted String.le sorted) as Hs by (apply StronglySorted_merge_sort; apply _).
  destruct (uniq_sorted sorted None Hs) as (H1 & H2 & H3); [done|]. split_and!; try done.
  intros v. rewrite H3. unfold sorted. rewrite merge_sort_Permutation. naive_solver.
Qed.

(** *** Issues *)

Lemma seenIssue_loop issues : forall seen out,
  (forall i, i ∈ seen <-> i ∈ out) -> NoDup out ->
  let out' := (foldl seenIssue (seen, out) issues).2 in NoDup out' /\ (forall i, i ∈ out' <-> i ∈ out \/ i ∈ issues).
Proof.
  induction issues as [|issue issues IH]; intros seen out Hs Hn; cbn [foldl]; [split; [done|set_solver]|]. unfold seenIssue at 2 4. case_decide as Hd.
  - destruct (IH seen out Hs Hn) as [H1 H2]. split; [done|]. intros i. rewrite H2. set_solver.
  - destruct (IH (issue :: seen) (out ++ [issue])) as [H1 H2]; [set_solver| |].
    + apply NoDup_app. split_and!; [done|set_solver|apply NoDup_singleton].
    + split; [done|]. intros i. rewrite H2. set_solver.
Qed.

Lemma uniqueIssues_spec issues : NoDup (uniqueIssues issues) /\ forall i, i ∈ uniqueIssues issues <-> i ∈ issues.
Proof. destruct (seenIssue_loop issues [] []) as [H1 H2]; [done|constructor|]. split; [done|]. intros i. unfold uniqueIssues. rewrite H2. set_solver. Qed.

Section shrinking.
Context `{Protocol} {Host : Type}.
Context (MarshalReport : NodeReport Host -> option string) (MaxSyncBodyBytes : Z).

(** A report whose encoding is within the limit, or beyond it. *)
Definition fits (maxBytes : Z) (r : NodeReport Host) : Prop := exists body, MarshalReport r = Some body /\ len body ≤ maxBytes.
Definition too_big (maxBytes : Z) (r : NodeReport Host) : Prop := exists body, MarshalReport r = Some body /\ maxBytes < len body.

Definition without_host (r : NodeReport Host) : NodeReport Host := withHost None r.

Lemma without_host_id r : RHost r = None -> without_host r = r.
Proof. intros Hh. unfold without_host, withHost. by destruct r; simpl in *; subst. Qed.

Lemma encode_Ok r body : encodeReport MarshalReport r = Ok body <-> MarshalReport r = Some body.
Proof. unfold encodeReport. destruct (MarshalReport r); split; naive_solver. Qed.

Lemma dropEnumeration_Ok dropped r hasOutbox maxBytes x r' :
  dropEnumeration MarshalReport dropped r hasOutbox maxBytes = Ok (x, r') ->
  x = dropped /\ r' = partialOf r /\ Partial r = false /\ hasOutbox = true /\ fits maxBytes r'.
Proof.
  unfold dropEnumeration. destruct (Partial r || negb hasOutbox) eqn:Hb; [done|]. apply orb_false_iff in Hb as [? ?%negb_false_iff].
  intros (body & He%encode_Ok & Hr)%bind_Ok. case_decide; [done|]. injection Hr as <- <-. split_and!; try done. exists body. split; [done|lia].
Qed.

(** Telemetry goes first.  A report that is built always fits and always carries
    the whole outbox batch and the stream versions.  It loses its telemetry sample
    only if it did not fit with it, and its enumeration only if it did not fit
    without the sample either and the outbox has something to say; and it is
    refused only if even the smallest shape allowed does not fit. *)
Theorem report_degrades_in_order r hasOutbox maxBytes :
  (forall dropped r', fitReportToWire MarshalReport r hasOutbox maxBytes = Ok (dropped, r') ->
     fits maxBytes r' /\ RIssues r' = RIssues r /\ RTaskResults r' = RTaskResults r /\ Have r' = Have r /\ Capabilities r' = Capabilities r /\
     (r' = r /\ dropped = false \/
      too_big maxBytes r /\ r' = without_host r /\ dropped = true /\ is_Some (RHost r) \/
      too_big maxBytes r /\ too_big maxBytes (without_host r) /\ r' = partialOf (without_host r) /\ Partial r = false /\ hasOutbox = true /\
        (dropped = true <-> is_Some (RHost r)))) /\
  (is_Some (MarshalReport r) -> is_Some (MarshalReport (without_host r)) -> is_Some (MarshalReport (partialOf (without_host r))) ->
   is_Ok (fitReportToWire MarshalReport r hasOutbox maxBytes) = false ->
   too_big maxBytes r /\ too_big maxBytes (without_host r) /\
   (Partial r = true \/ hasOutbox = false \/ too_big maxBytes (partialOf (without_host r)))).
Proof.
  split.
  - intros dropped r'. unfold fitReportToWire. intros (body & He%encode_Ok & Hr)%bind_Ok. case_decide as Hl.
    { injection Hr as <- <-. split_and!; try done; [by exists body|by left]. }
    assert (too_big maxBytes r) as Hbig by (exists body; split; [done|lia]). destruct (RHost r) as [host|] eqn:Hh.
    + apply bind_Ok in Hr as (body2 & He2%encode_Ok & Hr). case_decide.
      { injection Hr as <- <-. split_and!; try done; [by exists body2|]. right. left. split_and!; try done. }
      apply dropEnumeration_Ok in Hr as (-> & -> & Hp & -> & Hf). split_and!; try done. right. right.
      assert (too_big maxBytes (without_host r)) by (exists body2; split; [done|lia]). done.
    + apply dropEnumeration_Ok in Hr as (-> & -> & Hp & -> & Hf). split_and!; try done. right. right.
      rewrite (without_host_id r Hh). by split_and!.
  - intros [b1 H1] [b2 H2] [b3 H3]. apply encode_Ok in H1 as E1. apply encode_Ok in H2 as E2. apply encode_Ok in H3 as E3.
    unfold fitReportToWire. rewrite E1. cbn [mbind res_bind].
    case_decide; [done|]. assert (too_big maxBytes r) as Hbig by (exists b1; split; [done|lia]).
    assert (forall d, is_Ok (dropEnumeration MarshalReport d (without_host r) hasOutbox maxBytes) = false ->
      Partial r = true \/ hasOutbox = false \/ too_big maxBytes (partialOf (without_host r))) as Hdrop.
    { intros d. unfold dropEnumeration. change (Partial (without_host r)) with (Partial r). destruct (Partial r); [by left|]. destruct hasOutbox; [|by right; left].
      cbn [orb negb]. rewrite E3. cbn [mbind res_bind]. case_decide; [|done]. intros _. right. right. by exists b3. }
    destruct (RHost r) as [host|] eqn:Hh.
    + change (withHost None r) with (without_host r). rewrite E2. cbn [mbind res_bind]. case_decide; [done|].
      intros Hd. split_and!; [done|exists b2; split; [done|lia]|by eapply Hdrop].
    + intros Hd. rewrite <-(without_host_id r Hh) in Hd at 1. split_and!; [done|by rewrite without_host_id|by eapply Hdrop].
Qed.

End shrinking.

(** *** What a report says *)

(** The content of an outbox row is in a report. *)
Definition carried `{Protocol} {Host} (row : OutboxRow) (r : NodeReport Host) : Prop :=
  match obKind row with
  | outboxIssue => exists issue, UnmarshalIssue (obPayload row) = Some issue /\ issue ∈ RIssues r
  | outboxTaskResult => exists result, UnmarshalTaskResult (obPayload row) = Some result /\ result ∈ RTaskResults r
  end.

Section building.
Context `{Protocol} {Host : Type}.
Context (MarshalReport : NodeReport Host -> option string) (MaxSyncBodyBytes : Z).

(** The content of an outbox row is in a batch. *)
Definition in_batch (row : OutboxRow) (batch : OutboxBatch) : Prop :=
  match obKind row with
  | outboxIssue => exists issue, UnmarshalIssue (obPayload row) = Some issue /\ issue ∈ batchIssues batch
  | outboxTaskResult => exists result, UnmarshalTaskResult (obPayload row) = Some result /\ result ∈ batchTaskResults batch
  end.

(** What a row holds. *)
Definition rowIssue (row : OutboxRow) : option Issue := match obKind row with outboxIssue => UnmarshalIssue (obPayload row) | outboxTaskResult => None end.
Definition rowResult (row : OutboxRow) : option TaskResult := match obKind row with outboxIssue => None | outboxTaskResult => UnmarshalTaskResult (obPayload row) end.

Lemma resultBytes_nonneg l : 0 ≤ resultBytes l.
Proof. induction l as [|r l IH]; simpl; [done|]. unfold len. lia. Qed.

(** Why a row is not among those sent: a limit of the protocol. *)
Definition left_out (sent : list OutboxRow) (row : OutboxRow) : Prop :=
  match obKind row with
  | outboxIssue => MaxIssuesPerReport ≤ Z.of_nat (length (omap rowIssue sent))
  | outboxTaskResult => MaxTaskResultsPerReport ≤ Z.of_nat (length (omap rowResult sent)) \/
      exists result, UnmarshalTaskResult (obPayload row) = Some result /\
        MaxTaskResultBytesPerReport < resultBytes (omap rowResult sent) + len (RResult result)
  end.

Lemma left_out_app sent more row : left_out sent row -> left_out (sent ++ more) row.
Proof.
  unfold left_out. rewrite !omap_app, !length_app, resultBytes_app. pose proof (resultBytes_nonneg (omap rowResult more)).
  destruct (obKind row); [lia|]. intros [?|(result & Hu & ?)]; [left; lia|right; exists result; split; [done|lia]].
Qed.

(** The rows [sent] are the batch of the rows [rows] that were scanned. *)
Record batch_of (rows sent : list OutboxRow) (batch : OutboxBatch) : Prop := {
  sb_order : sent `sublist_of` rows;
  sb_rest : forall row, row ∈ rows -> row ∈ sent \/ left_out sent row;
  sb_decoded : forall row, row ∈ sent -> decodable row;
  sb_ids : batchIDs batch = obID <$> sent;
  sb_issues : batchIssues batch = omap rowIssue sent;
  sb_results : batchTaskResults batch = omap rowResult sent
}.

Lemma batch_of_skip rows sent batch row : batch_of rows sent batch -> left_out sent row -> batch_of (rows ++ [row]) sent batch.
Proof.
  intros [H1 H2 H3 H4 H5 H6] Hl. split; try done; [by apply sublist_inserts_r|]. intros r [Hr| ->%list_elem_of_singleton]%elem_of_app; [by apply H2|by right].
Qed.

Lemma batch_of_take rows sent batch row issues results :
  batch_of rows sent batch -> decodable row -> issues = omap rowIssue [row] -> results = omap rowResult [row] ->
  batch_of (rows ++ [row]) (sent ++ [row]) (MkOutboxBatch (batchIDs batch ++ [obID row]) (batchIssues batch ++ issues) (batchTaskResults batch ++ results)).
Proof.
  intros [H1 H2 H3 H4 H5 H6] Hd -> ->. split; simpl.
  - by apply sublist_app.
  - intros r [Hr| ->%list_elem_of_singleton]%elem_of_app; [|left; set_solver]. destruct (H2 r Hr); [left; set_solver|right; by apply left_out_app].
  - intros r [Hr| ->%list_elem_of_singleton]%elem_of_app; [by apply H3|done].
  - by rewrite fmap_app, H4.
  - by rewrite omap_app, H5.
  - by rewrite omap_app, H6.
Qed.

Lemma pendingStep_batch rows sent batch row batch' bytes' :
  batch_of rows sent batch -> pendingStep (batch, resultBytes (omap rowResult sent)) row = Ok (batch', bytes') ->
  exists sent', batch_of (rows ++ [row]) sent' batch' /\ bytes' = resultBytes (omap rowResult sent').
Proof.
  intros Hb. assert (forall r, rowResult row = r -> omap rowResult [row] = match r with Some x => [x] | None => [] end) as Hr by (intros r <-; simpl; by destruct (rowResult row)).
  assert (forall r, rowIssue row = r -> omap rowIssue [row] = match r with Some x => [x] | None => [] end) as Hi by (intros r <-; simpl; by destruct (rowIssue row)).
  assert (left_out sent row -> Ok (batch, resultBytes (omap rowResult sent)) = @Ok error _ (batch', bytes') ->
    exists sent', batch_of (rows ++ [row]) sent' batch' /\ bytes' = resultBytes (omap rowResult sent')) as Hskip
    by (intros Hl [= <- <-]; exists sent; split; [by apply batch_of_skip|done]).
  unfold pendingStep. destruct (obKind row) eqn:Hk; case_decide as Hfull.
  - apply Hskip. unfold left_out. by rewrite Hk, <-(sb_issues _ _ _ Hb).
  - clear Hskip. destruct (UnmarshalIssue (obPayload row)) as [issue|] eqn:Hu; [|done]. intros [= <- <-].
    assert (rowIssue row = Some issue /\ rowResult row = None) as [Ei Er] by (unfold rowIssue, rowResult; by rewrite Hk). specialize (Hi _ Ei). specialize (Hr _ Er).
    exists (sent ++ [row]). rewrite omap_app, Hr, app_nil_r. split; [|done]. rewrite <-(app_nil_r (batchTaskResults batch)). apply batch_of_take; try done. unfold decodable. by rewrite Hk, Hu.
  - apply Hskip. unfold left_out. rewrite Hk, <-(sb_results _ _ _ Hb). by left.
  - destruct (UnmarshalTaskResult (obPayload row)) as [result|] eqn:Hu; [|done]. case_decide as Hbytes.
    { apply Hskip. unfold left_out. rewrite Hk. right. exists result. split; [done|lia]. }
    clear Hskip. intros [= <- <-]. assert (rowIssue row = None /\ rowResult row = Some result) as [Ei Er] by (unfold rowIssue, rowResult; by rewrite Hk).
    specialize (Hi _ Ei). specialize (Hr _ Er). exists (sent ++ [row]). rewrite omap_app, Hr, resultBytes_app. split; [|simpl; lia].
    rewrite <-(app_nil_r (batchIssues batch)). apply batch_of_take; try done. unfold decodable. by rewrite Hk, Hu.
Qed.

Lemma pendingSteps_batch todo : forall rows sent batch batch' bytes',
  batch_of rows sent batch -> res_foldl pendingStep (batch, resultBytes (omap rowResult sent)) todo = Ok (batch', bytes') ->
  exists sent', batch_of (rows ++ todo) sent' batch'.
Proof.
  induction todo as [|row todo IH]; intros rows sent batch batch' bytes' Hb; cbn [res_foldl].
  - intros [= <- _]. exists sent. by rewrite app_nil_r.
  - intros ([b1 y1] & Hs & Hr)%bind_Ok. destruct (pendingStep_batch _ _ _ _ _ _ Hb Hs) as (sent1 & Hb1 & ->).
    destruct (IH _ _ _ _ _ Hb1 Hr) as (sent' & Hb'). exists sent'. by rewrite <-app_assoc in Hb'.
Qed.

(** The batch is of the oldest pending rows, and leaves one out only for a limit. *)
Lemma PendingOutbox_batch db limit batch : PendingOutbox db limit = Ok batch -> exists sent, batch_of (pendingRows db limit) sent batch.
Proof.
  unfold PendingOutbox. case_decide; [done|]. intros ([b bytes] & Hl & [= <-])%bind_Ok.
  apply (pendingSteps_batch _ [] [] (MkOutboxBatch [] [] []) b bytes); [|done]. split; try done; set_solver.
Qed.

Lemma pendingRows_pending db limit row : row ∈ pendingRows db limit -> row ∈ report_outbox db /\ obDelivered row = false.
Proof. unfold pendingRows. intros Hr%elem_of_firstn. rewrite merge_sort_Permutation in Hr. by apply list_elem_of_filter in Hr as [? ?]. Qed.

Lemma batch_in rows sent batch row : batch_of rows sent batch -> row ∈ sent -> in_batch row batch.
Proof.
  intros [_ _ Hd _ Hi Hr] Hin. specialize (Hd row Hin). unfold in_batch, decodable in *. rewrite Hi, Hr.
  destruct (obKind row) eqn:Hk; destruct Hd as [x Hx]; exists x; (split; [done|]); apply list_elem_of_omap; exists row; (split; [done|]); unfold rowIssue, rowResult; by rewrite Hk.
Qed.

Lemma PendingOutbox_covers db limit batch :
  PendingOutbox db limit = Ok batch ->
  forall id, id ∈ batchIDs batch -> exists row, row ∈ report_outbox db /\ obDelivered row = false /\ obID row = id /\ in_batch row batch.
Proof.
  intros (sent & Hb)%PendingOutbox_batch id. rewrite (sb_ids _ _ _ Hb). intros (row & -> & Hin)%list_elem_of_fmap.
  destruct (pendingRows_pending db limit row) as [? ?]; [by eapply elem_of_sublist; [exact Hin|apply Hb]|]. exists row. split_and!; try done. by eapply batch_in.
Qed.

(** The report's contents after the shrinking. *)
Lemma fit_contents r hasOutbox maxBytes dropped r' :
  fitReportToWire MarshalReport r hasOutbox maxBytes = Ok (dropped, r') ->
  RIssues r' = RIssues r /\ RTaskResults r' = RTaskResults r /\ Have r' = Have r /\ (Partial r' = false -> r' = r \/ r' = without_host r) /\
  (Partial r = true -> Partial r' = true) /\ ReportedAtMS r' = ReportedAtMS r.
Proof.
  unfold fitReportToWire. intros (body & _ & Hr)%bind_Ok. case_decide; [injection Hr as <- <-; tauto|]. destruct (RHost r).
  - apply bind_Ok in Hr as (body2 & _ & Hr). case_decide; [injection Hr as <- <-; tauto|].
    apply dropEnumeration_Ok in Hr as (_ & -> & Hp & _). simpl in *. split_and!; try done.
  - apply dropEnumeration_Ok in Hr as (_ & -> & Hp & _). simpl in *. split_and!; try done.
Qed.

Lemma haveSteps_Ok db streams : forall have have',
  res_foldl (haveStep db) have streams = Ok have' ->
  (forall s, s ∈ streams -> exists st, haveOf db s = Ok st /\ have' !! s = Some st) /\
  (forall s, s ∉ streams -> have' !! s = have !! s).
Proof.
  induction streams as [|stream streams IH]; intros have have' Hr.
  - injection Hr as <-. split; [|done]. by intros s Hs%not_elem_of_nil.
  - cbn [res_foldl] in Hr. apply bind_Ok in Hr as (h1 & H1 & Hr). unfold haveStep in H1. apply bind_Ok in H1 as (st & Hst & [= <-]).
    destruct (IH _ _ Hr) as [Hin Hout]. split.
    + intros s [->|Hs]%elem_of_cons; [|by apply Hin]. destruct (decide (stream ∈ streams)) as [Hs|Hs]; [by apply Hin|].
      exists st. split; [done|]. by rewrite Hout, lookup_insert_eq.
    + intros s Hs. rewrite Hout by set_solver. rewrite lookup_insert_ne; [done|set_solver].
Qed.

Lemma Build_Ok b status dynamic db partial host now built db' :
  Build MarshalReport MaxSyncBodyBytes b status dynamic db partial host now = (Ok built, db') ->
  exists n have batch dropped report, ApplyScheduledQuotas db (UnixMilli now) = Ok (n, db') /\
    res_foldl (haveStep db') ∅ [StreamConfig; StreamRoster; StreamDirectives] = Ok have /\
    PendingOutbox db' (if decide (BOutboxLimit b = 0) then defaultOutboxBatch else BOutboxLimit b) = Ok batch /\
    Have report = have /\ RIssues report = uniqueIssues (batchIssues batch) /\ RTaskResults report = batchTaskResults batch /\
    Partial report = partial /\ (partial = false -> RObjects report = Objects db' /\
      RListenerCounters report = reportListener <$> Listeners db' /\ RClients report = reportClient <$> Clients db') /\
    fitReportToWire MarshalReport report (bool_decide (batchIDs batch <> [])) (bodyLimit MaxSyncBodyBytes b) = Ok (dropped, Report built) /\
    OutboxIDs built = batchIDs batch /\ HostDropped built = dropped /\ ReportedAtMS report = UnixMilli now.
Proof.
  unfold Build. case_decide; [done|]. destruct (ApplyScheduledQuotas db (UnixMilli now)) as [[n d]|e] eqn:Hq; [|done].
  intros [= Hb ->]. apply bind_Ok in Hb as (have & Hh & Hb). apply bind_Ok in Hb as (batch & Hp & Hb).
  destruct (match status with Some _ => _ | None => _ end) as [[engine version] state].
  apply bind_Ok in Hb as ([dropped report] & Hf & [= <-]). eexists n, have, batch, dropped, _. do 3 (split; [done|]).
  split_and!; try exact Hf; try done. by intros ->.
Qed.


End building.

Module reports_example.
Import sample.

Definition builder : ReportBuilder := MkReportBuilder "agent" "4.0.0" "" "" "" ["host.v1"; "host.v1"] 0 60.

(** Sixty bytes: the telemetry does not fit, and neither does the enumeration. *)
Definition encode (r : NodeReport string) : option string :=
  Some (String.concat "" (replicate (if RHost r then 5 else if Partial r then 3 else 4) "................")).

(** One client in the ledger and the same issue queued by two episodes. *)
Definition store : DB :=
  match EnsureClient empty_db (MkClientIdentity "cli_1" "usr_1") 1 with
  | Ok d =>
      match EnqueueIssue d "first" (MkIssue "code" "key" "detail") 2 with
      | Ok (_, d) => match EnqueueIssue d "second" (MkIssue "code" "key" "detail") 3 with Ok (_, d) => d | Err _ => d end
      | Err _ => d
      end
  | Err _ => empty_db
  end.

Definition full : res error (BuiltReport string) * DB := Build encode 100 builder None None store false (Some "sample") 5000000.


End reports_example.
