(* ===== verification/Sync.v ===== *)
(** * The sync loop ([internal/agent/sync.go], [run.go])

    One round builds a report, sends it, acknowledges the outbox and processes the
    response.  What a round calls is the class [SyncPorts]; what it relies on is
    [SyncLaws]. *)
From S2P Require Import Prelude GoStrings Protocol Store Streams Clients Outbox Tasks Journal TaskClock Receive Processor CoreRuntime Observation Reports.

(** ** Ports *)

(** A response: the envelope and the part the processor reads. *)
Record WireResponse (Envelope : Type) := MkWireResponse { WEnvelope : Envelope; WBody : SyncResponse }.
Arguments MkWireResponse {Envelope}.
Arguments WEnvelope {Envelope}.
Arguments WBody {Envelope}.

(** What one round sees of the rest of the agent, with state [W]: the host
    reporter, the observer, the local converger, the transport, the processor,
    [OnSynced], the context and the clocks. *)
Class SyncPorts (W Host Envelope : Type) := {
  CollectHost : W -> DB -> res error (option Host) * W * DB;
  HostSent : W -> Host -> W;
  HostWireLimit : W -> DB -> W * DB;
  ObserveCore : W -> DB -> res error ObservationResult * W * DB;
  ConvergeLocal : W -> DB -> option error * W * DB;
  SendReport : W -> NodeReport Host -> res error (WireResponse Envelope) * W;
  ProcessResponse : W -> DB -> SyncResponse -> bool * option error * W * DB;
  RecordSynced : W -> option error * W;
  Cancelled : W -> bool;
  CoreStatusNow : W -> option CoreStatus;
  DynamicCapabilities : W -> option (list string);
  Elapsed : W -> reading * W;
  WallClock : W -> Z * W
}.

(** The functions of the protocol module. *)
Class SyncProtocol (Host Envelope : Type) := {
  MarshalReport : NodeReport Host -> option string;
  MaxSyncBodyBytes : Z;
  ValidateNodeReport : NodeReport Host -> bool;
  ValidateSyncResponse : WireResponse Envelope -> bool;
  ComputedAtMS : Envelope -> Z;
  NextPollSeconds : Envelope -> Z;
  ShouldSendFull : Envelope -> Z -> bool;
  zeroEnvelope : Envelope;
  DefaultNextPollSeconds : Z
}.

(** Which optional parts are set. *)
Record Synchronizer := MkSynchronizer {
  Reports : ReportBuilder;
  HasHost : bool;
  HasObserver : bool;
  HasConverger : bool;
  HasOnSynced : bool
}.

Record SyncResult (Envelope : Type) := MkSyncResult { SrEnvelope : Envelope; ReportWasFull : bool; ReportImmediately : bool }.
Arguments MkSyncResult {Envelope}.
Arguments SrEnvelope {Envelope}.
Arguments ReportWasFull {Envelope}.
Arguments ReportImmediately {Envelope}.

(** What a round did, in order. *)
Inductive syncEvent (Host : Type) :=
| SyncObserved (gateChanged : bool)
| SyncConverged (ok : bool)
| SyncSent (report : NodeReport Host) (answered : bool)
| SyncAcked (ids : list Z)
| SyncProcessed (ok : bool).
Arguments SyncObserved {Host}.
Arguments SyncConverged {Host}.
Arguments SyncSent {Host}.
Arguments SyncAcked {Host}.
Arguments SyncProcessed {Host}.

Section sync.
Context `{Protocol} {W Host Envelope : Type} `{!SyncPorts W Host Envelope} `{!SyncProtocol Host Envelope}.

Record sstate := MkSState {
  sworld : W;
  sdb : DB;
  sclock : option ControlPlaneTaskClock;
  sstats : option RuntimeStats;
  synced : bool;
  strace : list (syncEvent Host)
}.

Definition syncM (A : Type) : Type := sstate -> res error A * sstate.

#[global] Instance syncM_ret : MRet syncM := fun A a s => (Ok a, s).
#[global] Instance syncM_bind : MBind syncM := fun A B f m s =>
  match m s with
  | (Ok a, s') => f a s'
  | (Err e, s') => (Err e, s')
  end.

Definition raise {A} (e : error) : syncM A := fun s => (Err e, s).
Definition setWorld (w : W) (s : sstate) : sstate := MkSState w (sdb s) (sclock s) (sstats s) (synced s) (strace s).
Definition setWD (w : W) (d : DB) (s : sstate) : sstate := MkSState w d (sclock s) (sstats s) (synced s) (strace s).
Definition logEvent (e : syncEvent Host) (s : sstate) : sstate :=
  MkSState (sworld s) (sdb s) (sclock s) (sstats s) (synced s) (strace s ++ [e]).

(** [LocalConverger.Converge]. *)
Definition runConverge : syncM (option error) := fun s =>
  let '(e, w, d) := ConvergeLocal (sworld s) (sdb s) in
  (Ok e, logEvent (SyncConverged (bool_decide (e = None))) (setWD w d s)).

Definition withOfflineConvergence {A} (sy : Synchronizer) (e : error) : syncM A := fun s =>
  if negb (HasConverger sy) || Cancelled (sworld s) then (Err e, s) else
  let '(_, s') := runConverge s in (Err e, s').

(** ** One round *)

Definition collectHost (sy : Synchronizer) (includeHost : bool) : syncM (option Host) := fun s =>
  if includeHost && HasHost sy then
    let '(r, w, d) := CollectHost (sworld s) (sdb s) in (r, setWD w d s)
  else (Ok None, s).

Definition observeCore : syncM ObservationResult := fun s =>
  let '(r, w, d) := ObserveCore (sworld s) (sdb s) in
  match r with
  | Ok o => (Ok o, logEvent (SyncObserved (GateChanged o)) (setWD w d s))
  | Err _ => (Err (Errorf "observe core before full report"), setWD w d s)
  end.

Definition observeBefore (sy : Synchronizer) (partial : bool) : syncM unit :=
  if negb partial && HasObserver sy then
    observation ← observeCore;
    if GateChanged observation && HasConverger sy then
      failure ← runConverge;
      match failure with
      | Some _ => raise (Errorf "converge observed local quota gate")
      | None => mret tt
      end
    else mret tt
  else mret tt.

Definition buildReport (sy : Synchronizer) (partial : bool) (host : option Host) : syncM (BuiltReport Host) := fun s =>
  let '(now, w) := WallClock (sworld s) in
  let '(r, d) := Build MarshalReport MaxSyncBodyBytes (Reports sy) (CoreStatusNow w) (DynamicCapabilities w) (sdb s) partial host now in
  (r, setWD w d s).

(** The task clock before and after the exchange; its faults never stop it. *)
Definition captureClock : syncM (res clockError Z) := fun s =>
  match sclock s with
  | None => (Ok (Ok 0), s)
  | Some c =>
      let '(reading, w) := Elapsed (sworld s) in
      let '(r, c') := Capture c reading in
      (Ok r, MkSState w (sdb s) (Some c') (sstats s) (synced s) (strace s))
  end.

Definition observeClock (envelope : Envelope) (started : res clockError Z) : syncM unit := fun s =>
  match sclock s, started with
  | Some c, Ok start =>
      let '(reading, w) := Elapsed (sworld s) in
      let '(_, c') := TaskClock.Observe c (ComputedAtMS envelope) start reading in
      (Ok tt, MkSState w (sdb s) (Some c') (sstats s) (synced s) (strace s))
  | _, _ => (Ok tt, s)
  end.

(** The exchange: an answer that arrived and is valid, or the error to return. *)
Definition exchange (sy : Synchronizer) (report : NodeReport Host) : syncM (WireResponse Envelope) := fun s =>
  let '(r, w) := SendReport (sworld s) report in
  match r with
  | Err e => withOfflineConvergence sy e (logEvent (SyncSent report false) (setWorld w s))
  | Ok response =>
      if negb (ValidateSyncResponse response)
      then withOfflineConvergence sy (Errorf "validate sync response") (logEvent (SyncSent report false) (setWorld w s))
      else (Ok response, logEvent (SyncSent report true) (setWorld w s))
  end.

Definition settleHost (sy : Synchronizer) (built : BuiltReport Host) (sample : option Host) : syncM unit := fun s =>
  if negb (HasHost sy) then (Ok tt, s) else
  if HostDropped built then let '(w, d) := HostWireLimit (sworld s) (sdb s) in (Ok tt, setWD w d s) else
  match sample with
  | Some x => (Ok tt, setWorld (HostSent (sworld s) x) s)
  | None => (Ok tt, s)
  end.

Definition acknowledge (sy : Synchronizer) (ids : list Z) : syncM unit := fun s =>
  match AckOutbox (sdb s) ids with
  | Err _ => withOfflineConvergence sy (Errorf "acknowledge delivered report outbox") s
  | Ok d => (Ok tt, MkSState (sworld s) d (sclock s) (sstats s) true (strace s ++ [SyncAcked ids]))
  end.

Definition processResponse (response : SyncResponse) : syncM bool := fun s =>
  let '(immediate, e, w, d) := ProcessResponse (sworld s) (sdb s) response in
  let s' := logEvent (SyncProcessed (bool_decide (e = None))) (setWD w d s) in
  match e with
  | Some _ => (Err (Errorf "process sync response"), s')
  | None => (Ok immediate, s')
  end.

Definition recordSynced (sy : Synchronizer) : syncM unit := fun s =>
  if HasOnSynced sy then
    let '(e, w) := RecordSynced (sworld s) in
    (match e with Some _ => Err (Errorf "record successful sync") | None => Ok tt end, setWorld w s)
  else (Ok tt, s).

Definition syncRound (sy : Synchronizer) (partial includeHost : bool) : syncM (SyncResult Envelope) :=
  host ← collectHost sy includeHost;
  _ ← observeBefore sy partial;
  built ← buildReport sy partial host;
  if negb (ValidateNodeReport (Report built)) then raise (Errorf "validate local node report") else
  started ← captureClock;
  response ← exchange sy (Report built);
  _ ← settleHost sy built host;
  _ ← observeClock (WEnvelope response) started;
  _ ← acknowledge sy (OutboxIDs built);
  immediate ← processResponse (WBody response);
  _ ← recordSynced sy;
  mret (MkSyncResult (WEnvelope response) (negb (Partial (Report built))) immediate).

(** The deferred classification of the round. *)
Definition recordStats (s : sstate) : sstate :=
  match sstats s with
  | None => s
  | Some stats =>
      if negb (synced s) && Cancelled (sworld s) then s else
      let '(now, w) := WallClock (sworld s) in
      MkSState w (sdb s) (sclock s) (Some (recordRound stats (synced s, now))) (synced s) (strace s)
  end.

Definition SyncOnce (sy : Synchronizer) (partial includeHost : bool) : syncM (SyncResult Envelope) := fun s =>
  let '(r, s') := syncRound sy partial includeHost (MkSState (sworld s) (sdb s) (sclock s) (sstats s) false (strace s)) in
  (r, recordStats s').

(** ** The runner ([run.go]) *)

Definition defaultPollInterval : Z := DefaultNextPollSeconds * second.
Definition maxFailureBackoff : Z := 30 * second.

(** Nanoseconds; the product wraps. *)
Definition pollInterval (seconds : Z) : Z := if decide (seconds ≤ 0) then defaultPollInterval else wrap64 (seconds * second).

Definition backoffCeiling (failures : Z) : Z :=
  let failures := if decide (failures < 1) then 1 else failures in
  let shift := failures - 1 in
  let shift := if decide (5 < shift) then 5 else shift in
  let ceiling := second * Z.shiftl 1 shift in
  if decide (maxFailureBackoff < ceiling) then maxFailureBackoff else ceiling.

(** [entropy] is what [rand.Int] draws below the span, [None] its failure. *)
Definition failureBackoff (failures : Z) (entropy : Z -> option Z) : Z :=
  let ceiling := backoffCeiling failures in
  let half := Z.quot ceiling 2 in
  match entropy (ceiling - half) with
  | None => ceiling
  | Some n => half + n
  end.

Record runner := MkRunner { lastEnvelope : Envelope; lastFull : option Z; failures : Z; delay : Z; rstate : sstate }.

(** What a turn reads: whether the wait is cut by the context, the clock, the
    host reporter's answer, the context after the round, and the entropy. *)
Record turnEnv := MkTurnEnv { teDone : bool; teNow : Z; teHostDue : bool; teCancelled : bool; teEntropy : Z -> option Z }.

(** One turn of [Run]; [None] is its return. *)
Definition runTurn (sy : Synchronizer) (r : runner) (env : turnEnv) : option runner :=
  if bool_decide (0 < delay r) && teDone env then None else
  let since := match lastFull r with Some t => Z.quot (Z.max min_int64 (Z.min max_int64 (teNow env - t))) second | None => max_int64 end in
  let partial := negb (ShouldSendFull (lastEnvelope r) since) in
  let '(result, s) := SyncOnce sy partial (HasHost sy && teHostDue env) (rstate r) in
  match result with
  | Err _ =>
      if teCancelled env then None else
      Some (MkRunner (lastEnvelope r) (lastFull r) (failures r + 1) (failureBackoff (failures r + 1) (teEntropy env)) s)
  | Ok result =>
      Some (MkRunner (SrEnvelope result) (if ReportWasFull result then Some (teNow env) else lastFull r) 0
              (if ReportImmediately result then 0 else pollInterval (NextPollSeconds (SrEnvelope result))) s)
  end.

End sync.
