(* ===== verification/Delivery.v ===== *)
(** * Delivery: what a sync round guarantees

    Nothing on the outbox is lost, quotas are enforced before and without the
    network, and each round is counted once. *)
From S2P Require Import Prelude GoStrings Protocol Store Streams Clients Outbox Tasks Journal TaskClock Documents Receive Processor Rounds CoreRuntime Observation Reports Sync.

(** ** Pending rows *)

Definition same_row (r r' : OutboxRow) : Prop :=
  obID r' = obID r /\ obKind r' = obKind r /\ obDedupe r' = obDedupe r /\ obPayload r' = obPayload r.

Definition pending_row (r : OutboxRow) (db : DB) : Prop :=
  exists r', r' ∈ report_outbox db /\ same_row r r' /\ obDelivered r' = false.

(** Every row that waits keeps waiting. *)
Definition still_pending (db d : DB) : Prop := forall r, pending_row r db -> pending_row r d.

Lemma still_pending_refl db : still_pending db db.
Proof. by intros r. Qed.

Lemma still_pending_trans a b c : still_pending a b -> still_pending b c -> still_pending a c.
Proof. intros Hab Hbc r Hr. by apply Hbc, Hab. Qed.

Lemma still_pending_ext db d : report_outbox d = report_outbox db -> still_pending db d.
Proof. intros He r (r' & Hr & Hs). exists r'. by rewrite He. Qed.

Lemma same_row_trans a b c : same_row a b -> same_row b c -> same_row a c.
Proof. unfold same_row. intuition congruence. Qed.

Lemma still_pending_insert kind dedupe payload atMS db : still_pending db (outbox_insert kind dedupe payload atMS db).
Proof. intros r (r' & Hr & Hs). exists r'. split; [|done]. simpl. set_solver. Qed.

Section pending.
Context `{Protocol}.

Lemma putImmutable_pending db id body atMS d : putImmutableTaskResult db id body atMS = Ok d -> still_pending db d.
Proof.
  unfold putImmutableTaskResult. destruct (outbox_find _ _ _).
  - case_decide; [done|]. intros [= <-] r (r' & Hr & Hs & Hd). simpl.
    exists (if decide (outbox_is outboxTaskResult id r') then setObDelivered false r' else r').
    split; [apply list_elem_of_fmap; eauto|]. by case_decide.
  - intros [= <-]. apply still_pending_insert.
Qed.

Lemma acceptOne_pending clock atMS acc db n task acc' d n' :
  acceptOne clock atMS (acc, db, n) task = Ok (acc', d, n') -> still_pending db d.
Proof.
  unfold acceptOne. destruct (task_executions db !! TID task) as [t|].
  - case_decide; [done|]. destruct (Terminal (XState t)).
    + intros (d1 & Hr & [= _ <- _])%bind_Ok. unfold rearmTaskResult in Hr. apply bind_Ok in Hr as (d2 & Hp & [= <-]).
      eapply still_pending_trans; [by eapply putImmutable_pending|]. by apply still_pending_ext.
    + intros [= _ <- _]. apply still_pending_refl.
  - assert (forall m acc0 acc1 d1 m1, (d' ← put_task (freshTask task atMS) db; Ok (acc0, d', m)) =
      @Ok error (TaskAcceptance * DB * nat) (acc1, d1, m1) -> still_pending db d1) as Hins.
    { intros m acc0 acc1 d1 m1 (d' & [Hck ->]%put_task_Ok & [= _ <- _])%bind_Ok. by apply still_pending_ext. }
    case_decide; [|apply Hins]. destruct (taskBounds clock n).
    + case_decide; [|apply Hins]. intros [= _ <- _]. apply still_pending_refl.
    + intros [= _ <- _]. apply still_pending_refl.
Qed.

Lemma AcceptTasksFenced_pending db tasks atMS clock acc d :
  AcceptTasksFenced db tasks atMS clock = Ok (acc, d) -> still_pending db d.
Proof.
  unfold AcceptTasksFenced. case_decide; [done|]. destruct (ValidateTasks tasks); [|done]. cbn [negb].
  intros ([[acc1 d1] n1] & Hl & [= _ <-])%bind_Ok.
  apply (res_foldl_inv _ (fun s => still_pending db s.1.2)) in Hl; [done| |apply still_pending_refl].
  intros [[acc2 d2] n2] task [[acc3 d3] n3] Hp _ Hs. eapply still_pending_trans; [exact Hp|]. by eapply acceptOne_pending.
Qed.

Lemma EnqueueIssue_pending db dedupe issue atMS created d : EnqueueIssue db dedupe issue atMS = Ok (created, d) -> still_pending db d.
Proof.
  unfold EnqueueIssue, enqueue. repeat case_decide; try done.
  destruct (outbox_find _ _ _); intros [= _ <-]; [apply still_pending_refl|apply still_pending_insert].
Qed.

(** An acknowledgement removes the rows it names and no other. *)
Lemma ackOne_other db id d r : ackOne db id = Ok d -> obID r <> id -> pending_row r db -> pending_row r d.
Proof.
  unfold ackOne. case_decide; [done|]. intros [= <-] Hne (r' & Hr & Hs & Hd). exists r'. split; [|done]. simpl.
  assert (obID r' <> id) as Hne' by (destruct Hs; congruence). apply list_elem_of_filter. split; [tauto|].
  apply list_elem_of_fmap. exists r'. by rewrite decide_False.
Qed.

Lemma AckOutbox_other ids : forall db d r, AckOutbox db ids = Ok d -> obID r ∉ ids -> pending_row r db -> pending_row r d.
Proof.
  induction ids as [|id ids IH]; intros db d r Ha Hn Hp.
  - by injection Ha as <-.
  - unfold AckOutbox in Ha. cbn [res_foldl] in Ha. apply bind_Ok in Ha as (d1 & H1 & Ha). apply not_elem_of_cons in Hn as [? ?].
    eapply IH; [exact Ha|done|]. by eapply ackOne_other.
Qed.

Lemma AckOutbox_frame ids : forall db d, AckOutbox db ids = Ok d ->
  d = set_task_executions (task_executions d) (set_report_outbox (report_outbox d) db).
Proof.
  induction ids as [|id ids IH]; intros db d Ha.
  - injection Ha as <-. by destruct db.
  - unfold AckOutbox in Ha. cbn [res_foldl] in Ha. apply bind_Ok in Ha as (d1 & H1 & Ha). rewrite (IH _ _ Ha) at 1.
    unfold ackOne in H1. case_decide; [done|]. by injection H1 as <-.
Qed.

End pending.

(** ** What the rest of the agent keeps *)

Section kept.
Context `{Protocol}.

(** The invariants, the waiting rows, the documents and the tasks. *)
Record kept (db d : DB) : Prop := {
  kept_ok : node_ok d;
  kept_pending : still_pending db d;
  kept_progress : db_progress db d;
  kept_tasks : tasks_evolve task_flag db d
}.

Lemma kept_refl db : node_ok db -> kept db db.
Proof. intros Hok. split; [done|apply still_pending_refl|apply db_progress_refl|apply tasks_evolve_refl]. Qed.

Lemma kept_trans `{!ProtocolLaws} a b c : node_ok a -> kept a b -> kept b c -> kept a c.
Proof.
  intros Ha [Hb1 Hb2 Hb3 Hb4] [Hc1 Hc2 Hc3 Hc4]. split; [done|by eapply still_pending_trans| |by eapply tasks_evolve_trans].
  eapply (db_progress_trans a b c); [apply Ha|apply Hb1|apply Hc1|done|done].
Qed.

End kept.

Class SyncLaws {W Host Envelope : Type} `{Protocol, BodyCodec DirectivesBody} `{!SyncPorts W Host Envelope} : Prop := {
  collect_host_kept w db : node_ok db -> kept db (CollectHost w db).2;
  wire_limit_kept w db : node_ok db -> kept db (HostWireLimit w db).2;
  observe_core_kept w db : node_ok db -> kept db (ObserveCore w db).2;
  converge_local_kept w db : node_ok db -> kept db (ConvergeLocal w db).2;
  process_kept w db response : node_ok db -> directives_typed response -> kept db (ProcessResponse w db response).2;
  send_typed w report response w' : SendReport w report = (Ok response, w') -> directives_typed (WBody response)
}.
Arguments SyncLaws W Host Envelope {_ _ _}.

(** ** The parts of a round *)

Section rounds.
Context `{ProtocolLaws} `{BodyCodec DirectivesBody} {W Host Envelope : Type}.
Context `{!SyncPorts W Host Envelope} `{!SyncProtocol Host Envelope} `{!SyncLaws W Host Envelope}.
Implicit Types (s : @sstate W Host) (es : list (syncEvent Host)).

Lemma syncM_bind_run {A B} (m : syncM A) (f : A -> syncM B) s r s' :
  (m ≫= f) s = (r, s') ->
  (exists e, m s = (Err e, s') /\ r = Err e) \/ (exists a s1, m s = (Ok a, s1) /\ f a s1 = (r, s')).
Proof. unfold mbind, syncM_bind. destruct (m s) as [[a|e] s1]; [right; eauto|]. intros [= <- <-]. left. eauto. Qed.

(** [s'] continues [s]: the store is kept, the events [es] happened, and the round
    is not marked synced. *)
Record continues s s' es : Prop := {
  co_kept : kept (sdb s) (sdb s');
  co_trace : strace s' = strace s ++ es;
  co_synced : synced s' = synced s;
  co_stats : sstats s' = sstats s
}.

Lemma continues_refl s : node_ok (sdb s) -> continues s s [].
Proof. intros Hok. split; [by apply kept_refl|by rewrite app_nil_r|done|done]. Qed.

Lemma continues_trans s s1 s2 es es' : node_ok (sdb s) -> continues s s1 es -> continues s1 s2 es' -> continues s s2 (es ++ es').
Proof.
  intros Hok [K T S C] [K' T' S' C']. split; [by eapply kept_trans|by rewrite T', T, app_assoc|congruence|congruence].
Qed.

Lemma continues_ok s s' es : continues s s' es -> node_ok (sdb s').
Proof. intros [K _ _ _]. apply K. Qed.

(** Nothing left the host and nothing was acknowledged. *)
Definition local_event (e : syncEvent Host) : Prop := match e with SyncObserved _ | SyncConverged _ => True | _ => False end.
Definition no_send es : Prop := Forall local_event es.

Lemma no_send_sent es report answered : no_send es -> SyncSent report answered ∉ es.
Proof. intros Hn Hin. by eapply Forall_forall in Hin; [|exact Hn]. Qed.

Lemma no_send_acked es ids : no_send es -> SyncAcked ids ∉ es.
Proof. intros Hn Hin. by eapply Forall_forall in Hin; [|exact Hn]. Qed.

(** At most one attempt to converge without the control plane. *)
Definition offline es : Prop := es = [] \/ exists ok, es = [SyncConverged ok].

Lemma runConverge_continues s e s' : node_ok (sdb s) -> runConverge s = (Ok e, s') ->
  continues s s' [SyncConverged (bool_decide (e = None))] /\ (e, sworld s', sdb s') = ConvergeLocal (sworld s) (sdb s).
Proof.
  intros Hok. unfold runConverge. pose proof (converge_local_kept (sworld s) (sdb s) Hok) as Hk.
  destruct (ConvergeLocal (sworld s) (sdb s)) as [[e' w] d]. intros [= <- <-]. split; [by split|done].
Qed.

Lemma withOffline_continues {A} sy e s (r : res error A) s' : node_ok (sdb s) -> withOfflineConvergence sy e s = (r, s') ->
  r = Err e /\ exists es, offline es /\ continues s s' es /\
    (HasConverger sy = true -> Cancelled (sworld s) = false ->
       exists answer, ConvergeLocal (sworld s) (sdb s) = (answer, sworld s', sdb s') /\ es = [SyncConverged (bool_decide (answer = None))]).
Proof.
  intros Hok. unfold withOfflineConvergence. destruct (negb (HasConverger sy) || Cancelled (sworld s)) eqn:Hb.
  - intros [= <- <-]. split; [done|]. exists []. split; [by left|]. split; [by apply continues_refl|].
    intros Hc Hn. rewrite Hc, Hn in Hb. done.
  - destruct (runConverge s) as [[x|x] s1] eqn:Hr.
    2:{ unfold runConverge in Hr. by destruct (ConvergeLocal _ _) as [[? ?] ?]. }
    destruct (runConverge_continues _ _ _ Hok Hr) as [Hc Hd].
    intros [= <- <-]. split; [done|]. eexists. split; [right; eauto|]. split; [exact Hc|]. intros _ _. exists x. by rewrite <-Hd.
Qed.

Lemma collectHost_continues sy ih s r s' : node_ok (sdb s) -> collectHost sy ih s = (r, s') -> continues s s' [].
Proof.
  intros Hok. unfold collectHost. destruct (ih && HasHost sy); [|intros [= <- <-]; by apply continues_refl].
  pose proof (collect_host_kept (sworld s) (sdb s) Hok) as Hk. destruct (CollectHost _ _) as [[r' w] d]. intros [= <- <-].
  split; [done|by rewrite app_nil_r|done|done].
Qed.

(** A gate the observation closed has been enforced. *)
Definition enforced (sy : Synchronizer) es : Prop :=
  HasConverger sy = true -> SyncObserved true ∈ es -> SyncConverged true ∈ es.

Lemma observeBefore_continues sy partial s r s' : node_ok (sdb s) -> observeBefore sy partial s = (r, s') ->
  exists es, continues s s' es /\ no_send es /\ (is_Ok r = true -> enforced sy es).
Proof.
  intros Hok. unfold observeBefore. destruct (negb partial && HasObserver sy).
  2:{ intros [= <- <-]. exists []. split; [by apply continues_refl|]. split; [by constructor|]. intros _ _ Hin. by apply not_elem_of_nil in Hin. }
  intros [(e & Ho & ->)|(o & s1 & Ho & Hr)]%syncM_bind_run.
  - unfold observeCore in Ho. pose proof (observe_core_kept (sworld s) (sdb s) Hok) as Hk. destruct (ObserveCore _ _) as [[[x|x] w] d]; [done|].
    injection Ho as _ <-. exists []. split; [split; [done|by rewrite app_nil_r|done|done]|]. split; [by constructor|done].
  - assert (continues s s1 [SyncObserved (GateChanged o)]) as HC1.
    { unfold observeCore in Ho. pose proof (observe_core_kept (sworld s) (sdb s) Hok) as Hk. destruct (ObserveCore _ _) as [[[x|x] w] d]; [|done].
      injection Ho as -> <-. by split. }
    destruct (GateChanged o && HasConverger sy) eqn:Hg.
    + apply andb_true_iff in Hg as [Hg Hh]. rewrite Hg in HC1.
      apply syncM_bind_run in Hr as [(e & Hc & ->)|(failure & s2 & Hc & Hr)].
      { unfold runConverge in Hc. by destruct (ConvergeLocal _ _) as [[? ?] ?]. }
      destruct (runConverge_continues _ _ _ (continues_ok _ _ _ HC1) Hc) as [HC2 _]. pose proof (continues_trans _ _ _ _ _ Hok HC1 HC2) as HC12.
      assert (s' = s2 /\ (is_Ok r = true -> failure = None)) as [-> Hf].
      { destruct failure; injection Hr as <- <-; done. }
      eexists. split; [exact HC12|]. split; [by repeat constructor|]. intros Hok'%Hf. subst failure. intros _ _. set_solver.
    + injection Hr as <- <-. eexists. split; [exact HC1|]. split; [by repeat constructor|]. intros _ Hh Hin.
      apply list_elem_of_singleton in Hin as [= Heq]. rewrite Hh, <-Heq in Hg. done.
Qed.

(** The rows a report claims to deliver are pending and in it. *)
Definition covers (db : DB) (built : BuiltReport Host) : Prop :=
  forall id, id ∈ OutboxIDs built -> exists row, row ∈ report_outbox db /\ obDelivered row = false /\ obID row = id /\ carried row (Report built).

Lemma Build_covers b status dynamic db partial host now built d :
  Build MarshalReport MaxSyncBodyBytes b status dynamic db partial host now = (Ok built, d) -> covers d built.
Proof.
  intros (n & have & batch & dropped & report & _ & _ & Hp & _ & Hiss & Hres & _ & _ & Hf & Hids & _)%Build_Ok id.
  destruct (fit_contents _ _ _ _ _ _ Hf) as (Ei & Er & _). rewrite Hids. intros Hid.
  destruct (PendingOutbox_covers _ _ _ Hp id Hid) as (row & Hrow & Hdel & Hi & Hb). exists row. split_and!; try done.
  unfold carried, in_batch in *. rewrite Ei, Er, Hiss, Hres. destruct (obKind row); [|done].
  destruct Hb as (issue & Hu & Hin). exists issue. split; [done|]. by apply uniqueIssues_spec.
Qed.

Lemma Build_time b status dynamic db partial host now built d :
  Build MarshalReport MaxSyncBodyBytes b status dynamic db partial host now = (Ok built, d) ->
  exists n, ApplyScheduledQuotas db (ReportedAtMS (Report built)) = Ok (n, d).
Proof.
  intros (n & have & batch & dropped & report & Hq & _ & _ & _ & _ & _ & _ & _ & Hf & _ & _ & Hat)%Build_Ok.
  destruct (fit_contents _ _ _ _ _ _ Hf) as (_ & _ & _ & _ & _ & Eat). exists n. congruence.
Qed.

Lemma rollover_kept db now n d : node_ok db -> ApplyScheduledQuotas db now = Ok (n, d) -> kept db d.
Proof.
  intros Hok Hq. pose proof (ApplyScheduledQuotas_frame _ _ _ _ Hq) as Hf.
  assert (clients_ok d) as Hc.
  { eapply (run_op_clients_ok db (OpScheduledAll now)); [done|apply Hok|]. simpl. by rewrite Hq. }
  destruct Hok as [Hst Hcl Hj Hob]. split.
  - split; [|done| |]; rewrite Hf; [exact Hst|by apply (journal_ok_ext db)|exact Hob].
  - apply still_pending_ext. by rewrite Hf.
  - rewrite Hf. exact (db_progress_refl db).
  - rewrite Hf. exact (tasks_evolve_refl task_flag db).
Qed.

Lemma buildReport_continues sy partial host s r s' : node_ok (sdb s) -> buildReport sy partial host s = (r, s') ->
  continues s s' [] /\ forall built, r = Ok built ->
    covers (sdb s') built /\ exists n, ApplyScheduledQuotas (sdb s) (ReportedAtMS (Report built)) = Ok (n, sdb s').
Proof.
  intros Hok. unfold buildReport. destruct (WallClock (sworld s)) as [now w].
  destruct (Build _ _ _ _ _ _ _ _ _) as [r' d] eqn:Hb. intros [= <- <-]. split.
  - assert (kept (sdb s) d) as Hk; [|split; [done|by rewrite app_nil_r|done|done]]. unfold Build in Hb. case_decide; [injection Hb as _ <-; by apply kept_refl|].
    destruct (ApplyScheduledQuotas _ _) as [[n d']|e] eqn:Hq; [|injection Hb as _ <-; by apply kept_refl].
    injection Hb as _ <-. by eapply rollover_kept.
  - intros built ->. split; [by eapply Build_covers|]. by apply Build_time in Hb.
Qed.

(** Steps that touch neither the store nor the events. *)
Lemma clock_continues s w c : node_ok (sdb s) -> continues s (MkSState w (sdb s) c (sstats s) (synced s) (strace s)) [].
Proof. intros Hok. split; [by apply kept_refl|by rewrite app_nil_r|done|done]. Qed.

Lemma captureClock_continues s r s' : node_ok (sdb s) -> captureClock s = (r, s') -> continues s s' [].
Proof.
  intros Hok. unfold captureClock. destruct (sclock s) as [c|]; [|intros [= _ <-]; by apply continues_refl].
  destruct (Elapsed _) as [reading w]. destruct (Capture c reading) as [x c']. intros [= _ <-]. by apply clock_continues.
Qed.

Lemma observeClock_continues envelope started s r s' : node_ok (sdb s) -> observeClock envelope started s = (r, s') -> is_Ok r = true /\ continues s s' [].
Proof.
  intros Hok. unfold observeClock. destruct (sclock s) as [c|], started as [start|]; try (intros [= <- <-]; split; [done|by apply continues_refl]).
  destruct (Elapsed _) as [reading w]. destruct (TaskClock.Observe _ _ _ _) as [x c']. intros [= <- <-]. split; [done|by apply clock_continues].
Qed.

Lemma settleHost_continues sy built sample s r s' : node_ok (sdb s) -> settleHost sy built sample s = (r, s') -> is_Ok r = true /\ continues s s' [].
Proof.
  intros Hok. unfold settleHost. destruct (negb (HasHost sy)); [intros [= <- <-]; split; [done|by apply continues_refl]|].
  destruct (HostDropped built).
  - pose proof (wire_limit_kept (sworld s) (sdb s) Hok) as Hk. destruct (HostWireLimit _ _) as [w d]. intros [= <- <-].
    split; [done|]. split; [done|by rewrite app_nil_r|done|done].
  - destruct sample; intros [= <- <-]; (split; [done|]); [|by apply continues_refl]. split; [by apply kept_refl|by rewrite app_nil_r|done|done].
Qed.

Lemma exchange_cases sy report s r s' : node_ok (sdb s) -> exchange sy report s = (r, s') ->
  (exists response, r = Ok response /\ directives_typed (WBody response) /\ continues s s' [SyncSent report true]) \/
  (is_Ok r = false /\ exists es w, w = (SendReport (sworld s) report).2 /\ offline es /\ continues s s' (SyncSent report false :: es) /\
     (HasConverger sy = true -> Cancelled w = false ->
        exists answer, ConvergeLocal w (sdb s) = (answer, sworld s', sdb s') /\ es = [SyncConverged (bool_decide (answer = None))])).
Proof.
  intros Hok. unfold exchange. pose proof (send_typed (sworld s) report) as Ht. destruct (SendReport (sworld s) report) as [r0 w] eqn:Hs.
  assert (forall answered, continues s (logEvent (SyncSent report answered) (setWorld w s)) [SyncSent report answered]) as Hsent.
  { intros answered. by split; [apply kept_refl|..]. }
  assert (forall e (x : res error (WireResponse Envelope)), withOfflineConvergence sy e (logEvent (SyncSent report false) (setWorld w s)) = (x, s') ->
    is_Ok x = false /\ exists es w', w' = w /\ offline es /\ continues s s' (SyncSent report false :: es) /\
     (HasConverger sy = true -> Cancelled w' = false ->
        exists answer, ConvergeLocal w' (sdb s) = (answer, sworld s', sdb s') /\ es = [SyncConverged (bool_decide (answer = None))])) as Hoff.
  { intros e x (-> & es & Ho & Hc & Hconv)%withOffline_continues; [|done]. split; [done|]. exists es, w. split_and!; try done.
    by apply (continues_trans _ _ _ _ _ Hok (Hsent false) Hc). }
  destruct r0 as [response|e].
  - destruct (ValidateSyncResponse response); cbn [negb].
    + intros [= <- <-]. left. exists response. split_and!; try done. by eapply Ht.
    + intros He. right. by eapply Hoff.
  - intros He. right. by eapply Hoff.
Qed.

Lemma ack_ok db ids d : node_ok db -> AckOutbox db ids = Ok d -> node_ok d /\ db_progress db d /\ tasks_evolve task_flag db d.
Proof.
  intros [Hst Hcl Hj Hob] Ha. pose proof (AckOutbox_frame _ _ _ Ha) as Hf. destruct (AckOutbox_step _ _ _ Hj Ha) as [Hj' Hev]. split_and!; [|..|done].
  - split; [| |done|]; rewrite Hf; done.
  - rewrite Hf. exact (db_progress_refl db).
Qed.

(** The rest of a round whose report was acknowledged. *)
Lemma process_end sy (envelope : Envelope) full response s r s' :
  node_ok (sdb s) -> directives_typed response ->
  (immediate ← processResponse response; _ ← recordSynced sy; mret (MkSyncResult envelope full immediate)) s = (r, s') ->
  exists ok, continues s s' [SyncProcessed ok] /\ (is_Ok r = true -> ok = true /\ exists immediate, r = Ok (MkSyncResult envelope full immediate)).
Proof.
  intros Hok Ht Hr. pose proof (process_kept (sworld s) (sdb s) response Hok Ht) as Hk. unfold processResponse in Hr. unfold mbind, syncM_bind in Hr.
  destruct (ProcessResponse (sworld s) (sdb s) response) as [[[immediate e] w] d]. destruct e as [e|].
  - injection Hr as <- <-. exists false. split; [by split|done].
  - exists true. unfold recordSynced in Hr. destruct (HasOnSynced sy).
    + destruct (RecordSynced _) as [[e|] w']; injection Hr as <- <-; (split; [by split|]); [done|eauto].
    + injection Hr as <- <-. split; [by split|]. eauto.
Qed.

(** How a round can end. *)
Inductive round_end (sy : Synchronizer) s s' : res error (SyncResult Envelope) -> Prop :=
| end_unsent r es : is_Ok r = false -> continues s s' es -> no_send es -> round_end sy s s' r
| end_unanswered r s1 built es es' w n db0 :
    is_Ok r = false -> continues s s1 es -> no_send es -> enforced sy es -> covers (sdb s1) built ->
    ApplyScheduledQuotas db0 (ReportedAtMS (Report built)) = Ok (n, sdb s1) -> node_ok db0 ->
    continues s1 s' (SyncSent (Report built) false :: es') -> offline es' ->
    (HasConverger sy = true -> Cancelled w = false ->
       exists answer, ConvergeLocal w (sdb s1) = (answer, sworld s', sdb s') /\ es' = [SyncConverged (bool_decide (answer = None))]) ->
    w = (SendReport (sworld s1) (Report built)).2 ->
    round_end sy s s' r
| end_unacked r s1 built es es' :
    is_Ok r = false -> continues s s1 es -> no_send es -> enforced sy es -> covers (sdb s1) built ->
    continues s1 s' (SyncSent (Report built) true :: es') -> offline es' -> round_end sy s s' r
| end_synced r s1 s2 s3 built es ok :
    continues s s1 es -> no_send es -> enforced sy es -> covers (sdb s1) built ->
    continues s1 s2 [SyncSent (Report built) true] ->
    AckOutbox (sdb s2) (OutboxIDs built) = Ok (sdb s3) -> synced s3 = true -> sstats s3 = sstats s2 ->
    strace s3 = strace s2 ++ [SyncAcked (OutboxIDs built)] ->
    continues s3 s' [SyncProcessed ok] ->
    (forall x, r = Ok x -> ok = true /\ ReportWasFull x = negb (Partial (Report built))) ->
    round_end sy s s' r.

Lemma syncRound_end sy partial includeHost s r s' :
  node_ok (sdb s) -> syncRound sy partial includeHost s = (r, s') -> round_end sy s s' r.
Proof.
  intros Hok Hr. unfold syncRound in Hr.
  apply syncM_bind_run in Hr as [(e & Hm & ->)|(host & s1 & Hm & Hr)]; (apply collectHost_continues in Hm as C1; [|done]).
  { by eapply end_unsent; [|exact C1|constructor]. }
  apply syncM_bind_run in Hr as [(e & Hm2 & ->)|([] & s2 & Hm2 & Hr)];
    (apply observeBefore_continues in Hm2 as (es & C2 & Hns & Henf); [|by eapply continues_ok]); pose proof (continues_trans _ _ _ _ _ Hok C1 C2) as C12; cbn [app] in C12.
  { by eapply end_unsent. }
  specialize (Henf eq_refl).
  apply syncM_bind_run in Hr as [(e & Hm3 & ->)|(built & s3 & Hm3 & Hr)];
    (apply buildReport_continues in Hm3 as [C3 Hb]; [|by eapply continues_ok]); pose proof (continues_trans _ _ _ _ _ Hok C12 C3) as C13; rewrite app_nil_r in C13.
  { by eapply end_unsent. }
  destruct (Hb built eq_refl) as (Hcov & n & Hq).
  destruct (negb (ValidateNodeReport (Report built))); [injection Hr as <- <-; by eapply end_unsent|].
  apply syncM_bind_run in Hr as [(e & Hm4 & ->)|(started & s4 & Hm4 & Hr)]; (apply captureClock_continues in Hm4 as C4; [|by eapply continues_ok]);
    pose proof (continues_trans _ _ _ _ _ Hok C13 C4) as C14; rewrite app_nil_r in C14.
  { by eapply end_unsent. }
  assert (sdb s4 = sdb s3) as Hd4 by (unfold captureClock in Hm4; destruct (sclock s3); [destruct (Elapsed _), (Capture _ _)|]; by injection Hm4 as _ <-).
  rewrite <-Hd4 in Hq, Hcov.
  apply syncM_bind_run in Hr as [(e & Hm5 & ->)|(response & s5 & Hm5 & Hr)]; (apply exchange_cases in Hm5; [|by eapply continues_ok]).
  { destruct Hm5 as [(response & [=] & _)|(_ & es' & w & Hw & Ho & C5 & Hconv)].
    eapply end_unanswered; [done|exact C14|done|done|exact Hcov|exact Hq|by eapply continues_ok|exact C5|done|exact Hconv|done]. }
  destruct Hm5 as [(response' & [= <-] & Ht & C5)|([=] & _)].
  apply syncM_bind_run in Hr as [(e & Hm6 & ->)|([] & s6 & Hm6 & Hr)]; (apply settleHost_continues in Hm6 as [Hk6 C6]; [|by eapply continues_ok]); [done|].
  pose proof (continues_trans _ _ _ _ _ (continues_ok _ _ _ C14) C5 C6) as C56.
  apply syncM_bind_run in Hr as [(e & Hm7 & ->)|([] & s7 & Hm7 & Hr)]; (apply observeClock_continues in Hm7 as [Hk7 C7]; [|by eapply continues_ok]); [done|].
  pose proof (continues_trans _ _ _ _ _ (continues_ok _ _ _ C14) C56 C7) as C57. rewrite !app_nil_r in C57.
  apply syncM_bind_run in Hr as Hr'. unfold acknowledge in Hr'. destruct (AckOutbox (sdb s7) (OutboxIDs built)) as [d|e] eqn:Hack.
  2:{ destruct Hr' as [(e' & Hm8 & ->)|(x & s8 & Hm8 & _)]; (apply withOffline_continues in Hm8 as (He & es' & Ho & C8 & _); [|by eapply continues_ok]); [|done].
      eapply end_unacked; [done|exact C14|done|done|exact Hcov|by apply (continues_trans _ _ _ _ _ (continues_ok _ _ _ C14) C57 C8)|done]. }
  destruct Hr' as [(e' & [=] & _)|([] & s8 & [= <-] & Hr8)].
  destruct (ack_ok _ _ _ (continues_ok _ _ _ C57) Hack) as (Hokd & _ & _).
  apply process_end in Hr8 as (ok & C8 & Hres); [|done|done].
  eapply (end_synced sy s s' r s4 s7 _ built es ok); [exact C14|done|done|exact Hcov|exact C57| | | | |exact C8|]; [exact Hack|done..|].
  intros x ->. destruct (Hres eq_refl) as (-> & immediate & [= ->]). done.
Qed.

Lemma recordStats_db s : sdb (recordStats s) = sdb s /\ strace (recordStats s) = strace s.
Proof. unfold recordStats. destruct (sstats s); [|done]. destruct (_ && _); [done|]. by destruct (WallClock _). Qed.

Lemma SyncOnce_end sy partial includeHost s r s' :
  node_ok (sdb s) -> SyncOnce sy partial includeHost s = (r, s') ->
  exists s1, round_end sy (MkSState (sworld s) (sdb s) (sclock s) (sstats s) false (strace s)) s1 r /\ s' = recordStats s1.
Proof.
  intros Hok. unfold SyncOnce. destruct (syncRound _ _ _ _) as [r' s1] eqn:Hr. intros [= <- <-]. exists s1. split; [|done].
  by eapply syncRound_end in Hr.
Qed.

(** ** Properties *)

Lemma carried_same row row' (report : NodeReport Host) : same_row row row' -> carried row' report -> carried row report.
Proof. intros (_ & Hk & _ & Hp). unfold carried. by rewrite Hk, Hp. Qed.

(** A row that waits and is among those a report delivers is in that report. *)
Lemma covered_carried db built row :
  journal_ok db -> covers db built -> pending_row row db -> obID row ∈ OutboxIDs built -> carried row (Report built).
Proof.
  intros Hj Hcov (row1 & Hr1 & Hs1 & _) Hid. destruct (Hcov _ Hid) as (row2 & Hr2 & _ & Hi2 & Hc).
  assert (row1 = row2) as <-; [|by eapply carried_same].
  apply (NoDup_fmap_elem obID (report_outbox db)); [apply (jo_outbox db Hj)|done|done|]. destruct Hs1 as [Hi1 _]. congruence.
Qed.

(** C12. Nothing waiting is lost.  Across any round, however it ends, a row of the
    outbox is still pending with the same content, or the round sent a report that
    carries its content and got a valid answer; the store's invariants hold, no
    stream goes back, and no journalled task changes but for its delivery flag. *)
Theorem nothing_waiting_is_lost sy partial includeHost s r s' :
  node_ok (sdb s) -> SyncOnce sy partial includeHost s = (r, s') ->
  node_ok (sdb s') /\ db_progress (sdb s) (sdb s') /\ tasks_evolve task_flag (sdb s) (sdb s') /\
  exists es, strace s' = strace s ++ es /\
    forall row, pending_row row (sdb s) ->
      pending_row row (sdb s') \/ exists report, SyncSent report true ∈ es /\ carried row report.
Proof.
  intros Hok Hr. destruct (SyncOnce_end _ _ _ _ _ _ Hok Hr) as (s1 & He & ->). destruct (recordStats_db s1) as [-> ->].
  assert (forall es, continues (MkSState (sworld s) (sdb s) (sclock s) (sstats s) false (strace s)) s1 es ->
    node_ok (sdb s1) /\ db_progress (sdb s) (sdb s1) /\ tasks_evolve task_flag (sdb s) (sdb s1) /\ exists es, strace s1 = strace s ++ es /\
    forall row, pending_row row (sdb s) -> pending_row row (sdb s1) \/ exists report, SyncSent report true ∈ es /\ carried row report) as Hgen.
  { intros es [[K1 K2 K3 K4] T _ _]. split_and!; try done. exists es. split; [done|]. intros row Hrow. left. by apply K2. }
  destruct He as [r es _ C _|r s2 built es es' w n db0 _ C _ _ _ _ _ C' _ _ _|r s2 built es es' _ C _ _ _ C' _
    |r s2 s3 s4 built es ok C _ _ Hcov C2 Hack _ _ HT C4 _].
  - by eapply Hgen.
  - eapply Hgen, continues_trans; [exact Hok|exact C|exact C'].
  - eapply Hgen, continues_trans; [exact Hok|exact C|exact C'].
  - pose proof (continues_ok _ _ _ C) as Hok2. pose proof (continues_ok _ _ _ C2) as Hok3.
    destruct (ack_ok _ _ _ Hok3 Hack) as (Hok4 & Hpr & Hev). pose proof (continues_trans (MkSState _ _ _ _ _ _) _ _ _ _ Hok C C2) as [[_ K2 K3 K4] T _ _].
    destruct C4 as [[J1 J2 J3 J4] T4 _ _]. split; [done|]. cbn [sdb strace] in *. split.
    { eapply (db_progress_trans _ (sdb s4)); [apply Hok|apply Hok4|apply J1| |exact J3].
      eapply (db_progress_trans _ (sdb s3)); [apply Hok|apply Hok3|apply Hok4|exact K3|exact Hpr]. }
    split; [eapply tasks_evolve_trans; [|exact J4]; by eapply tasks_evolve_trans|].
    eexists. split; [rewrite T4, HT, T, <-!app_assoc; reflexivity|]. intros row Hrow. destruct (decide (obID row ∈ OutboxIDs built)) as [Hid|Hid].
    + right. exists (Report built). split; [set_solver|]. eapply covered_carried; [apply Hok2|exact Hcov|by apply (kept_pending _ _ (co_kept _ _ _ C))|done].
    + left. apply J2. eapply AckOutbox_other; [exact Hack|done|by apply K2].
Qed.

(** The only report of a list of events. *)
Lemma only_send es0 rest pre post report answered report' answered' :
  no_send es0 -> (forall rep ans, SyncSent rep ans ∉ rest) -> es0 ++ SyncSent report answered :: rest = pre ++ SyncSent report' answered' :: post -> pre = es0 /\ report' = report /\ answered' = answered.
Proof.
  intros H0' Hrest Heq. apply app_eq_app in Heq as (l & [[-> Hl]|[-> Hl]]).
  - destruct l as [|e l]; simplify_eq/=; [by rewrite app_nil_r|]. exfalso. apply (no_send_sent _ report' answered' H0'). set_solver.
  - destruct l as [|e l]; simplify_eq/=; [by rewrite app_nil_r|]. exfalso. apply (Hrest report' answered'). set_solver.
Qed.

Lemma offline_no_send es : offline es -> no_send es.
Proof. intros [->|[ok ->]]; by repeat constructor. Qed.

(** The events of a round that sent a report. *)
Lemma round_end_events sy s s' r es pre report answered post :
  round_end sy s s' r -> strace s' = strace s ++ es -> es = pre ++ SyncSent report answered :: post -> enforced sy pre.
Proof.
  intros He HT ->. assert (forall es0 rest rep ans, no_send es0 -> (forall r a, SyncSent r a ∉ rest) -> enforced sy es0 -> strace s' = strace s ++ es0 ++ SyncSent rep ans :: rest -> enforced sy pre) as Hgen.
  { intros es0 rest rep ans Hn Hr Henf Heq. rewrite HT in Heq. apply app_inv_head in Heq. by destruct (only_send _ _ _ _ _ _ _ _ Hn Hr (eq_sym Heq)) as (-> & _). }
  destruct He as [r es0 _ C Hn|r s2 built es0 es' w n db0 _ C Hn Henf _ _ _ C' Ho _ _|r s2 built es0 es' _ C Hn Henf _ C' Ho
    |r s2 s3 s4 built es0 ok C Hn Henf _ C2 _ _ _ HT4 C4 _].
  - exfalso. destruct C as [_ T _ _]. rewrite HT in T. apply app_inv_head in T. apply (no_send_sent _ report answered Hn). rewrite <-T. set_solver.
  - eapply Hgen; [exact Hn|intros ? ?; by apply no_send_sent, offline_no_send|done|]. rewrite (co_trace _ _ _ C'), (co_trace _ _ _ C), <-app_assoc. done.
  - eapply Hgen; [exact Hn|intros ? ?; by apply no_send_sent, offline_no_send|done|]. rewrite (co_trace _ _ _ C'), (co_trace _ _ _ C), <-app_assoc. done.
  - eapply Hgen; [exact Hn| |done|rewrite (co_trace _ _ _ C4), HT4, (co_trace _ _ _ C2), (co_trace _ _ _ C), <-!app_assoc; reflexivity].
    intros ? ?. set_solver.
Qed.

(** C13. Enforcement precedes the network.  In any round, if the observation found that
    a quota gate moved, no report leaves before the local core has been converged
    successfully. *)
Theorem gates_enforced_before_sending sy partial includeHost s r s' es pre report answered post :
  node_ok (sdb s) -> SyncOnce sy partial includeHost s = (r, s') -> HasConverger sy = true ->
  strace s' = strace s ++ es -> es = pre ++ SyncSent report answered :: post ->
  SyncObserved true ∈ pre -> SyncConverged true ∈ pre.
Proof.
  intros Hok Hr Hc HT Hes Hobs. destruct (SyncOnce_end _ _ _ _ _ _ Hok Hr) as (s1 & He & ->). destruct (recordStats_db s1) as [_ Ht].
  rewrite Ht in HT. by eapply (round_end_events sy _ s1 r es pre report answered post He HT Hes).
Qed.

(** A round without a valid answer, if it was not cancelled, has converged the
    local core on a well-formed ledger in which every quota due by the time of the
    report has been rolled over. *)
Lemma outage_converges sy partial includeHost s r s' es report :
  node_ok (sdb s) -> HasConverger sy = true -> (forall w rep, Cancelled (SendReport w rep).2 = false) ->
  SyncOnce sy partial includeHost s = (r, s') -> strace s' = strace s ++ es -> SyncSent report false ∈ es ->
  exists w db s1 answer, node_ok db /\ dueKeys db (ReportedAtMS report) = [] /\
    ConvergeLocal w db = (answer, sworld s1, sdb s1) /\ s' = recordStats s1 /\ SyncConverged (bool_decide (answer = None)) ∈ es.
Proof.
  intros Hok Hc Hcan Hr HT Hin. destruct (SyncOnce_end _ _ _ _ _ _ Hok Hr) as (s1 & He & ->). destruct (recordStats_db s1) as [Hd Ht].
  rewrite Ht in HT.
  destruct He as [r es0 _ C Hn|r s2 built es0 es' w n db0 _ C Hn _ _ Hq Hok0 C' Ho Hconv Hw|r s2 built es0 es' _ C Hn _ _ C' Ho
    |r s2 s3 s4 built es0 ok C Hn _ _ C2 _ _ _ HT4 C4 _].
  - exfalso. destruct C as [_ T _ _]. rewrite HT in T. apply app_inv_head in T. subst. by apply (no_send_sent _ report false Hn).
  - destruct Hconv as (answer & Hconv & Hes'); [done|subst w; apply Hcan|]. exists w, (sdb s2), s1, answer.
    rewrite (co_trace _ _ _ C'), (co_trace _ _ _ C), <-app_assoc in HT. apply app_inv_head in HT. rewrite <-HT in Hin.
    assert (report = Report built) as ->.
    { rewrite Hes' in Hin. apply elem_of_app in Hin as [Hin|Hin]; [by destruct (no_send_sent _ report false Hn)|]. set_solver. }
    destruct (rollover_rows _ _ _ _ (no_clients _ Hok0) Hq) as (_ & _ & Hdue). split_and!; [by eapply continues_ok|done|done|done|].
    rewrite <-HT, Hes'. set_solver.
  - exfalso. rewrite (co_trace _ _ _ C'), (co_trace _ _ _ C), <-app_assoc in HT. apply app_inv_head in HT. rewrite <-HT in Hin.
    apply elem_of_app in Hin as [Hin|[Heq|Hin]%elem_of_cons]; [by apply (no_send_sent _ report false Hn)|done|by apply (no_send_sent _ report false (offline_no_send _ Ho))].
  - exfalso. rewrite (co_trace _ _ _ C4), HT4, (co_trace _ _ _ C2), (co_trace _ _ _ C), <-!app_assoc in HT. apply app_inv_head in HT. rewrite <-HT in Hin.
    apply elem_of_app in Hin as [Hin|Hin]; [by apply (no_send_sent _ report false Hn)|set_solver].
Qed.

Lemma recordStats_spec s st : sstats s = Some st ->
  (synced s = false /\ Cancelled (sworld s) = true /\ recordStats s = s) \/
  exists now, sstats (recordStats s) = Some (recordRound st (synced s, now)).
Proof.
  intros Hs. unfold recordStats. rewrite Hs. destruct (synced s), (Cancelled (sworld s)) eqn:Hc; simpl; try (by left);
    right; destruct (WallClock (sworld s)) as [now w]; by exists now.
Qed.

(** Each round counts once, and for what it was.  A round is recorded as a success
    exactly if the outbox was acknowledged, whatever happens afterwards; otherwise
    as a failure, or not at all if it was cancelled. *)
Theorem round_counted_once sy partial includeHost s r s' st :
  node_ok (sdb s) -> SyncOnce sy partial includeHost s = (r, s') -> sstats s = Some st ->
  exists es, strace s' = strace s ++ es /\
    ((exists ids, SyncAcked ids ∈ es) /\ (exists now, sstats s' = Some (RecordSuccess st now)) \/
     is_Ok r = false /\ (forall ids, SyncAcked ids ∉ es) /\
       ((exists now, sstats s' = Some (RecordFailure st now)) \/ Cancelled (sworld s') = true /\ sstats s' = Some st)).
Proof.
  intros Hok Hr Hst. destruct (SyncOnce_end _ _ _ _ _ _ Hok Hr) as (s1 & He & ->). destruct (recordStats_db s1) as [_ Ht]. rewrite Ht.
  assert (forall es, is_Ok r = false -> (forall ids, SyncAcked ids ∉ es) -> strace s1 = strace s ++ es -> synced s1 = false -> sstats s1 = Some st ->
    exists es, strace s1 = strace s ++ es /\ ((exists ids, SyncAcked ids ∈ es) /\ (exists now, sstats (recordStats s1) = Some (RecordSuccess st now)) \/
     is_Ok r = false /\ (forall ids, SyncAcked ids ∉ es) /\
       ((exists now, sstats (recordStats s1) = Some (RecordFailure st now)) \/ Cancelled (sworld (recordStats s1)) = true /\ sstats (recordStats s1) = Some st))) as Hfail.
  { intros es Hbad Hno HT Hsy Hs1. exists es. split; [done|]. right. split_and!; try done. destruct (recordStats_spec s1 st Hs1) as [(_ & Hc & ->)|[now Hn]]; [by right|].
    left. exists now. by rewrite Hn, Hsy. }
  assert (forall es0 report answered es', no_send es0 -> offline es' -> forall ids, SyncAcked ids ∉ es0 ++ SyncSent report answered :: es') as Hna.
  { intros es0 report answered es' Hn Ho ids [Hi|[Hi|Hi]%elem_of_cons]%elem_of_app; [|done|];
      [by apply (no_send_acked _ ids Hn)|by apply (no_send_acked _ ids (offline_no_send _ Ho))]. }
  destruct He as [r es0 Hbad C Hn|r s2 built es0 es' w n db0 Hbad C Hn _ _ _ _ C' Ho _ _|r s2 built es0 es' Hbad C Hn _ _ C' Ho
    |r s2 s3 s4 built es0 ok C Hn _ _ C2 _ Hsy Hss HT4 C4 _].
  - destruct C as [_ T S' C']. eapply Hfail; [done|intros ids; by apply no_send_acked|exact T|done|by rewrite C'].
  - pose proof (continues_trans (MkSState _ _ _ _ _ _) _ _ _ _ Hok C C') as [_ T S' Cs]. eapply Hfail; [done|by apply Hna|exact T|done|by rewrite Cs].
  - pose proof (continues_trans (MkSState _ _ _ _ _ _) _ _ _ _ Hok C C') as [_ T S' Cs]. eapply Hfail; [done|by apply Hna|exact T|done|by rewrite Cs].
  - pose proof (continues_trans (MkSState _ _ _ _ _ _) _ _ _ _ Hok C C2) as [_ T S' Cs]. destruct C4 as [_ T4 S4 C4].
    eexists. split; [rewrite T4, HT4, T, <-!app_assoc; reflexivity|]. left. split; [exists (OutboxIDs built); set_solver|].
    destruct (recordStats_spec s1 st) as [(Hno & _)|[now Hn']]; [by rewrite C4, Hss, Cs|congruence|]. exists now. by rewrite Hn', S4, Hsy.
Qed.

(** *** The runner *)

(** A successful round delivered the report it says. *)
Lemma round_full sy partial includeHost s x s' :
  node_ok (sdb s) -> SyncOnce sy partial includeHost s = (Ok x, s') ->
  node_ok (sdb s') /\ exists es report, strace s' = strace s ++ es /\ SyncSent report true ∈ es /\ Partial report = negb (ReportWasFull x).
Proof.
  intros Hok Hr. destruct (SyncOnce_end _ _ _ _ _ _ Hok Hr) as (s1 & He & ->). destruct (recordStats_db s1) as [-> ->].
  remember (Ok x) as r eqn:Hx. destruct He as [r es0 Hbad|r s2 built es0 es' w n db0 Hbad|r s2 built es0 es' Hbad
    |r s2 s3 s4 built es0 ok C Hn _ _ C2 _ _ _ HT4 C4 Hres]; subst; try done.
  split; [by eapply continues_ok|]. destruct (Hres x eq_refl) as [_ ->]. eexists _, (Report built). split.
  - rewrite (co_trace _ _ _ C4), HT4, (co_trace _ _ _ C2), (co_trace _ _ _ C), <-!app_assoc. reflexivity.
  - split; [set_solver|]. by rewrite negb_involutive.
Qed.

Lemma backoffCeiling_spec n : backoffCeiling n = Z.min (second * 2 ^ (Z.max 1 n - 1)) maxFailureBackoff.
Proof.
  unfold backoffCeiling, maxFailureBackoff, second. set (k := if decide (n < 1) then 1 else n).
  assert (k = Z.max 1 n) as -> by (unfold k; case_decide; lia). set (m := Z.max 1 n - 1). assert (0 ≤ m) by lia.
  rewrite Z.shiftl_mul_pow2 by (case_decide; lia). destruct (decide (5 < m)) as [Hm|Hm].
  - rewrite decide_True by lia. pose proof (Z.pow_le_mono_r 2 6 m ltac:(lia) ltac:(lia)). lia.
  - case_decide; lia.
Qed.

Lemma failureBackoff_bounds n entropy :
  (forall span x, entropy span = Some x -> 0 ≤ x < span) ->
  Z.quot (backoffCeiling n) 2 ≤ failureBackoff n entropy ≤ backoffCeiling n.
Proof.
  intros He. unfold failureBackoff. rewrite backoffCeiling_spec. pose proof (Z.pow_pos_nonneg 2 (Z.max 1 n - 1) ltac:(lia) ltac:(lia)).
  set (c := Z.min _ _). assert (0 < c) as Hc by (unfold c, maxFailureBackoff, second; lia). clearbody c.
  rewrite Z.quot_div_nonneg by lia. pose proof (Z.div_le_upper_bound c 2 c ltac:(lia) ltac:(lia)).
  destruct (entropy _) as [x|] eqn:Hx; [apply He in Hx|]; lia.
Qed.

(** The cadence of the runner.  A failed turn changes neither the last envelope nor
    the time of the last full report, and waits between half and all of the
    doubling delay, which starts at one second and stops at thirty: it never spins.
    A turn that succeeds resets the delay to the one asked for, and the time of the
    last full report advances exactly if a full report was delivered; so a report
    that had to be shrunk leaves the next one due. *)
Theorem runner_cadence sy (rn rn' : runner) env :
  node_ok (sdb (rstate rn)) -> 0 ≤ failures rn -> (forall span x, teEntropy env span = Some x -> 0 ≤ x < span) ->
  runTurn sy rn env = Some rn' ->
  node_ok (sdb (rstate rn')) /\
  ((failures rn' = failures rn + 1 /\ lastEnvelope rn' = lastEnvelope rn /\ lastFull rn' = lastFull rn /\
    let ceiling := Z.min (second * 2 ^ failures rn) maxFailureBackoff in Z.quot ceiling 2 ≤ delay rn' ≤ ceiling) \/
   (failures rn' = 0 /\ (delay rn' = 0 \/ delay rn' = pollInterval (NextPollSeconds (lastEnvelope rn'))) /\
    exists es report, strace (rstate rn') = strace (rstate rn) ++ es /\ SyncSent report true ∈ es /\
      lastFull rn' = if Partial report then lastFull rn else Some (teNow env))).
Proof.
  intros Hok Hf He. unfold runTurn. destruct (_ && teDone env); [done|].
  set (partial := negb _). destruct (SyncOnce sy partial _ (rstate rn)) as [[x|e] s] eqn:Hr.
  - intros [= <-]. destruct (round_full _ _ _ _ _ _ Hok Hr) as (Hok' & es & report & HT & Hin & Hp). split; [done|]. right. simpl. split_and!; [done|by destruct (ReportImmediately x); [left|right]|].
    exists es, report. split_and!; try done. rewrite Hp. by destruct (ReportWasFull x).
  - destruct (teCancelled env); [done|]. intros [= <-]. split.
    + destruct (SyncOnce_end _ _ _ _ _ _ Hok Hr) as (s1 & Hend & ->). destruct (recordStats_db s1) as [Hd _]. cbn [rstate]. rewrite Hd.
      destruct Hend as [r es _ C _|r s2 built es es' w n db0 _ _ _ _ _ _ _ C' _ _ _|r s2 built es es' _ _ _ _ _ C' _|r s2 s3 s4 built es ok _ _ _ _ _ _ _ _ _ C4 _];
        by eapply continues_ok.
    + left. simpl. split_and!; [done..| |]; pose proof (failureBackoff_bounds (failures rn + 1) (teEntropy env) He) as Hb;
        rewrite backoffCeiling_spec in Hb; replace (Z.max 1 (failures rn + 1) - 1) with (failures rn) in Hb by lia; lia.
Qed.

End rounds.
