(* ===== verification/Node.v ===== *)
(** * The assembled node ([cmd/node/main.go])

    The wiring of [run]: the sync loop's ports are the core runtime, the
    observation service, the response processor and the host reporter's failure
    episodes, over one store.  What is left outside is the class [NodeEnv]: the
    network, the telemetry of the core, the host collector, clocks and the
    context. *)
From S2P Require Import Prelude GoStrings Sha256 GoJson Protocol Store Streams Objects Clients Listeners Counters Outbox Tasks Journal TaskClock Deployment Catalog Documents Receive Issues Processor Rounds CoreRuntime Observation HostReporter Reports Sync Delivery.

(** What the environment answers. *)
Class NodeEnv (E Host Envelope : Type) := {
  NextTelemetry : E -> res error CoreCounters * E;
  NextHost : E -> res error (option Host) * option string * E;
  NextAnswer : E -> NodeReport Host -> res error (WireResponse Envelope) * E;
  NextSynced : E -> option error * E;
  NextElapsed : E -> reading * E;
  NextWall : E -> Z * E;
  IssueClock : E -> LocalIssue -> Z;
  TaskCapabilities : E -> list string;
  ContextDone : E -> bool
}.

(** The values of the wire and of the telemetry are of their Go types. *)
Class NodeEnvLaws (E Host Envelope : Type) `{BodyCodec DirectivesBody} `{!NodeEnv E Host Envelope} : Prop := {
  telemetry_typed e counters e' : NextTelemetry e = (Ok counters, e') -> Forall (fun c => update_typed (clientUpdate c)) (CoClients counters);
  answer_typed e report response e' : NextAnswer e report = (Ok response, e') -> directives_typed (WBody response)
}.

Section node.
Context `{ProtocolLaws} `{Conformance, !ConformanceLaws}.
Context `{BodyCodec ConfigBody, BodyCodec RosterBody, BodyCodec DirectivesBody}.
Context (unicodeToLower : string -> string) (Load : res error (list Release)).
Context (compilerFactory : CoreSelection -> res coreError Compiler).
Context {CW : Type} `{CoreWorld CW}.
Context {E Host Envelope : Type} `{!NodeEnv E Host Envelope, !NodeEnvLaws E Host Envelope}.
Context (SampleID : Host -> string) (IssueHostTelemetryFailed : string) (taskStartClock : TaskStartClock).

Record nodeWorld := MkNodeWorld {
  nwCore : CW;
  nwWake : bool;
  nwObservation : ObservationService;
  nwHost : HostReporter (Host := Host);
  nwEnv : E
}.

Definition withEnv (e : E) (w : nodeWorld) : nodeWorld := MkNodeWorld (nwCore w) (nwWake w) (nwObservation w) (nwHost w) e.

Definition nodeOptions : ProcessorOptions := MkProcessorOptions 3 300000 true taskStartClock.

(** A failed collection opens an episode; the other outcomes are the reporter's. *)
Definition nodeCollectHost (w : nodeWorld) (db : DB) : res error (option Host) * nodeWorld * DB :=
  let '(r, failure, e) := NextHost (nwEnv w) in
  match failure with
  | None => (r, withEnv e w, db)
  | Some detail =>
      let '(now, e) := NextWall e in
      let '(h, d, _) := recordFailureEpisode IssueHostTelemetryFailed true true (nwHost w) db detail (UnixMilli now) in
      (Ok None, MkNodeWorld (nwCore w) (nwWake w) (nwObservation w) h e, d)
  end.

Definition nodeWireLimit (w : nodeWorld) (db : DB) : nodeWorld * DB :=
  let '(now, e) := NextWall (nwEnv w) in
  let '(h, d, _) := ReportWireLimitDropped IssueHostTelemetryFailed true true (nwHost w) db (UnixMilli now) in
  (MkNodeWorld (nwCore w) (nwWake w) (nwObservation w) h e, d).

Definition nodeObserve (w : nodeWorld) (db : DB) : res error ObservationResult * nodeWorld * DB :=
  let '(telemetry, e) := NextTelemetry (nwEnv w) in
  let '(now, e) := NextWall e in
  let '(r, o, d) := Observe (nwObservation w) db (MkObserveEnv telemetry (Status (nwCore w)) now (UnixMilli now)) in
  (r, MkNodeWorld (nwCore w) (nwWake w) o (nwHost w) e, d).

Definition nodeConverge (w : nodeWorld) (db : DB) : option error * nodeWorld * DB :=
  let '(answer, s) := Converge unicodeToLower Load compilerFactory (MkCState (nwCore w) db (nwWake w)) in
  ((fun e => Errorf (ceText e)) <$> answer, MkNodeWorld (cworld s) (scheduleWake s) (nwObservation w) (nwHost w) (nwEnv w), cdb s).

(** The processor's runtime is the core runtime. *)
#[local] Instance node_runtime : Runtime coreRuntime := core_runtime unicodeToLower Load compilerFactory.
#[local] Instance node_runtime_laws : RuntimeLaws coreRuntime := core_runtime_laws unicodeToLower Load compilerFactory.

Definition nodeProcess (w : nodeWorld) (db : DB) (response : SyncResponse) : bool * option error * nodeWorld * DB :=
  let '(now, e) := NextWall (nwEnv w) in
  let '(r, s) := Process unicodeToLower Load nodeOptions (IssueClock e) (UnixMilli now) response
                   (MkPState db (MkCoreRuntime (nwCore w) (nwWake w) Owner) false 0 []) in
  (immediate s, match r with Ok _ => None | Err err => Some err end,
   MkNodeWorld (crWorld (prt s)) (crWake (prt s)) (nwObservation w) (nwHost w) e, pdb s).

#[global] Instance node_ports : SyncPorts nodeWorld Host Envelope := {|
  CollectHost := nodeCollectHost;
  HostSent w sample := let '(now, e) := NextWall (nwEnv w) in
    MkNodeWorld (nwCore w) (nwWake w) (nwObservation w) (MarkSent (nwHost w) (SampleID sample) now) e;
  HostWireLimit := nodeWireLimit;
  ObserveCore := nodeObserve;
  ConvergeLocal := nodeConverge;
  SendReport w report := let '(r, e) := NextAnswer (nwEnv w) report in (r, withEnv e w);
  ProcessResponse := nodeProcess;
  RecordSynced w := let '(r, e) := NextSynced (nwEnv w) in (r, withEnv e w);
  Cancelled w := ContextDone (nwEnv w);
  CoreStatusNow w := Some (Status (nwCore w));
  DynamicCapabilities w := Some (TaskCapabilities (nwEnv w));
  Elapsed w := let '(r, e) := NextElapsed (nwEnv w) in (r, withEnv e w);
  WallClock w := let '(t, e) := NextWall (nwEnv w) in (t, withEnv e w)
|}.

(** ** The ports keep what the round relies on *)

Lemma journal_kept db d : node_ok db -> journal_frame db d -> journal_step task_flag db d -> still_pending db d -> kept db d.
Proof.
  intros [Hst Hcl Hj Hob] Hf [Hj' Hev] Hp. split; [|done| |done].
  - split; [| |done|]; rewrite Hf; done.
  - rewrite Hf. exact (db_progress_refl db).
Qed.

Lemma RecordIssue_kept Map db local nowMS created d : node_ok db -> RecordIssue Map db local nowMS = Ok (created, d) -> kept db d.
Proof.
  intros Hok. unfold RecordIssue. intros (issue & _ & Hr)%bind_Ok. repeat case_decide; try done.
  apply journal_kept; [done|by eapply EnqueueIssue_frame|by eapply EnqueueIssue_step; [apply Hok|]|by eapply EnqueueIssue_pending].
Qed.

Lemma episode_kept (h : HostReporter (Host := Host)) db detail nowMS :
  node_ok db -> kept db (recordFailureEpisode IssueHostTelemetryFailed true true h db detail nowMS).1.2.
Proof.
  intros Hok. unfold recordFailureEpisode. simpl. destruct (episodeOpen h); [by apply kept_refl|].
  destruct (RecordIssue _ _ _ _) as [[created d]|e] eqn:Hr; [by eapply RecordIssue_kept|by apply kept_refl].
Qed.

Lemma batch_clients_ok db batch atMS changed d :
  Forall update_typed (BClients batch) -> clients_ok db -> ApplyCounterBatch db batch atMS = Ok (changed, d) -> clients_ok d.
Proof.
  intros Ht Hok. destruct (ApplyCounterBatch_guards db batch atMS) as [(-> & _)|[Hno _]]; [|intros Hr; by rewrite Hr in Hno].
  intros ([ch d1] & Hl & Hr)%bind_Ok. apply bind_Ok in Hr as (d2 & Hl2 & [= _ <-]).
  assert (clients_ok d1) as Hok1.
  { apply (res_foldl_inv _ (fun s => clients_ok s.2)) in Hl; [done| |done]. intros [c1 x1] u [c2 x2] Hx Hu Hs.
    apply bind_Ok in Hs as ([ch' d'] & Ha & [= _ <-]). eapply (run_op_clients_ok x1 (OpCounters u atMS)); [|exact Hx|].
    - simpl. by eapply Forall_forall in Ht.
    - simpl. unfold UpdateCounters. by rewrite Ha. }
  rewrite batchListener_loop in Hl2. apply bind_Ok in Hl2 as (m & _ & [= <-]). exact Hok1.
Qed.

Lemma observe_kept s db env r s' d :
  node_ok db -> (forall counters, oeTelemetry env = Ok counters -> Forall (fun c => update_typed (clientUpdate c)) (CoClients counters)) ->
  Observe s db env = (r, s', d) -> kept db d.
Proof.
  intros Hok Ht [(-> & _ & _)|[(changed & counters & Hte & _ & _ & Hb)|(failure & _ & Hf)]]%Observe_cases.
  - by apply kept_refl.
  - pose proof (ApplyCounterBatch_frame _ _ _ _ _ Hb) as Hfr. apply batch_clients_ok in Hb; [|by apply Forall_fmap, Ht|apply Hok].
    destruct Hok as [Hst Hcl Hj Hob]. split.
    + split; [|done| |]; rewrite Hfr; [exact Hst|by apply (journal_ok_ext db)|exact Hob].
    + apply still_pending_ext. by rewrite Hfr.
    + rewrite Hfr. exact (db_progress_refl db).
    + rewrite Hfr. exact (tasks_evolve_refl task_flag db).
  - unfold observeFail in Hf. destruct (RecordIssue _ _ _ _) as [[created d']|e] eqn:Hr; injection Hf as _ _ <-;
      [by eapply RecordIssue_kept|by apply kept_refl].
Qed.

Lemma deployment_kept db d : node_ok db -> deployment_frame db d -> kept db d.
Proof.
  intros [Hst Hcl Hj Hob] Hf. split.
  - split; rewrite Hf; [exact Hst|exact Hcl|by apply (journal_ok_ext db)|exact Hob].
  - apply still_pending_ext. by rewrite Hf.
  - rewrite Hf. exact (db_progress_refl db).
  - rewrite Hf. exact (tasks_evolve_refl task_flag db).
Qed.

Lemma step_pending l (s s' : pstate coreRuntime) : round_step l s s' -> still_pending (pdb s) (pdb s').
Proof.
  intros Hs. assert (l = LTasks \/ l = LIssue \/ (l <> LTasks /\ l <> LIssue)) as [->|[->|[Hn1 Hn2]]] by (destruct l; naive_solver).
  - inversion Hs; subst. by eapply AcceptTasksFenced_pending.
  - inversion Hs; subst. by eapply EnqueueIssue_pending.
  - destruct (step_frame _ _ _ Hs) as (_ & _ & Hjr & _). destruct (Hjr Hn1 Hn2) as (_ & Hr & _). by apply still_pending_ext.
Qed.

Lemma step_kept l (s s' : pstate coreRuntime) : round_step l s s' -> node_ok (pdb s) -> kept (pdb s) (pdb s').
Proof.
  intros Hs [Hst Hcl Hj Hob]. destruct (step_streams_ok unicodeToLower _ _ _ Hs Hst) as [Hst' Hpr]. destruct (step_journal unicodeToLower _ _ _ Hs Hj) as [Hj' Hev]. split.
  - split; [done|by eapply (step_clients_ok unicodeToLower)|done|by eapply step_objects_ok].
  - by eapply step_pending.
  - done.
  - done.
Qed.

Lemma process_path_kept (s s' : pstate coreRuntime) : path (fun _ => True) s s' -> node_ok (pdb s) -> kept (pdb s) (pdb s').
Proof.
  intros Hp Hok. apply (path_inv (fun _ => True) (fun x => kept (pdb s) (pdb x)) s s'); [|done|by apply kept_refl].
  intros l x y _ Hs Hk. eapply kept_trans; [done|exact Hk|]. eapply step_kept; [done|apply Hk].
Qed.

#[global] Instance node_laws : SyncLaws nodeWorld Host Envelope.
Proof.
  split; cbn [CollectHost HostWireLimit ObserveCore ConvergeLocal ProcessResponse SendReport node_ports].
  - intros w db Hok. unfold nodeCollectHost. destruct (NextHost _) as [[r [detail|]] e]; [|by apply kept_refl].
    destruct (NextWall e) as [now e']. pose proof (episode_kept (nwHost w) db detail (UnixMilli now) Hok) as Hk.
    by destruct (recordFailureEpisode _ _ _ _ _ _ _) as [[h d] told].
  - intros w db Hok. unfold nodeWireLimit, ReportWireLimitDropped. destruct (NextWall _) as [now e].
    pose proof (episode_kept (nwHost w) db "wire_limit" (UnixMilli now) Hok) as Hk. by destruct (recordFailureEpisode _ _ _ _ _ _ _) as [[h d] told].
  - intros w db Hok. unfold nodeObserve. destruct (NextTelemetry (nwEnv w)) as [t e] eqn:Ht. destruct (NextWall e) as [now e'].
    destruct (Observe _ _ _) as [[r o] d] eqn:Ho. eapply observe_kept; [done| |exact Ho]. simpl. intros counters ->. by eapply telemetry_typed.
  - intros w db Hok. unfold nodeConverge. pose proof (Converge_frame unicodeToLower Load compilerFactory (MkCState (nwCore w) db (nwWake w))) as Hf.
    destruct (Converge _ _ _ _) as [answer s]. by apply deployment_kept.
  - intros w db response Hok Ht. unfold nodeProcess. destruct (NextWall _) as [now e]. set (s0 := MkPState db _ _ _ _).
    pose proof (Process_path unicodeToLower Load nodeOptions (IssueClock e) (UnixMilli now) response s0 (no_objects _ Hok) Ht) as Hp.
    destruct (Process _ _ _ _ _ _ s0) as [r s]. exact (process_path_kept _ _ Hp Hok).
  - intros w report response w'. destruct (NextAnswer (nwEnv w) report) as [r e] eqn:Ha. intros [= -> <-]. by eapply answer_typed.
Qed.

(** ** Properties of the whole *)

Lemma recordStats_core (s : sstate (W := nodeWorld) (Host := Host)) : nwCore (sworld (recordStats s)) = nwCore (sworld s).
Proof.
  unfold recordStats. destruct (sstats s); [|done]. destruct (negb (synced s) && _); [done|].
  cbn [WallClock node_ports]. by destruct (NextWall (nwEnv (sworld s))).
Qed.

(** C11. Quotas hold without the control plane.  When a round of the assembled node got
    no valid answer, was not cancelled and met no error of the local convergence,
    the store it leaves is well formed, no quota that was due by the time of the
    report it sent is left to be rolled over, and the deployment on record is what
    the stored documents and the ledger of that store compile to, with every enabled
    client inside its grant; the core left running is that deployment. *)
Theorem node_enforces_quotas_offline `{!SyncProtocol Host Envelope} sy partial includeHost (s : sstate (W := nodeWorld) (Host := Host)) r s' es report :
  node_ok (sdb s) -> HasConverger sy = true -> (forall e rep, ContextDone (NextAnswer e rep).2 = false) ->
  SyncOnce sy partial includeHost s = (r, s') -> strace s' = strace s ++ es ->
  SyncSent report false ∈ es -> SyncConverged false ∉ es ->
  node_ok (sdb s') /\ dueKeys (sdb s') (ReportedAtMS report) = [] /\
  exists w, enforced_deployment unicodeToLower Load compilerFactory (sdb s') w (nwCore (sworld s')).
Proof.
  intros Hok Hc Hdone Hr HT Hin Hno.
  destruct (outage_converges sy partial includeHost s r s' es report Hok Hc) as (w & db & s1 & answer & Hokd & Hdue & Hconv & -> & Hev); [|done..|].
  { intros w rep. simpl. pose proof (Hdone (nwEnv w) rep) as Hd. by destruct (NextAnswer (nwEnv w) rep). }
  rewrite (proj1 (recordStats_db s1)), recordStats_core. destruct answer; [done|].
  pose proof (converge_local_kept w db Hokd) as Hk. rewrite Hconv in Hk. split; [by apply Hk|]. clear Hk.
  simpl in Hconv. unfold nodeConverge in Hconv. destruct (Converge _ _ _ _) as [answer after] eqn:Hco.
  injection Hconv as Ha Hw Hd. destruct answer; [done|]. rewrite <-Hw, <-Hd. simpl.
  pose proof (Converge_frame unicodeToLower Load compilerFactory (MkCState (nwCore w) db (nwWake w))) as Hf. rewrite Hco in Hf. simpl in Hf.
  split; [by rewrite Hf|]. exists (nwCore w).
  by apply (Converge_enforces unicodeToLower Load compilerFactory (MkCState (nwCore w) db (nwWake w)) after); [apply Hokd|].
Qed.

End node.

Module node_example.
Import sample.
Import rounds_example.
Import core_example.

(** The environment is whether the control plane answers and the wall clock; the
    core has counted forty bytes for the client that was granted ten. *)
#[export] Instance sample_env : NodeEnv (bool * Z) string Z := {|
  NextTelemetry e := (Ok (MkCoreCounters [MkCoreClientCounters "cli_1" true 40 0 1 []] []), e);
  NextHost e := (Ok (Some "sample"), None, e);
  NextAnswer (e : bool * Z) report := (if e.1 then Ok (MkWireResponse 30 response) else Err (Errorf "connection refused"), e);
  NextSynced e := (None, e);
  NextElapsed (e : bool * Z) := (Raw e.2, e);
  NextWall (e : bool * Z) := (e.2, (e.1, e.2 + 1000000));
  IssueClock e issue := 9;
  TaskCapabilities e := [];
  ContextDone e := false
|}.

#[export] Instance sample_env_laws : NodeEnvLaws (bool * Z) string Z.
Proof.
  split.
  - intros e counters e' [= <- <-]. repeat constructor; vm_compute; intuition discriminate.
  - intros [[] n] report r e'; simpl; [|done]. intros [= <- <-]. exact response_typed.
Qed.

#[export] Instance sample_sync_protocol : SyncProtocol string Z := {|
  MarshalReport r := Some "{}";
  MaxSyncBodyBytes := 1000;
  ValidateNodeReport r := true;
  ValidateSyncResponse r := true;
  ComputedAtMS e := 0;
  NextPollSeconds e := e;
  ShouldSendFull e n := true;
  zeroEnvelope := 0;
  DefaultNextPollSeconds := 10
|}.

Definition world : Type := nodeWorld (CW := Z * CoreStatus) (E := bool * Z) (Host := string).

#[export] Instance sample_ports : SyncPorts world string Z :=
  node_ports (fun s => s) catalog factory (fun s => s) "host_telemetry_failed" None.
#[export] Instance sample_sync_laws : SyncLaws world string Z :=
  node_laws (fun s => s) catalog factory (fun s => s) "host_telemetry_failed" None.

Definition fresh_world (connected : bool) : world :=
  MkNodeWorld idle false (MkObservationService false 0) NewHostReporter (connected, 9000000).
Definition synchronizer : Synchronizer := MkSynchronizer (MkReportBuilder "agent" "4.0.0" "" "" "" [] 0 1000) true true true true.

(** The node has applied the sample response once and has an issue to deliver. *)
Definition warm : bool * option error * world * DB := ProcessResponse (fresh_world true) before response.
Definition waiting : DB := match EnqueueIssue warm.2 "local" (MkIssue "code" "key" "detail") 2 with Ok (_, d) => d | Err _ => warm.2 end.
Definition node_state (connected : bool) : sstate (W := world) (Host := string) :=
  MkSState (withEnv (connected, 9000000) warm.1.2) waiting None (Some (NewRuntimeStats 0)) false [].
Definition round (connected : bool) : res error (SyncResult Z) * sstate (W := world) (Host := string) := SyncOnce synchronizer false true (node_state connected).

Definition shape (e : syncEvent string) : string :=
  match e with
  | SyncObserved b => if b then "gate" else "observed"
  | SyncConverged b => if b then "converged" else "failed"
  | SyncSent _ b => if b then "answered" else "refused"
  | SyncAcked _ => "acked"
  | SyncProcessed b => if b then "processed" else "unprocessed"
  end.

Example rounds_run :
  (shape <$> strace (round true).2, is_Ok (round true).1) = (["gate"; "converged"; "answered"; "acked"; "processed"], true) /\
  (shape <$> strace (round false).2, is_Ok (round false).1) = (["gate"; "converged"; "refused"; "converged"], false).
Proof. vm_compute. split; reflexivity. Qed.

Lemma waiting_node : node_ok waiting.
Proof.
  assert (node_ok warm.2) as Hw by exact (kept_ok _ _ (process_kept (fresh_world true) before response start_node response_typed)).
  unfold waiting. destruct (EnqueueIssue _ _ _ _) as [[created d]|e] eqn:He; [|exact Hw].
  apply (kept_ok warm.2). apply journal_kept; [exact Hw|by eapply EnqueueIssue_frame|by eapply EnqueueIssue_step; [apply Hw|]|by eapply EnqueueIssue_pending].
Qed.

Lemma round_split connected : round connected = ((round connected).1, (round connected).2).
Proof. by destruct (round connected). Qed.

Lemma nothing_waiting_is_lost_witness :
  exists row report, row ∈ report_outbox waiting /\ SyncSent report true ∈ strace (round true).2 /\ carried row report.
Proof.
  destruct (nothing_waiting_is_lost synchronizer false true (node_state true) _ _ waiting_node (round_split true)) as (_ & _ & _ & es & HT & Hrows).
  assert (exists row, report_outbox waiting = [row] /\ obDelivered row = false) as (row & Hrow & Hd) by (eexists; vm_compute; split; reflexivity).
  assert (forallb obDelivered (report_outbox (sdb (round true).2)) = true) as Hall by (vm_compute; reflexivity).
  assert (row ∈ report_outbox waiting) as Hin by (rewrite Hrow; apply list_elem_of_here).
  exists row. destruct (Hrows row) as [(r' & Hr' & _ & Hd')|(report & Hs & Hc)].
  - exists row. repeat split; [exact Hin|exact Hd].
  - exfalso. clear -Hr' Hd' Hall. rewrite forallb_forall in Hall. apply list_elem_of_In in Hr'. rewrite (Hall r' Hr') in Hd'. discriminate Hd'.
  - exists report. split; [exact Hin|]. split; [rewrite HT; exact Hs|exact Hc].
Defined.

Lemma gates_enforced_before_sending_witness :
  exists pre report post, strace (round true).2 = pre ++ SyncSent report true :: post /\ SyncConverged true ∈ pre.
Proof.
  assert (exists pre report post, strace (round true).2 = pre ++ SyncSent report true :: post /\ pre = [SyncObserved true; SyncConverged true])
    as (pre & report & post & HT & Hpre) by (eexists [_; _], _, _; vm_compute; split; reflexivity).
  exists pre, report, post. split; [exact HT|].
  apply (gates_enforced_before_sending synchronizer false true (node_state true) _ _ (pre ++ SyncSent report true :: post) pre report true post
    waiting_node (round_split true) eq_refl HT eq_refl).
  rewrite Hpre. apply list_elem_of_here.
Defined.

Lemma round_counted_once_witness : exists now, sstats (round true).2 = Some (RecordSuccess (NewRuntimeStats 0) now).
Proof.
  destruct (round_counted_once synchronizer false true (node_state true) _ _ _ waiting_node (round_split true) eq_refl)
    as (es & _ & [[_ Hs]|(Hbad & _)]); [exact Hs|].
  exfalso. assert (is_Ok (round true).1 = true) as Hok by (vm_compute; reflexivity). clear -Hbad Hok. rewrite Hok in Hbad. discriminate Hbad.
Defined.

Definition turn : turnEnv := MkTurnEnv false 9000000000 true false (fun span => if decide (7 < span) then Some 7 else None).
Definition started (connected : bool) : runner := MkRunner 0 None 2 0 (node_state connected).

Lemma runner_cadence_witness : exists rn, runTurn synchronizer (started false) turn = Some rn /\ 2 * second ≤ delay rn ≤ 4 * second.
Proof.
  assert (exists rn, runTurn synchronizer (started false) turn = Some rn /\ failures rn = 3) as (rn & Hr & Hf)
    by (eexists; vm_compute; split; reflexivity).
  exists rn. split; [exact Hr|].
  destruct (runner_cadence synchronizer (started false) rn turn waiting_node)
    as (_ & [(_ & _ & _ & Hd)|(Hz & _)]).
  - discriminate.
  - intros span x. simpl. case_decide; [|done]. intros [= <-]. lia.
  - exact Hr.
  - exact Hd.
  - exfalso. clear -Hf Hz. rewrite Hz in Hf. discriminate Hf.
Defined.

Lemma node_enforces_quotas_offline_witness :
  exists report, SyncSent report false ∈ strace (round false).2 /\ dueKeys (sdb (round false).2) (ReportedAtMS report) = [] /\
    exists w, enforced_deployment (fun s => s) catalog factory (sdb (round false).2) w (nwCore (sworld (round false).2)).
Proof.
  assert (exists o c report c', strace (round false).2 = [o; c; SyncSent report false; c'] /\ c = SyncConverged true /\ c' = SyncConverged true /\ o = SyncObserved true)
    as (o & c & report & c' & HT & -> & -> & ->) by (eexists _, _, _, _; vm_compute; repeat split; reflexivity).
  assert (forall (e : bool * Z) (rep : NodeReport string), ContextDone (NextAnswer e rep).2 = false) as Hdone by reflexivity.
  pose proof (node_enforces_quotas_offline (H := sample_protocol) (H1 := sample_conformance) (H3 := config_codec) (H4 := roster_codec)
    (H5 := directives_codec) (H6 := sample_world) (NodeEnv0 := sample_env) (SyncProtocol0 := sample_sync_protocol) (fun s => s) catalog factory
    (fun s => s) "host_telemetry_failed" None synchronizer false true (node_state false) (round false).1 (round false).2
    [SyncObserved true; SyncConverged true; SyncSent report false; SyncConverged true] report waiting_node eq_refl Hdone) as Ht.
  specialize (Ht (round_split false) HT). exists report.
  assert (SyncSent report false ∈ [SyncObserved true; SyncConverged true; SyncSent report false; SyncConverged true]) as Hsent
    by apply list_elem_of_further, list_elem_of_further, list_elem_of_here.
  destruct Ht as (_ & Hdue & Henf).
  - exact Hsent.
  - intros Hin. repeat (apply elem_of_cons in Hin as [Hin|Hin]; [discriminate Hin|]). by apply not_elem_of_nil in Hin.
  - split; [rewrite HT; exact Hsent|]. split; [exact Hdue|exact Henf].
Defined.

End node_example.
