(* ===== verification/HandoverJournal.v ===== *)
(** * The handover journal ([internal/upgrade/docker_handover_state.go])

    The updater hands its role to a successor container.  The journal is the one
    record of the current handover: which moves it may make, how failed attempts
    are counted, and which role it gives a container. *)
From S2P Require Import Prelude GoStrings ReleaseId.

(** ** Names *)

Definition handoverPrepared : string := "prepared".
Definition handoverCreated : string := "created".
Definition handoverCommitted : string := "committed".
Definition handoverCompleted : string := "completed".
Definition handoverAborted : string := "aborted".
Definition handoverReverted : string := "reverted".
Definition handoverAbandoned : string := "abandoned".
Definition handoverSuperseded : string := "superseded".

Definition handoverTransitions (phase : string) : list string :=
  if decide (phase = handoverPrepared) then [handoverCreated; handoverAborted] else
  if decide (phase = handoverCreated) then [handoverCommitted; handoverAborted; handoverAbandoned] else
  if decide (phase = handoverCommitted) then [handoverCompleted; handoverReverted; handoverSuperseded] else [].

Definition handoverTerminal (phase : string) : bool :=
  bool_decide (phase ∈ [handoverCompleted; handoverAborted; handoverReverted; handoverAbandoned; handoverSuperseded]).

Definition handoverLive (phase : string) : bool := bool_decide (phase ∈ [handoverPrepared; handoverCreated; handoverCommitted]).

Definition handoverPhaseKnown (phase : string) : bool := handoverLive phase || handoverTerminal phase.

Definition handoverMaxAttempts : Z := 3.
Definition handoverFirstBackoff : Z := 600.
Definition handoverLaterBackoff : Z := 3600.
Definition handoverMaxReasonSize : Z := 256.
Definition handoverPreemptedReason : string := "preempted by agent request".

Definition DockerImageRepository : string := "ghcr.io/kazuhahub/passwall-node".

(** ** The records *)

Record dockerHandover := MkDockerHandover {
  HID : string;
  HPhase : string;
  HAttempt : Z;
  NotBeforeUnix : Z;
  CanonicalName : string;
  SuccessorName : string;
  RetiredName : string;
  PredecessorID : string;
  PredecessorImageID : string;
  PredecessorVersion : string;
  SuccessorID : string;
  HImageID : string;
  ImageReference : string;
  HVersion : string;
  AgentContainerID : string;
  AgentBinarySHA256 : string;
  EvidenceTaskID : string;
  RequestSHA256 : string;
  HReason : string
}.

#[global] Instance dockerHandover_eq_dec : EqDecision dockerHandover.
Proof. solve_decision. Defined.

Record dockerStandbyProof := MkStandbyProof { PrHandoverID : string; PrSuccessorID : string; PrVersion : string; PrBinarySHA256 : string }.

(** ** Shapes *)

Definition byteBetween (lo hi : nat) (a : ascii) : bool := bool_decide (lo ≤ nat_of_ascii a ≤ hi)%nat.

Definition hexByte (a : ascii) : bool := byteBetween 48 57 a || byteBetween 97 102 a.

Definition allBytes (p : ascii -> bool) (s : string) : bool := forallb p (String.list_ascii_of_string s).

Definition lowerHex (value : string) (n : nat) : bool := bool_decide (String.length value = n) && allBytes hexByte value.

Definition validSHA256 (s : string) : bool := lowerHex s 64.

Definition dockerImageID (value : string) : bool :=
  match CutPrefix value "sha256:" with Some digest => lowerHex digest 64 | None => false end.

(** [^[A-Za-z0-9][A-Za-z0-9_.-]{0,127}$]. *)
Definition nameByte (a : ascii) : bool := byteBetween 65 90 a || byteBetween 97 122 a || byteBetween 48 57 a.
Definition dockerObjectName (s : string) : bool :=
  match s with
  | EmptyString => false
  | String a s' => nameByte a && allBytes (fun b => nameByte b || bool_decide (b ∈ ["_"; "."; "-"]%char)) s' && bool_decide (String.length s' ≤ 127)%nat
  end.

Definition validReceiptTaskID (value : string) : bool :=
  let first a := byteBetween 97 122 a || byteBetween 48 57 a in
  match value with
  | EmptyString => false
  | String a s => first a && allBytes (fun b => first b || bool_decide (b ∈ ["_"; "-"; "."; ":"]%char)) s && bool_decide (len value ≤ 128)
  end.

(** No control character: a byte outside ASCII is never one. *)
Definition printable (value : string) : bool := allBytes (fun a => negb (byteBetween 0 31 a || byteBetween 127 127 a)) value.

Definition short (id : string) : string := take_str 8 id.

(** ** Validation *)

Definition validateHandover (h : dockerHandover) : option string :=
  if negb (lowerHex (HID h) 32) then Some "handover id is invalid" else
  if negb (handoverPhaseKnown (HPhase h)) then Some "handover phase is unknown" else
  if decide (HAttempt h < 1 \/ handoverMaxAttempts < HAttempt h \/ NotBeforeUnix h < 0) then Some "handover attempt or back-off is invalid" else
  if negb (dockerObjectName (CanonicalName h)) || negb (dockerObjectName (SuccessorName h)) || negb (dockerObjectName (RetiredName h)) ||
     negb (bool_decide (SuccessorName h = CanonicalName h +:+ "-next-" +:+ short (HID h))) ||
     negb (bool_decide (RetiredName h = CanonicalName h +:+ "-retired-" +:+ short (HID h)))
  then Some "handover container names are invalid" else
  if negb (lowerHex (PredecessorID h) 64) || negb (dockerImageID (PredecessorImageID h)) || negb (ValidVersion (PredecessorVersion h))
  then Some "handover predecessor identity is invalid" else
  if negb (dockerImageID (HImageID h)) || negb (ValidVersion (HVersion h)) ||
     negb (bool_decide (ImageReference h = DockerImageRepository +:+ ":" +:+ HVersion h))
  then Some "handover image identity is invalid" else
  if negb (lowerHex (AgentContainerID h) 64) || negb (validSHA256 (AgentBinarySHA256 h)) || negb (validReceiptTaskID (EvidenceTaskID h))
  then Some "handover evidence is invalid" else
  if negb (bool_decide (RequestSHA256 h = "")) && negb (validSHA256 (RequestSHA256 h)) then Some "handover request digest is invalid" else
  if bool_decide (handoverMaxReasonSize < len (HReason h)) || negb (printable (HReason h)) then Some "handover reason is invalid" else
  if decide (HReason h = handoverPreemptedReason /\ (HPhase h <> handoverAborted \/ NotBeforeUnix h <> 0))
  then Some "a pre-empted handover is an abort without a back-off" else
  if decide (HPhase h = handoverPrepared /\ SuccessorID h <> "") then Some "a prepared handover has no successor yet" else
  if decide (SuccessorID h = "" /\ HPhase h <> handoverPrepared /\ HPhase h <> handoverAborted) then Some "handover successor is missing" else
  if decide (SuccessorID h <> "" /\ (lowerHex (SuccessorID h) 64 = false \/ SuccessorID h = PredecessorID h))
  then Some "handover successor identity is invalid" else None.

Definition validateProof (p : dockerStandbyProof) : bool :=
  lowerHex (PrHandoverID p) 32 && lowerHex (PrSuccessorID p) 64 && ValidVersion (PrVersion p) && validSHA256 (PrBinarySHA256 p).

(** ** Attempts *)

Inductive attemptError := AttemptBackoff | AttemptsExhausted.

Definition nextHandoverAttempt (prev : option dockerHandover) (predecessorID imageID : string) (now : Z) : res attemptError Z :=
  match prev with
  | None => Ok 1
  | Some prev =>
      if decide ((HPhase prev <> handoverAborted /\ HPhase prev <> handoverReverted) \/ PredecessorID prev <> predecessorID \/ HImageID prev <> imageID)
      then Ok 1 else
      if decide (HReason prev = handoverPreemptedReason) then Ok (HAttempt prev) else
      if decide (handoverMaxAttempts ≤ HAttempt prev) then Err AttemptsExhausted else
      if decide (now < NotBeforeUnix prev) then Err AttemptBackoff else Ok (HAttempt prev + 1)
  end.

(** Unix seconds. *)
Definition handoverNotBefore (attempt : Z) (reason : string) (now : Z) : Z :=
  if decide (reason = handoverPreemptedReason) then 0 else
  if decide (attempt ≤ 1) then now + handoverFirstBackoff else now + handoverLaterBackoff.

(** ** Writing *)

Definition withPhase (phase : string) (h : dockerHandover) : dockerHandover :=
  MkDockerHandover (HID h) phase (HAttempt h) (NotBeforeUnix h) (CanonicalName h) (SuccessorName h) (RetiredName h) (PredecessorID h) (PredecessorImageID h)
    (PredecessorVersion h) (SuccessorID h) (HImageID h) (ImageReference h) (HVersion h) (AgentContainerID h) (AgentBinarySHA256 h) (EvidenceTaskID h)
    (RequestSHA256 h) (HReason h).
Definition withSuccessor (id : string) (h : dockerHandover) : dockerHandover :=
  MkDockerHandover (HID h) (HPhase h) (HAttempt h) (NotBeforeUnix h) (CanonicalName h) (SuccessorName h) (RetiredName h) (PredecessorID h) (PredecessorImageID h)
    (PredecessorVersion h) id (HImageID h) (ImageReference h) (HVersion h) (AgentContainerID h) (AgentBinarySHA256 h) (EvidenceTaskID h)
    (RequestSHA256 h) (HReason h).
Definition withEnd (reason : string) (notBefore : Z) (h : dockerHandover) : dockerHandover :=
  MkDockerHandover (HID h) (HPhase h) (HAttempt h) notBefore (CanonicalName h) (SuccessorName h) (RetiredName h) (PredecessorID h) (PredecessorImageID h)
    (PredecessorVersion h) (SuccessorID h) (HImageID h) (ImageReference h) (HVersion h) (AgentContainerID h) (AgentBinarySHA256 h) (EvidenceTaskID h)
    (RequestSHA256 h) reason.

(** What [next] must be to follow [prev] within one handover. *)
Definition expectedNext (prev next : dockerHandover) : dockerHandover :=
  let e := withPhase (HPhase next) prev in
  let e := if decide (HPhase next = handoverCreated /\ SuccessorID prev = "") then withSuccessor (SuccessorID next) e else e in
  if handoverTerminal (HPhase next) then
    withEnd (HReason next)
      (if decide (HPhase next = handoverAborted \/ HPhase next = handoverReverted) then NotBeforeUnix next else NotBeforeUnix prev) e
  else e.

(** [writeHandover] on the journal it loads: [None] allows the write. *)
Definition mayWrite (prev : option dockerHandover) (next : dockerHandover) (now : Z) : option string :=
  match validateHandover next with
  | Some e => Some e
  | None =>
      let fresh (prev : option dockerHandover) :=
        if decide (HPhase next <> handoverPrepared) then Some "a new handover begins prepared" else
        match nextHandoverAttempt prev (PredecessorID next) (HImageID next) now with
        | Err _ => Some "handover attempt refused"
        | Ok attempt =>
            if decide (HAttempt next <> attempt \/ NotBeforeUnix next <> 0 \/ HReason next <> "") then Some "a new handover has no back-off and no reason" else None
        end in
      match prev with
      | None => fresh None
      | Some p =>
          if decide (HID p <> HID next) then
            if handoverTerminal (HPhase p) then fresh prev else Some "a handover in progress cannot be replaced"
          else
            if negb (bool_decide (HPhase next ∈ handoverTransitions (HPhase p))) then Some "handover cannot move" else
            if decide (next <> expectedNext p next) then Some "handover identity cannot change" else None
      end
  end.

(** ** Roles *)

Inductive handoverRole := roleCandidate | roleStandby | roleRetired | roleRetiredWatch.
Inductive handoverReconcile := reconcileNone | reconcileAbort | reconcileFinish | reconcileSupersede | reconcileTidy.

#[global] Instance handoverRole_eq_dec : EqDecision handoverRole.
Proof. solve_decision. Defined.
#[global] Instance handoverReconcile_eq_dec : EqDecision handoverReconcile.
Proof. solve_decision. Defined.

Definition classifyRole (journal : option dockerHandover) (self : string) : handoverRole * handoverReconcile :=
  match journal with
  | None => (roleCandidate, reconcileNone)
  | Some j =>
      if decide (self = "") then (roleCandidate, reconcileNone) else
      let predecessor := bool_decide (self = PredecessorID j) in
      let successor := bool_decide (SuccessorID j <> "" /\ self = SuccessorID j) in
      let phase := HPhase j in
      if decide (phase = handoverPrepared) then (roleCandidate, reconcileAbort) else
      if decide (phase = handoverCreated) then (if successor then (roleStandby, reconcileNone) else (roleCandidate, reconcileAbort)) else
      if decide (phase = handoverCommitted) then
        if predecessor then (roleRetiredWatch, reconcileNone) else
        if successor then (roleCandidate, reconcileFinish) else (roleCandidate, reconcileSupersede)
      else
      if decide (phase = handoverCompleted \/ phase = handoverAbandoned) then
        if predecessor then (roleRetired, reconcileNone) else
        if successor then (roleCandidate, reconcileNone) else (roleCandidate, reconcileTidy)
      else
      if decide (phase = handoverAborted \/ phase = handoverReverted) then
        if successor then (roleRetired, reconcileNone) else (roleCandidate, reconcileTidy)
      else
      if decide (phase = handoverSuperseded) then
        if predecessor || successor then (roleRetired, reconcileNone) else (roleCandidate, reconcileTidy)
      else (roleCandidate, reconcileNone)
  end.

(** ** What the writer allows *)

(** The same handover, apart from its phase, its successor and its end. *)
Definition sameHandover (a b : dockerHandover) : Prop :=
  HID a = HID b /\ HAttempt a = HAttempt b /\ CanonicalName a = CanonicalName b /\ SuccessorName a = SuccessorName b /\ RetiredName a = RetiredName b /\
  PredecessorID a = PredecessorID b /\ PredecessorImageID a = PredecessorImageID b /\ PredecessorVersion a = PredecessorVersion b /\
  HImageID a = HImageID b /\ ImageReference a = ImageReference b /\ HVersion a = HVersion b /\ AgentContainerID a = AgentContainerID b /\
  AgentBinarySHA256 a = AgentBinarySHA256 b /\ EvidenceTaskID a = EvidenceTaskID b /\ RequestSHA256 a = RequestSHA256 b.

(** The first record of a handover. *)
Record begins (prev : option dockerHandover) (next : dockerHandover) (now : Z) : Prop := {
  bg_phase : HPhase next = handoverPrepared;
  bg_prev : forall p, prev = Some p -> HID p <> HID next /\ handoverTerminal (HPhase p) = true;
  bg_attempt : nextHandoverAttempt prev (PredecessorID next) (HImageID next) now = Ok (HAttempt next);
  bg_reason : HReason next = ""
}.

(** A later one. *)
Record moves (prev next : dockerHandover) : Prop := {
  mv_same : sameHandover prev next;
  mv_phase : HPhase next ∈ handoverTransitions (HPhase prev);
  mv_successor : SuccessorID prev <> "" \/ HPhase next <> handoverCreated -> SuccessorID next = SuccessorID prev;
  mv_live : handoverTerminal (HPhase next) = false -> HReason next = HReason prev
}.

Lemma expectedNext_spec prev next : HID prev = HID next ->
  let e := expectedNext prev next in
  sameHandover prev e /\ (SuccessorID prev <> "" \/ HPhase next <> handoverCreated -> SuccessorID e = SuccessorID prev) /\
  (handoverTerminal (HPhase next) = false -> HReason e = HReason prev).
Proof.
  intros Hid. unfold expectedNext. cbv zeta. destruct (handoverTerminal (HPhase next));
    (destruct (decide (HPhase next = handoverCreated /\ SuccessorID prev = "")) as [[]|]); cbn; split_and!; try done; naive_solver.
Qed.

Lemma expectedNext_moves prev next : HID prev = HID next -> HPhase next ∈ handoverTransitions (HPhase prev) -> next = expectedNext prev next -> moves prev next.
Proof. intros Hid Hph Hn. destruct (expectedNext_spec prev next Hid) as (H1 & H2 & H3). rewrite <-Hn in H1, H2, H3. by split. Qed.

Lemma mayWrite_None prev next now : mayWrite prev next now = None ->
  validateHandover next = None /\ (begins prev next now \/ exists p, prev = Some p /\ moves p next).
Proof.
  unfold mayWrite. destruct (validateHandover next); [done|]. intros Hm. split; [done|]. destruct prev as [p|].
  - case_decide as Hid.
    + destruct (handoverTerminal (HPhase p)) eqn:Ht; [|done]. case_decide as Hph; [done|].
      destruct (nextHandoverAttempt _ _ _ _) as [attempt|] eqn:Ha; [|done]. case_decide as Hrest; [done|]. left.
      split; [done|by intros ? [= <-]| |apply dec_stable; tauto]. rewrite Ha. f_equal. symmetry. apply dec_stable. tauto.
    + destruct (bool_decide _) eqn:Hph; [|done]. apply bool_decide_eq_true in Hph. simpl in Hm. case_decide as Hex; [done|]. right. exists p. split; [done|].
      by apply expectedNext_moves.
  - case_decide as Hph; [done|]. simpl in Hm. case_decide as Hrest; [done|]. left.
    split; [done|done| |apply dec_stable; tauto]. simpl. f_equal. symmetry. apply dec_stable. tauto.
Qed.

(** ** Histories *)

(** The journals written so far, newest first. *)
Inductive written : list dockerHandover -> Prop :=
| written_nil : written []
| written_cons l next now : written l -> mayWrite (head l) next now = None -> written (next :: l).

Definition failedPhase (h : dockerHandover) : bool := bool_decide (HPhase h = handoverAborted \/ HPhase h = handoverReverted).
Definition failedOnce (h : dockerHandover) : Z := if decide (HReason h = handoverPreemptedReason) then 0 else 1.

(** Failed attempts of a pair since something else happened. *)
Fixpoint failures (predecessor image : string) (l : list dockerHandover) : Z :=
  match l with
  | [] => 0
  | h :: l' =>
      if decide (PredecessorID h = predecessor /\ HImageID h = image) then
        if failedPhase h then failedOnce h + failures predecessor image l'
        else if handoverTerminal (HPhase h) then 0 else failures predecessor image l'
      else 0
  end.

(** How the attempt of the newest record relates to the failures. *)
Definition attempt_counts (h : dockerHandover) (l : list dockerHandover) : Prop :=
  let f := failures (PredecessorID h) (HImageID h) (h :: l) in
  if failedPhase h then f = HAttempt h - 1 + failedOnce h
  else f = (if handoverTerminal (HPhase h) then 0 else HAttempt h - 1).

Lemma failures_cons h l : failures (PredecessorID h) (HImageID h) (h :: l) =
  if failedPhase h then failedOnce h + failures (PredecessorID h) (HImageID h) l
  else if handoverTerminal (HPhase h) then 0 else failures (PredecessorID h) (HImageID h) l.
Proof. cbn [failures]. by rewrite decide_True. Qed.

Lemma transition_phases a b : b ∈ handoverTransitions a -> handoverTerminal a = false /\ b <> handoverPrepared /\ a <> handoverAborted /\ a <> handoverReverted.
Proof.
  unfold handoverTransitions. repeat case_decide; subst; intros Hb; repeat (apply elem_of_cons in Hb as [->|Hb]); try (by apply not_elem_of_nil in Hb); split_and!; done.
Qed.

Lemma begins_counts l next now : (forall h l', l = h :: l' -> attempt_counts h l') -> begins (head l) next now -> attempt_counts next l.
Proof.
  intros IH [Hph Hprev Hatt Hre]. unfold attempt_counts. rewrite failures_cons. assert (failedPhase next = false) as -> by (unfold failedPhase; by rewrite Hph).
  rewrite Hph. change (handoverTerminal handoverPrepared) with false. cbv iota zeta. destruct l as [|p l]; simpl in Hatt; [by injection Hatt as <-|].
  destruct (Hprev p eq_refl) as [_ Ht]. specialize (IH p l eq_refl). unfold attempt_counts in IH. cbv zeta in IH. case_decide as Hd.
  - injection Hatt as <-. cbn [failures]. case_decide as Hp; [|done]. destruct (failedPhase p) eqn:Hf; [|by rewrite Ht].
    apply bool_decide_eq_true in Hf. tauto.
  - assert (failedPhase p = true /\ PredecessorID p = PredecessorID next /\ HImageID p = HImageID next) as (Hf & Hp & Hi).
    { unfold failedPhase. rewrite bool_decide_eq_true. destruct (decide (HPhase p = handoverAborted)), (decide (HPhase p = handoverReverted)),
        (decide (PredecessorID p = PredecessorID next)), (decide (HImageID p = HImageID next)); tauto. }
    rewrite Hf, Hp, Hi in IH. rewrite IH. unfold failedOnce in *. case_decide; [injection Hatt as ->; lia|]. repeat (case_decide; [done|]). injection Hatt as <-. lia.
Qed.

Lemma moves_counts prev l next : moves prev next -> attempt_counts prev l -> attempt_counts next (prev :: l).
Proof.
  intros [Hs Hph _ _] Hc. destruct Hs as (_ & Ha & _ & _ & _ & Hp & _ & _ & Hi & _). destruct (transition_phases _ _ Hph) as (Ht & _ & Hn1 & Hn2).
  unfold attempt_counts in *. cbv zeta in *. rewrite failures_cons. assert (failedPhase prev = false) as Hf by (apply bool_decide_eq_false; tauto).
  rewrite Hf, Ht in Hc. rewrite <-Hp, <-Hi, Hc, Ha. destruct (failedPhase next); [lia|]. by destruct (handoverTerminal (HPhase next)).
Qed.

Lemma written_counts l : written l -> forall h l', l = h :: l' -> attempt_counts h l'.
Proof.
  induction 1 as [|l next now Hw IH Hm]; [done|]. intros h l' [= <- <-]. apply mayWrite_None in Hm as [_ [Hb|(p & Hp & Hmv)]].
  - by eapply begins_counts.
  - destruct l as [|q l]; [done|]. injection Hp as ->. by eapply moves_counts; [|apply IH].
Qed.

Lemma written_head l h l' : written l -> l = h :: l' -> written l' /\ validateHandover h = None.
Proof. destruct 1 as [|l next now Hw Hm]; [done|]. intros [= <- <-]. by apply mayWrite_None in Hm as [? _]. Qed.

Lemma valid_attempt h : validateHandover h = None -> 1 ≤ HAttempt h ≤ 3 /\ handoverPhaseKnown (HPhase h) = true.
Proof.
  unfold validateHandover. destruct (lowerHex _ _); [|done]. destruct (handoverPhaseKnown _) eqn:Hk; [|done]. simpl. case_decide as Ha; [done|].
  intros _. split; [|done]. unfold handoverMaxAttempts in Ha. lia.
Qed.

(** C23. An updater does not retry for ever.  Along any sequence of journal writes, the
    failed handovers of one container onto one image since anything else happened
    are at most three, pre-empted ones not counted. *)
Theorem handover_attempts_bounded l predecessor image : written l -> 0 ≤ failures predecessor image l ≤ 3.
Proof.
  intros Hw. destruct l as [|h l]; [simpl; lia|]. pose proof (written_counts _ Hw h l eq_refl) as Hc. destruct (written_head _ _ _ Hw eq_refl) as [_ Hv].
  apply valid_attempt in Hv as [Ha _]. destruct (decide (PredecessorID h = predecessor /\ HImageID h = image)) as [[<- <-]|Hne].
  - unfold attempt_counts, failedOnce in Hc. cbv zeta in Hc. destruct (failedPhase h), (handoverTerminal (HPhase h)); repeat case_decide; lia.
  - cbn [failures]. rewrite decide_False by done. lia.
Qed.

(** *** One handover *)

Definition phaseRank (phase : string) : nat :=
  if decide (phase = handoverPrepared) then 0 else if decide (phase = handoverCreated) then 1 else if decide (phase = handoverCommitted) then 2 else 3.

Lemma transition_rank a b : b ∈ handoverTransitions a -> (phaseRank a < phaseRank b)%nat.
Proof.
  unfold handoverTransitions. repeat case_decide; subst; intros Hb; repeat (apply elem_of_cons in Hb as [->|Hb]); try (by apply not_elem_of_nil in Hb); vm_compute; lia.
Qed.

Lemma terminal_rank a : handoverTerminal a = true -> phaseRank a = 3%nat.
Proof. intros Ha%bool_decide_eq_true. repeat (apply elem_of_cons in Ha as [->|Ha]); [done..|by apply not_elem_of_nil in Ha]. Qed.

Lemma sameHandover_trans a b c : sameHandover a b -> sameHandover b c -> sameHandover a c.
Proof. unfold sameHandover. intros. destruct_and!. split_and!; congruence. Qed.

(** C24. A handover only moves forward.  Whatever was written between two records of one
    handover, with no other handover between them: the later one has the same
    identity and a later phase, keeps a successor once it has one, and there are at
    most four records in all; and after a record that ended its handover only
    another handover's first record can follow. *)
Theorem handover_moves_forward newer h older :
  written (newer ++ h :: older) -> Forall (fun n => HID n = HID h) newer ->
  (forall n, n ∈ newer -> sameHandover h n /\ (phaseRank (HPhase h) < phaseRank (HPhase n))%nat /\ (SuccessorID h <> "" -> SuccessorID n = SuccessorID h)) /\
  (length newer ≤ 3)%nat /\ (handoverTerminal (HPhase h) = true -> newer = []).
Proof.
  intros Hw Hid. assert (forall n rest, newer = n :: rest -> sameHandover h n /\ (phaseRank (HPhase h) + length newer ≤ phaseRank (HPhase n))%nat /\ (SuccessorID h <> "" -> SuccessorID n = SuccessorID h) /\
     forall m, m ∈ newer -> sameHandover h m /\ (phaseRank (HPhase h) < phaseRank (HPhase m))%nat /\ (SuccessorID h <> "" -> SuccessorID m = SuccessorID h)) as Hmain.
  { induction newer as [|n newer IH]; [done|]. intros ? ? [= <- <-]. inversion Hw as [|l next now Hw' Hm]; subst. apply Forall_cons in Hid as [Hn Hid].
    apply mayWrite_None in Hm as [_ [Hb|(p & Hp & Hmv)]].
    - exfalso. destruct (bg_prev _ _ _ Hb (default h (head newer))) as [Hne _]; [by destruct newer|]. apply Hne. destruct newer as [|q newer]; [done|].
      simpl. apply Forall_cons in Hid as [? _]. congruence.
    - assert (sameHandover h n /\ (phaseRank (HPhase h) + S (length newer) ≤ phaseRank (HPhase n))%nat /\ (SuccessorID h <> "" -> SuccessorID n = SuccessorID h)) as (S1 & S2 & S3).
      { destruct newer as [|q newer]; simpl in Hp; injection Hp as <-.
        - split; [apply Hmv|]. split; [pose proof (transition_rank _ _ (mv_phase _ _ Hmv)); simpl; lia|]. intros Hs. apply Hmv. by left.
        - destruct (IH Hw' Hid q newer eq_refl) as (I1 & I2 & I3 & _). split; [by eapply sameHandover_trans; [|apply Hmv]|].
          split; [pose proof (transition_rank _ _ (mv_phase _ _ Hmv)); simpl in *; lia|]. intros Hs. rewrite (mv_successor _ _ Hmv); [by apply I3|]. left. by rewrite I3. }
      split_and!; try done. intros m [->|Hm]%elem_of_cons; [split_and!; try done; lia|]. destruct newer as [|q newer]; [by apply not_elem_of_nil in Hm|].
      by apply (IH Hw' Hid q newer eq_refl). }
  destruct newer as [|n rest]; [split_and!; [|simpl; lia|done]; intros n Hn; by apply not_elem_of_nil in Hn|].
  destruct (Hmain n rest eq_refl) as (_ & Hr & _ & Hall). assert (phaseRank (HPhase n) ≤ 3)%nat by (unfold phaseRank; repeat case_decide; lia).
  split_and!; [done|lia|]. intros Ht. exfalso. assert (phaseRank (HPhase h) = 3%nat) by (by apply terminal_rank). simpl in *. lia.
Qed.

(** ** One handover, record by record *)

Fixpoint times (n : nat) (a : ascii) : string := match n with O => "" | S n => String a (times n a) end.

Definition sample_handover (phase successor : string) : dockerHandover :=
  MkDockerHandover (times 32 "0") phase 1 0 "up" "up-next-00000000" "up-retired-00000000" (times 64 "c") ("sha256:" +:+ times 64 "1") "4.0.0" successor
    ("sha256:" +:+ times 64 "2") (DockerImageRepository +:+ ":4.1.0") "4.1.0" (times 64 "a") (times 64 "f") "t1" "" "".

Definition sample_prepared : dockerHandover := sample_handover handoverPrepared "".
Definition sample_created : dockerHandover := sample_handover handoverCreated (times 64 "d").
Definition sample_committed : dockerHandover := sample_handover handoverCommitted (times 64 "d").
Definition sample_aborted : dockerHandover := withEnd "no proof by the deadline" 600 (withPhase handoverAborted sample_created).

Lemma sample_written : written [sample_committed; sample_created; sample_prepared] /\ written [sample_aborted; sample_created; sample_prepared].
Proof.
  assert (written [sample_created; sample_prepared]) as Hw.
  { apply (written_cons _ _ 0); [|vm_compute; reflexivity]. apply (written_cons _ _ 0); [apply written_nil|vm_compute; reflexivity]. }
  split; (apply (written_cons _ _ 0); [exact Hw|vm_compute; reflexivity]).
Qed.

Lemma handover_attempts_bounded_witness :
  failures (times 64 "c") ("sha256:" +:+ times 64 "2") [sample_aborted; sample_created; sample_prepared] = 1 /\
  0 ≤ failures (times 64 "c") ("sha256:" +:+ times 64 "2") [sample_aborted; sample_created; sample_prepared] ≤ 3.
Proof. split; [vm_compute; reflexivity|]. apply handover_attempts_bounded. exact (proj2 sample_written). Defined.

Lemma handover_moves_forward_witness :
  sameHandover sample_prepared sample_committed /\ (length [sample_committed; sample_created] ≤ 3)%nat.
Proof.
  destruct (handover_moves_forward [sample_committed; sample_created] sample_prepared []) as (Hall & Hlen & _).
  - exact (proj1 sample_written).
  - repeat constructor; vm_compute; reflexivity.
  - split; [|exact Hlen]. apply (Hall sample_committed). by left.
Defined.
