(* ===== verification/Crash.v ===== *)
(** * Programs that can be killed

    A process over a state it shares with the next process: it ends with a value, or
    it is killed and leaves the state where it was.  The logic says what it leaves in
    either case. *)
From S2P Require Import Prelude.

(** [None] is a process that was killed. *)
Definition crashM (S A : Type) : Type := S -> option A * S.

#[global] Instance crashM_ret {S} : MRet (crashM S) := fun A a s => (Some a, s).
#[global] Instance crashM_bind {S} : MBind (crashM S) := fun A B f m s =>
  match m s with (Some a, s') => f a s' | (None, s') => (None, s') end.

Definition killed {S A} : crashM S A := fun s => (None, s).

(** How an atomic write of a file ends: it left the file alone, it replaced it but
    did not confirm that it lasts, or both. *)
Inductive fileWrite := WriteRefused | WriteUnsynced | WriteDone.

Section logic.
Context {S : Type}.
Implicit Types (s : S) (I K P : S -> Prop).

(** What must hold of [s] for [m] to end in [Q] or be killed in [K]. *)
Definition wp {A} (K : S -> Prop) (m : crashM S A) (Q : A -> S -> Prop) s : Prop :=
  match m s with (Some a, s') => Q a s' | (None, s') => K s' end.

Lemma wp_bind {A B} K (m : crashM S A) (f : A -> crashM S B) Q s : wp K m (fun a => wp K (f a) Q) s -> wp K (m ≫= f) Q s.
Proof. unfold wp, mbind, crashM_bind. by destruct (m s) as [[a|] s1]. Qed.

Lemma wp_mono {A} K (m : crashM S A) (Q Q' : A -> _ -> Prop) s : wp K m Q s -> (forall a s', Q a s' -> Q' a s') -> wp K m Q' s.
Proof. unfold wp. intros Hm HQ. destruct (m s) as [[a|] s1]; [by apply HQ|done]. Qed.

(** From [P], [m] ends in [Q] or is killed in [K]. *)
Definition runs {A} (K P : S -> Prop) (m : crashM S A) (Q : A -> S -> Prop) : Prop :=
  forall s, P s -> match m s with (Some a, s') => Q a s' | (None, s') => K s' end.

Lemma ends_ret {A} K P (a : A) (Q : A -> _ -> Prop) : (forall s, P s -> Q a s) -> runs K P (mret a) Q.
Proof. intros HQ s Hs. by apply HQ. Qed.

Lemma runs_killed {A} (K P : S -> Prop) (Q : A -> _ -> Prop) : (forall s, P s -> K s) -> runs K P killed Q.
Proof. intros HK s Hs. by apply HK. Qed.

Lemma ends_bind {A B} K P R (Q : B -> _ -> Prop) (m : crashM S A) (f : A -> crashM S B) :
  runs K P m R -> (forall a, runs K (R a) (f a) Q) -> runs K P (m ≫= f) Q.
Proof.
  intros Hm Hf s Hs. specialize (Hm s Hs). unfold mbind, crashM_bind. destruct (m s) as [[a|] s1]; [by apply Hf|done].
Qed.

Lemma runs_conseq {A} K P P' (Q Q' : A -> _ -> Prop) (m : crashM S A) :
  runs K P m Q -> (forall s, P' s -> P s) -> (forall a s, Q a s -> Q' a s) -> runs K P' m Q'.
Proof. intros Hm HP HQ s Hs. specialize (Hm s (HP s Hs)). destruct (m s) as [[a|] s1]; [by apply HQ|done]. Qed.

Lemma runs_pre {A} K P P' (Q : A -> _ -> Prop) (m : crashM S A) : runs K P m Q -> (forall s, P' s -> P s) -> runs K P' m Q.
Proof. intros Hm HP. eapply runs_conseq; eauto. Qed.

(** A fact about the state before that the program's guards need. *)
Lemma runs_fact {A} (F : Prop) K P (Q : A -> _ -> Prop) (m : crashM S A) : (F -> runs K P m Q) -> (forall s, P s -> F) -> runs K P m Q.
Proof. intros Hm HF s Hs. by apply Hm; [apply (HF s)|]. Qed.

Lemma runs_exists {A B} K (P : B -> S -> Prop) (Q : A -> _ -> Prop) (m : crashM S A) : (forall b, runs K (P b) m Q) -> runs K (fun s => exists b, P b s) m Q.
Proof. intros Hm s [b Hb]. by apply (Hm b). Qed.

Lemma runs_pure {A} (F : Prop) K P (Q : A -> _ -> Prop) (m : crashM S A) : (F -> runs K P m Q) -> runs K (fun s => F /\ P s) m Q.
Proof. intros Hm s [HF Hs]. by apply (Hm HF). Qed.

(** ** Programs that keep an invariant *)

Definition keeps {A} (I : S -> Prop) (m : crashM S A) : Prop := runs I I m (fun _ => I).

Lemma keeps_ret {A} I (a : A) : keeps I (mret a).
Proof. by apply ends_ret. Qed.
Lemma keeps_killed {A} I : keeps I (killed (A := A)).
Proof. by apply runs_killed. Qed.
Lemma keeps_bind {A B} I (m : crashM S A) (f : A -> crashM S B) : keeps I m -> (forall a, keeps I (f a)) -> keeps I (m ≫= f).
Proof. intros Hm Hf. by eapply ends_bind. Qed.

Lemma keeps_snd {A} I (m : crashM S A) s : keeps I m -> I s -> I (m s).2.
Proof. intros Hm Hs. specialize (Hm s Hs). by destruct (m s) as [[]]. Qed.

Lemma keeps_runs {A} I (m : crashM S A) : keeps I m -> runs (fun _ => True) I m (fun _ => I).
Proof. intros Hm s Hs. specialize (Hm s Hs). by destruct (m s) as [[]]. Qed.

(** What the value of a program that ends satisfies. *)
Definition returns {A} (m : crashM S A) (F : A -> Prop) : Prop := forall s a s', m s = (Some a, s') -> F a.

Lemma returns_ret {A} (a : A) (F : A -> Prop) : F a -> returns (mret a) F.
Proof. by intros Ha s b s' [= <- _]. Qed.
Lemma returns_bind {A B} (m : crashM S A) (f : A -> crashM S B) G F : returns m G -> (forall a, G a -> returns (f a) F) -> returns (m ≫= f) F.
Proof.
  intros Hm Hf s b s' Hr. unfold mbind, crashM_bind in Hr. destruct (m s) as [[a|] s1] eqn:Hms; [|done]. eapply Hf; [|exact Hr]. by eapply Hm.
Qed.
Lemma returns_any {A} (m : crashM S A) : returns m (fun _ => True).
Proof. done. Qed.
Lemma returns_after {A B} (m : crashM S A) (f : A -> crashM S B) F : (forall a, returns (f a) F) -> returns (m ≫= f) F.
Proof. intros Hf. eapply returns_bind; [apply returns_any|]. intros a _. apply Hf. Qed.

Lemma keeps_returns {A} I (m : crashM S A) F : keeps I m -> returns m F -> runs (fun _ => True) I m (fun a s => I s /\ F a).
Proof. intros Hm HF s Hs. specialize (Hm s Hs). destruct (m s) as [[a|] s'] eqn:Hms; [|done]. split; [done|]. by eapply HF. Qed.

End logic.

Create HintDb crash.
#[global] Hint Resolve keeps_ret keeps_killed : crash.

(** Along the binds, matches and conditionals of a program that keeps an
    invariant. *)
Ltac walk :=
  repeat first
    [ progress auto with crash
    | (apply keeps_bind; [|intros ?])
    | match goal with |- keeps _ (match ?x with _ => _ end) => destruct x end ].
