(* ===== verification/UpgradeDocs.v ===== *)
(** * Upgrade documents ([internal/upgrade/types.go], [client.go])

    The request the agent leaves for its updater, the receipt the updater answers
    with, the proof of readiness, and the agent's side of them: the authorization a
    request carries, what a receipt means, and when readiness is recorded. *)
From S2P Require Import Prelude GoStrings ReleaseId Protocol Store HandoverJournal Worker.

(** ** Data *)

Record Args := MkArgs { ArgVersion : string; ExpectedVersion : string }.

#[global] Instance Args_eq_dec : EqDecision Args.
Proof. solve_decision. Defined.

Record Request := MkRequest { RqTask : Task; RqArgs : Args; BootID : string; AuthorizedUntilBoottimeNS : Z }.

Record UpgradeResult := MkUpgradeResult { UrVersion : string; PreviousVersion : string; UrBinarySHA256 : string; Restarted : bool }.

Record Receipt := MkReceipt {
  RcRequest : Request; RcPhase : string; RcResult : option UpgradeResult; RcErrorCode : string; RcError : string; ActivationNonce : string
}.

Record Ready := MkReady { RyTaskID : string; RyInputSHA256 : string; RyVersion : string; RyBinarySHA256 : string; RyNonce : string; RyPID : Z }.

Record dockerTransaction := MkDockerTransaction {
  OldContainerID : string; OldImage : string; BackupName : string; NewContainerID : string; NewImageID : string; NewImage : string
}.

#[global] Instance Request_eq_dec : EqDecision Request.
Proof. solve_decision. Defined.
#[global] Instance UpgradeResult_eq_dec : EqDecision UpgradeResult.
Proof. solve_decision. Defined.
#[global] Instance Receipt_eq_dec : EqDecision Receipt.
Proof. solve_decision. Defined.

(** What [ReadDocument] finds: nothing, a document, or something it refuses. *)
Inductive docRead (A : Type) := DocAbsent | DocIs (a : A) | DocBroken.
Arguments DocAbsent {A}.
Arguments DocIs {A} a.
Arguments DocBroken {A}.

(** The protocol module and [DecodeStrict] of a request. *)
Class UpgradeProtocol := {
  TaskKindAgentUpgradeV1 : string;
  DecodeAgentUpgradeArgs : string -> option Args;
  DecodeRequest : string -> option Request
}.

(** ** Shared checks *)

Definition sameTask (a b : Task) : bool :=
  bool_decide (TID a = TID b /\ TKind a = TKind b /\ TInputSHA256 a = TInputSHA256 b /\ TNotAfterMS a = TNotAfterMS b /\ TArgs a = TArgs b).

Definition dockerReceiptTerminal (phase : string) : bool := bool_decide (phase ∈ ["succeeded"; "failed"; "indeterminate"]).

Section documents.
Context `{Protocol} `{UpgradeProtocol}.

Definition ParseArgs (task : Task) : res string Args :=
  if decide (TKind task <> TaskKindAgentUpgradeV1 \/ TNotAfterMS task ≤ 0 \/ ValidateTasks [task] = false)
  then Err "upgrade requires a valid identity-bound task and start deadline" else
  match DecodeAgentUpgradeArgs (TArgs task) with
  | None => Err "upgrade arguments"
  | Some args =>
      if negb (ValidVersion (ArgVersion args)) then Err "upgrade requires an exact release to install" else
      if decide (ExpectedVersion args = "") then Err "upgrade requires the version the agent is expected to be on" else
      if decide (ExpectedVersion args = ArgVersion args) then Err "upgrade requires a target other than the version the agent is on" else Ok args
  end.

(** ** The agent's client *)

Record clientOptions := MkClientOptions { clVersion : string; clHasClock : bool }.

Definition nsPerMS : Z := 1000000.
Definition tenMinutesMS : Z := 600000.

(** The request [Execute] writes: [available] is the readiness check, [boot] the
    boot clock sampled first, [bounds] the task clock sampled second. *)
Definition newRequest (c : clientOptions) (available : option string) (boot : option (string * Z)) (bounds : option TaskTimeBounds) (task : Task)
  : res callError Request :=
  let refused text := Err (MkCallError None text false) in
  match available with
  | Some text => Err (MkCallError (Some ("agent_upgrade_helper_unavailable", false)) text false)
  | None =>
      match ParseArgs task with
      | Err e => refused e
      | Ok args =>
          if decide (clVersion c <> ExpectedVersion args) then refused "current agent release changed; refresh before requesting another upgrade" else
          if negb (clHasClock c) then refused "upgrade start clock is unavailable" else
          match boot, bounds with
          | None, _ => refused "boot clock"
          | _, None => refused "task clock"
          | Some (bootID, elapsed), Some b =>
              if negb (ValidateBounds b) then refused "task clock bounds" else
              let remaining := wrap64 (TNotAfterMS task - UpperMS b) in
              if decide (remaining ≤ 0 \/ tenMinutesMS < remaining) then refused "upgrade start authorization is expired or exceeds the ten-minute limit" else
              if decide (elapsed < 0 \/ max_int64 - remaining * nsPerMS < elapsed) then refused "upgrade elapsed authorization overflow" else
              Ok (MkRequest task args bootID (wrap64 (elapsed + remaining * nsPerMS)))
          end
      end
  end.

Definition indeterminateError (text : string) : callError := MkCallError (Some ("agent_upgrade_indeterminate", true)) text false.

(** [utf8.RuneStart]. *)
Definition runeStart (byte : nat) : bool := negb (bool_decide (128 ≤ byte < 192)%nat).

Fixpoint backToRune (message : string) (cut : nat) : nat :=
  match cut with
  | O => O
  | S below => if runeStart (byte_at message cut) then cut else backToRune message below
  end.

Definition maxHelperReasonBytes : Z := MaxTaskErrorBytes / 2.

(** [toPrint] maps what [unicode.IsPrint] refuses to a space. *)
Definition printableText (toPrint : string -> string) (value : string) : string :=
  TrimSpace (toPrint (ToValidUTF8 value (bytes_of [239; 191; 189]%nat))).

Definition helperReason (toPrint : string -> string) (sentence : string) (receipt : Receipt) : string :=
  let message := foldl (fun message part => let part := printableText toPrint part in if decide (part = "") then message else message +:+ ": " +:+ part)
    sentence [RcErrorCode receipt; RcError receipt] in
  let mark := "... (truncated)" in
  if decide (len message ≤ maxHelperReasonBytes) then message else
  take_str (backToRune message (Z.to_nat (maxHelperReasonBytes - len mark))) message +:+ mark.

(** One look of [wait] at the receipt: an outcome, or keep waiting.  [digest] is
    the installed binary's. *)
Definition waitLook (c : clientOptions) (toPrint : string -> string) (digest : option string) (task : Task) (read : docRead Receipt)
  : option (res callError UpgradeResult) :=
  match read with
  | DocBroken => Some (Err (indeterminateError "upgrade receipt cannot be validated"))
  | DocAbsent => None
  | DocIs receipt =>
      if negb (sameTask (RqTask (RcRequest receipt)) task) then Some (Err (indeterminateError "upgrade receipt does not match the immutable task identity")) else
      if decide (RcPhase receipt = "succeeded") then
        let args := match ParseArgs task with Ok a => a | Err _ => MkArgs "" "" end in
        match RcResult receipt with
        | None => Some (Err (indeterminateError "upgrade receipt has invalid activation evidence"))
        | Some r =>
            if decide (UrVersion r <> ArgVersion args \/ PreviousVersion r <> ExpectedVersion args \/ Restarted r = false \/ validSHA256 (UrBinarySHA256 r) = false)
            then Some (Err (indeterminateError "upgrade receipt has invalid activation evidence")) else
            if decide (clVersion c <> ArgVersion args) then Some (Err (indeterminateError "success receipt was not recovered by the target agent release")) else
            if decide (digest <> Some (UrBinarySHA256 r)) then Some (Err (indeterminateError "installed target binary no longer matches the activation receipt")) else
            Some (Ok r)
        end
      else if decide (RcPhase receipt = "failed") then
        Some (Err (MkCallError (Some ("agent_upgrade_failed", false)) (helperReason toPrint "agent upgrade failed; previous release retained or restored" receipt) false))
      else if decide (RcPhase receipt = "indeterminate") then
        Some (Err (indeterminateError (helperReason toPrint "upgrade outcome requires manual inspection" receipt)))
      else if decide (RcPhase receipt ∈ ["prepared"; "activating"; "activated"; "rolling_back"]) then None
      else Some (Err (indeterminateError "unknown upgrade receipt phase"))
  end.

(** [RecordReady] for one running task: [Ok None] skips it.  [converged] is
    [ConfirmConverged], [None] when there is none. *)
Definition readyFor (c : clientOptions) (converged : option bool) (digest : option string) (pid : Z) (task : TaskExecution) (read : docRead Receipt)
  : res string (option Ready) :=
  if decide (XKind task <> TaskKindAgentUpgradeV1) then Ok None else
  match read with
  | DocAbsent => Ok None
  | DocBroken => Err "receipt"
  | DocIs receipt =>
      if decide (RcPhase receipt <> "activated" \/ ArgVersion (RqArgs (RcRequest receipt)) <> clVersion c) then Ok None else
      let wire := MkTask (XID task) (XKind task) (XArgs task) (XInputSHA256 task) (XNotAfterMS task) in
      if negb (sameTask (RqTask (RcRequest receipt)) wire) then Err "readiness upgrade identity mismatch" else
      match converged, digest with
      | None, _ => Err "upgrade requires explicit core convergence evidence"
      | Some false, _ => Err "core has not converged"
      | Some true, None => Err "invalid upgrade binary"
      | Some true, Some digest =>
          if decide (String.length (ActivationNonce receipt) <> 32%nat) then Err "upgrade activation nonce is absent" else
          Ok (Some (MkReady (XID task) (XInputSHA256 task) (clVersion c) digest (ActivationNonce receipt) pid))
      end
  end.

(** ** The updater's checks *)

(** [authorized] at a sample of the boot clock. *)
Definition authorized (boot : option (string * Z)) (request : Request) : bool :=
  match boot with
  | None => false
  | Some (bootID, elapsed) =>
      bool_decide (bootID = BootID request) && bool_decide (0 ≤ elapsed) && bool_decide (elapsed < AuthorizedUntilBoottimeNS request) &&
      bool_decide (wrap64 (AuthorizedUntilBoottimeNS request - elapsed) ≤ tenMinutesMS * nsPerMS)
  end.

(** [shortTaskID]: a rune outside ASCII is dropped, as its bytes are. *)
Definition shortTaskID (value : string) : string :=
  let kept := String.string_of_list_ascii (filter (fun a => nameByte a = true) (String.list_ascii_of_string value)) in
  let kept := take_str 20 kept in
  if decide (kept = "") then "task" else kept.

(** [waitReady]: the readiness document answers this receipt. *)
Definition readyMatches (receipt : Receipt) (ready : Ready) : bool :=
  let task := RqTask (RcRequest receipt) in
  bool_decide (RyTaskID ready = TID task /\ RyInputSHA256 ready = TInputSHA256 task /\ RyVersion ready = ArgVersion (RqArgs (RcRequest receipt)) /\
    RyNonce ready = ActivationNonce receipt /\ 0 < RyPID ready) && validSHA256 (RyBinarySHA256 ready).

(** ** The two sides together *)

(** C25. No upgrade starts late.  Whatever moment the updater accepts a request the agent
    wrote, on a boot clock that has run since the agent's sample as long as real
    time has, real time has not passed the task's deadline, and the boot is the same
    one. *)
Theorem upgrade_never_starts_late c available bootID elapsed bounds task request boot' elapsed' real real' :
  newRequest c available (Some (bootID, elapsed)) (Some bounds) task = Ok request ->
  authorized (Some (boot', elapsed')) request = true ->
  TNotAfterMS task ≤ max_int64 -> UpperMS bounds ≤ max_int64 ->
  real ≤ UpperMS bounds * nsPerMS -> real' - real ≤ elapsed' - elapsed ->
  real' < TNotAfterMS task * nsPerMS /\ boot' = bootID /\ RqTask request = task.
Proof.
  unfold newRequest, authorized. intros Hn Ha Hna Hu Hr He. destruct available; [done|]. destruct (ParseArgs task) as [args|] eqn:Hp; [|done].
  repeat (case_decide; [done|]). destruct (clHasClock c); [|done]. cbn [negb] in Hn. destruct (ValidateBounds bounds) eqn:Hv; [|done]. cbn [negb] in Hn.
  assert (0 < TNotAfterMS task) as Hpos by (unfold ParseArgs in Hp; destruct (decide _) as [|Hk] in Hp; [done|lia]).
  assert (0 < UpperMS bounds) as Hub by (unfold ValidateBounds in Hv; apply negb_true_iff, bool_decide_eq_false in Hv; lia).
  rewrite (wrap64_id (TNotAfterMS task - _)) in Hn by (unfold in_int64, min_int64, max_int64 in *; lia). repeat (case_decide; [done|]). injection Hn as <-. cbn [BootID AuthorizedUntilBoottimeNS RqTask] in *.
  unfold nsPerMS, tenMinutesMS in *. rewrite wrap64_id in Ha by (unfold in_int64, min_int64, max_int64 in *; lia). rewrite !andb_true_iff, !bool_decide_eq_true in Ha.
  destruct Ha as [[[-> Hpos'] Hlt'] _]. split_and!; [|done..]. lia.
Qed.

End documents.

Module authorization_example.
Import Protocol.sample.

#[export] Instance upgrade_sample : UpgradeProtocol := {|
  TaskKindAgentUpgradeV1 := "agent.upgrade.v1";
  DecodeAgentUpgradeArgs _ := Some (MkArgs "4.1.0" "4.0.0");
  DecodeRequest _ := None
|}.

Definition one_task : Task := MkTask "t1" "agent.upgrade.v1" "{}" "" 60000.

(** At 20 s of a deadline of 60 s: authorized for 40 s, and accepted 30 s later. *)
Lemma upgrade_never_starts_late_witness :
  50 * 1000000000 < TNotAfterMS one_task * nsPerMS.
Proof.
  apply (upgrade_never_starts_late (MkClientOptions "4.0.0" true) None "boot" 7000000000 (MkTaskTimeBounds 19000 20000) one_task
    (MkRequest one_task (MkArgs "4.1.0" "4.0.0") "boot" 47000000000) "boot" 37000000000 (20 * 1000000000) (50 * 1000000000)).
  - vm_compute. reflexivity.
  - vm_compute. reflexivity.
  - vm_compute. congruence.
  - vm_compute. congruence.
  - vm_compute. congruence.
  - vm_compute. congruence.
Defined.

End authorization_example.
