(* ===== verification/UpdaterEngine.v ===== *)
(** * The updater's engine ([internal/upgrade/docker_engine.go],
      [docker_updater_identity.go], [docker_self.go])

    What an updater reads of containers, how it recognises another updater and
    itself, and the one way its handover changes a container.  The Docker engine,
    the clock and the disk are a class over any state; a call that has no answer is
    a process that was killed in it. *)
From S2P Require Import Prelude Crash GoStrings ReleaseId Catalog CatalogReview HandoverJournal UpgradeDocs.

(** ** Data *)

Record dockerMount := MkDockerMount { MoType : string; MoName : string; MoSource : string; MoDestination : string; MoRW : bool }.

(** [cStartedAt] is [None] for the zero time. *)
Record dockerContainer := MkDockerContainer {
  cID : string; cImage : string; cName : string; cRestartCount : Z; cConfig : string; cHostConfig : string; cMounts : list dockerMount;
  cRunning : bool; cPaused : bool; cRestarting : bool; cStartedAt : option Z
}.

Record dockerConfig := MkDockerConfig { dcImage : string; dcHostname : string; dcCmd : list string; dcEnv : list string; dcLabels : gmap string string }.
Record dockerHostConfig := MkDockerHostConfig { dhNetworkMode : string; dhPrivileged : bool; dhReadonlyRootfs : bool }.
Record dockerImage := MkDockerImage { diID : string; diRepoTags : list string; diArchitecture : string; diOS : string; diLabels : gmap string string }.

Inductive dockerError := DockerNotFound | DockerStatus (code : Z) | DockerUnavailable | DockerInvalidResponse | DockerCancelled.

#[global] Instance dockerError_eq_dec : EqDecision dockerError.
Proof. solve_decision. Defined.

Definition dockerTransient (err : dockerError) : bool :=
  match err with
  | DockerUnavailable | DockerInvalidResponse => true
  | DockerStatus code => bool_decide (code = 409 \/ 500 ≤ code)
  | _ => false
  end.

(** [json.Unmarshal] of a container's raw parts: its configuration, its host
    configuration, either as raw fields, a string; [json.Marshal] of raw fields and
    [json.Compact]. *)
Class DockerJSON := {
  decodeConfig : string -> option dockerConfig;
  decodeHostConfig : string -> option dockerHostConfig;
  decodeFields : string -> option (gmap string string);
  decodeText : string -> option string;
  encodeFields : gmap string string -> option string;
  compactJSON : string -> option string
}.

(** ** Recognition *)

Definition dockerHelperCommand : string := "--run-docker-upgrade-helper".
Definition dockerTargetContainerEnv : string := "PSP_NODE_UPGRADE_TARGET_CONTAINER".
Definition dockerTargetAgentIDEnv : string := "PSP_NODE_UPGRADE_TARGET_AGENT_ID".
Definition DockerControlDir : string := "/run/passwall-node-upgrades".
Definition dockerSocket : string := "/var/run/docker.sock".

(** Durations in nanoseconds; [hoArch] is [runtime.GOARCH]. *)
Record helperOptions := MkHelperOptions { hoTargetName : string; hoAgentID : string; hoVersion : string; hoFollowOptOut : bool; hoSchema : Z; hoArch : string;
  hoStabilityWindow : Z; hoReclaimMinAge : Z; hoHeartbeatStale : Z; hoFinishRetry : Z; hoFollowSettle : Z; hoFollowInterval : Z; hoEvidenceScanCap : Z }.

Definition officialNodeImage (reference : string) : bool :=
  HasPrefix reference (DockerImageRepository +:+ ":") || HasPrefix reference (DockerImageRepository +:+ "@").

Fixpoint envValue (values : list string) (key : string) : option string :=
  match values with
  | [] => None
  | value :: rest => match CutPrefix value (key +:+ "=") with Some found => Some found | None => envValue rest key end
  end.

Definition containsEnv (values : list string) (key expected : string) : bool := bool_decide (envValue values key = Some expected).

Definition within (inner outer : string) : bool :=
  bool_decide (inner = outer) || bool_decide (outer = "/") || HasPrefix inner (outer +:+ "/").

Definition pathsOverlap (a b : string) : bool :=
  if decide (a = "" \/ b = "") then false else within (Clean a) (Clean b) || within (Clean b) (Clean a).

(** The source of the agent's control directory; the last mount wins. *)
Definition agentControl (agent : dockerContainer) : string :=
  foldl (fun acc m => if decide (MoDestination m = DockerControlDir) then MoSource m else acc) "" (cMounts agent).

(** One mount of the candidate: whether the socket and the control directory have
    been seen, or what is shared. *)
Definition mountStep (agent : dockerContainer) (control : string) (s : bool * bool) (m : dockerMount) : res string (bool * bool) :=
  let '(socket, ctl) := s in
  let s' :=
    if decide (MoDestination m = dockerSocket) then (bool_decide (MoType m = "bind"), ctl) else
    if decide (MoDestination m = DockerControlDir) then
      (socket, bool_decide (MoType m = "bind" \/ MoType m = "volume") && MoRW m && bool_decide (MoSource m = control))
    else s in
  if existsb (fun theirs => bool_decide (MoDestination theirs <> DockerControlDir) && pathsOverlap (MoSource m) (MoSource theirs)) (cMounts agent)
  then Err "it shares the agent's mount" else Ok s'.

Section identity.
Context `{DockerJSON} (options : helperOptions).

(** [None]: the container is an updater of this agent. *)
Definition isUpdaterContainer (container agent : dockerContainer) : option string :=
  match decodeConfig (cConfig container), decodeHostConfig (cHostConfig container) with
  | Some config, Some host =>
      if decide (cID container = "" \/ cID container = cID agent \/ cName container = "/" +:+ hoTargetName options) then Some "it is the agent" else
      if decide (dcCmd config <> [dockerHelperCommand]) then Some "it does not run the updater command" else
      if negb (containsEnv (dcEnv config) dockerTargetContainerEnv (hoTargetName options)) || negb (containsEnv (dcEnv config) dockerTargetAgentIDEnv (hoAgentID options))
      then Some "it does not name this agent" else
      if dhPrivileged host || bool_decide (dhNetworkMode host = "host") then Some "it is privileged or on the host network" else
      if negb (officialNodeImage (dcImage config)) then Some "it does not run the official image" else
      if decide (agentControl agent = "") then Some "the agent has no control directory to compare with" else
      match res_foldl (mountStep agent (agentControl agent)) (false, false) (cMounts container) with
      | Err e => Some e
      | Ok (socket, control) =>
          if negb socket then Some "it does not hold the Docker socket" else
          if negb control then Some "it does not bind this agent's control directory, writable" else None
      end
  | _, _ => Some "its metadata is invalid"
  end.

(** The predecessor as its successor's create clones it; [None] is an error. *)
Definition successorSource (self : dockerContainer) : option dockerContainer :=
  config ← decodeFields (cConfig self);
  match config !! "Hostname" ≫= decodeText with
  | None => Some self
  | Some hostname =>
      if decide (len (cID self) < 12 \/ hostname <> take_str 12 (cID self)) then Some self else
      encoded ← encodeFields (delete "Hostname" config);
      Some (MkDockerContainer (cID self) (cImage self) (cName self) (cRestartCount self) encoded (cHostConfig self) (cMounts self)
              (cRunning self) (cPaused self) (cRestarting self) (cStartedAt self))
  end.

(** [mountFault = ""]. *)
Definition mountPersists (mounts : list dockerMount) (destination : string) : bool :=
  existsb (fun m => bool_decide (MoDestination m = destination) && bool_decide (MoType m = "volume" \/ MoType m = "bind") && MoRW m) mounts.

(** An absent label compares as the empty text. *)
Definition labelsMatch (labels : gmap string string) (want : list (string * string)) : bool :=
  forallb (fun '(key, expected) => bool_decide (default "" (labels !! key) = expected)) want.

Definition DockerDataDir : string := "/var/lib/passwall-node".
Definition DockerLabelPrefix : string := "io.kazuhahub.passwall-node.".
Definition imageVersionLabel : string := "org.opencontainers.image.version".
Definition contractLabels (version : string) : list (string * string) :=
  [(imageVersionLabel, version); (DockerLabelPrefix +:+ "state-schema", FormatInt (hoSchema options)); (DockerLabelPrefix +:+ "upgrade-contract", "1")].

(** [None]: the agent is an installation this updater may replace. *)
Definition validateContainer (container : dockerContainer) (expectedVersion : string) : option string :=
  match decodeConfig (cConfig container), decodeHostConfig (cHostConfig container) with
  | Some config, Some host =>
      if decide (len (cID container) < 12) then Some "managed Docker container metadata is invalid" else
      if dhPrivileged host || negb (dhReadonlyRootfs host) || negb (bool_decide (dhNetworkMode host = "host"))
      then Some "managed Docker container security profile differs from the supported installation" else
      if negb (labelsMatch (dcLabels config)
           ([(DockerLabelPrefix +:+ "managed", "true"); (DockerLabelPrefix +:+ "role", "agent"); (DockerLabelPrefix +:+ "agent-id", hoAgentID options)]
            ++ contractLabels expectedVersion))
      then Some "managed Docker container labels do not bind the expected agent and contract" else
      if negb (officialNodeImage (dcImage config)) || negb (containsEnv (dcEnv config) "PSP_NODE_AGENT_ID" (hoAgentID options)) ||
         negb (containsEnv (dcEnv config) "PSP_NODE_DOCKER_REMOTE_UPGRADE" "true")
      then Some "managed Docker container environment is not upgrade-enabled" else
      if existsb (fun m => bool_decide (MoDestination m = dockerSocket)) (cMounts container)
      then Some "network-facing node container must not receive the Docker socket" else
      if negb (mountPersists (cMounts container) DockerDataDir) || negb (mountPersists (cMounts container) DockerControlDir)
      then Some "managed Docker data and upgrade-control mounts are missing or not persistent" else None
  | _, _ => Some "managed Docker container metadata is invalid"
  end.

Definition validateImage (image : dockerImage) (version : string) : option string :=
  if bool_decide (len (diID image) < 12) || negb (bool_decide (diOS image = "linux")) ||
     negb (bool_decide (diArchitecture image = "amd64" \/ diArchitecture image = "arm64"))
  then Some "target image platform identity is invalid" else
  if negb (labelsMatch (diLabels image) (contractLabels version)) then Some "target image does not declare the same state schema and upgrade contract" else None.

Definition dockerSecuritySubset : list string :=
  ["Privileged"; "NetworkMode"; "CapAdd"; "CapDrop"; "SecurityOpt"; "ReadonlyRootfs"; "PidMode"; "IpcMode"; "UTSMode"; "UsernsMode"; "CgroupnsMode";
   "Devices"; "DeviceRequests"; "Binds"; "Mounts"; "Tmpfs"; "GroupAdd"; "RestartPolicy"].

(** An absent field is the empty text. *)
Definition sameJSON (a b : string) : bool :=
  match compactJSON a, compactJSON b with
  | Some ca, Some cb => bool_decide (ca = cb)
  | _, _ => bool_decide (a = b)
  end.

Definition sameField (fa fb : gmap string string) (key : string) : bool :=
  Bool.eqb (bool_decide (is_Some (fa !! key))) (bool_decide (is_Some (fb !! key))) && sameJSON (default "" (fa !! key)) (default "" (fb !! key)).

Definition securitySubsetEqual (a b : dockerContainer) : option string :=
  match decodeFields (cHostConfig a), decodeFields (cHostConfig b) with
  | Some fa, Some fb => head (filter (fun key => sameField fa fb key = false) dockerSecuritySubset)
  | _, _ => Some "HostConfig is invalid"
  end.

(** [sameMounts]: equal as sets of type, source, destination and mode. *)
Definition mountKey (m : dockerMount) : string * string * string * bool := (MoType m, MoSource m, MoDestination m, MoRW m).
Definition sameMounts (a b : list dockerMount) : bool :=
  bool_decide ((list_to_set (mountKey <$> a) : gset (string * string * string * bool)) = list_to_set (mountKey <$> b)).

End identity.

(** ** The world of one process *)

Inductive journalFile := FileAbsent | FileDoc (h : dockerHandover) | FileInvalid.

(** The journal a reader sees; an unreadable one counts as none. *)
Definition journalOf (f : journalFile) : option dockerHandover := match f with FileDoc h => Some h | _ => None end.

Inductive engineOp := OpCreate (name : string) | OpStart (id : string) | OpStop (id : string) | OpRename (id name : string) | OpRemove (id : string) (force : bool).

(** How the lock file answers: it works, the filesystem has no locks, it cannot be
    opened, or it failed. *)
Inductive lockAnswer := LockWorks | LockUnsupported | LockUnopened | LockFailed.

(** What [Lstat] says of the updater directory. *)
Inductive dirLook := DirAbsent | DirUnread | DirForeign | DirReal.

(** What reading the journal file meets besides its contents. *)
Inductive journalRead := ReadFine | ReadDenied | ReadBroken.

(** What a waiting loop wakes up for. *)
Inductive waitEvent := WaitStopped | WaitDeadline | WaitPoll | WaitCheck | WaitLook.

(** [RequestBytes] is the request file: [None] cannot be read, [Some None] is
    absent.  [FileCheck] says whether a file check of this name passes.  The proof
    is a file another process writes, and so is the agent's readiness; [BadRead] says
    that this read of a document fails; [ReceiptNames] lists at most so many entries
    of [receipts/]; [HeartbeatAge] is [None] when the file cannot
    be read, in nanoseconds otherwise. *)
Class UpdaterHost (E : Type) := {
  InspectContainer : string -> E -> option (res dockerError dockerContainer) * E;
  InspectImage : string -> E -> option (res dockerError dockerImage) * E;
  CreateReplacement : string -> dockerContainer -> dockerImage -> string -> E -> option (res dockerError string) * E;
  StartContainer : string -> E -> option (option dockerError) * E;
  StopContainer : string -> E -> option (option dockerError) * E;
  RenameContainer : string -> string -> E -> option (option dockerError) * E;
  RemoveContainer : string -> bool -> E -> option (option dockerError) * E;
  UnixNow : E -> option Z * E;
  MonotonicNow : E -> option Z * E;
  Cancelled : E -> option bool * E;
  NextWait : E -> option waitEvent * E;
  RandomID : E -> option (option string) * E;
  RequestBytes : E -> option (option (option string)) * E;
  FileCheck : string -> E -> option bool * E;
  OwnBinaryDigest : E -> option (option string) * E;
  WriteOutcome : E -> option fileWrite * E;
  JournalRead : E -> option journalRead * E;
  PullImage : string -> E -> option (option dockerError) * E;
  BootClock : E -> option (option (string * Z)) * E;
  ReadReady : string -> E -> option (docRead Ready) * E;
  BadRead : E -> option bool * E;
  ReceiptNames : Z -> E -> option (option (list string)) * E;
  ControlPrepared : E -> option bool * E;
  ReadProof : E -> option (option dockerStandbyProof) * E;
  HeartbeatAge : E -> option (option Z) * E;
  Mountinfo : E -> option (option string) * E;
  Hostname : E -> option (option string) * E;
  LockAnswer : E -> option lockAnswer * E;
  UpdaterDirLook : E -> option dirLook * E
}.

Section world.
Context {E : Type} `{UpdaterHost E}.

(** The host; the disk all updaters share: the journal, the lock and the process
    that holds it, the receipts and transactions by task; what handovers asked the
    engine to change and the journals written. *)
Record ustate := MkUState {
  uHost : E;
  uJournal : journalFile;
  uLock : option nat;
  uReceipts : gmap string (docRead Receipt);
  uTransactions : gmap string (docRead dockerTransaction);
  uOps : list engineOp;
  uWrites : list dockerHandover
}.

Notation upM := (crashM ustate).

Definition setHost (e : E) (s : ustate) : ustate := MkUState e (uJournal s) (uLock s) (uReceipts s) (uTransactions s) (uOps s) (uWrites s).
Definition ask {A} (call : E -> option A * E) : upM A := fun s => let '(a, e) := call (uHost s) in (a, setHost e s).
Definition note (op : engineOp) : upM unit := fun s => (Some tt, MkUState (uHost s) (uJournal s) (uLock s) (uReceipts s) (uTransactions s) (uOps s ++ [op]) (uWrites s)).

(** *** The journal *)

Inductive loadError := LoadDenied | LoadInvalid.

Definition journalRecord (f : journalFile) : res loadError (option dockerHandover) :=
  match f with
  | FileAbsent => Ok None
  | FileInvalid => Err LoadInvalid
  | FileDoc h => match validateHandover h with None => Ok (Some h) | Some _ => Err LoadInvalid end
  end.

Definition readJournal : upM (res loadError (option dockerHandover)) := fun s => (Some (journalRecord (uJournal s)), s).

(** A read that fails in any way but a denial counts as an invalid journal. *)
Definition loadHandover : upM (res loadError (option dockerHandover)) :=
  answer ← ask JournalRead;
  match answer with
  | ReadDenied => mret (Err LoadDenied)
  | ReadBroken => mret (Err LoadInvalid)
  | ReadFine => readJournal
  end.

Definition putJournal (f : journalFile) : upM unit := fun s => (Some tt, MkUState (uHost s) f (uLock s) (uReceipts s) (uTransactions s) (uOps s) (uWrites s)).
Definition putHandover (h : dockerHandover) : upM unit := fun s => (Some tt, MkUState (uHost s) (FileDoc h) (uLock s) (uReceipts s) (uTransactions s) (uOps s) (h :: uWrites s)).

Definition storeHandover (h : dockerHandover) : upM (option string) :=
  outcome ← ask WriteOutcome;
  match outcome with
  | WriteRefused => mret (Some "journal write")
  | WriteUnsynced => _ ← putHandover h; mret (Some "journal sync")
  | WriteDone => _ ← putHandover h; mret None
  end.

Definition writeHandover (next : dockerHandover) : upM (option string) :=
  match validateHandover next with
  | Some e => mret (Some e)
  | None =>
      loaded ← loadHandover;
      match loaded with
      | Err _ => mret (Some "handover journal is unreadable")
      | Ok prev =>
          now ← ask UnixNow;
          match mayWrite prev next now with
          | Some e => mret (Some e)
          | None => storeHandover next
          end
      end
  end.

(** [readHandover]; the primary moves an invalid journal aside. *)
Definition readHandover (quarantine : bool) : upM (res loadError (option dockerHandover)) :=
  loaded ← loadHandover;
  match loaded with
  | Err LoadInvalid =>
      if quarantine then
        _ ← ask UnixNow;
        outcome ← ask WriteOutcome;
        match outcome with
        | WriteRefused => mret (Err LoadDenied)
        | _ => _ ← putJournal FileAbsent; mret (Ok None)
        end
      else mret (Ok None)
  | other => mret other
  end.

(** *** The lock *)

Definition putLock (holder : option nat) : upM unit := fun s => (Some tt, MkUState (uHost s) (uJournal s) holder (uReceipts s) (uTransactions s) (uOps s) (uWrites s)).

Inductive lockTry := LockTaken | LockHeld | LockError (answer : lockAnswer).

(** [flock] gives the lock to one process at a time. *)
Definition flock (pid : nat) : upM lockTry := fun s =>
  if decide (uLock s = None \/ uLock s = Some pid) then (Some LockTaken, (putLock (Some pid) s).2) else (Some LockHeld, s).

Definition tryLock (pid : nat) : upM lockTry :=
  answer ← ask LockAnswer;
  match answer with LockWorks => flock pid | other => mret (LockError other) end.

(** [c.locked]. *)
Definition locked (pid : nat) : upM bool := fun s => (Some (bool_decide (uLock s = Some pid)), s).

Definition unlock (pid : nat) : upM unit := fun s => if decide (uLock s = Some pid) then putLock None s else (Some tt, s).

(** *** The guard *)

Context `{DockerJSON} (options : helperOptions).

Inductive mutation :=
| MutCreate (name : string) (source : dockerContainer) (image : dockerImage) (reference : string)
| MutStart (target : string)
| MutStop (target : string)
| MutRename (target name : string)
| MutRemove (target : string) (force : bool).

Inductive mutateError := MutateRefused | MutateEngine (e : dockerError).

Definition mutationTarget (m : mutation) : string :=
  match m with MutCreate name _ _ _ => name | MutStart t | MutStop t | MutRename t _ | MutRemove t _ => t end.

Definition engineAnswer (answer : option dockerError) : res mutateError string :=
  match answer with None => Ok "" | Some e => Err (MutateEngine e) end.

Definition mutateUpdater (m : mutation) : upM (res mutateError string) :=
  inspected ← ask (InspectContainer (hoTargetName options));
  match inspected with
  | Err _ => mret (Err MutateRefused)
  | Ok agent =>
      if decide (mutationTarget m = hoTargetName options \/ mutationTarget m = cID agent) then mret (Err MutateRefused) else
      match m with
      | MutCreate name source image reference =>
          if negb (dockerObjectName name) || negb (officialNodeImage reference) then mret (Err MutateRefused) else
          if decide (isUpdaterContainer options source agent <> None) then mret (Err MutateRefused) else
          _ ← note (OpCreate name);
          created ← ask (CreateReplacement name source image reference);
          mret (match created with Ok id => Ok id | Err e => Err (MutateEngine e) end)
      | MutRename _ newName =>
          if negb (dockerObjectName newName) || bool_decide (newName = hoTargetName options) then mret (Err MutateRefused) else
          current ← ask (InspectContainer (mutationTarget m));
          match current with
          | Err e => mret (Err (MutateEngine e))
          | Ok current =>
              if decide (isUpdaterContainer options current agent <> None) then mret (Err MutateRefused) else
              _ ← note (OpRename (cID current) newName);
              answer ← ask (RenameContainer (cID current) newName); mret (engineAnswer answer)
          end
      | MutStart _ | MutStop _ | MutRemove _ _ =>
          current ← ask (InspectContainer (mutationTarget m));
          match current with
          | Err e => mret (Err (MutateEngine e))
          | Ok current =>
              if decide (isUpdaterContainer options current agent <> None) then mret (Err MutateRefused) else
              match m with
              | MutStart _ => _ ← note (OpStart (cID current)); answer ← ask (StartContainer (cID current)); mret (engineAnswer answer)
              | MutStop _ => _ ← note (OpStop (cID current)); answer ← ask (StopContainer (cID current)); mret (engineAnswer answer)
              | MutRemove _ force => _ ← note (OpRemove (cID current) force); answer ← ask (RemoveContainer (cID current) force); mret (engineAnswer answer)
              | _ => mret (Err MutateRefused)
              end
          end
      end
  end.

(** [removeUpdater]: gone is success. *)
Definition removeUpdater (target : string) : upM (option mutateError) :=
  _ ← mutateUpdater (MutStop target);
  removed ← mutateUpdater (MutRemove target false);
  removed ← (match removed with
             | Err (MutateEngine (DockerStatus code)) => if decide (code = 409) then mutateUpdater (MutRemove target true) else mret removed
             | _ => mret removed
             end);
  mret (match removed with
        | Ok _ => None
        | Err (MutateEngine DockerNotFound) => None
        | Err e => Some e
        end).

End world.

(** Programs of an updater on a host [E]. *)
Notation upM E := (crashM (ustate (E := E))).
