(* ===== verification/AgentSwap.v ===== *)
(** * The agent swap ([internal/upgrade/docker_helper.go])

    What the acting updater does with a request: it validates it, replaces the
    agent's container by one on the requested image, waits for its proof of
    readiness, and otherwise puts the previous container back.  A function that was
    killed leaves the disk and the engine where it was killed. *)
From S2P Require Import Prelude Crash GoStrings Protocol ReleaseId HandoverJournal UpgradeDocs UpdaterEngine.

Section swap.
Context {E : Type} `{UpdaterHost E} `{DockerJSON} `{Protocol} `{UpgradeProtocol} (options : helperOptions).
Implicit Types (s : ustate (E := E)).

(** ** Documents *)

Definition lookReceipt (task : string) : upM E (docRead Receipt) := fun s => (Some (default DocAbsent (uReceipts s !! task)), s).
Definition lookTransaction (task : string) : upM E (docRead dockerTransaction) := fun s => (Some (default DocAbsent (uTransactions s !! task)), s).

Definition readReceipt (task : string) : upM E (docRead Receipt) :=
  bad ← ask BadRead; if bad : bool then mret DocBroken else lookReceipt task.
Definition readTransaction (task : string) : upM E (docRead dockerTransaction) :=
  bad ← ask BadRead; if bad : bool then mret DocBroken else lookTransaction task.

Definition putReceipt (task : string) (receipt : Receipt) : upM E unit := fun s =>
  (Some tt, MkUState (uHost s) (uJournal s) (uLock s) (<[task := DocIs receipt]> (uReceipts s)) (uTransactions s) (uOps s) (uWrites s)).
Definition putTransaction (task : string) (transaction : dockerTransaction) : upM E unit := fun s =>
  (Some tt, MkUState (uHost s) (uJournal s) (uLock s) (uReceipts s) (<[task := DocIs transaction]> (uTransactions s)) (uOps s) (uWrites s)).

(** [atomicHelperDocument]: an error after the rename has replaced the file. *)
Definition atomically (put : upM E unit) : upM E (option string) :=
  outcome ← ask WriteOutcome;
  match outcome with
  | WriteRefused => mret (Some "document write")
  | WriteUnsynced => _ ← put; mret (Some "document sync")
  | WriteDone => _ ← put; mret None
  end.

Definition receiptTask (receipt : Receipt) : string := TID (RqTask (RcRequest receipt)).

Definition writeReceipt (receipt : Receipt) : upM E (option string) :=
  previous ← readReceipt (receiptTask receipt);
  match previous with
  | DocIs previous =>
      if negb (sameTask (RqTask (RcRequest previous)) (RqTask (RcRequest receipt))) then mret (Some "immutable Docker upgrade identity changed") else
      if dockerReceiptTerminal (RcPhase previous) then mret (Some "terminal Docker upgrade receipt cannot be overwritten") else
      atomically (putReceipt (receiptTask receipt) receipt)
  | DocBroken => mret (Some "existing Docker upgrade receipt is unsafe")
  | DocAbsent => atomically (putReceipt (receiptTask receipt) receipt)
  end.

Definition writeTransaction (task : string) (transaction : dockerTransaction) : upM E (option string) :=
  atomically (putTransaction task transaction).

(** The error of a write, or [otherwise]. *)
Definition orElse (err : option string) (otherwise : string) : option string := match err with Some e => Some e | None => Some otherwise end.

Definition inPhase (phase : string) (receipt : Receipt) : Receipt :=
  MkReceipt (RcRequest receipt) phase (RcResult receipt) (RcErrorCode receipt) (RcError receipt) (ActivationNonce receipt).

Definition fail (request : Request) (code cause : string) : upM E (option string) :=
  err ← writeReceipt (MkReceipt request "failed" None code cause ""); mret (orElse err cause).

Definition indeterminate (receipt : Receipt) (message : string) : upM E (option string) :=
  err ← writeReceipt (MkReceipt (RcRequest receipt) "indeterminate" None "agent_upgrade_indeterminate" message (ActivationNonce receipt));
  mret (orElse err message).

Definition restored (receipt : Receipt) (message : string) : upM E (option string) :=
  let text := message +:+ "; previous managed container restored" in
  err ← writeReceipt (MkReceipt (RcRequest receipt) "failed" None "agent_upgrade_failed" text (ActivationNonce receipt));
  mret (orElse err text).

(** ** Rollback *)

Definition target : string := hoTargetName options.

Definition inspectOnceMore (name : string) : upM E (res dockerError dockerContainer) :=
  first ← ask (InspectContainer name);
  match first with
  | Err e => if dockerTransient e then ask (InspectContainer name) else mret first
  | Ok _ => mret first
  end.

(** [true]: the name is free of the replacement. *)
Definition removeReplacement (current : dockerContainer) (transaction : dockerTransaction) : upM E bool :=
  removed ← ask (RemoveContainer target false);
  match removed with
  | None | Some DockerNotFound => mret true
  | Some (DockerStatus code) =>
      if decide (code <> 409 \/ (NewContainerID transaction <> "" /\ cID current <> NewContainerID transaction)) then mret false else
      forced ← ask (RemoveContainer target true);
      mret (match forced with None | Some DockerNotFound => true | _ => false end)
  | Some _ => mret false
  end.

Definition keepServing (name message what : string) : upM E string :=
  started ← ask (StartContainer name);
  mret (match started with
        | Some _ => message +:+ "; " +:+ what +:+ " could not be started either, so nothing is serving"
        | None => message +:+ "; " +:+ what +:+ " was started so the node keeps serving"
        end).

Definition unserved (receipt : Receipt) (name message what : string) : upM E (option string) :=
  text ← keepServing name message what; indeterminate receipt text.

(** From the retained container on: nothing of this transaction holds the target
    name, or its holder could not be read. *)
Definition restoreRetained (receipt : Receipt) (transaction : dockerTransaction) (message : string) : upM E (option string) :=
  backup ← inspectOnceMore (BackupName transaction);
  match backup with
  | Err _ => unserved receipt target "retained Docker rollback container is unavailable" "whatever holds the target name"
  | Ok backup =>
      if decide (cID backup <> OldContainerID transaction)
      then unserved receipt target "retained Docker rollback container is unavailable" "whatever holds the target name" else
      renamed ← ask (RenameContainer (BackupName transaction) target);
      match renamed with
      | Some _ =>
          let text := "retained Docker container could not be restored" in
          holder ← inspectOnceMore target;
          match holder with
          | Err DockerNotFound =>
              unserved receipt (BackupName transaction) text
                ("the retained previous container, still named " +:+ BackupName transaction +:+ " (rename it back to " +:+ target +:+
                 " before running docker compose up, or two agents will share one identity)")
          | _ => unserved receipt target text "whatever holds the target name"
          end
      | None =>
          started ← ask (StartContainer target);
          match started with
          | Some _ => indeterminate receipt "retained Docker container was restored but could not be started"
          | None => restored receipt message
          end
      end
  end.

Definition rollback (receipt : Receipt) (transaction : dockerTransaction) (message : string) : upM E (option string) :=
  let receipt := inPhase "rolling_back" receipt in
  err ← writeReceipt receipt;
  match err with
  | Some e => mret (Some e)
  | None =>
      current ← ask (InspectContainer target);
      match current with
      | Err _ => restoreRetained receipt transaction message
      | Ok current =>
          if decide (cID current = OldContainerID transaction) then
            started ← (if cRunning current then mret None else ask (StartContainer target));
            match started with
            | Some _ => indeterminate receipt "retained Docker container could not be restarted"
            | None => restored receipt message
            end
          else
            _ ← ask (StopContainer target);
            removed ← removeReplacement current transaction;
            if removed : bool then restoreRetained receipt transaction message else
            unserved receipt target "replacement Docker container could not be removed during rollback"
              (if decide (cID current = NewContainerID transaction) then "the replacement container this upgrade created" else "whatever holds the target name")
      end
  end.

Definition recover (receipt : Receipt) : upM E (option string) :=
  read ← readTransaction (receiptTask receipt);
  match read with
  | DocIs transaction =>
      if bool_decide (len (OldContainerID transaction) < 12) || negb (dockerObjectName (BackupName transaction)) ||
         negb (officialNodeImage (OldImage transaction)) || negb (officialNodeImage (NewImage transaction))
      then indeterminate receipt "interrupted Docker upgrade has no valid rollback identity"
      else rollback receipt transaction "Docker upgrade helper was interrupted"
  | _ => indeterminate receipt "interrupted Docker upgrade has no valid rollback identity"
  end.

(** ** Forward *)

(** The replacement proved itself ([Some]), or the wait ended. *)
Fixpoint waitReady (fuel : nat) (receipt : Receipt) (transaction : dockerTransaction) : upM E (option Ready) :=
  match fuel with
  | O => killed
  | S fuel =>
      let again :=
        event ← ask NextWait;
        match event with
        | WaitStopped | WaitDeadline => mret None
        | _ => waitReady fuel receipt transaction
        end in
      read ← ask (ReadReady (receiptTask receipt));
      match read with
      | DocIs ready =>
          if readyMatches receipt ready then
            container ← ask (InspectContainer target);
            match container with
            | Ok c =>
                if decide (cID c = NewContainerID transaction /\ cImage c = NewImageID transaction /\ cRunning c = true) then mret (Some ready) else again
            | Err _ => again
            end
          else again
      | _ => again
      end
  end.

Definition isAuthorized (request : Request) : upM E bool :=
  boot ← ask BootClock; mret (authorized boot request).

Definition withNew (id : string) (t : dockerTransaction) : dockerTransaction :=
  MkDockerTransaction (OldContainerID t) (OldImage t) (BackupName t) id (NewImageID t) (NewImage t).

Definition expired : string := "same-boot Docker upgrade authorization is expired or invalid".

(** From the start of the replacement on. *)
Definition activate (fuel : nat) (receipt : Receipt) (transaction : dockerTransaction) : upM E (option string) :=
  started ← ask (StartContainer target);
  match started with
  | Some _ => rollback receipt transaction "replacement Docker container could not be started"
  | None =>
      ready ← waitReady fuel receipt transaction;
      match ready with
      | None => rollback receipt transaction "replacement Docker container did not provide authenticated readiness"
      | Some ready =>
          let result := MkUpgradeResult (ArgVersion (RqArgs (RcRequest receipt))) (ExpectedVersion (RqArgs (RcRequest receipt))) (RyBinarySHA256 ready) true in
          err ← writeReceipt (MkReceipt (RcRequest receipt) "succeeded" (Some result) "" "" (ActivationNonce receipt));
          match err with
          | Some e => mret (Some e)
          | None => _ ← ask (RemoveContainer (BackupName transaction) false); mret None
          end
      end
  end.

(** From the stop of the agent to its replacement. *)
Definition replace (fuel : nat) (receipt : Receipt) (transaction : dockerTransaction) (old : dockerContainer) (image : dockerImage) : upM E (option string) :=
  stopped ← ask (StopContainer target);
  match stopped with
  | Some _ => rollback receipt transaction "managed Docker container stop could not be confirmed"
  | None =>
      renamed ← ask (RenameContainer target (BackupName transaction));
      match renamed with
      | Some _ => rollback receipt transaction "managed Docker container retention could not be confirmed"
      | None =>
          created ← ask (CreateReplacement target old image (NewImage transaction));
          match created with
          | Err _ => rollback receipt transaction "replacement Docker container could not be created"
          | Ok id =>
              let transaction := withNew id transaction in
              err ← writeTransaction (receiptTask receipt) transaction;
              match err with
              | Some _ => rollback receipt transaction "replacement Docker identity could not be persisted"
              | None =>
                  nonce ← ask RandomID;
                  match nonce with
                  | None => rollback receipt transaction "fresh activation identity could not be generated"
                  | Some nonce =>
                      let receipt := MkReceipt (RcRequest receipt) "activated" (RcResult receipt) "" "" nonce in
                      err ← writeReceipt receipt;
                      match err with
                      | Some _ => rollback receipt transaction "activation receipt could not be persisted"
                      | None => activate fuel receipt transaction
                      end
                  end
              end
          end
      end
  end.

(** A validated request: [old] is the agent on an image named [oldImage]. *)
Definition swap (fuel : nat) (request : Request) (old : dockerContainer) (oldImage : string) (image : dockerImage) (newReference : string) : upM E (option string) :=
  let task := TID (RqTask request) in
  let args := RqArgs request in
  let transaction := MkDockerTransaction (cID old) oldImage (target +:+ "-upgrade-" +:+ shortTaskID task) "" (diID image) newReference in
  let receipt := MkReceipt request "prepared" (Some (MkUpgradeResult (ArgVersion args) (ExpectedVersion args) "" false)) "" "" "" in
  err ← writeTransaction task transaction;
  match err with
  | Some _ => fail request "agent_upgrade_backup_failed" "Docker rollback identity could not be persisted"
  | None =>
      err ← writeReceipt receipt;
      match err with
      | Some e => mret (Some e)
      | None =>
          err ← writeReceipt (inPhase "activating" receipt);
          match err with
          | Some e => mret (Some e)
          | None =>
              allowed ← isAuthorized request;
              if negb allowed then fail request "agent_upgrade_authorization_expired" expired else
              replace fuel (inPhase "activating" receipt) transaction old image
          end
      end
  end.

(** A request without a receipt. *)
Definition begin (fuel : nat) (request : Request) : upM E (option string) :=
  let args := RqArgs request in
  allowed ← isAuthorized request;
  if negb allowed then fail request "agent_upgrade_authorization_expired" expired else
  old ← ask (InspectContainer target);
  match old with
  | Err _ => fail request "agent_upgrade_installation_invalid" "managed Docker container is unavailable"
  | Ok old =>
      match validateContainer options old (ExpectedVersion args), decodeConfig (cConfig old) with
      | Some e, _ => fail request "agent_upgrade_installation_invalid" e
      | None, None => fail request "agent_upgrade_installation_invalid" "managed Docker container metadata is invalid"
      | None, Some config =>
          if negb (cRunning old) then fail request "agent_upgrade_installation_invalid" "managed Docker container is not running" else
          let newReference := DockerImageRepository +:+ ":" +:+ ArgVersion args in
          pulled ← ask (PullImage newReference);
          match pulled with
          | Some _ => fail request "agent_upgrade_download_failed" "Docker image pull failed"
          | None =>
              image ← ask (InspectImage newReference);
              match image with
              | Err _ => fail request "agent_upgrade_schema_unsupported" "target image identity or upgrade contract is incompatible"
              | Ok image =>
                  match validateImage options image (ArgVersion args) with
                  | Some e => fail request "agent_upgrade_schema_unsupported" ("target image identity or upgrade contract is incompatible: " +:+ e)
                  | None =>
                      allowed ← isAuthorized request;
                      if negb allowed then fail request "agent_upgrade_authorization_expired" expired else
                      swap fuel request old (dcImage config) image newReference
                  end
              end
          end
      end
  end.

(** [None] is no error; the text of an error stands for it. *)
Definition processRequest (fuel : nat) (request : Request) : upM E (option string) :=
  if negb (bool_decide (ParseArgs (RqTask request) = Ok (RqArgs request))) then mret (Some "Docker upgrade request identity is invalid") else
  prior ← readReceipt (TID (RqTask request));
  match prior with
  | DocBroken => mret (Some "Docker upgrade receipt cannot be validated")
  | DocAbsent => begin fuel request
  | DocIs prior =>
      if negb (sameTask (RqTask (RcRequest prior)) (RqTask request)) || negb (bool_decide (RqArgs (RcRequest prior) = RqArgs request))
      then mret (Some "Docker upgrade receipt identity conflicts") else
      if dockerReceiptTerminal (RcPhase prior) then mret None else
      if decide (RcPhase prior = "prepared") then fail request "agent_upgrade_interrupted" "Docker upgrade preparation was interrupted" else
      if decide (RcPhase prior ∈ ["activating"; "activated"; "rolling_back"]) then recover prior else
      mret (Some "Docker upgrade receipt phase is invalid")
  end.

Definition processCurrent (fuel : nat) : upM E (option string) :=
  bytes ← ask RequestBytes;
  match bytes with
  | None => mret (Some "request")
  | Some None => mret (Some "no request")
  | Some (Some data) =>
      match DecodeRequest data with
      | None => mret (Some "invalid upgrade document")
      | Some request => processRequest fuel request
      end
  end.

End swap.
