(* ===== verification/UpdaterLogic.v ===== *)
(** * Reasoning about an updater

    What an updater asks of its host changes only the host. *)
From S2P Require Import Prelude Crash GoStrings HandoverJournal UpgradeDocs UpdaterEngine.

Lemma keeps_ask {E A} `{UpdaterHost E} (I : ustate (E := E) -> Prop) (call : E -> option A * E) : (forall e s, I s -> I (setHost e s)) -> keeps I (ask call).
Proof. intros HI s Hs. unfold ask. destruct (call (uHost s)) as [[a|] e]; by apply HI. Qed.

