(* ===== verification/EngineLaws.v ===== *)
(** * The container engine

    What the updaters rely on of Docker: which container a name holds and what each
    call does to it. *)
From S2P Require Import Prelude Crash GoStrings HandoverJournal UpgradeDocs UpdaterEngine UpdaterLogic.

(** What a container was told last: started, so that the engine runs it and restarts
    it; stopped; or something the engine has not confirmed and may still be doing, so
    that it may run or not, now or later. *)
Inductive power := Started | Stopped | Unsettled.

#[global] Instance power_eq_dec : EqDecision power.
Proof. solve_decision. Defined.

(** The container a name holds: its ID and what it was told. *)
Definition holder : Type := option (string * power).
Definition turned (p : power) (h : holder) : holder := (fun '(id, _) => (id, p)) <$> h.
Definition mayServe (h : holder) : bool := match h with Some (_, p) => bool_decide (p <> Stopped) | None => false end.
Definition settled (h : holder) : Prop := forall id, h <> Some (id, Unsettled).

(** [p] was asked for: had at once, unsettled, or without effect. *)
Definition asked (p : power) (h h' : holder) : Prop := h' = h \/ h' = turned p h \/ h' = turned Unsettled h.
(** And confirmed: a request still under way may yet undo it. *)
Definition confirmed (p : power) (h h' : holder) : Prop := (h' = turned p h \/ h' = turned Unsettled h) /\ (settled h -> h' = turned p h).

(** A text that is no container ID, nor a prefix of one, is only ever a name. *)
Definition isName (n : string) : bool := negb (allBytes hexByte n).
Definition isID (n : string) : bool := lowerHex n 64.

(** A call that changes no container. *)
Definition quiet {E A} (held : E -> string -> holder) (call : E -> option A * E) : Prop := forall e m, held (call e).2 m = held e m.

(** [n], a name or a full ID, is not what [m] names. *)
Definition elsewhere (n m : string) (h : holder) : Prop := n <> m /\ (isName n = true \/ (isID n = true /\ forall on, h <> Some (n, on))).

(** What the engine does to containers.  A call that succeeds has had its effect.  A
    rename, a creation or a removal that fails or is interrupted has had it or never
    will; a start or a stop, which may take a grace period, may have it later. *)
Class EngineLaws (E : Type) `{UpdaterHost E} := {
  held : E -> string -> holder;
  inspect_quiet n : quiet held (InspectContainer n);
  inspect_found n e c : isName n = true -> (InspectContainer n e).1 = Some (Ok c) -> exists p, held e n = Some (cID c, p) /\ (cRunning c = true -> p <> Stopped);
  inspect_missing n e : isName n = true -> (InspectContainer n e).1 = Some (Err DockerNotFound) -> held e n = None;
  inspect_id n e c : (InspectContainer n e).1 = Some (Ok c) -> isID (cID c) = true;
  stop_others n e m : elsewhere n m (held e m) -> held (StopContainer n e).2 m = held e m;
  stop_effect n e : isName n = true -> asked Stopped (held e n) (held (StopContainer n e).2 n);
  stop_done n e : isName n = true -> (StopContainer n e).1 = Some None -> confirmed Stopped (held e n) (held (StopContainer n e).2 n);
  start_others n e m : elsewhere n m (held e m) -> held (StartContainer n e).2 m = held e m;
  start_effect n e : isName n = true -> asked Started (held e n) (held (StartContainer n e).2 n);
  start_done n e : isName n = true -> (StartContainer n e).1 = Some None -> confirmed Started (held e n) (held (StartContainer n e).2 n) /\ held e n <> None;
  rename_others n n' e m : elsewhere n m (held e m) -> n' <> m -> held (RenameContainer n n' e).2 m = held e m;
  rename_effect n n' e : isName n = true -> n <> n' ->
    (held (RenameContainer n n' e).2 n = held e n /\ held (RenameContainer n n' e).2 n' = held e n') \/
    (held e n' = None /\ held (RenameContainer n n' e).2 n' = held e n /\ held (RenameContainer n n' e).2 n = None);
  rename_done n n' e : isName n = true -> n <> n' -> (RenameContainer n n' e).1 = Some None ->
    held e n <> None /\ held e n' = None /\ held (RenameContainer n n' e).2 n' = held e n /\ held (RenameContainer n n' e).2 n = None;
  create_others n c i r e m : m <> n -> held (CreateReplacement n c i r e).2 m = held e m;
  create_effect n c i r e : held (CreateReplacement n c i r e).2 n = held e n \/
    (held e n = None /\ exists id, held (CreateReplacement n c i r e).2 n = Some (id, Stopped));
  create_done n c i r e id : (CreateReplacement n c i r e).1 = Some (Ok id) -> held e n = None /\ held (CreateReplacement n c i r e).2 n = Some (id, Stopped);
  create_fresh n c i r e id m p : (CreateReplacement n c i r e).1 = Some (Ok id) -> held e m <> Some (id, p);
  remove_others n f e m : elsewhere n m (held e m) -> held (RemoveContainer n f e).2 m = held e m;
  remove_effect n f e : isName n = true -> held (RemoveContainer n f e).2 n = held e n \/ held (RemoveContainer n f e).2 n = None;
  remove_done n f e : isName n = true -> (RemoveContainer n f e).1 = Some None \/ (RemoveContainer n f e).1 = Some (Some DockerNotFound) -> held (RemoveContainer n f e).2 n = None
}.

(** Everything else an updater asks its host leaves the containers alone. *)
Class HostLaws (E : Type) `{EngineLaws E} : Prop := {
  image_quiet r : quiet held (InspectImage r);
  pull_quiet r : quiet held (PullImage r);
  boot_quiet : quiet held BootClock;
  ready_quiet t : quiet held (ReadReady t);
  badread_quiet : quiet held BadRead;
  write_quiet : quiet held WriteOutcome;
  wait_quiet : quiet held NextWait;
  random_quiet : quiet held RandomID;
  unix_quiet : quiet held UnixNow;
  monotonic_quiet : quiet held MonotonicNow;
  cancelled_quiet : quiet held Cancelled;
  request_quiet : quiet held RequestBytes;
  filecheck_quiet n : quiet held (FileCheck n);
  digest_quiet : quiet held OwnBinaryDigest;
  journal_quiet : quiet held JournalRead;
  names_quiet n : quiet held (ReceiptNames n);
  control_quiet : quiet held ControlPrepared;
  proof_quiet : quiet held ReadProof;
  heartbeat_quiet : quiet held HeartbeatAge;
  mountinfo_quiet : quiet held Mountinfo;
  hostname_quiet : quiet held Hostname;
  lock_quiet : quiet held LockAnswer;
  dir_quiet : quiet held UpdaterDirLook
}.

#[global] Hint Resolve inspect_quiet image_quiet pull_quiet boot_quiet ready_quiet badread_quiet write_quiet wait_quiet random_quiet unix_quiet monotonic_quiet
  cancelled_quiet request_quiet filecheck_quiet digest_quiet journal_quiet names_quiet control_quiet proof_quiet heartbeat_quiet mountinfo_quiet hostname_quiet
  lock_quiet dir_quiet : crash.

Lemma confirmed_now p h : confirmed p h (turned p h).
Proof. split; [by left|done]. Qed.

Lemma allBytes_app p a b : allBytes p (a +:+ b) = allBytes p a && allBytes p b.
Proof. unfold allBytes. induction a as [|x a IH]; simpl; [done|]. by rewrite IH, andb_assoc. Qed.
