(* ===== verification/UpdaterSample.v ===== *)
(** * A host to evaluate the updaters on

    Containers by name in a map, a clock that stands still, files that can always be
    written: an instance of everything the updaters ask of their host. *)
From S2P Require Import Prelude Crash GoStrings Protocol ReleaseId HandoverJournal UpgradeDocs UpdaterEngine UpdaterLogic EngineLaws.

(** ** Texts *)

Definition agentID : string := times 64 "a".
Definition newID : string := times 64 "b".
Definition predecessorID : string := times 64 "c".
Definition successorID : string := times 64 "d".
Definition oldImageID : string := "sha256:" +:+ times 64 "1".
Definition newImageID : string := "sha256:" +:+ times 64 "2".

(** ** Documents *)

Definition agentLabels (version : string) : gmap string string :=
  list_to_map [(DockerLabelPrefix +:+ "managed", "true"); (DockerLabelPrefix +:+ "role", "agent"); (DockerLabelPrefix +:+ "agent-id", "n1");
    (imageVersionLabel, version); (DockerLabelPrefix +:+ "state-schema", "7"); (DockerLabelPrefix +:+ "upgrade-contract", "1")].

#[export] Instance sample_docker : DockerJSON := {|
  decodeConfig text :=
    if decide (text = "agent") then
      Some (MkDockerConfig (DockerImageRepository +:+ ":4.0.0") "" [] ["PSP_NODE_AGENT_ID=n1"; "PSP_NODE_DOCKER_REMOTE_UPGRADE=true"] (agentLabels "4.0.0"))
    else if decide (text = "updater") then
      Some (MkDockerConfig (DockerImageRepository +:+ ":4.0.0") "" [dockerHelperCommand]
        [dockerTargetContainerEnv +:+ "=node"; dockerTargetAgentIDEnv +:+ "=n1"] (agentLabels "4.0.0"))
    else None;
  decodeHostConfig text := Some (if decide (text = "agent") then MkDockerHostConfig "host" false true else MkDockerHostConfig "bridge" false true);
  decodeFields _ := Some ∅;
  decodeText text := Some text;
  encodeFields _ := Some "updater";
  compactJSON text := Some text
|}.

#[export] Instance sample_upgrade : UpgradeProtocol := {|
  TaskKindAgentUpgradeV1 := "agent.upgrade.v1";
  DecodeAgentUpgradeArgs _ := Some (MkArgs "4.1.0" "4.0.0");
  DecodeRequest _ := None
|}.

(** ** Containers *)

(** [shMe] is the container of the process that asks. *)
Record sampleHost := MkSampleHost { shNames : gmap string (string * power); shMe : string }.

Definition updaterMounts : list dockerMount := [MkDockerMount "bind" "" dockerSocket dockerSocket true; MkDockerMount "bind" "" "/srv/control" DockerControlDir true].
Definition agentMounts : list dockerMount := [MkDockerMount "volume" "data" "/srv/data" DockerDataDir true; MkDockerMount "bind" "" "/srv/control" DockerControlDir true].

Definition containerAt (name id : string) (p : power) : dockerContainer :=
  let on := bool_decide (p = Started) in
  let image := if decide (id = newID) then newImageID else oldImageID in
  if decide (name = "node") then MkDockerContainer id image ("/" +:+ name) 0 "agent" "agent" agentMounts on false false (Some 1)
  else MkDockerContainer id image ("/" +:+ name) 0 "updater" "updater" updaterMounts on false false (Some 1).

(** The name a reference stands for. *)
Definition named (e : sampleHost) (n : string) : option string :=
  if isName n then (if decide (shNames e !! n = None) then None else Some n)
  else fst <$> head (filter (fun '(_, (id, _)) => id = n) (map_to_list (shNames e))).

Lemma named_name e n m : isName n = true -> named e n = Some m -> m = n /\ shNames e !! n <> None.
Proof. unfold named. intros ->. case_decide; [done|]. by intros [= <-]. Qed.

Lemma named_id e n m : named e n = Some m -> isName n = true /\ m = n \/ exists on, shNames e !! m = Some (n, on).
Proof.
  destruct (isName n) eqn:Hn; [by intros [-> _]%named_name; [left|]|]. unfold named. rewrite Hn. intros Hm. right.
  destruct (filter _ _) as [|[k [id on]] l] eqn:Hf; [done|]. injection Hm as <-. assert ((k, (id, on)) ∈ filter (fun '(_, (id, _)) => id = n) (map_to_list (shNames e))) as Hin by (rewrite Hf; by left).
  apply list_elem_of_filter in Hin as [-> Hin]. exists on. by apply elem_of_map_to_list in Hin.
Qed.

Definition setNames (names : gmap string (string * power)) (e : sampleHost) : sampleHost := MkSampleHost names (shMe e).

Definition switch (p : power) (n : string) (e : sampleHost) : option (option dockerError) * sampleHost :=
  match named e n with
  | None => (Some (Some DockerNotFound), e)
  | Some m => (Some None, setNames (alter (fun '(id, _) => (id, p)) m (shNames e)) e)
  end.

Definition inspect (n : string) (e : sampleHost) : option (res dockerError dockerContainer) * sampleHost :=
  match named e n with
  | None => (Some (Err DockerNotFound), e)
  | Some m =>
      match shNames e !! m with
      | Some (id, on) => if isID id then (Some (Ok (containerAt m id on)), e) else (Some (Err DockerInvalidResponse), e)
      | None => (Some (Err DockerInvalidResponse), e)
      end
  end.

Definition rename (n n' : string) (e : sampleHost) : option (option dockerError) * sampleHost :=
  match named e n with
  | None => (Some (Some DockerNotFound), e)
  | Some m =>
      match shNames e !! m, shNames e !! n' with
      | Some h, None => (Some None, setNames (<[n' := h]> (delete m (shNames e))) e)
      | _, _ => (Some (Some (DockerStatus 409)), e)
      end
  end.

Definition create (n : string) (e : sampleHost) : option (res dockerError string) * sampleHost :=
  match shNames e !! n, filter (fun '(_, (id, _)) => id = newID) (map_to_list (shNames e)) with
  | Some _, _ | _, _ :: _ => (Some (Err (DockerStatus 409)), e)
  | None, [] => (Some (Ok newID), setNames (<[n := (newID, Stopped)]> (shNames e)) e)
  end.

Definition remove (n : string) (e : sampleHost) : option (option dockerError) * sampleHost :=
  match named e n with
  | None => (Some (Some DockerNotFound), e)
  | Some m => (Some None, setNames (delete m (shNames e)) e)
  end.

Definition say {A} (a : A) (e : sampleHost) : option A * sampleHost := (Some a, e).

Definition sampleNonce : string := times 32 "e".
Definition sampleDigest : string := times 64 "f".

#[export] Instance sample_host : UpdaterHost sampleHost := {|
  InspectContainer := inspect;
  InspectImage r := say (Ok (MkDockerImage newImageID [] "amd64" "linux" (agentLabels "4.1.0")));
  CreateReplacement n c i r := create n;
  StartContainer := switch Started;
  StopContainer := switch Stopped;
  RenameContainer := rename;
  RemoveContainer n force := remove n;
  UnixNow := say 1000;
  MonotonicNow := say 1000;
  Cancelled := say false;
  NextWait := say WaitPoll;
  RandomID := say (Some sampleNonce);
  RequestBytes := say (Some None);
  FileCheck n := say true;
  OwnBinaryDigest := say (Some sampleDigest);
  WriteOutcome := say WriteDone;
  JournalRead := say ReadFine;
  PullImage r := say None;
  BootClock := say (Some ("boot", 5));
  ReadReady t := say (DocIs (MkReady t "" "4.1.0" sampleDigest sampleNonce 1));
  BadRead := say false;
  ReceiptNames n := say (Some []);
  ControlPrepared := say true;
  ReadProof := say None;
  HeartbeatAge := say (Some 0);
  Mountinfo e := (Some (Some ("1 2 0:1 /docker/containers/" +:+ shMe e +:+ "/hostname /etc/hostname rw")), e);
  Hostname := say None;
  LockAnswer := say LockWorks;
  UpdaterDirLook := say DirReal
|}.

(** ** It obeys the laws *)

(** What a change of the container [n] stands for leaves alone. *)
Lemma named_elsewhere e n m k : named e n = Some k -> elsewhere n m (shNames e !! m) -> k <> m.
Proof.
  intros Hk [Hne Ho] ->. destruct (named_id _ _ _ Hk) as [[_ Heq]|[on Hon]]; [by subst|]. destruct Ho as [Hname|[_ Hid]]; [|by apply (Hid on)].
  destruct (named_name _ _ _ Hname Hk) as [-> _]. done.
Qed.

#[export] Instance sample_engine : EngineLaws sampleHost.
Proof.
  refine {| held e n := shNames e !! n |}; cbn.
  - intros n e m. unfold inspect. repeat case_match; done.
  - intros n e c Hn. unfold inspect. destruct (named e n) as [m|] eqn:Hm; [|done]. destruct (named_name _ _ _ Hn Hm) as [-> _]. destruct (shNames e !! n) as [[id on]|]; [|done].
    destruct (isID id); [|done]. cbn. intros [= <-]. exists on. unfold containerAt. split; [by case_decide|]. intros Hrun. assert (bool_decide (on = Started) = true) as ->%bool_decide_eq_true; [revert Hrun; by case_decide|done].
  - intros n e Hn. unfold inspect, named. rewrite Hn. case_decide; [done|]. repeat case_match; done.
  - intros n e c. unfold inspect. destruct (named e n) as [m|]; [|done]. destruct (shNames e !! m) as [[id on]|]; [|done]. destruct (isID id) eqn:Hid; [|done].
    cbn. intros [= <-]. unfold containerAt. by case_decide.
  - intros n e m He. unfold switch. destruct (named e n) as [k|] eqn:Hk; [|done]. cbn. rewrite lookup_alter_ne; [done|]. by eapply named_elsewhere.
  - intros n e Hn. unfold switch. destruct (named e n) as [k|] eqn:Hk; [|by left]. destruct (named_name _ _ _ Hn Hk) as [-> _]. cbn. right. left. by rewrite lookup_alter_eq.
  - intros n e Hn. unfold switch. destruct (named e n) as [k|] eqn:Hk; [|done]. destruct (named_name _ _ _ Hn Hk) as [-> _]. cbn. rewrite lookup_alter_eq. intros _. apply confirmed_now.
  - intros n e m He. unfold switch. destruct (named e n) as [k|] eqn:Hk; [|done]. cbn. rewrite lookup_alter_ne; [done|]. by eapply named_elsewhere.
  - intros n e Hn. unfold switch. destruct (named e n) as [k|] eqn:Hk; [|by left]. destruct (named_name _ _ _ Hn Hk) as [-> _]. cbn. right. left. by rewrite lookup_alter_eq.
  - intros n e Hn. unfold switch. destruct (named e n) as [k|] eqn:Hk; [|done]. destruct (named_name _ _ _ Hn Hk) as [-> Hne]. cbn. rewrite lookup_alter_eq. intros _. split; [apply confirmed_now|done].
  - intros n n' e m He Hne. unfold rename. destruct (named e n) as [k|] eqn:Hk; [|done]. pose proof (named_elsewhere _ _ _ _ Hk He) as Hkm.
    destruct (shNames e !! k), (shNames e !! n'); try done. cbn. rewrite lookup_insert_ne, lookup_delete_ne; done.
  - intros n n' e Hn Hne. unfold rename. destruct (named e n) as [k|] eqn:Hk; [|by left]. destruct (named_name _ _ _ Hn Hk) as [-> _].
    destruct (shNames e !! n) as [h|] eqn:Hh, (shNames e !! n') eqn:Hn'; try (left; cbn; by rewrite Hh, Hn'). right. cbn.
    rewrite lookup_insert_eq, lookup_insert_ne, lookup_delete_eq; done.
  - intros n n' e Hn Hne. unfold rename. destruct (named e n) as [k|] eqn:Hk; [|done]. destruct (named_name _ _ _ Hn Hk) as [-> Hnn].
    destruct (shNames e !! n) as [h|] eqn:Hh, (shNames e !! n') eqn:Hn'; try done. cbn. intros _. rewrite lookup_insert_eq, lookup_insert_ne, lookup_delete_eq; done.
  - intros n c i r e m Hm. unfold create. repeat case_match; try done. cbn. by rewrite lookup_insert_ne.
  - intros n c i r e. unfold create. destruct (shNames e !! n) eqn:Hn; [by left|]. case_match; [|by left]. right. cbn. rewrite lookup_insert_eq. eauto.
  - intros n c i r e id. unfold create. destruct (shNames e !! n) eqn:Hn; [done|]. case_match; [|done]. cbn. intros [= <-]. by rewrite lookup_insert_eq.
  - intros n c i r e id m p. unfold create. destruct (shNames e !! n) eqn:Hn; [done|]. case_match eqn:Hf; [|done]. cbn. intros [= <-] Hm.
    assert ((m, (newID, p)) ∈ ([] : list (string * (string * power)))) as []%not_elem_of_nil. rewrite <-Hf. apply list_elem_of_filter. split; [done|]. by apply elem_of_map_to_list.
  - intros n f e m He. unfold remove. destruct (named e n) as [k|] eqn:Hk; [|done]. cbn. rewrite lookup_delete_ne; [done|]. by eapply named_elsewhere.
  - intros n f e Hn. unfold remove. destruct (named e n) as [k|] eqn:Hk; [|by left]. destruct (named_name _ _ _ Hn Hk) as [-> _]. cbn. right. by rewrite lookup_delete_eq.
  - intros n f e Hn _. unfold remove. destruct (named e n) as [k|] eqn:Hk.
    + destruct (named_name _ _ _ Hn Hk) as [-> _]. cbn. by rewrite lookup_delete_eq.
    + unfold named in Hk. rewrite Hn in Hk. by case_decide.
Defined.

#[export] Instance sample_laws : HostLaws sampleHost.
Proof. split; done. Qed.

(** ** One installation *)

Definition sample_options : helperOptions := MkHelperOptions "node" "n1" "4.0.0" false 7 "amd64" 0 0 0 0 0 0 0.

(** The agent, and an updater with its successor. *)
Definition sample_names : gmap string (string * power) :=
  list_to_map [("node", (agentID, Started)); ("up", (predecessorID, Started)); ("up-next-00000000", (successorID, Started))].

Definition sample_task : Task := MkTask "t1" "agent.upgrade.v1" "{}" "" 2000.
Definition sample_request : Request := MkRequest sample_task (MkArgs "4.1.0" "4.0.0") "boot" 100.

Definition sample_world (journal : journalFile) (me : string) : ustate :=
  MkUState (MkSampleHost sample_names me) journal None ∅ ∅ [] [].
