(* ===== verification/SwapSafety.v ===== *)
(** * The agent swap is safe

    Over an engine that does what Docker documents, a swap and its rollback never
    have two agents, and what the receipt finally says is what runs, wherever the
    updater was killed and however often it started again. *)
From S2P Require Import Prelude Crash GoStrings Protocol ReleaseId HandoverJournal UpgradeDocs UpdaterEngine AgentSwap UpdaterLogic EngineLaws UpdaterSample.

Section safety.
Context {E : Type} `{UpdaterHost E} `{HE : !EngineLaws E} `{!HostLaws E} `{DockerJSON} `{Protocol} `{UpgradeProtocol} (options : helperOptions).
(** One upgrade task, and the agent's container before it. *)
Context (task old : string).
(** The agent's name is not a container ID or part of one. *)
Context (Hagent : isName (target options) = true).
Implicit Types (s : ustate (E := E)).

Notation agent := (target options).
Definition backupName : string := agent +:+ "-upgrade-" +:+ shortTaskID task.

Definition atTarget s : holder := held (uHost s) agent.
Definition atBackup s : holder := held (uHost s) backupName.
Definition receiptOf s : docRead Receipt := default DocAbsent (uReceipts s !! task).
Definition transactionOf s : docRead dockerTransaction := default DocAbsent (uTransactions s !! task).

(** ** The invariant *)

(** The retained container may serve only while nothing holds the agent's name: there
    are never two agents. *)
Definition oneAgent s : Prop := mayServe (atBackup s) = true -> atTarget s = None.

(** The transaction is about the agent that was there. *)
Definition retains (t : dockerTransaction) : Prop := OldContainerID t = old /\ BackupName t = backupName.

(** The failures after which a stop may still be under way: the one that began the
    swap was not confirmed, or its updater was killed. *)
Definition unconfirmed (message : string) : Prop :=
  message = "managed Docker container stop could not be confirmed" \/ message = "Docker upgrade helper was interrupted".

(** The previous container is back. *)
Definition isBack (error : string) (h : holder) : Prop :=
  h = Some (old, Started) \/ h = Some (old, Unsettled) /\ exists message, unconfirmed message /\ error = message +:+ "; previous managed container restored".

Definition outcome s : Prop :=
  match receiptOf s with
  | DocAbsent => atTarget s = Some (old, Started)
  | DocBroken => True
  | DocIs r =>
      receiptTask r = task /\
      if decide (RcPhase r = "prepared") then atTarget s = Some (old, Started) else
      if decide (RcPhase r = "failed") then isBack (RcError r) (atTarget s) else
      if decide (RcPhase r = "succeeded") then exists t, transactionOf s = DocIs t /\ atTarget s = Some (NewContainerID t, Started) else
      if decide (RcPhase r = "indeterminate") then True else
      match transactionOf s with DocIs t => retains t | _ => True end
  end.

(** What an upgrade is, at any moment. *)
Definition upgrade_ok s : Prop := oneAgent s /\ outcome s.

(** *** Its parts *)

(** States that differ only in what it does not look at. *)
Definition alike s s' : Prop :=
  atTarget s' = atTarget s /\ atBackup s' = atBackup s /\ receiptOf s' = receiptOf s /\ transactionOf s' = transactionOf s.

Lemma alike_ok s s' : alike s s' -> upgrade_ok s -> upgrade_ok s'.
Proof. unfold upgrade_ok, oneAgent, outcome. by intros (-> & -> & -> & ->). Qed.

Lemma alike_refl s : alike s s.
Proof. done. Qed.

Lemma alike_trans s1 s2 s3 : alike s1 s2 -> alike s2 s3 -> alike s1 s3.
Proof. unfold alike. intros (-> & -> & -> & ->) (-> & -> & -> & ->). done. Qed.

Notation WP := (wp upgrade_ok).

Lemma backup_ne : backupName <> agent.
Proof.
  unfold backupName. intros Heq%(f_equal String.length). rewrite !length_sapp in Heq. simpl in Heq. lia.
Qed.

Lemma backup_isName : isName backupName = true.
Proof. unfold isName, backupName. rewrite !allBytes_app. simpl. by rewrite andb_false_r. Qed.

Lemma target_elsewhere h : elsewhere agent backupName h.
Proof. split; [apply not_eq_sym, backup_ne|by left]. Qed.

Lemma backup_elsewhere h : elsewhere backupName agent h.
Proof. split; [apply backup_ne|left; apply backup_isName]. Qed.

Hint Resolve backup_ne not_eq_sym backup_isName target_elsewhere backup_elsewhere : crash.

(** ** Calls *)

Lemma wp_quiet {A} (call : E -> option A * E) Q s : quiet held call -> upgrade_ok s -> (forall a s', alike s s' -> Q a s') -> WP (ask call) Q s.
Proof.
  intros Hq Hok HQ. unfold wp, ask. pose proof (Hq (uHost s)) as Hh. destruct (call (uHost s)) as [[a|] e]; simpl in Hh.
  - apply HQ. split_and!; try done; apply Hh.
  - eapply alike_ok; [|done]. split_and!; try done; apply Hh.
Qed.

Lemma wp_inspect n Q s : isName n = true -> upgrade_ok s ->
  (forall r s', alike s s' ->
     (forall c, r = Ok c -> exists p, held (uHost s) n = Some (cID c, p) /\ (cRunning c = true -> p <> Stopped)) ->
     (r = Err DockerNotFound -> held (uHost s) n = None) -> Q r s') ->
  WP (ask (InspectContainer n)) Q s.
Proof.
  intros Hn Hok HQ. unfold wp, ask. pose proof (inspect_quiet n (uHost s)) as Hh. pose proof (fun c => inspect_found n (uHost s) c Hn) as Hf. pose proof (inspect_missing n (uHost s) Hn) as Hm.
  destruct (InspectContainer n (uHost s)) as [[a|] e]; simpl in Hh, Hf, Hm.
  - apply HQ; [split_and!; try done; apply Hh| |]; [intros c ->; by apply Hf|intros ->; by apply Hm].
  - eapply alike_ok; [|done]. split_and!; try done; apply Hh.
Qed.


Lemma wp_call {A} (call : E -> option A * E) Q s :
  (forall r e, call (uHost s) = (r, e) -> match r with Some a => Q a (setHost e s) | None => upgrade_ok (setHost e s) end) -> WP (ask call) Q s.
Proof. intros HQ. unfold wp, ask. destruct (call (uHost s)) as [[a|] e] eqn:Hc; apply (HQ _ _ eq_refl). Qed.

(** While the swap is under way, the receipt says so and the transaction can be
    rolled back. *)
Definition underWay s : Prop :=
  oneAgent s /\ (exists r, receiptOf s = DocIs r /\ receiptTask r = task /\ RcPhase r ∈ ["activating"; "activated"; "rolling_back"]) /\
  match transactionOf s with DocIs t => retains t | _ => True end.

Lemma underWay_ok s : underWay s -> upgrade_ok s.
Proof.
  intros (Ho & (r & Hr & Ht & Hp) & Hx). split; [done|]. unfold outcome. rewrite Hr. split; [done|].
  repeat (apply elem_of_cons in Hp as [Hp|Hp]); try (by apply not_elem_of_nil in Hp); by rewrite Hp.
Qed.

Lemma underWay_host e s : underWay s -> oneAgent (setHost e s) -> underWay (setHost e s).
Proof. intros (_ & Hr & Hx) Ho. by split_and!. Qed.

Lemma underWay_alike s s' : alike s s' -> underWay s -> underWay s'.
Proof. unfold underWay, oneAgent. by intros (-> & -> & -> & ->). Qed.

(** A call that may change only what the agent's name holds, to [effect]. *)
Lemma wp_target {A} (call : E -> option A * E) (effect : holder -> holder -> Prop) (done : A -> holder -> holder -> Prop) Q s :
  (forall e, held (call e).2 backupName = held e backupName) ->
  (forall e, effect (held e agent) (held (call e).2 agent)) ->
  (forall e a, (call e).1 = Some a -> done a (held e agent) (held (call e).2 agent)) ->
  (forall t, effect (atTarget s) t -> mayServe (atBackup s) = true -> t = None) ->
  underWay s ->
  (forall a s', underWay s' -> atBackup s' = atBackup s -> transactionOf s' = transactionOf s -> effect (atTarget s) (atTarget s') -> done a (atTarget s) (atTarget s') -> Q a s') ->
  WP (ask call) Q s.
Proof.
  intros Ho He Hd Hone Hu HQ. apply wp_call. intros r e Hc. specialize (Ho (uHost s)). specialize (He (uHost s)). specialize (Hd (uHost s)).
  rewrite Hc in Ho, He, Hd. simpl in Ho, He, Hd.
  assert (underWay (setHost e s)) as Hu'. { apply underWay_host; [done|]. intros Hs. apply Hone; [done|]. unfold atBackup in *. simpl in Hs. by rewrite Ho in Hs. }
  destruct r as [a|]; [|by apply underWay_ok]. apply HQ; try done. by apply Hd.
Qed.

Lemma wp_stop Q s : underWay s ->
  (forall r s', underWay s' -> atBackup s' = atBackup s -> asked Stopped (atTarget s) (atTarget s') -> (r = None -> confirmed Stopped (atTarget s) (atTarget s')) -> Q r s') ->
  WP (ask (StopContainer agent)) Q s.
Proof.
  intros Hu HQ. apply (wp_target _ (asked Stopped) (fun r h h' => r = None -> confirmed Stopped h h')); try done.
  - intros e. apply stop_others; auto with crash.
  - intros e. by apply stop_effect.
  - intros e a Ha ->. by apply stop_done.
  - intros t [-> | [-> | ->]] Hs; rewrite (proj1 Hu Hs); done.
  - intros a s' Hu' Hb Hx He Hd. by apply HQ.
Qed.

Lemma wp_start Q s : underWay s ->
  (forall r s', underWay s' -> atBackup s' = atBackup s -> transactionOf s' = transactionOf s -> asked Started (atTarget s) (atTarget s') ->
     (r = None -> confirmed Started (atTarget s) (atTarget s') /\ atTarget s <> None) -> Q r s') ->
  WP (ask (StartContainer agent)) Q s.
Proof.
  intros Hu HQ. apply (wp_target _ (asked Started) (fun r h h' => r = None -> confirmed Started h h' /\ h <> None)); try done.
  - intros e. apply start_others; auto with crash.
  - intros e. by apply start_effect.
  - intros e a Ha ->. by apply start_done.
  - intros t [-> | [-> | ->]] Hs; rewrite (proj1 Hu Hs); done.
Qed.

Lemma wp_remove force Q s : underWay s ->
  (forall r s', underWay s' -> atBackup s' = atBackup s -> atTarget s' = atTarget s \/ atTarget s' = None -> (r = None \/ r = Some DockerNotFound -> atTarget s' = None) -> Q r s') ->
  WP (ask (RemoveContainer agent force)) Q s.
Proof.
  intros Hu HQ. apply (wp_target _ (fun h h' => h' = h \/ h' = None) (fun r h h' => r = None \/ r = Some DockerNotFound -> h' = None)); try done.
  - intros e. apply remove_others; auto with crash.
  - intros e. by apply remove_effect.
  - intros e a Ha [-> | ->]; apply remove_done; auto.
  - intros t [-> | ->] Hs; [by rewrite (proj1 Hu Hs)|done].
  - intros a s' Hu' Hb Hx He Hd. by apply HQ.
Qed.

Lemma wp_create c i ref Q s : underWay s -> mayServe (atBackup s) = false ->
  (forall r s', underWay s' -> atBackup s' = atBackup s -> atTarget s' = atTarget s \/ (exists id, atTarget s' = Some (id, Stopped)) ->
     (forall id, r = Ok id -> atTarget s' = Some (id, Stopped) /\ forall p, atBackup s <> Some (id, p)) -> Q r s') ->
  WP (ask (CreateReplacement agent c i ref)) Q s.
Proof.
  intros Hu Hoff HQ. apply wp_call. intros r e Hc. pose proof (create_others agent c i ref (uHost s) backupName) as Hb. pose proof (create_effect agent c i ref (uHost s)) as He.
  pose proof (create_done agent c i ref (uHost s)) as Hd. pose proof (fun id => create_fresh agent c i ref (uHost s) id backupName) as Hf. rewrite Hc in Hb, He, Hd, Hf. simpl in Hb, He, Hd, Hf.
  specialize (Hb backup_ne). assert (underWay (setHost e s)) as Hu'. { apply underWay_host; [done|]. unfold oneAgent, atBackup. simpl. rewrite Hb. unfold atBackup in Hoff. by rewrite Hoff. }
  destruct r as [a|]; [|by apply underWay_ok]. apply HQ; [done|done| |].
  - destruct He as [He|(_ & id & He)]; [by left|right; by exists id].
  - intros id ->. split; [by apply Hd|]. intros p. by apply (Hf id p).
Qed.

(** The two renames. *)
Lemma wp_retain Q s : underWay s ->
  (forall r s', underWay s' -> (atTarget s' = atTarget s /\ atBackup s' = atBackup s) \/ (atTarget s' = None /\ atBackup s' = atTarget s) ->
     (r = None -> atTarget s' = None /\ atBackup s' = atTarget s) -> Q r s') ->
  WP (ask (RenameContainer agent backupName)) Q s.
Proof.
  intros Hu HQ. apply wp_call. intros r e Hc. pose proof (rename_effect agent backupName (uHost s) Hagent (not_eq_sym backup_ne)) as He.
  pose proof (rename_done agent backupName (uHost s) Hagent (not_eq_sym backup_ne)) as Hd. rewrite Hc in He, Hd. simpl in He, Hd.
  assert (underWay (setHost e s)) as Hu'.
  { apply underWay_host; [done|]. unfold oneAgent, atBackup, atTarget. simpl. destruct He as [[-> ->]|(_ & _ & ->)]; [apply Hu|done]. }
  destruct r as [a|]; [|by apply underWay_ok]. apply HQ; [done| |].
  - destruct He as [[Ea Eb]|(_ & Eb & Ea)]; [by left|by right].
  - intros ->. destruct (Hd eq_refl) as (_ & _ & Hb & Ha). done.
Qed.

Lemma wp_return Q s : underWay s ->
  (forall r s', underWay s' -> (r = None -> atTarget s' = atBackup s) -> Q r s') ->
  WP (ask (RenameContainer backupName agent)) Q s.
Proof.
  intros Hu HQ. apply wp_call. intros r e Hc. pose proof (rename_effect backupName agent (uHost s) backup_isName backup_ne) as He.
  pose proof (rename_done backupName agent (uHost s) backup_isName backup_ne) as Hd. rewrite Hc in He, Hd. simpl in He, Hd.
  assert (underWay (setHost e s)) as Hu'.
  { apply underWay_host; [done|]. unfold oneAgent, atBackup, atTarget. simpl. destruct He as [[-> ->]|(_ & _ & ->)]; [apply Hu|done]. }
  destruct r as [a|]; [|by apply underWay_ok]. apply HQ; [done|]. intros ->. by destruct (Hd eq_refl) as (_ & _ & Ha & _).
Qed.

(** The retained container is started only beside nothing. *)
Lemma wp_start_retained Q s : underWay s -> atTarget s = None -> (forall r s', underWay s' -> Q r s') -> WP (ask (StartContainer backupName)) Q s.
Proof.
  intros Hu Ht HQ. apply wp_call. intros r e Hc. pose proof (start_others backupName (uHost s) agent (backup_elsewhere _)) as Ho. rewrite Hc in Ho. simpl in Ho.
  assert (underWay (setHost e s)) as Hu'. { apply underWay_host; [done|]. intros _. unfold atTarget in *. simpl. by rewrite Ho. }
  destruct r as [a|]; [by apply HQ|by apply underWay_ok].
Qed.

(** ** Documents *)

(** [writeReceipt] leaves the receipt or writes the new one, which need not be
    synced. *)
Lemma wp_writeReceipt receipt Q s : receiptTask receipt = task -> upgrade_ok s ->
  (forall e s', alike s s' -> Q (Some e) s') ->
  (forall err s', atTarget s' = atTarget s -> atBackup s' = atBackup s -> transactionOf s' = transactionOf s -> receiptOf s' = DocIs receipt -> Q err s') ->
  WP (writeReceipt receipt) Q s.
Proof.
  intros Ht Hok Hsame Hnew. unfold writeReceipt, readReceipt. rewrite Ht. apply wp_bind, wp_bind, wp_quiet; [apply badread_quiet|done|]. intros bad s1 Hs1.
  pose proof (alike_ok _ _ Hs1 Hok) as Hok1.
  assert (WP (atomically (putReceipt task receipt)) Q s1) as Hput.
  { unfold atomically. apply wp_bind, wp_quiet; [apply write_quiet|done|]. intros out s2 Hs2. pose proof (alike_trans _ _ _ Hs1 Hs2) as (Ea & Eb & _ & Ex).
    destruct out; [by apply Hsame; eapply alike_trans|apply wp_bind, Hnew|apply wp_bind, Hnew]; try done; unfold receiptOf; simpl; by rewrite lookup_insert_eq. }
  destruct bad; [by apply Hsame|]. unfold wp, lookReceipt. cbn [fst snd]. destruct (default DocAbsent (uReceipts s1 !! task)) as [|p|]; [done| |by apply Hsame].
  destruct (sameTask _ _); [|by apply Hsame]. cbn [negb]. destruct (dockerReceiptTerminal _); [by apply Hsame|done].
Qed.

Lemma wp_writeTransaction t Q s : upgrade_ok s ->
  (forall err s', atTarget s' = atTarget s -> atBackup s' = atBackup s -> receiptOf s' = receiptOf s ->
     (transactionOf s' = transactionOf s /\ err <> None \/ transactionOf s' = DocIs t) -> Q err s') ->
  WP (writeTransaction task t) Q s.
Proof.
  intros Hok HQ. unfold writeTransaction, atomically. apply wp_bind, wp_quiet; [apply write_quiet|done|]. intros out s1 (Ea & Eb & Er & Ex).
  destruct out; [by apply HQ; auto|apply wp_bind, HQ|apply wp_bind, HQ]; try done; right; unfold transactionOf; simpl; by rewrite lookup_insert_eq.
Qed.

(** ** Ends *)

(** A program that leaves the upgrade in order, however it ends. *)
Notation FINE m := (WP m (fun _ => upgrade_ok)).

Lemma fine_ret {A} (a : A) s : upgrade_ok s -> FINE (mret a) s.
Proof. done. Qed.

Hint Resolve fine_ret underWay_ok alike_ok underWay_alike : crash.

(** A receipt that says the previous container is back, when it is. *)
Lemma fine_failed receipt Q s : receiptTask receipt = task -> RcPhase receipt = "failed" -> upgrade_ok s -> isBack (RcError receipt) (atTarget s) ->
  (forall err s', upgrade_ok s' -> Q err s') -> WP (writeReceipt receipt) Q s.
Proof.
  intros Ht Hp Hok Ha HQ. apply wp_writeReceipt; [done..| |]; [intros e s' Hs; by apply HQ; eauto with crash|]. intros err s' Ea Eb Ex Er. apply HQ.
  split; [unfold oneAgent; rewrite Ea, Eb; apply Hok|]. unfold outcome. rewrite Er, Hp, Ea. done.
Qed.

Lemma fine_fail request code cause s : TID (RqTask request) = task -> upgrade_ok s -> atTarget s = Some (old, Started) -> FINE (fail request code cause) s.
Proof. intros Ht Hok Ha. apply wp_bind, fine_failed; try done. by left. Qed.

Lemma fine_restored receipt message s : receiptTask receipt = task -> underWay s -> atTarget s = Some (old, Started) \/ atTarget s = Some (old, Unsettled) /\ unconfirmed message ->
  FINE (restored receipt message) s.
Proof. intros Ht Hu Ha. apply wp_bind, fine_failed; auto with crash. destruct Ha as [Ha|[Ha Hm]]; [by left|right]. split; [done|]. by exists message. Qed.

Lemma fine_indeterminate receipt message s : receiptTask receipt = task -> underWay s -> FINE (indeterminate receipt message) s.
Proof.
  intros Ht Hu. apply wp_bind, wp_writeReceipt; [done|by apply underWay_ok| |]; [intros e s' Hs; apply fine_ret; eauto with crash|].
  intros err s' Ea Eb Ex Er. apply fine_ret. split; [unfold oneAgent; rewrite Ea, Eb; apply Hu|]. unfold outcome. by rewrite Er.
Qed.

Lemma fine_unserved receipt message what s : receiptTask receipt = task -> underWay s -> FINE (unserved receipt agent message what) s.
Proof. intros Ht Hu. apply wp_bind, wp_bind, wp_start; [done|]. intros r s' Hu' _ _ _ _. by apply fine_indeterminate. Qed.

Lemma fine_unserved_retained receipt message what s : receiptTask receipt = task -> underWay s -> atTarget s = None ->
  FINE (unserved receipt backupName message what) s.
Proof. intros Ht Hu Ha. apply wp_bind, wp_bind, wp_start_retained; [done..|]. intros r s' Hu'. by apply fine_indeterminate. Qed.

Hint Resolve fine_restored fine_indeterminate fine_unserved fine_unserved_retained fine_fail : crash.

(** ** Rollback *)

(** Nothing that was asked of the previous container is still under way. *)
Definition calm s : Prop := forall p, atTarget s = Some (old, p) \/ atBackup s = Some (old, p) -> p <> Unsettled.

Lemma calm_same s s' : atTarget s' = atTarget s -> atBackup s' = atBackup s -> calm s -> calm s'.
Proof. unfold calm. by intros -> ->. Qed.

(** What was asked of another container. *)
Lemma calm_asked q s s' id p : atTarget s = Some (id, p) -> id <> old -> asked q (atTarget s) (atTarget s') -> atBackup s' = atBackup s -> calm s -> calm s'.
Proof.
  intros Ht Hne Ha Hb Hc p' [Hp|Hp]; [|apply Hc; right; congruence]. rewrite Ht in Ha. destruct Ha as [Ha|[Ha|Ha]]; rewrite Ha in Hp; simpl in Hp; congruence.
Qed.

Lemma calm_gone s s' : atTarget s' = atTarget s \/ atTarget s' = None -> atBackup s' = atBackup s -> calm s -> calm s'.
Proof. intros Ht Hb Hc p [Hp|Hp]; [|apply Hc; right; congruence]. destruct Ht as [Ht|Ht]; [|congruence]. apply Hc. left. congruence. Qed.

(** The previous container after a confirmed start. *)
Lemma started_back h p message : confirmed Started (Some (old, p)) h -> p <> Unsettled \/ unconfirmed message -> h = Some (old, Started) \/ h = Some (old, Unsettled) /\ unconfirmed message.
Proof.
  intros [[->| ->] Hs] [Hp|Hm]; [by left|by left| |by right]. left. apply Hs. intros id [= _ ->]. done.
Qed.

(** What a repeated look at the engine says. *)
Lemma wp_once_more n Q s : underWay s ->
  (forall r s', underWay s' -> alike s s' ->
     (forall c, r = Ok c -> exists on, held (uHost s') n = Some (cID c, on)) -> (r = Err DockerNotFound -> held (uHost s') n = None) -> Q r s') ->
  (n = agent \/ n = backupName) -> WP (inspectOnceMore n) Q s.
Proof.
  intros Hu HQ Hn. assert (isName n = true) as Hname by (destruct Hn as [-> | ->]; auto with crash).
  assert (forall s s', alike s s' -> held (uHost s') n = held (uHost s) n) as Hh by (intros s1 s2 (Ea & Eb & _); destruct Hn as [-> | ->]; done).
  unfold inspectOnceMore. apply wp_bind, wp_inspect; [done|by apply underWay_ok|]. intros r s1 Hs1 Hf Hm.
  assert (Q r s1) as Hfirst.
  { apply HQ; [by eapply underWay_alike|done| |]; rewrite (Hh _ _ Hs1); [|done]. intros c Hr. destruct (Hf c Hr) as (on & -> & _). eauto. }
  destruct r as [c|e]; [done|]. destruct (dockerTransient e); [|done]. apply wp_inspect; [done|eauto with crash|]. intros r s2 Hs2 Hf2 Hm2.
  pose proof (alike_trans _ _ _ Hs1 Hs2) as Hs. apply HQ; [by eapply underWay_alike|done| |]; rewrite (Hh _ _ Hs2); [|done]. intros c Hr. destruct (Hf2 c Hr) as (on & -> & _). eauto.
Qed.

Lemma fine_restoreRetained receipt t message s : receiptTask receipt = task -> retains t -> underWay s -> calm s \/ unconfirmed message ->
  FINE (restoreRetained options receipt t message) s.
Proof.
  intros Ht [Ho Hb] Hu Hcalm. unfold restoreRetained. rewrite Hb, Ho. apply wp_bind, wp_once_more; [done| |by right]. intros r s1 Hu1 Hs1 Hf _.
  destruct r as [c|e]; [|by apply fine_unserved]. destruct (Hf c eq_refl) as (on & Hc). case_decide as Hid; [by apply fine_unserved|].
  apply wp_bind, wp_return; [done|]. intros r s2 Hu2 Hr. destruct r as [e|].
  - apply wp_bind, wp_once_more; [done| |by left]. intros r s3 Hu3 _ _ Hm. destruct r as [|[]]; auto with crash.
  - apply wp_bind, wp_start; [done|]. intros r s3 Hu3 _ _ _ Hst. destruct r; [by apply fine_indeterminate|]. apply fine_restored; [done..|].
    assert (atBackup s1 = Some (old, on)) as Hold by (unfold atBackup; by rewrite Hc, Hid).
    destruct (Hst eq_refl) as [Hconf _]. rewrite (Hr eq_refl), Hold in Hconf. apply (started_back _ _ _ Hconf). destruct Hcalm as [Hcalm|]; [left|by right].
    apply Hcalm. right. destruct Hs1 as (_ & Eb & _). by rewrite <-Eb.
Qed.

Lemma wp_removeReplacement current t Q s : underWay s ->
  (forall b s', underWay s' -> atBackup s' = atBackup s -> atTarget s' = atTarget s \/ atTarget s' = None -> Q b s') -> WP (removeReplacement options current t) Q s.
Proof.
  intros Hu HQ. apply wp_bind, wp_remove; [done|]. intros r s1 Hu1 Hb1 Ht1 _. destruct r as [[]|]; try (by apply HQ).
  case_decide; [by apply HQ|]. apply wp_bind, wp_remove; [done|]. intros r s2 Hu2 Hb2 Ht2 _. apply HQ; [done|congruence|]. destruct Ht2 as [->|]; [done|by right].
Qed.

(** The receipt of a swap under way moves on within it. *)
Lemma wp_phase receipt Q s : receiptTask receipt = task -> RcPhase receipt ∈ ["activating"; "activated"; "rolling_back"] -> underWay s ->
  (forall e s', underWay s' -> alike s s' -> Q (Some e) s') ->
  (forall err s', underWay s' -> atTarget s' = atTarget s -> atBackup s' = atBackup s -> transactionOf s' = transactionOf s -> Q err s') ->
  WP (writeReceipt receipt) Q s.
Proof.
  intros Ht Hp Hu Hsame Hnew. apply wp_writeReceipt; [done|by apply underWay_ok|intros e s' Hs; by apply Hsame; eauto with crash|].
  intros err s' Ea Eb Ex Er. apply Hnew; try done. destruct Hu as (Ho & _ & Hx). split_and!; [unfold oneAgent; by rewrite Ea, Eb|eauto|by rewrite Ex].
Qed.

Lemma fine_rollback receipt t message s : receiptTask receipt = task -> retains t -> underWay s -> calm s \/ unconfirmed message -> FINE (rollback options receipt t message) s.
Proof.
  intros Ht Hr Hu Hcalm. unfold rollback. apply wp_bind, wp_phase; [done|by do 2 right; left|done|by intros; eauto with crash|].
  intros [e|] s1 Hu1 Et1 Eb1 _; [by apply fine_ret; eauto with crash|]. apply wp_bind, wp_inspect; [done|by apply underWay_ok|]. intros r s2 Hs2 Hf _.
  pose proof (underWay_alike _ _ Hs2 Hu1) as Hu2. assert (calm s2 \/ unconfirmed message) as Hcalm2.
  { destruct Hcalm as [Hcalm|]; [left|by right]. destruct Hs2 as (Ea & Eb & _). eapply calm_same; [..|exact Hcalm]; congruence. }
  destruct r as [c|e]; [|by apply fine_restoreRetained]. destruct (Hf c eq_refl) as (p & Hc & Hon).
  assert (atTarget s2 = Some (cID c, p)) as Ha by (destruct Hs2 as (-> & _); done). destruct (Hr) as [Ho _]. case_decide as Hid; rewrite Ho in Hid.
  - rewrite Hid in Ha. assert (p <> Unsettled \/ unconfirmed message) as Hp by (destruct Hcalm2 as [Hcalm2|]; [left; apply Hcalm2; by left|by right]). destruct (cRunning c).
    + apply wp_bind, fine_restored; [done..|]. specialize (Hon eq_refl). destruct p; [by left|done|right]. split; [done|]. by destruct Hp.
    + apply wp_bind, wp_start; [done|]. intros [e|] s3 Hu3 _ _ _ Hst; [by apply fine_indeterminate|]. apply fine_restored; [done..|].
      destruct (Hst eq_refl) as [Hconf _]. rewrite Ha in Hconf. by apply (started_back _ _ _ Hconf).
  - apply wp_bind, wp_stop; [done|]. intros r s3 Hu3 Hb3 Hask _. apply wp_bind, wp_removeReplacement; [done|]. intros removed s4 Hu4 Hb4 Ht4. destruct removed; [|by apply fine_unserved].
    apply fine_restoreRetained; try done. destruct Hcalm2 as [Hcalm2|]; [left|by right]. eapply calm_gone; [done..|]. by eapply calm_asked.
Qed.

(** ** Forward *)

Lemma wp_waitReady fuel receipt t s : underWay s ->
  WP (waitReady options fuel receipt t) (fun r s' => underWay s' /\ alike s s') s.
Proof.
  revert s. induction fuel as [|fuel IH]; intros s Hu; [by apply underWay_ok|]. cbn [waitReady]. cbv zeta.
  set (again := ask NextWait ≫= _).
  assert (forall s', alike s s' -> WP again (fun r s' => underWay s' /\ alike s s') s') as Hagain.
  { intros s1 Hs1. apply wp_bind, wp_quiet; [apply wait_quiet|by eauto with crash|]. intros event s2 Hs2. pose proof (alike_trans _ _ _ Hs1 Hs2) as Hs.
    pose proof (underWay_alike _ _ Hs Hu) as Hu2. destruct event; try done;
      (eapply wp_mono; [by apply IH|]; intros r s3 [? ?]; split; [done|by eapply alike_trans]). }
  apply wp_bind, wp_quiet; [apply ready_quiet|by apply underWay_ok|]. intros read s1 Hs1. destruct read as [|ready|]; [by apply Hagain| |by apply Hagain].
  destruct (readyMatches _ _); [|by apply Hagain]. apply wp_bind, wp_inspect; [done|by eauto with crash|]. intros r s2 Hs2 _ _. pose proof (alike_trans _ _ _ Hs1 Hs2) as Hs.
  destruct r as [c|]; [|by apply Hagain]. case_decide; [|by apply Hagain]. split; [by eauto with crash|done].
Qed.

Lemma fine_remove_backup s : upgrade_ok s -> FINE (ask (RemoveContainer backupName false)) s.
Proof.
  intros [Ho Hout]. apply wp_call. intros r e Hc. pose proof (remove_others backupName false (uHost s) agent (backup_elsewhere _)) as Ht.
  pose proof (remove_effect backupName false (uHost s) backup_isName) as Hb. rewrite Hc in Ht, Hb. simpl in Ht, Hb.
  assert (upgrade_ok (setHost e s)) as Hok; [|by destruct r]. assert (atTarget (setHost e s) = atTarget s) as Ea by done.
  split; [|unfold outcome; rewrite Ea; exact Hout]. unfold oneAgent. rewrite Ea. unfold atBackup. simpl. destruct Hb as [-> | ->]; [exact Ho|done].
Qed.

Lemma fine_activate fuel receipt t s : receiptTask receipt = task -> retains t -> underWay s -> transactionOf s = DocIs t ->
  calm s -> atTarget s = Some (NewContainerID t, Stopped) -> NewContainerID t <> old -> FINE (activate options fuel receipt t) s.
Proof.
  intros Ht Hr Hu Hx Hcalm Hnew Hne. apply wp_bind, wp_start; [done|]. intros r s1 Hu1 Hb1 Hx1 Hask Hst. assert (calm s1) as Hcalm1 by (by eapply calm_asked).
  destruct r as [e|]; [by apply fine_rollback; auto|]. assert (atTarget s1 = Some (NewContainerID t, Started)) as Hon.
  { destruct (Hst eq_refl) as [[_ Hon] _]. rewrite Hnew in Hon. by apply Hon. }
  apply wp_bind. eapply wp_mono; [by apply wp_waitReady|]. intros [ready|] s2 (Hu2 & Hs2); [|by apply fine_rollback; [..|left; destruct Hs2 as (? & ? & _); by eapply calm_same]].
  assert (atTarget s2 = Some (NewContainerID t, Started)) as Hserv by (destruct Hs2 as (-> & _); done).
  apply wp_bind, wp_writeReceipt; [done|by apply underWay_ok|intros e s' Hs; apply fine_ret; eauto with crash|].
  intros err s3 Ea Eb Ex Er. assert (upgrade_ok s3) as Hok.
  { split; [unfold oneAgent; rewrite Ea, Eb; apply Hu2|]. unfold outcome. rewrite Er. split; [done|]. simpl. exists t. rewrite Ex, Ea, Hserv.
    split; [|done]. destruct Hs2 as (_ & _ & _ & ->). by rewrite Hx1. }
  destruct err; [done|]. destruct Hr as [_ ->]. apply wp_bind. eapply wp_mono; [by apply fine_remove_backup|]. done.
Qed.

Lemma retains_withNew id t : retains t -> retains (withNew id t).
Proof. done. Qed.

(** The swap from the confirmed stop on: the previous container is stopped, under one
    of its two names. *)
Lemma fine_replace fuel receipt t c image s : receiptTask receipt = task -> retains t -> underWay s -> atTarget s = Some (old, Started) -> FINE (replace options fuel receipt t c image) s.
Proof.
  intros Ht Hr Hu Hold. assert (mayServe (atBackup s) = false) as Hidle by (destruct (mayServe (atBackup s)) eqn:Hs; [by rewrite (proj1 Hu Hs) in Hold|done]).
  apply wp_bind, wp_stop; [done|]. intros [e|] s1 Hu1 Hb1 _ Hoff; [apply fine_rollback; try done; right; by left|]. destruct (Hr) as [_ Hb].
  assert (atTarget s1 = Some (old, Stopped)) as Ht1 by (destruct (Hoff eq_refl) as [_ Hc]; rewrite Hold in Hc; by apply Hc).
  assert (forall p, atBackup s1 = Some (old, p) -> p <> Unsettled) as Hq by (intros p Hp ->; rewrite <-Hb1, Hp in Hidle; done).
  rewrite Hb. apply wp_bind, wp_retain; [done|]. intros r s2 Hu2 Heff Hret.
  assert (calm s2) as Hcalm2 by (destruct Heff as [[Ea Eb]|[Ea Eb]]; intros p [Hp|Hp]; rewrite ?Ea, ?Eb, ?Ht1 in Hp; try congruence; by apply Hq).
  destruct r as [e|]; [by apply fine_rollback; auto|]. destruct (Hret eq_refl) as [Hempty Hb2]. rewrite Ht1 in Hb2.
  apply wp_bind, wp_create; [done|by rewrite Hb2|]. intros r s3 Hu3 Hb3 Hmade Hnew.
  assert (calm s3) as Hcalm3.
  { intros p [Hp|Hp]; [|apply Hcalm2; right; congruence]. destruct Hmade as [Hm|[x Hm]]; rewrite Hm in Hp; [apply Hcalm2; by left|congruence]. }
  destruct r as [id|e]; [|by apply fine_rollback; auto]. destruct (Hnew id eq_refl) as [Ht3 Hfresh]. assert (id <> old) as Hne by (intros ->; by apply (Hfresh Stopped)).
  rewrite Ht. apply wp_bind, wp_writeTransaction; [by apply underWay_ok|]. intros err s4 Ea Eb Er Hx.
  assert (underWay s4) as Hu4.
  { destruct Hu3 as (Ho3 & Hrc & Hx3). split_and!; [unfold oneAgent; by rewrite Ea, Eb|by rewrite Er|]. destruct Hx as [[-> _]| ->]; [done|by apply retains_withNew]. }
  pose proof (retains_withNew id t Hr) as Hr'. assert (calm s4) as Hcalm4 by (by eapply calm_same). destruct err as [e|]; [by apply fine_rollback; auto|]. destruct Hx as [[_ Hn]|Hx]; [done|].
  apply wp_bind, wp_quiet; [apply random_quiet|by apply underWay_ok|]. intros nonce s5 Hs5. pose proof (underWay_alike _ _ Hs5 Hu4) as Hu5.
  assert (calm s5) as Hcalm5 by (destruct Hs5 as (? & ? & _); by eapply calm_same). destruct nonce as [nonce|]; [|by apply fine_rollback; auto].
  apply wp_bind, wp_phase; [done|by right; left|done| |].
  { intros e s' Hu' (? & ? & _). apply fine_rollback; try done. left. by eapply calm_same. }
  intros err s6 Hu6 Ea6 Eb6 Hx6. assert (calm s6) as Hcalm6 by (by eapply calm_same). destruct err as [e|]; [by apply fine_rollback; auto|].
  destruct Hs5 as (Ea5 & _ & _ & Ex5). apply fine_activate; try done; [by rewrite Hx6, Ex5|by rewrite Ea6, Ea5, Ea, Ht3].
Qed.

(** A receipt that was not there yet. *)
Lemma fine_swap fuel request c oldImage image ref s :
  TID (RqTask request) = task -> cID c = old -> oneAgent s -> receiptOf s = DocAbsent -> atTarget s = Some (old, Started) ->
  FINE (swap options fuel request c oldImage image ref) s.
Proof.
  intros Ht Hc Ho Hrc Ha. unfold swap. rewrite Ht. cbv zeta. set (t := MkDockerTransaction _ _ _ _ _ _).
  assert (retains t) as Hr by (split; [done|]; unfold t; simpl; done).
  apply wp_bind, wp_writeTransaction; [by split; [|unfold outcome; rewrite Hrc]|]. intros err s1 Ea Eb Er Hx.
  assert (upgrade_ok s1) as Hok1 by (split; [unfold oneAgent; by rewrite Ea, Eb|unfold outcome; rewrite Er, Hrc; by rewrite Ea]).
  destruct err as [e|]; [by apply fine_fail; [..|rewrite Ea]|]. destruct Hx as [[_ Hne]|Hx]; [done|].
  apply wp_bind, wp_writeReceipt; [done..|intros e s' Hs; apply fine_ret; eauto with crash|]. intros err s2 Ea2 Eb2 Ex2 Er2.
  assert (upgrade_ok s2) as Hok2.
  { split; [unfold oneAgent; rewrite Ea2, Eb2; apply Hok1|]. unfold outcome. rewrite Er2. split; [done|]. simpl. by rewrite Ea2, Ea. }
  destruct err as [e|]; [done|]. apply wp_bind, wp_writeReceipt; [done..|intros e s' Hs; apply fine_ret; eauto with crash|]. intros err s3 Ea3 Eb3 Ex3 Er3.
  assert (underWay s3) as Hu3.
  { split_and!; [unfold oneAgent; rewrite Ea3, Eb3; apply Hok2| |by rewrite Ex3, Ex2, Hx]. eexists. split_and!; [done|done|]. by left. }
  destruct err as [e|]; [by apply fine_ret; eauto with crash|]. apply wp_bind, wp_bind, wp_quiet; [apply boot_quiet|by apply underWay_ok|]. intros boot s4 Hs4.
  assert (atTarget s4 = Some (old, Started)) as Ha4 by (destruct Hs4 as (-> & _); by rewrite Ea3, Ea2, Ea). cbn. destruct (authorized _ _); cbn [negb].
  - apply fine_replace; [done|done|by eapply underWay_alike|done].
  - apply fine_fail; [done| |done]. eauto with crash.
Qed.

Lemma fine_begin fuel request s : TID (RqTask request) = task -> upgrade_ok s -> receiptOf s = DocAbsent -> FINE (begin options fuel request) s.
Proof.
  intros Ht Hok Hrc. assert (atTarget s = Some (old, Started)) as Ha by (destruct Hok as [_ Hout]; unfold outcome in Hout; by rewrite Hrc in Hout).
  assert (forall s', alike s s' -> upgrade_ok s' /\ atTarget s' = Some (old, Started) /\ receiptOf s' = DocAbsent) as Hst.
  { intros s' Hs. split; [by eapply alike_ok|]. destruct Hs as (-> & _ & -> & _). done. }
  assert (forall s' code cause, alike s s' -> FINE (fail request code cause) s') as Hfail.
  { intros s' code cause Hs. destruct (Hst s' Hs) as (Hok' & Ha' & _). by apply fine_fail. }
  unfold begin. cbv zeta. apply wp_bind, wp_bind, wp_quiet; [apply boot_quiet|done|]. intros boot s1 Hs1. destruct (Hst s1 Hs1) as (Hok1 & Ha1 & _).
  cbn. destruct (authorized boot request); cbn [negb]; [|by apply Hfail]. apply wp_bind, wp_inspect; [done|done|]. intros r s2 Hs2 Hf _.
  pose proof (alike_trans _ _ _ Hs1 Hs2) as Hs02. destruct (Hst s2 Hs02) as (Hok2 & _ & _). destruct r as [c|]; [|by apply Hfail].
  assert (cID c = old) as Hc by (destruct (Hf c eq_refl) as (on & Hh & _); unfold atTarget in Ha1; rewrite Hh in Ha1; by injection Ha1).
  destruct (validateContainer _ _ _) as [e|]; [by apply Hfail|]. destruct (decodeConfig _) as [config|]; [|by apply Hfail].
  destruct (cRunning c); cbn [negb]; [|by apply Hfail]. apply wp_bind, wp_quiet; [apply pull_quiet|done|]. intros pulled s3 Hs3.
  pose proof (alike_trans _ _ _ Hs02 Hs3) as Hs03. destruct (Hst s3 Hs03) as (Hok3 & _ & _). destruct pulled; [by apply Hfail|].
  apply wp_bind, wp_quiet; [apply image_quiet|done|]. intros image s4 Hs4. pose proof (alike_trans _ _ _ Hs03 Hs4) as Hs04. destruct (Hst s4 Hs04) as (Hok4 & _ & _).
  destruct image as [image|]; [|by apply Hfail]. destruct (validateImage _ _ _) as [e|]; [by apply Hfail|].
  apply wp_bind, wp_bind, wp_quiet; [apply boot_quiet|done|]. intros boot' s5 Hs5. pose proof (alike_trans _ _ _ Hs04 Hs5) as Hs05. destruct (Hst s5 Hs05) as (Hok5 & Ha5 & Hr5).
  cbn. destruct (authorized boot' request); cbn [negb]; [|by apply Hfail]. apply fine_swap; try done. apply Hok5.
Qed.

Lemma fine_recover receipt s : receiptTask receipt = task -> underWay s -> FINE (recover options receipt) s.
Proof.
  intros Ht Hu. unfold recover, readTransaction. rewrite Ht. apply wp_bind, wp_bind, wp_quiet; [apply badread_quiet|by apply underWay_ok|]. intros bad s1 Hs1.
  pose proof (underWay_alike _ _ Hs1 Hu) as Hu1. destruct bad; [by apply fine_indeterminate|]. unfold wp, lookTransaction. cbn [fst snd].
  change (default DocAbsent (uTransactions s1 !! task)) with (transactionOf s1). destruct (transactionOf s1) as [|t|] eqn:Hx; [by apply fine_indeterminate| |by apply fine_indeterminate].
  destruct (_ || _); [by apply fine_indeterminate|]. apply fine_rollback; try done; [|right; by right]. destruct Hu1 as (_ & _ & Hx1). by rewrite Hx in Hx1.
Qed.

Lemma fine_processRequest fuel request s : TID (RqTask request) = task -> upgrade_ok s -> FINE (processRequest options fuel request) s.
Proof.
  intros Ht Hok. unfold processRequest. destruct (bool_decide _); cbn [negb]; [|done]. unfold readReceipt. rewrite Ht.
  apply wp_bind, wp_bind, wp_quiet; [apply badread_quiet|done|]. intros bad s1 Hs1. pose proof (alike_ok _ _ Hs1 Hok) as Hok1. destruct bad; [done|].
  unfold wp, lookReceipt. cbn [fst snd]. change (default DocAbsent (uReceipts s1 !! task)) with (receiptOf s1). destruct (receiptOf s1) as [|prior|] eqn:Hrc; [by apply fine_begin| |done].
  destruct (_ || _); [done|]. destruct (dockerReceiptTerminal _); [done|]. destruct Hok1 as [Ho1 Hout]. pose proof Hout as Hout'. unfold outcome in Hout'. rewrite Hrc in Hout'.
  destruct Hout' as [Htask Hph]. destruct (decide (RcPhase prior = "prepared")) as [Hp|Hp].
  - by apply fine_fail.
  - destruct (decide (RcPhase prior ∈ _)) as [Hin|]; [|done]. apply fine_recover; [done|]. split_and!; [done|by exists prior|].
    repeat (apply elem_of_cons in Hin as [Hin|Hin]); try (by apply not_elem_of_nil in Hin); rewrite Hin in Hph; exact Hph.
Qed.

(** ** Whole upgrades *)

(** The updater works on the task, is killed, starts again, and the rest of the host
    does what does not concern the agent. *)
Inductive upgrading s : ustate (E := E) -> Prop :=
| upgrading_start : upgrading s s
| upgrading_run s' fuel request : upgrading s s' -> TID (RqTask request) = task -> upgrading s (processRequest options fuel request s').2
| upgrading_idle s' s'' : upgrading s s' -> alike s' s'' -> upgrading s s''.

Lemma upgrading_ok s s' : upgrading s s' -> upgrade_ok s -> upgrade_ok s'.
Proof.
  induction 1 as [|s' fuel request _ IH Ht|s' s'' _ IH Hs]; intros Hok; [done| |by eapply alike_ok; eauto]. pose proof (fine_processRequest fuel request s' Ht (IH Hok)) as Hf.
  unfold wp in Hf. by destruct (processRequest _ _ _ _) as [[]].
Qed.

(** A terminal receipt is the last word. *)
Lemma terminal_final fuel request s r : TID (RqTask request) = task -> receiptOf s = DocIs r -> dockerReceiptTerminal (RcPhase r) = true ->
  receiptOf (processRequest options fuel request s).2 = DocIs r.
Proof.
  intros Ht Hr Hterm. unfold processRequest. destruct (bool_decide _); cbn [negb]; [|done]. unfold readReceipt, mbind, crashM_bind, ask. rewrite Ht.
  destruct (BadRead (uHost s)) as [[bad|] e]; [|done]. destruct bad; [done|]. unfold lookReceipt. cbn [uReceipts setHost].
  change (default DocAbsent (uReceipts s !! task)) with (receiptOf s). rewrite Hr. destruct (_ || _); [done|]. by rewrite Hterm.
Qed.

Lemma terminal_kept s s' r : upgrading s s' -> receiptOf s = DocIs r -> dockerReceiptTerminal (RcPhase r) = true -> receiptOf s' = DocIs r.
Proof.
  induction 1 as [|s' fuel request _ IH Ht|s' s'' _ IH Hs]; intros Hr Hterm; [done|by apply terminal_final; auto|]. destruct Hs as (_ & _ & -> & _). by apply IH.
Qed.

(** C5. An upgrade never leaves two agents, and its receipt is true.  On an engine where a
    rename, a creation or a removal takes effect by its return or never, while a start
    or a stop that was not confirmed may still take effect later: start with an agent
    that serves, nothing retained that may, and no receipt.  However often the
    updater works on the task, and wherever it is killed, what the agent's name and
    the retained one hold cannot both be running; a receipt that says the swap has
    not begun means that the same container serves under the agent's name; one that
    says failed means that it is back there and was started, or, only if that receipt
    says that the first stop was not confirmed or the updater interrupted, that it is
    there and a stop sent to it may still take effect; one that says succeeded means
    that the replacement recorded in the transaction serves; and a terminal receipt is
    never changed. *)
Theorem agent_swap_is_safe s s' :
  atTarget s = Some (old, Started) -> mayServe (atBackup s) = false -> receiptOf s = DocAbsent -> upgrading s s' ->
  (mayServe (atTarget s') = true -> mayServe (atBackup s') = false) /\
  (receiptOf s' = DocAbsent -> atTarget s' = Some (old, Started)) /\
  (forall r, receiptOf s' = DocIs r -> RcPhase r = "prepared" -> atTarget s' = Some (old, Started)) /\
  (forall r, receiptOf s' = DocIs r -> RcPhase r = "failed" -> isBack (RcError r) (atTarget s')) /\
  (forall r, receiptOf s' = DocIs r -> RcPhase r = "succeeded" -> exists t, transactionOf s' = DocIs t /\ atTarget s' = Some (NewContainerID t, Started)) /\
  (forall r s'', receiptOf s' = DocIs r -> dockerReceiptTerminal (RcPhase r) = true -> upgrading s' s'' -> receiptOf s'' = DocIs r).
Proof.
  intros Ha Hb Hr Hup. assert (upgrade_ok s) as Hok by (split; [unfold oneAgent; by rewrite Hb|unfold outcome; by rewrite Hr]).
  destruct (upgrading_ok _ _ Hup Hok) as [Ho Hout]. unfold outcome in Hout. split_and!.
  - intros Hs. destruct (mayServe (atBackup s')) eqn:Hb'; [|done]. by rewrite (Ho Hb') in Hs.
  - intros Hr'. by rewrite Hr' in Hout.
  - intros r Hr' Hp. rewrite Hr' in Hout. destruct Hout as [_ Hout]. by rewrite decide_True in Hout.
  - intros r Hr' Hp. rewrite Hr' in Hout. destruct Hout as [_ Hout]. by rewrite Hp in Hout.
  - intros r Hr' Hp. rewrite Hr' in Hout. destruct Hout as [_ Hout]. by rewrite Hp in Hout.
  - intros r s'' Hr' Hterm Hup'. by eapply terminal_kept.
Qed.

End safety.

Import Protocol.sample.

(** An upgrade that succeeds: the replacement serves, and the previous container is
    gone. *)
Definition sample_upgraded : ustate := (processRequest sample_options 3 sample_request (sample_world FileAbsent "")).2.

Lemma agent_swap_is_safe_witness :
  (exists r t, receiptOf "t1" sample_upgraded = DocIs r /\ RcPhase r = "succeeded" /\ transactionOf "t1" sample_upgraded = DocIs t /\ NewContainerID t = newID) /\
  (mayServe (atTarget sample_options sample_upgraded) = true -> mayServe (atBackup sample_options "t1" sample_upgraded) = false) /\
  (forall r, receiptOf "t1" sample_upgraded = DocIs r -> RcPhase r = "succeeded" ->
     exists t, transactionOf "t1" sample_upgraded = DocIs t /\ atTarget sample_options sample_upgraded = Some (NewContainerID t, Started)).
Proof.
  split; [vm_compute; by eexists _, _|].
  destruct (agent_swap_is_safe sample_options "t1" agentID eq_refl (sample_world FileAbsent "") sample_upgraded) as (Hone & _ & _ & _ & Hok & _).
  - vm_compute. reflexivity.
  - vm_compute. reflexivity.
  - vm_compute. reflexivity.
  - apply (upgrading_run _ _ _ _ 3 sample_request); [apply upgrading_start|reflexivity].
  - split; [exact Hone|exact Hok].
Defined.
