(* ===== verification/Handover.v ===== *)
(** * The updater handover ([internal/upgrade/docker_handover.go],
      [docker_successor.go])

    The predecessor creates, checks, starts and commits to a successor; the
    successor proves itself, takes over and tidies up; a predecessor whose
    successor never acts takes its role back.  Every function here runs to its end
    or up to the call in which the process was killed.  Loops run on fuel; running
    out of it is a process that is still in the loop. *)
From S2P Require Import Prelude Crash GoStrings Sha256 ReleaseId CatalogReview HandoverJournal UpdaterEngine.

Record handoverTarget := MkHandoverTarget {
  htSelf : dockerContainer;
  htAgent : dockerContainer;
  htImage : dockerImage;
  htVersion : string;
  htReference : string;
  htEvidenceTask : string;
  htEvidenceBinary : string;
  htCanonical : string;
  htAttempt : Z;
  htRequestSHA256 : string
}.

(** [errHandoverCommitted], [nil] and another error. *)
Inductive handoverOutcome := HandedOver | KeptRole | NotRecorded.

Definition durationOr (value otherwise : Z) : Z := if decide (0 < value) then value else otherwise.

(** Nanoseconds. *)
Definition dockerStabilityWindow : Z := 10 * 1000000000.

(** What one look at the successor says: why to give up, that it is up (with its
    start), or nothing. *)
Inductive successorLook := LookStop (reason : string) | LookUp (startedAt : option Z) | LookNothing.

(** [first] is when it was first seen running, and its start. *)
Definition lookSuccessor (first : option (Z * option Z)) (answer : res dockerError dockerContainer) : successorLook :=
  match answer with
  | Err DockerNotFound => LookStop "successor disappeared"
  | Err _ => LookNothing
  | Ok s =>
      if bool_decide (0 < cRestartCount s) || match first with Some (_, startedAt) => negb (bool_decide (cStartedAt s = startedAt)) | None => false end
      then LookStop "successor restarted" else
      if cPaused s then LookStop "successor paused" else
      if bool_decide (is_Some first) && (negb (cRunning s) || cRestarting s) then LookStop "successor stopped" else
      if cRunning s && negb (cRestarting s) then LookUp (cStartedAt s) else LookNothing
  end.

(** [None]: replaced; otherwise whether the agent was seen. *)
Definition lookAgent (h : dockerHandover) (answer : res dockerError dockerContainer) : option bool :=
  match answer with
  | Err DockerNotFound => None
  | Err _ => Some false
  | Ok a => if decide (cID a <> AgentContainerID h \/ cImage a <> HImageID h) then None else Some true
  end.

Definition proves (h : dockerHandover) (proof : option dockerStandbyProof) : bool :=
  match proof with
  | Some p => validateProof p && bool_decide (PrHandoverID p = HID h /\ PrSuccessorID p = SuccessorID h /\ PrVersion p = HVersion h /\ PrBinarySHA256 p = AgentBinarySHA256 h)
  | None => false
  end.

(** A waiting process goes on waiting, goes back to the role loop, or acts. *)
Inductive waitResult (A : Type) := Stays (a : A) | Leaves | Acts.
Arguments Stays {A} a.
Arguments Leaves {A}.
Arguments Acts {A}.

Section handover.
Context {E : Type} `{UpdaterHost E} `{DockerJSON} (options : helperOptions).
Implicit Types (s : ustate (E := E)).

Notation mutate := (mutateUpdater options).

(** [requestDigest]; [None] is an error. *)
Definition requestDigest : upM E (option string) :=
  bytes ← ask RequestBytes;
  mret (match bytes with None => None | Some None => Some "" | Some (Some data) => Some (sha256_hex data) end).

Definition preparedHandover (t : handoverTarget) (id : string) : dockerHandover :=
  MkDockerHandover id handoverPrepared (htAttempt t) 0 (htCanonical t) (htCanonical t +:+ "-next-" +:+ short id) (htCanonical t +:+ "-retired-" +:+ short id)
    (cID (htSelf t)) (cImage (htSelf t)) (hoVersion options) "" (diID (htImage t)) (htReference t) (htVersion t) (cID (htAgent t)) (htEvidenceBinary t)
    (htEvidenceTask t) (htRequestSHA256 t) "".

(** Its successor by name is unmistakably this handover's. *)
Definition isOurSuccessor (h : dockerHandover) (found : dockerContainer) : bool :=
  bool_decide (cImage found = HImageID h) && match decodeConfig (cConfig found) with Some config => bool_decide (dcCmd config = [dockerHelperCommand]) | None => false end &&
  bool_decide (cStartedAt found = None) && negb (cRunning found).

Definition abortHandover (h : dockerHandover) (known : string) (byName : bool) (reason : string) : upM E (option string) :=
  let successor := if decide (SuccessorID h = "") then known else SuccessorID h in
  successor ← (if decide (successor = "" /\ byName = true) then
                 found ← ask (InspectContainer (SuccessorName h));
                 mret (match found with Ok c => if isOurSuccessor h c then cID c else "" | Err _ => "" end)
               else mret successor);
  _ ← (if decide (successor = "") then mret None else removeUpdater options successor);
  now ← ask UnixNow;
  writeHandover (withEnd reason (handoverNotBefore (HAttempt h) reason now) (withPhase handoverAborted h)).

(** The answer of [abortHandover] as [handOver] returns it. *)
Definition aborting (h : dockerHandover) (known : string) (byName : bool) (reason : string) : upM E handoverOutcome :=
  err ← abortHandover h known byName reason; mret (match err with None => KeptRole | Some _ => NotRecorded end).

(** [None]: the created successor is this updater on the agent's image. *)
Definition verifySuccessor (h : dockerHandover) (t : handoverTarget) (answer : res dockerError dockerContainer) : option string :=
  match answer with
  | Err _ => Some "it cannot be inspected"
  | Ok s =>
      match decodeConfig (cConfig s), decodeConfig (cConfig (htSelf t)) with
      | Some config, Some selfConfig =>
          if decide (cID s <> SuccessorID h \/ cName s <> "/" +:+ SuccessorName h) then Some "it is not the container that was created" else
          if decide (cImage s <> HImageID h) then Some "it runs another image" else
          if decide (dcCmd config <> [dockerHelperCommand]) then Some "it does not run the updater command" else
          if bool_decide (is_Some (cStartedAt s)) || cRunning s then Some "it has already been started" else
          match isUpdaterContainer options s (htAgent t) with
          | Some e => Some e
          | None =>
              if negb (forallb (fun entry => bool_decide (entry ∈ dcEnv config)) (dcEnv selfConfig)) then Some "its environment lacks an entry" else
              match securitySubsetEqual (htSelf t) s with
              | Some e => Some e
              | None => if sameMounts (cMounts (htSelf t)) (cMounts s) then None else Some "its mounts differ"
              end
          end
      | _, _ => Some "its configuration is invalid"
      end
  end.

Definition requestChanged (h : dockerHandover) : upM E bool :=
  digest ← requestDigest; mret (negb (bool_decide (digest = Some (RequestSHA256 h)))).

(** [waitStandby]: why it gave up, or the empty text. *)
Fixpoint waitStandby (fuel : nat) (h : dockerHandover) (first : option (Z * option Z)) (proven : bool) : upM E string :=
  match fuel with
  | O => killed
  | S fuel =>
      changed ← requestChanged h;
      if changed : bool then mret handoverPreemptedReason else
      successor ← ask (InspectContainer (SuccessorID h));
      match lookSuccessor first successor with
      | LookStop reason => mret reason
      | look =>
          first ← (match look, first with
                   | LookUp startedAt, None => now ← ask MonotonicNow; mret (Some (now, startedAt))
                   | _, _ => mret first
                   end);
          agent ← ask (InspectContainer (hoTargetName options));
          match lookAgent h agent with
          | None => mret "the agent was replaced"
          | Some agentSame =>
              proof ← ask ReadProof;
              let proven := proven || proves h proof in
              changed ← requestChanged h;
              if changed : bool then mret handoverPreemptedReason else
              now ← ask MonotonicNow;
              let up := match look with LookUp _ => true | _ => false end in
              let stable := match first with Some (since, _) => bool_decide (durationOr (hoStabilityWindow options) dockerStabilityWindow ≤ now - since) | None => false end in
              if proven && up && agentSame && stable then mret "" else
              event ← ask NextWait;
              match event with
              | WaitStopped => mret "interrupted"
              | WaitDeadline => mret (if proven : bool then "successor not stable by the deadline" else "no proof by the deadline")
              | _ => waitStandby fuel h first proven
              end
          end
      end
  end.

Definition commitHandover (h : dockerHandover) : upM E handoverOutcome :=
  err ← writeHandover (withPhase handoverCommitted h);
  match err with
  | Some _ => aborting h "" false "the commit could not be recorded"
  | None => mret HandedOver
  end.

(** After the journal names the successor, a stop is a crash. *)
Definition abortOrLeave (h : dockerHandover) (reason : string) : upM E handoverOutcome :=
  stopped ← ask Cancelled;
  if stopped : bool then mret KeptRole else aborting h "" false reason.

(** From the record of the successor to the commit. *)
Definition handOverTo (fuel : nat) (h : dockerHandover) (t : handoverTarget) : upM E handoverOutcome :=
  inspected ← ask (InspectContainer (SuccessorID h));
  match verifySuccessor h t inspected with
  | Some e => abortOrLeave h ("successor differs from this updater: " +:+ e)
  | None =>
      started ← mutate (MutStart (SuccessorID h));
      match started with
      | Err _ => abortOrLeave h "successor could not be started"
      | Ok _ =>
          reason ← waitStandby fuel h None false;
          if decide (reason = "") then commitHandover h else abortOrLeave h reason
      end
  end.

Definition handOver (fuel : nat) (t : handoverTarget) : upM E handoverOutcome :=
  random ← ask RandomID;
  match random with
  | None => mret NotRecorded
  | Some id =>
      let h := preparedHandover t id in
      err ← writeHandover h;
      match err with
      | Some _ => mret NotRecorded
      | None =>
          occupied ← ask (InspectContainer (SuccessorName h));
          match occupied with
          | Ok _ => aborting h "" false "successor name occupied"
          | Err DockerNotFound =>
              match successorSource (htSelf t) with
              | None => aborting h "" false "successor configuration could not be derived"
              | Some source =>
                  created ← mutate (MutCreate (SuccessorName h) source (htImage t) (htReference t));
                  match created with
                  | Err _ => aborting h "" true "successor could not be created"
                  | Ok successor =>
                      let h' := withSuccessor successor (withPhase handoverCreated h) in
                      err ← writeHandover h';
                      match err with
                      | Some _ => aborting h successor true "successor could not be recorded"
                      | None => handOverTo fuel h' t
                      end
                  end
              end
          | Err _ => aborting h "" false "successor name could not be checked"
          end
      end
  end.

(** ** The successor *)

(** [None]: this successor could take over. *)
Definition standbyChecks (self : string) (h : dockerHandover) : upM E (option string) :=
  inspected ← ask (InspectContainer self);
  match inspected with
  | Err _ => mret (Some "its own container cannot be inspected")
  | Ok me =>
      match decodeConfig (cConfig me) with
      | None => mret (Some "its own configuration is invalid")
      | Some config =>
          if decide (cImage me <> HImageID h) then mret (Some "it does not run the handover's image") else
          if decide (hoVersion options <> HVersion h \/ default "" (dcLabels config !! imageVersionLabel) <> HVersion h)
          then mret (Some "it is not a build of the handover's version") else
          agent ← ask (InspectContainer (hoTargetName options));
          match agent with
          | Err _ => mret (Some "the agent cannot be inspected")
          | Ok agent =>
              if negb (cRunning agent) then mret (Some "the agent is not running") else
              if decide (cID agent <> AgentContainerID h) then mret (Some "the agent is not the one the handover is about") else
              if decide (isUpdaterContainer options me agent <> None) then mret (Some "it is not an updater of this agent") else
              if decide (validateContainer options agent (hoVersion options) <> None) then mret (Some "this build would not accept the agent") else
              digest ← ask OwnBinaryDigest;
              if decide (digest <> Some (AgentBinarySHA256 h)) then mret (Some "its binary is not the one the agent proved readiness with") else
              request ← ask (FileCheck "request.json");
              if negb request then mret (Some "it cannot reach the request slot") else
              receipts ← ask (FileCheck "receipts");
              mret (if receipts : bool then None else Some "it cannot open receipts/")
          end
      end
  end.

Definition writeStandbyProof (proof : dockerStandbyProof) : upM E bool :=
  if negb (validateProof proof) then mret false else
  outcome ← ask WriteOutcome;
  mret (match outcome with WriteDone => true | _ => false end).

Definition prove (self : string) (h : dockerHandover) : upM E bool :=
  reason ← standbyChecks self h;
  match reason with
  | Some _ => mret false
  | None => writeStandbyProof (MkStandbyProof (HID h) self (HVersion h) (AgentBinarySHA256 h))
  end.

(** The journal read under the lock is still the one [h] came from. *)
Definition stillNames (journal : option dockerHandover) (h : dockerHandover) (phase : string) (who : dockerHandover -> string) (self : string) : bool :=
  match journal with
  | Some j => bool_decide (HID j = HID h /\ HPhase j = phase /\ who j = self)
  | None => false
  end.

(** [abandon]: whether it is now primary. *)
Definition abandon (pid : nat) (self : string) (h : dockerHandover) : upM E bool :=
  held ← tryLock pid;
  match held with
  | LockTaken =>
      loaded ← readHandover true;
      match loaded with
      | Ok (Some j) =>
          if stillNames (Some j) h handoverCreated SuccessorID self then
            err ← writeHandover (withEnd "predecessor removed" (NotBeforeUnix j) (withPhase handoverAbandoned j));
            match err with None => mret true | Some _ => _ ← unlock pid; mret false end
          else _ ← unlock pid; mret false
      | _ => _ ← unlock pid; mret false
      end
  | _ => mret false
  end.

(** One turn of [standby]: whether it has proved itself, and at how many looks in
    a row the predecessor was gone. *)
Definition standbyTurn (pid : nat) (self : string) (h : dockerHandover) (proven : bool) (missing : Z) : upM E (waitResult (bool * Z)) :=
  event ← ask NextWait;
  match event with
  | WaitStopped => mret Leaves
  | WaitCheck => proven ← (if proven then mret true else prove self h); mret (Stays (proven, missing))
  | WaitPoll =>
      loaded ← readHandover false;
      let journal := match loaded with Ok j => j | Err _ => None end in
      mret (if stillNames journal h handoverCreated SuccessorID self then Stays (proven, missing) else Leaves)
  | WaitLook =>
      gone ← ask (InspectContainer (PredecessorID h));
      let missing := match gone with Err DockerNotFound => missing + 1 | _ => 0 end in
      if decide (missing < 2) then mret (Stays (proven, missing)) else
      if negb proven then mret (Stays (proven, missing)) else
      acts ← abandon pid self h;
      mret (if acts : bool then Acts else Stays (proven, missing))
  | WaitDeadline => mret (Stays (proven, missing))
  end.

(** [fence]: the lock is kept ([Some]) only by a candidate. *)
Definition fence (pid : nat) (self : string) : upM E (option (option dockerHandover)) :=
  loaded ← readHandover (negb (bool_decide (self = "")));
  match loaded with
  | Err _ => _ ← unlock pid; mret None
  | Ok journal =>
      if decide ((classifyRole journal self).1 = roleCandidate) then mret (Some journal) else _ ← unlock pid; mret None
  end.

(** ** The primary *)

Definition finish (h : dockerHandover) : upM E (option string) :=
  before ← ask (InspectContainer (PredecessorID h));
  stopped ← (match before with
             | Err DockerNotFound => mret None
             | Err _ => mret (Some "inspect")
             | Ok _ =>
                 stopped ← mutate (MutStop (PredecessorID h));
                 match stopped with
                 | Err (MutateEngine DockerNotFound) | Ok _ =>
                     after ← ask (InspectContainer (PredecessorID h));
                     mret (match after with
                           | Ok p => if cRunning p || cRestarting p then Some "it is still running" else None
                           | Err DockerNotFound => None
                           | Err _ => Some "inspect"
                           end)
                 | Err _ => mret (Some "stop")
                 end
             end);
  match stopped with
  | Some e => mret (Some e)
  | None => writeHandover (withPhase handoverCompleted h)
  end.

Definition supersede (h : dockerHandover) : upM E (option string) :=
  writeHandover (withEnd "another updater holds the lock" (NotBeforeUnix h) (withPhase handoverSuperseded h)).

(** One container a finished handover named. *)
Definition tidyContainer (self : string) (agent : dockerContainer) (id : string) : upM E unit :=
  if decide (id = "" \/ id = self) then mret tt else
  container ← ask (InspectContainer id);
  match container with
  | Err _ => mret tt
  | Ok c => if decide (isUpdaterContainer options c agent <> None) then mret tt else _ ← removeUpdater options id; mret tt
  end.

(** The canonical name, when it is free or the predecessor's. *)
Definition tidyName (self : string) (h : dockerHandover) : upM E unit :=
  if decide (self <> PredecessorID h /\ self <> SuccessorID h) then mret tt else
  me ← ask (InspectContainer self);
  match me with
  | Err _ => mret tt
  | Ok me =>
      if decide (cName me = "/" +:+ CanonicalName h) then mret tt else
      holder ← ask (InspectContainer (CanonicalName h));
      match holder with
      | Err DockerNotFound => _ ← mutate (MutRename self (CanonicalName h)); mret tt
      | Err _ => mret tt
      | Ok holder =>
          if decide (cID holder = PredecessorID h /\ cID holder <> self) then
            moved ← mutate (MutRename (cID holder) (RetiredName h));
            match moved with Err _ => mret tt | Ok _ => _ ← mutate (MutRename self (CanonicalName h)); mret tt end
          else mret tt
      end
  end.

Definition tidy (pid : nat) (self : string) : upM E unit :=
  held ← locked pid;
  if bool_decide (self = "") || negb held then mret tt else
  loaded ← readHandover true;
  match loaded with
  | Ok (Some j) =>
      if negb (handoverTerminal (HPhase j)) then mret tt else
      agent ← ask (InspectContainer (hoTargetName options));
      match agent with
      | Err _ => mret tt
      | Ok agent => _ ← tidyContainer self agent (PredecessorID j); _ ← tidyContainer self agent (SuccessorID j); tidyName self j
      end
  | _ => mret tt
  end.

Definition dockerFinishRetry : Z := 30 * 1000000000.

(** [reconcile]: when a finish has to be tried again ([c.finishAt]); [pending] is
    what it is when nothing is done. *)
Definition reconcile (pid : nat) (self : string) (pending : option Z) : upM E (option Z) :=
  held ← locked pid;
  if bool_decide (self = "") || negb held then mret pending else
  loaded ← readHandover true;
  match loaded with
  | Err _ => mret None
  | Ok journal =>
      match journal, (classifyRole journal self).2 with
      | Some j, reconcileAbort =>
          err ← abortHandover j "" true (if decide (PredecessorID j <> self) then "another updater holds the lock" else "interrupted");
          match err with Some _ => mret None | None => _ ← tidy pid self; mret None end
      | Some j, reconcileFinish =>
          err ← finish j;
          match err with
          | Some _ => now ← ask MonotonicNow; mret (Some (now + durationOr (hoFinishRetry options) dockerFinishRetry))
          | None => _ ← tidy pid self; mret None
          end
      | Some j, reconcileSupersede =>
          err ← supersede j;
          match err with Some _ => mret None | None => _ ← tidy pid self; mret None end
      | _, _ => _ ← tidy pid self; mret None
      end
  end.

(** ** The retired predecessor *)

(** Nanoseconds. *)
Definition dockerReclaimMinAge : Z := 120 * 1000000000.
Definition dockerHeartbeatStale : Z := 30 * 1000000000.

Definition heartbeatStale : upM E bool :=
  age ← ask HeartbeatAge;
  mret (match age with None => true | Some age => bool_decide (durationOr (hoHeartbeatStale options) dockerHeartbeatStale < age) end).

(** [reclaim]: whether it is primary again. *)
Definition reclaim (pid : nat) (self : string) (h : dockerHandover) : upM E bool :=
  held ← tryLock pid;
  match held with
  | LockTaken =>
      loaded ← readHandover true;
      match loaded with
      | Ok (Some j) =>
          if stillNames (Some j) h handoverCommitted PredecessorID self then
            let reason := "successor never took over" in
            now ← ask UnixNow;
            err ← writeHandover (withEnd reason (handoverNotBefore (HAttempt j) reason now) (withPhase handoverReverted j));
            match err with
            | Some _ => _ ← unlock pid; mret false
            | None => _ ← removeUpdater options (SuccessorID j); mret true
            end
          else _ ← unlock pid; mret false
      | _ => _ ← unlock pid; mret false
      end
  | _ => mret false
  end.

(** One turn of [retiredWatch], since [since]. *)
Definition retiredTurn (pid : nat) (self : string) (h : dockerHandover) (since : Z) (staleBefore : bool) : upM E (waitResult bool) :=
  event ← ask NextWait;
  match event with
  | WaitStopped => mret Leaves
  | _ =>
      loaded ← readHandover false;
      let journal := match loaded with Ok j => j | Err _ => None end in
      if negb (stillNames journal h handoverCommitted PredecessorID self) then mret Leaves else
      now ← ask MonotonicNow;
      stale ← heartbeatStale;
      if stale && staleBefore && bool_decide (durationOr (hoReclaimMinAge options) dockerReclaimMinAge ≤ now - since) then
        acts ← reclaim pid self h;
        mret (if acts : bool then Acts else Stays stale)
      else mret (Stays stale)
  end.

End handover.
