(* ===== verification/Follow.v ===== *)
(** * Following the agent ([internal/upgrade/docker_follow.go],
      [docker_handover.go])

    When the acting updater evaluates whether to move onto the agent's image, and
    what makes it eligible. *)
From S2P Require Import Prelude Crash GoStrings Sha256 Protocol ReleaseId CatalogReview HandoverJournal UpgradeDocs UpdaterEngine AgentSwap Handover.

(** ** Pure checks *)

Definition productVersionNewer (version current : string) : bool :=
  match ParseProductVersion version, ParseProductVersion current with
  | Ok a, Ok b => bool_decide (0 < CompareProductVersion a b)
  | _, _ => false
  end.

Definition UpdaterHandoverProtocol : Z := 1.
Definition DockerLabelUpdaterHandover : string := DockerLabelPrefix +:+ "updater-handover".

Definition listsHandoverProtocol (value : string) (protocol : Z) : bool :=
  existsb (fun element => bool_decide (TrimSpace element = FormatInt protocol)) (Split "," value).

Definition CutSuffix (s suffix : string) : option string :=
  if HasSuffix s suffix then Some (take_str (String.length s - String.length suffix) s) else None.

(** [-(next|retired)-[0-9a-f]{8}$] removed. *)
Definition stripMarked (marker name : string) : option string :=
  let size := (String.length marker + 8)%nat in
  if decide (String.length name < size)%nat then None else
  let keep := (String.length name - size)%nat in
  match CutPrefix (drop_str keep name) marker with
  | Some digits => if lowerHex digits 8 then Some (take_str keep name) else None
  | None => None
  end.
Definition stripHandoverSuffix (name : string) : string :=
  match stripMarked "-next-" name, stripMarked "-retired-" name with
  | Some base, _ => base
  | None, Some base => base
  | None, None => name
  end.

Definition canonicalUpdaterName (self : dockerContainer) (journal : option dockerHandover) : string :=
  let own := stripHandoverSuffix (default (cName self) (CutPrefix (cName self) "/")) in
  match journal with
  | Some j => if decide (handoverTerminal (HPhase j) = true /\ cID self <> "" /\ SuccessorID j = cID self) then CanonicalName j else own
  | None => own
  end.

(** ** The schedule *)

(** Times and durations in nanoseconds. *)
Record followState := MkFollowState { fsSince : Z; fsSettled : bool; fsLast : Z; fsSlot : string }.

Definition followBegin (now : Z) (slot : string) : followState := MkFollowState now false 0 slot.

Definition followDue (f : followState) (now : Z) (slot : string) (settle interval : Z) : bool * followState :=
  let succeeded := negb (bool_decide (slot = fsSlot f)) && HasSuffix slot "/succeeded" in
  let due := if succeeded then true else if negb (fsSettled f) then bool_decide (settle ≤ now - fsSince f) else bool_decide (interval ≤ now - fsLast f) in
  (due, MkFollowState (fsSince f) (fsSettled f) (fsLast f) slot).

Definition followEvaluated (f : followState) (now : Z) : followState := MkFollowState (fsSince f) true now (fsSlot f).

Definition dockerFollowSettle : Z := 30 * 1000000000.
Definition dockerFollowInterval : Z := 600 * 1000000000.
Definition dockerEvidenceScanCap : Z := 4096.

Section follow.
Context {E : Type} `{UpdaterHost E} `{DockerJSON} `{Protocol} `{UpgradeProtocol} (options : helperOptions).
Implicit Types (s : ustate (E := E)).

(** F1: why this process may not start a handover. *)
Definition followDisabled (pid : nat) (self : string) : upM E (option string) :=
  held ← locked pid;
  if decide (self = "") then mret (Some "self unresolved") else
  if negb held then mret (Some "the updater lock is not held") else
  usable ← ask (FileCheck "updater");
  mret (if negb usable then Some "updater directory unusable" else
        if negb (ValidVersion (hoVersion options)) then Some "the compiled version is not a release" else
        if hoFollowOptOut options then Some "opt-out" else None).

(** F2: the digest of an idle slot's request, or why it is not idle. *)
Definition slotIdle : upM E (res string string) :=
  bytes ← ask RequestBytes;
  match bytes with
  | None => mret (Err "request.json cannot be read")
  | Some None => mret (Ok "")
  | Some (Some data) =>
      match DecodeRequest data with
      | None => mret (Err "request.json does not decode")
      | Some request =>
          if negb (bool_decide (ParseArgs (RqTask request) = Ok (RqArgs request))) then mret (Err "request.json does not match its task") else
          read ← readReceipt (TID (RqTask request));
          mret (match read with
                | DocIs receipt =>
                    if negb (sameTask (RqTask (RcRequest receipt)) (RqTask request)) || negb (bool_decide (RqArgs (RcRequest receipt) = RqArgs request))
                    then Err "the receipt is for another request" else
                    if negb (dockerReceiptTerminal (RcPhase receipt)) then Err "the task is under way" else Ok (sha256_hex data)
                | _ => Err "the task has no readable receipt"
                end)
      end
  end.

Definition slotKey : upM E string :=
  bytes ← ask RequestBytes;
  match bytes with
  | Some (Some data) =>
      match DecodeRequest data with
      | None => mret ""
      | Some request =>
          read ← readReceipt (TID (RqTask request));
          mret (match read with
                | DocIs receipt => if sameTask (RqTask (RcRequest receipt)) (RqTask request) then TID (RqTask request) +:+ "/" +:+ RcPhase receipt else ""
                | _ => ""
                end)
      end
  | _ => mret ""
  end.

(** F5. *)
Fixpoint scanEvidence (agent : dockerContainer) (reference : string) (names found : list string) : upM E (list string) :=
  match names with
  | [] => mret found
  | name :: names =>
      match CutSuffix name ".docker.json" with
      | None => scanEvidence agent reference names found
      | Some task =>
          if HasPrefix name "." || negb (validReceiptTaskID task) then scanEvidence agent reference names found else
          read ← readTransaction task;
          scanEvidence agent reference names
            (match read with
             | DocIs t => if decide (NewContainerID t = cID agent /\ NewImageID t = cImage agent /\ NewImage t = reference) then found ++ [task] else found
             | _ => found
             end)
      end
  end.

Definition findEvidence (agent : dockerContainer) (version : string) : upM E (res string (string * string)) :=
  if decide (cID agent = "" \/ cImage agent = "") then mret (Err "the agent's identity is unknown") else
  let limit := durationOr (hoEvidenceScanCap options) dockerEvidenceScanCap in
  listed ← ask (ReceiptNames (limit + 1));
  match listed with
  | None => mret (Err "receipts/ cannot be listed")
  | Some names =>
      if decide (limit < Z.of_nat (length names)) then mret (Err "receipts/ holds too many entries") else
      found ← scanEvidence agent (DockerImageRepository +:+ ":" +:+ version) names [];
      match found with
      | [task] =>
          read ← readReceipt task;
          mret (match read with
                | DocIs receipt =>
                    match RcResult receipt with
                    | Some r =>
                        if decide (receiptTask receipt = task /\ RcPhase receipt = "succeeded" /\ UrVersion r = version /\ Restarted r = true /\ validSHA256 (UrBinarySHA256 r) = true)
                        then Ok (task, UrBinarySHA256 r) else Err "the task did not record a proven installation"
                    | None => Err "the task did not record a proven installation"
                    end
                | _ => Err "the task has no readable receipt"
                end)
      | _ => mret (Err "not exactly one updater transaction installed this agent container")
      end
  end.

(** F3: everything the last handover named is gone. *)
Fixpoint allGone (self : string) (ids : list string) : upM E bool :=
  match ids with
  | [] => mret true
  | id :: ids =>
      if decide (id = "" \/ id = self) then allGone self ids else
      found ← ask (InspectContainer id);
      match found with Err DockerNotFound => allGone self ids | _ => mret false end
  end.

(** F4, F7 and F8: what the agent's and this updater's own container say; the
    version and the canonical name. *)
Definition eligible (self agent : dockerContainer) (journal : option dockerHandover) : option (string * string) :=
  agentConfig ← decodeConfig (cConfig agent);
  selfConfig ← decodeConfig (cConfig self);
  let version := default "" (dcLabels agentConfig !! imageVersionLabel) in
  let canonical := canonicalUpdaterName self journal in
  if cRunning agent && ValidVersion version && bool_decide (validateContainer options agent version = None) &&
     lowerHex (cID agent) 64 && dockerImageID (cImage agent) && productVersionNewer version (hoVersion options) &&
     negb (bool_decide (cImage self = cImage agent)) && bool_decide (default "" (dcLabels selfConfig !! imageVersionLabel) = hoVersion options) &&
     bool_decide (isUpdaterContainer options self agent = None) && dockerObjectName canonical && dockerObjectName (canonical +:+ "-retired-00000000")
  then Some (version, canonical) else None.

(** F6. *)
Definition followable (image : dockerImage) (agent : dockerContainer) (version : string) : bool :=
  bool_decide (diID image = cImage agent) && bool_decide (validateImage options image version = None) && bool_decide (diArchitecture image = hoArch options) &&
  listsHandoverProtocol (default "" (diLabels image !! DockerLabelUpdaterHandover)) UpdaterHandoverProtocol.

(** [followTarget]: what to follow, if anything. *)
Definition followTarget (pid : nat) (self : string) : upM E (option handoverTarget) :=
  disabled ← followDisabled pid self;
  if decide (disabled <> None) then mret None else
  slot ← slotIdle;
  match slot with
  | Err _ => mret None
  | Ok requestSHA256 =>
      loaded ← readHandover true;
      match loaded with
      | Err _ => mret None
      | Ok journal =>
          if match journal with Some j => negb (handoverTerminal (HPhase j)) | None => false end then mret None else
          me ← ask (InspectContainer self);
          match me with
          | Err _ => mret None
          | Ok me =>
              if decide (cID me <> self) then mret None else
              agent ← ask (InspectContainer (hoTargetName options));
              match agent with
              | Err _ => mret None
              | Ok agent =>
                  match eligible me agent journal with
                  | None => mret None
                  | Some (version, canonical) =>
                      evidence ← findEvidence agent version;
                      match evidence with
                      | Err _ => mret None
                      | Ok (evidenceTask, evidenceBinary) =>
                          let reference := DockerImageRepository +:+ ":" +:+ version in
                          image ← ask (InspectImage reference);
                          match image with
                          | Err _ => mret None
                          | Ok image =>
                              if negb (followable image agent version) then mret None else
                              gone ← (match journal with Some j => allGone self [PredecessorID j; SuccessorID j] | None => mret true end);
                              if negb gone then mret None else
                              now ← ask UnixNow;
                              mret (match nextHandoverAttempt journal self (cImage agent) now with
                                    | Err _ => None
                                    | Ok attempt =>
                                        Some (MkHandoverTarget me agent image version reference evidenceTask evidenceBinary canonical attempt requestSHA256)
                                    end)
                          end
                      end
                  end
              end
          end
      end
  end.

(** What [run] keeps between ticks: the schedule and [c.finishAt]. *)
Record runState := MkRunState { rsFollow : followState; rsFinishAt : option Z }.

(** [followAgent]: [true] once the role is handed over. *)
Definition followAgent (fuel pid : nat) (self : string) (r : runState) : upM E (bool * runState) :=
  held ← locked pid;
  if bool_decide (self = "") || negb held then mret (false, r) else
  now ← ask MonotonicNow;
  finishAt ← (match rsFinishAt r with
              | Some at_ => if decide (at_ ≤ now) then reconcile options pid self (rsFinishAt r) else mret (rsFinishAt r)
              | None => mret None
              end);
  slot ← slotKey;
  let '(due, f) := followDue (rsFollow r) now slot (durationOr (hoFollowSettle options) dockerFollowSettle) (durationOr (hoFollowInterval options) dockerFollowInterval) in
  if negb due then mret (false, MkRunState f finishAt) else
  let r := MkRunState (followEvaluated f now) finishAt in
  _ ← tidy options pid self;
  found ← followTarget pid self;
  match found with
  | None => mret (false, r)
  | Some t =>
      outcome ← handOver options fuel t;
      mret (match outcome with HandedOver => true | _ => false end, r)
  end.

End follow.
