(* ===== verification/UpdaterRoles.v ===== *)
(** * Updater roles ([internal/upgrade/docker_helper.go], [docker_self.go])

    One updater process: how it finds its own container, and the role loop, as a
    function that takes one turn. *)
From S2P Require Import Prelude Crash GoStrings Protocol ReleaseId CatalogReview HandoverJournal UpgradeDocs UpdaterEngine AgentSwap Handover Follow.

(** ** Its own container *)

(** [/containers/([0-9a-f]{64})/hostname$]. *)
Definition dockerHostnameRoot (root : string) : option string :=
  rest ← CutSuffix root "/hostname";
  let id := drop_str (String.length rest - 64) rest in
  if lowerHex id 64 && HasSuffix (take_str (String.length rest - 64) rest) "/containers/" then Some id else None.

Definition newline : ascii := ascii_of_nat 10.

Definition parseMountinfoSelfID (mountinfo : string) : option string :=
  let roots := omap (fun line =>
    match Fields line with
    | _ :: _ :: _ :: root :: point :: _ => if decide (point = "/etc/hostname") then Some root else None
    | _ => None
    end) (Split newline mountinfo) in
  match roots with [root] => dockerHostnameRoot root | _ => None end.

(** ** Processes *)

(** What a process is doing; an acting one may act alone, without a lock. *)
Inductive activity :=
| Starting
| Choosing
| Competing
| InStandby (h : dockerHandover) (proven : bool) (missing : Z)
| InRetiredWatch (h : dockerHandover) (since : Z) (staleBefore : bool)
| Retired
| Acting (alone : bool) (r : runState)
| Ended.

Record process := MkProcess { pSelf : string; pStarted : Z; pDoing : activity }.

Section roles.
Context {E : Type} `{UpdaterHost E} `{DockerJSON} `{Protocol} `{UpgradeProtocol} (options : helperOptions).
Implicit Types (s : ustate (E := E)).

Definition resolveSelf : upM E (option string) :=
  mountinfo ← ask Mountinfo;
  match mountinfo ≫= parseMountinfoSelfID with
  | None => mret None
  | Some id =>
      me ← ask (InspectContainer id);
      match me with
      | Err _ => mret None
      | Ok me =>
          if negb (bool_decide (cID me = id)) || negb (cRunning me) then mret None else
          match decodeConfig (cConfig me) with
          | None => mret None
          | Some config =>
              if decide (dcHostname config = "") then mret (Some id) else
              hostname ← ask Hostname;
              mret (if decide (hostname = Some (dcHostname config)) then Some id else None)
          end
      end
  end.

(** No other updater can be alive. *)
Definition aloneWithoutLock (self : string) : upM E bool :=
  dir ← ask UpdaterDirLook;
  match dir with
  | DirAbsent | DirForeign => mret true
  | DirUnread => mret false
  | DirReal =>
      loaded ← loadHandover;
      match loaded with
      | Err _ => mret false
      | Ok None => mret true
      | Ok (Some j) =>
          if negb (handoverTerminal (HPhase j)) then mret false else
          if decide ((classifyRole (Some j) self).1 <> roleCandidate) then mret false else
          allGone self [PredecessorID j; SuccessorID j]
      end
  end.

(** The role loop ends: the deferred [unlock]. *)
Definition ending (pid : nat) (p : process) : upM E process := _ ← unlock pid; mret (MkProcess (pSelf p) (pStarted p) Ended).

Definition doing (p : process) (a : activity) : process := MkProcess (pSelf p) (pStarted p) a.

(** [primary], up to the loop of [run]. *)
Definition primary (pid : nat) (alone : bool) (p : process) : upM E process :=
  prepared ← ask ControlPrepared;
  if negb prepared then ending pid p else
  finishAt ← reconcile options pid (pSelf p) None;
  now ← ask MonotonicNow;
  slot ← slotKey;
  mret (doing p (Acting alone (MkRunState (followBegin now slot) finishAt))).

(** [unlocked]. *)
Definition unlocked (pid : nat) (p : process) : upM E process :=
  _ ← unlock pid; primary pid true (MkProcess "" (pStarted p) (pDoing p)).

Definition startTurn (pid : nat) (p : process) : upM E process :=
  started ← ask MonotonicNow;
  self ← resolveSelf;
  let p := MkProcess (default "" self) started Choosing in
  opened ← ask LockAnswer;
  match opened with
  | LockUnopened =>
      alone ← aloneWithoutLock (pSelf p);
      if alone : bool then unlocked pid p else mret p
  | _ => mret p
  end.

Definition chooseTurn (pid : nat) (p : process) : upM E process :=
  stopped ← ask Cancelled;
  if stopped : bool then ending pid p else
  loaded ← readHandover false;
  let journal := match loaded with Ok j => j | Err _ => None end in
  match journal, (classifyRole journal (pSelf p)).1 with
  | Some j, roleRetired => mret (doing p Retired)
  | Some j, roleRetiredWatch => now ← ask MonotonicNow; mret (doing p (InRetiredWatch j (Z.max now (pStarted p)) false))
  | Some j, roleStandby => proven ← prove options (pSelf p) j; mret (doing p (InStandby j proven 0))
  | _, _ => mret (doing p Competing)
  end.

(** [compete] and then [fence]. *)
Definition competeTurn (pid : nat) (p : process) : upM E process :=
  let again :=
    event ← ask NextWait;
    match event with
    | WaitStopped => mret (doing p Choosing)
    | _ =>
        loaded ← readHandover false;
        mret (match loaded with
              | Ok (Some j) => if decide ((classifyRole (Some j) (pSelf p)).1 = roleCandidate) then p else doing p Choosing
              | _ => p
              end)
    end in
  held ← tryLock pid;
  match held with
  | LockTaken =>
      kept ← fence pid (pSelf p);
      match kept with Some _ => primary pid false p | None => mret (doing p Choosing) end
  | LockError LockUnopened | LockError LockUnsupported =>
      alone ← aloneWithoutLock (pSelf p);
      if alone : bool then unlocked pid p else again
  | _ => again
  end.

(** One tick of [run]: a failed heartbeat ends it as a stop does. *)
Definition actTurn (fuel pid : nat) (p : process) (alone : bool) (r : runState) : upM E process :=
  event ← ask NextWait;
  match event with
  | WaitStopped | WaitDeadline => ending pid p
  | _ =>
      _ ← processCurrent options fuel;
      followed ← followAgent options fuel pid (pSelf p) r;
      let '(handedOver, r) := followed in
      if handedOver : bool then _ ← unlock pid; mret (doing p Choosing) else mret (doing p (Acting alone r))
  end.

Definition turn (fuel pid : nat) (p : process) : upM E process :=
  match pDoing p with
  | Starting => startTurn pid p
  | Choosing => chooseTurn pid p
  | Competing => competeTurn pid p
  | InStandby h proven missing =>
      next ← standbyTurn options pid (pSelf p) h proven missing;
      match next with
      | Stays (proven, missing) => mret (doing p (InStandby h proven missing))
      | Leaves => mret (doing p Choosing)
      | Acts => primary pid false p
      end
  | InRetiredWatch h since staleBefore =>
      next ← retiredTurn options pid (pSelf p) h since staleBefore;
      match next with
      | Stays stale => mret (doing p (InRetiredWatch h since stale))
      | Leaves => mret (doing p Choosing)
      | Acts => primary pid false p
      end
  | Retired =>
      event ← ask NextWait;
      match event with WaitStopped => ending pid p | _ => mret p end
  | Acting alone r => actTurn fuel pid p alone r
  | Ended => mret p
  end.

End roles.
