(* ===== verification/AgentSpared.v ===== *)
(** * The handover spares the agent

    Whatever a handover does to updater containers, it goes through one guard; so
    nothing but an agent swap ever changes the container the agent's name holds. *)
From S2P Require Import Prelude Crash GoStrings Sha256 Protocol ReleaseId CatalogReview HandoverJournal UpgradeDocs UpdaterEngine AgentSwap UpdaterLogic EngineLaws UpdaterSample Handover Follow UpdaterRoles.

Section spared.
Context {E : Type} `{UpdaterHost E} `{HE : !EngineLaws E} `{!HostLaws E} `{DockerJSON} `{Protocol} `{UpgradeProtocol} (options : helperOptions).
Context (Hname : isName (hoTargetName options) = true) (v : holder).
Implicit Types (s : ustate (E := E)).

Notation agent := (hoTargetName options).

(** The agent's name holds [v]. *)
Definition agentIs s : Prop := held (uHost s) agent = v.

Lemma spares_ask {A} (call : E -> option A * E) : quiet held call -> keeps agentIs (ask call).
Proof. intros Hq s Hs. unfold ask. specialize (Hq (uHost s) agent). destruct (call (uHost s)) as [[a|] e]; unfold agentIs in *; cbn in *; congruence. Qed.

(** What does not reach the host. *)
Lemma spares_local {A} (m : upM E A) : (forall s, uHost (m s).2 = uHost s) -> keeps agentIs m.
Proof. intros Hm s Hs. specialize (Hm s). destruct (m s) as [[a|] s']; unfold agentIs in *; cbn in *; congruence. Qed.

Lemma spares_note op : keeps agentIs (note op).
Proof. by apply spares_local. Qed.
Lemma spares_locked pid : keeps agentIs (locked pid).
Proof. by apply spares_local. Qed.
Lemma spares_unlock pid : keeps agentIs (unlock pid).
Proof. apply spares_local. intros s. unfold unlock. by case_decide. Qed.
Lemma spares_flock pid : keeps agentIs (flock pid).
Proof. apply spares_local. intros s. unfold flock. by case_decide. Qed.
Lemma spares_readJournal : keeps agentIs readJournal.
Proof. by apply spares_local. Qed.
Lemma spares_putJournal f : keeps agentIs (putJournal f).
Proof. by apply spares_local. Qed.
Lemma spares_putHandover h : keeps agentIs (putHandover h).
Proof. by apply spares_local. Qed.
Lemma spares_lookReceipt task : keeps agentIs (lookReceipt task).
Proof. by apply spares_local. Qed.
Lemma spares_lookTransaction task : keeps agentIs (lookTransaction task).
Proof. by apply spares_local. Qed.

Hint Resolve spares_ask spares_note spares_locked spares_unlock spares_flock spares_readJournal spares_putJournal spares_putHandover spares_lookReceipt spares_lookTransaction : crash.

Ltac sparing def := unfold def; cbv zeta; walk.

(** ** The guard *)

Lemma isUpdaterContainer_other c a : isUpdaterContainer options c a = None -> cID c <> cID a.
Proof.
  unfold isUpdaterContainer. destruct (decodeConfig _); [|done]. destruct (decodeHostConfig _); [|done]. case_decide as Hd; [done|]. intros _ Heq. apply Hd. auto.
Qed.

(** An operation on a container that is not the agent. *)
Definition sparesID {A} (call : string -> E -> option A * E) : Prop :=
  forall id e, elsewhere id agent (held e agent) -> held (call id e).2 agent = held e agent.

(** The container found is not what the agent's name holds. *)
Lemma found_elsewhere s e' (a c : dockerContainer) n :
  agentIs s -> (exists on, held (uHost s) agent = Some (cID a, on)) -> (InspectContainer n e').1 = Some (Ok c) -> cID c <> cID a ->
  elsewhere (cID c) agent v.
Proof.
  intros Hs (on & Ha) Hc Hne. pose proof (inspect_id _ _ _ Hc) as Hid. split.
  - intros Heq. unfold isName in Hname. unfold isID, lowerHex in Hid. rewrite <-Heq in Hname. apply andb_true_iff in Hid as [_ Hid]. by rewrite Hid in Hname.
  - right. split; [done|]. intros on'. unfold agentIs in Hs. rewrite <-Hs, Ha. congruence.
Qed.

(** Inspecting the agent tells what its name holds. *)
Lemma runs_agent {A} (f : res dockerError dockerContainer -> upM E A) :
  (forall e, keeps agentIs (f (Err e))) ->
  (forall a, (exists on, v = Some (cID a, on)) -> keeps agentIs (f (Ok a))) ->
  keeps agentIs (ask (InspectContainer agent) ≫= f).
Proof.
  intros Herr Hok s Hs. unfold mbind, crashM_bind, ask. pose proof (inspect_quiet agent (uHost s) agent) as Hq. pose proof (fun c => inspect_found agent (uHost s) c Hname) as Hf.
  destruct (InspectContainer agent (uHost s)) as [[[a|er]|] e]; cbn in Hq, Hf.
  - apply Hok; [|unfold agentIs in *; cbn; congruence]. destruct (Hf a eq_refl) as (on & Ha & _). exists on. unfold agentIs in Hs. congruence.
  - apply Herr. unfold agentIs in *. cbn. congruence.
  - unfold agentIs in *. cbn. congruence.
Qed.

(** An operation on a container found to be an updater. *)
Lemma runs_found {A} n (a : dockerContainer) (f : res dockerError dockerContainer -> upM E A) :
  (exists on, v = Some (cID a, on)) ->
  (forall e, keeps agentIs (f (Err e))) ->
  (forall c, (isUpdaterContainer options c a = None -> elsewhere (cID c) agent v) -> keeps agentIs (f (Ok c))) ->
  keeps agentIs (ask (InspectContainer n) ≫= f).
Proof.
  intros Ha Herr Hok s Hs. unfold mbind, crashM_bind, ask. pose proof (inspect_quiet n (uHost s) agent) as Hq.
  destruct (InspectContainer n (uHost s)) as [[[c|er]|] e] eqn:Hi; cbn in Hq.
  - apply Hok; [|unfold agentIs in *; cbn; congruence]. intros Hu%isUpdaterContainer_other. eapply (found_elsewhere s _ a c n); [done| |by rewrite Hi|done].
    unfold agentIs in Hs. by rewrite Hs.
  - apply Herr. unfold agentIs in *. cbn. congruence.
  - unfold agentIs in *. cbn. congruence.
Qed.

Lemma spares_elsewhere {A} (call : string -> E -> option A * E) id : sparesID call -> elsewhere id agent v -> keeps agentIs (ask (call id)).
Proof.
  intros Hc He s Hs. unfold ask. specialize (Hc id (uHost s)). unfold agentIs in Hs. rewrite Hs in Hc. specialize (Hc He).
  destruct (call id (uHost s)) as [[a|] e]; unfold agentIs; cbn in *; congruence.
Qed.

Lemma spares_create n c i r : n <> agent -> keeps agentIs (ask (CreateReplacement n c i r)).
Proof.
  intros Hn s Hs. unfold ask. pose proof (create_others n c i r (uHost s) agent (not_eq_sym Hn)) as Hc.
  destruct (CreateReplacement n c i r (uHost s)) as [[a|] e]; unfold agentIs in *; cbn in *; congruence.
Qed.

Lemma spares_mutate m : keeps agentIs (mutateUpdater options m).
Proof.
  unfold mutateUpdater. apply runs_agent; [by walk|]. intros a Ha. case_decide as Ht; [by walk|]. assert (mutationTarget m <> agent) as Hm by tauto. clear Ht.
  destruct m as [name source image reference|t|t|t name|t force].
  - walk. by apply spares_create.
  - eapply runs_found; [exact Ha|by walk|]. intros c Hc. case_decide as Hu; [by walk|]. walk. apply spares_elsewhere; [|by apply Hc]. intros id e. apply start_others.
  - eapply runs_found; [exact Ha|by walk|]. intros c Hc. case_decide as Hu; [by walk|]. walk. apply spares_elsewhere; [|by apply Hc]. intros id e. apply stop_others.
  - destruct (negb (dockerObjectName name)); [by walk|]. cbn [orb]. destruct (bool_decide (name = agent)) eqn:Hn; [by walk|]. apply bool_decide_eq_false in Hn.
    eapply runs_found; [exact Ha|by walk|]. intros c Hc. case_decide as Hu; [by walk|]. walk.
    apply (spares_elsewhere (fun id => RenameContainer id name)); [|by apply Hc]. intros id e He. by apply rename_others.
  - eapply runs_found; [exact Ha|by walk|]. intros c Hc. case_decide as Hu; [by walk|]. walk.
    apply (spares_elsewhere (fun id => RemoveContainer id force)); [|by apply Hc]. intros id e. apply remove_others.
Qed.

Hint Resolve spares_mutate : crash.

(** ** Every program of the handover *)

Lemma spares_load : keeps agentIs loadHandover.
Proof. sparing @loadHandover. Qed.
Hint Resolve spares_load : crash.
Lemma spares_read quarantine : keeps agentIs (readHandover quarantine).
Proof. sparing @readHandover. Qed.
Lemma spares_write next : keeps agentIs (writeHandover next).
Proof. unfold writeHandover, storeHandover. walk. Qed.
Lemma spares_remove id : keeps agentIs (removeUpdater options id).
Proof. sparing @removeUpdater. Qed.
Lemma spares_tryLock pid : keeps agentIs (tryLock pid).
Proof. sparing @tryLock. Qed.
Hint Resolve spares_read spares_write spares_remove spares_tryLock : crash.

Lemma spares_abort h known byName reason : keeps agentIs (abortHandover options h known byName reason).
Proof. sparing @abortHandover. Qed.
Lemma spares_requestChanged h : keeps agentIs (requestChanged h).
Proof. unfold requestChanged, requestDigest. walk. Qed.
Hint Resolve spares_abort spares_requestChanged : crash.
Lemma spares_waitStandby fuel h first proven : keeps agentIs (waitStandby options fuel h first proven).
Proof. revert first proven. induction fuel as [|fuel IH]; intros first proven; cbn [waitStandby]; cbv zeta; walk. Qed.
Hint Resolve spares_waitStandby : crash.

Lemma spares_handOver fuel t : keeps agentIs (handOver options fuel t).
Proof. unfold handOver, handOverTo, commitHandover, abortOrLeave, aborting. cbv zeta. walk. Qed.
Lemma spares_prove self h : keeps agentIs (prove options self h).
Proof. unfold prove, standbyChecks, writeStandbyProof. walk. Qed.
Lemma spares_abandon pid self h : keeps agentIs (abandon pid self h).
Proof. sparing @abandon. Qed.
Lemma spares_fence pid self : keeps agentIs (fence pid self).
Proof. sparing @fence. Qed.
Lemma spares_reclaim pid self h : keeps agentIs (reclaim options pid self h).
Proof. sparing @reclaim. Qed.
Lemma spares_tidy pid self : keeps agentIs (tidy options pid self).
Proof. unfold tidy, tidyContainer, tidyName. walk. Qed.
Hint Resolve spares_handOver spares_prove spares_abandon spares_fence spares_reclaim spares_tidy : crash.
Lemma spares_reconcile pid self pending : keeps agentIs (reconcile options pid self pending).
Proof. unfold reconcile, finish, supersede. walk. Qed.
Lemma spares_readReceipt task : keeps agentIs (readReceipt task).
Proof. sparing @readReceipt. Qed.
Lemma spares_readTransaction task : keeps agentIs (readTransaction task).
Proof. sparing @readTransaction. Qed.
Hint Resolve spares_reconcile spares_readReceipt spares_readTransaction : crash.
Lemma spares_slotKey : keeps agentIs slotKey.
Proof. sparing @slotKey. Qed.
Lemma spares_scan a reference names found : keeps agentIs (scanEvidence a reference names found).
Proof. revert found. induction names as [|name names IH]; intros found; cbn [scanEvidence]; walk. Qed.
Lemma spares_allGone self ids : keeps agentIs (allGone self ids).
Proof. induction ids as [|id ids IH]; cbn [allGone]; walk. Qed.
Hint Resolve spares_slotKey spares_scan spares_allGone : crash.
Lemma spares_followTarget pid self : keeps agentIs (followTarget options pid self).
Proof. unfold followTarget, followDisabled, slotIdle, findEvidence. cbv zeta. walk. Qed.
Hint Resolve spares_followTarget : crash.
Lemma spares_followAgent fuel pid self r : keeps agentIs (followAgent options fuel pid self r).
Proof. sparing @followAgent. Qed.
Lemma spares_alone self : keeps agentIs (aloneWithoutLock self).
Proof. sparing @aloneWithoutLock. Qed.
Lemma spares_resolveSelf : keeps agentIs resolveSelf.
Proof. sparing @resolveSelf. Qed.
Lemma spares_ending pid p : keeps agentIs (ending pid p).
Proof. sparing @ending. Qed.
Hint Resolve spares_followAgent spares_alone spares_resolveSelf spares_ending : crash.
Lemma spares_primary pid alone p : keeps agentIs (primary options pid alone p).
Proof. sparing @primary. Qed.
Hint Resolve spares_primary : crash.

Lemma spares_turn fuel pid p : (forall alone r, pDoing p <> Acting alone r) -> keeps agentIs (turn options fuel pid p).
Proof.
  intros Hp. unfold turn. destruct (pDoing p) as [| | |h proven missing|h since stale| |alone r|]; [..|by destruct (Hp alone r)|by walk].
  - unfold startTurn, unlocked. walk.
  - unfold chooseTurn. walk.
  - unfold competeTurn, unlocked. cbv zeta. walk.
  - unfold standbyTurn. cbv zeta. walk.
  - unfold retiredTurn, heartbeatStale. cbv zeta. walk.
  - walk.
Qed.

End spared.

(** C7. No handover touches the agent.  On an engine that does what Docker documents,
    neither a turn of an updater that does not act, nor the handover step of one that
    does, changes which container the agent's name holds or whether it is started,
    whether the turn ends or is killed on the way: only an agent swap does. *)
Theorem handover_spares_the_agent {E} `{UpdaterHost E} `{HE : !EngineLaws E} `{!HostLaws E} `{DockerJSON} `{Protocol} `{UpgradeProtocol}
    (options : helperOptions) fuel pid p self r (s : ustate (E := E)) :
  isName (hoTargetName options) = true ->
  ((forall alone r, pDoing p <> Acting alone r) -> held (uHost (turn options fuel pid p s).2) (hoTargetName options) = held (uHost s) (hoTargetName options)) /\
  held (uHost (followAgent options fuel pid self r s).2) (hoTargetName options) = held (uHost s) (hoTargetName options).
Proof.
  intros Hn. split.
  - intros Hp. by apply (keeps_snd _ _ s (spares_turn options Hn (held (uHost s) (hoTargetName options)) fuel pid p Hp)).
  - by apply (keeps_snd _ _ s (spares_followAgent options Hn (held (uHost s) (hoTargetName options)) fuel pid self r)).
Qed.

Import Protocol.sample.

Lemma handover_spares_the_agent_witness :
  held (uHost (turn sample_options 3 0 (MkProcess predecessorID 0 Competing) (sample_world FileAbsent predecessorID)).2) "node" = Some (agentID, Started).
Proof.
  assert (forall alone r, pDoing (MkProcess predecessorID 0 Competing) <> Acting alone r) as Hp by (intros alone r; cbn; congruence).
  transitivity (held (uHost (sample_world FileAbsent predecessorID)) "node"); [|vm_compute; reflexivity].
  exact (proj1 (handover_spares_the_agent sample_options 3 0 (MkProcess predecessorID 0 Competing) "" (MkRunState (followBegin 0 "") None)
    (sample_world FileAbsent predecessorID) eq_refl) Hp).
Defined.
