(* ===== verification/HandoverProtocol.v ===== *)
(** * The handover protocol

    Several updater processes over one disk: they compete for the lock, prove
    themselves, hand over, take over, reclaim, stop and crash.  Whoever acts holds
    the lock and is whom the journal lets act. *)
From S2P Require Import Prelude Crash GoStrings Sha256 Protocol ReleaseId CatalogReview HandoverJournal UpgradeDocs UpdaterEngine AgentSwap UpdaterLogic EngineLaws UpdaterSample Handover Follow UpdaterRoles.

(** The journal a reader acts on: an invalid one counts as none. *)
Definition seenFile (f : journalFile) : option dockerHandover :=
  match f with FileDoc h => if decide (validateHandover h = None) then Some h else None | _ => None end.

Section protocol.
Context {E : Type} `{UpdaterHost E} `{DockerJSON} `{Protocol} `{UpgradeProtocol}.
Implicit Types (s : ustate (E := E)) (options : helperOptions).

Definition seen s : option dockerHandover := seenFile (uJournal s).

(** ** What does not touch the journal or the lock *)

(** A fact about the journal and the lock only. *)
Definition about (I : ustate (E := E) -> Prop) : Prop := forall s s', uJournal s' = uJournal s -> uLock s' = uLock s -> I s -> I s'.

Section quiet.
Context (I : ustate (E := E) -> Prop) (HI : about I) (options : helperOptions).

Lemma quiet_ask {A} (call : E -> option A * E) : keeps I (ask call).
Proof. apply keeps_ask. intros e s. by apply HI. Qed.
Lemma quiet_note op : keeps I (note op).
Proof. intros s. by apply HI. Qed.
Lemma quiet_locked pid : keeps I (locked pid).
Proof. by intros s. Qed.
Lemma quiet_readJournal : keeps I readJournal.
Proof. by intros s. Qed.
Lemma quiet_lookReceipt task : keeps I (lookReceipt task).
Proof. by intros s. Qed.
Lemma quiet_lookTransaction task : keeps I (lookTransaction task).
Proof. by intros s. Qed.
Lemma quiet_putReceipt task r : keeps I (putReceipt task r).
Proof. intros s. by apply HI. Qed.
Lemma quiet_putTransaction task t : keeps I (putTransaction task t).
Proof. intros s. by apply HI. Qed.

Hint Resolve quiet_ask quiet_note quiet_locked quiet_readJournal quiet_lookReceipt quiet_lookTransaction quiet_putReceipt quiet_putTransaction : crash.

Ltac quietly def := unfold def; cbv zeta; walk.

Lemma quiet_load : keeps I loadHandover.
Proof. quietly @loadHandover. Qed.
Lemma quiet_read : keeps I (readHandover false).
Proof. unfold readHandover. apply keeps_bind; [apply quiet_load|]. intros []; walk. Qed.
Lemma quiet_mutate m : keeps I (mutateUpdater options m).
Proof. quietly @mutateUpdater. Qed.
Lemma quiet_readReceipt task : keeps I (readReceipt task).
Proof. quietly @readReceipt. Qed.
Lemma quiet_readTransaction task : keeps I (readTransaction task).
Proof. quietly @readTransaction. Qed.

Hint Resolve quiet_load quiet_read quiet_mutate quiet_readReceipt quiet_readTransaction : crash.

Lemma quiet_remove id : keeps I (removeUpdater options id).
Proof. quietly @removeUpdater. Qed.
Lemma quiet_writeReceipt r : keeps I (writeReceipt r).
Proof. unfold writeReceipt, atomically. cbv zeta. walk. Qed.
Lemma quiet_writeTransaction task t : keeps I (writeTransaction task t).
Proof. unfold writeTransaction, atomically. walk. Qed.
Lemma quiet_once_more n : keeps I (inspectOnceMore n).
Proof. quietly @inspectOnceMore. Qed.

Hint Resolve quiet_remove quiet_writeReceipt quiet_writeTransaction quiet_once_more : crash.

Lemma quiet_ends request code cause receipt message name what :
  keeps I (fail request code cause) /\ keeps I (indeterminate receipt message) /\ keeps I (restored receipt message) /\ keeps I (unserved receipt name message what).
Proof. unfold fail, unserved, keepServing, indeterminate, restored. split_and!; walk. Qed.
Lemma quiet_fail request code cause : keeps I (fail request code cause).
Proof. by destruct (quiet_ends request code cause (MkReceipt request "" None "" "" "") "" "" ""). Qed.
Lemma quiet_indeterminate receipt message : keeps I (indeterminate receipt message).
Proof. by destruct (quiet_ends (RcRequest receipt) "" "" receipt message "" "") as (_ & ? & _). Qed.
Lemma quiet_restored receipt message : keeps I (restored receipt message).
Proof. by destruct (quiet_ends (RcRequest receipt) "" "" receipt message "" "") as (_ & _ & ? & _). Qed.
Lemma quiet_unserved receipt name message what : keeps I (unserved receipt name message what).
Proof. by destruct (quiet_ends (RcRequest receipt) "" "" receipt message name what) as (_ & _ & _ & ?). Qed.

Hint Resolve quiet_fail quiet_indeterminate quiet_restored quiet_unserved : crash.

Lemma quiet_rollback receipt t message : keeps I (rollback options receipt t message).
Proof. unfold rollback, restoreRetained, removeReplacement. cbv zeta. walk. Qed.
Lemma quiet_waitReady fuel receipt t : keeps I (waitReady options fuel receipt t).
Proof. induction fuel as [|fuel IH]; cbn [waitReady]; cbv zeta; walk. Qed.

Hint Resolve quiet_rollback quiet_waitReady : crash.

Lemma quiet_processCurrent fuel : keeps I (processCurrent options fuel).
Proof. unfold processCurrent, processRequest, recover, begin, isAuthorized, swap, replace, activate. cbv zeta. walk. Qed.

Lemma quiet_requestChanged h : keeps I (requestChanged h).
Proof. unfold requestChanged, requestDigest. walk. Qed.

Hint Resolve quiet_processCurrent quiet_requestChanged : crash.

Lemma quiet_waitStandby fuel h first proven : keeps I (waitStandby options fuel h first proven).
Proof. revert first proven. induction fuel as [|fuel IH]; intros first proven; cbn [waitStandby]; cbv zeta; walk. Qed.
Lemma quiet_prove self h : keeps I (prove options self h).
Proof. unfold prove, standbyChecks, writeStandbyProof. walk. Qed.
Lemma quiet_slotIdle : keeps I slotIdle.
Proof. quietly @slotIdle. Qed.
Lemma quiet_slotKey : keeps I slotKey.
Proof. quietly @slotKey. Qed.
Lemma quiet_scan agent reference names found : keeps I (scanEvidence agent reference names found).
Proof. revert found. induction names as [|name names IH]; intros found; cbn [scanEvidence]; walk. Qed.
Lemma quiet_allGone self ids : keeps I (allGone self ids).
Proof. induction ids as [|id ids IH]; cbn [allGone]; walk. Qed.
Lemma quiet_heartbeat : keeps I (heartbeatStale options).
Proof. quietly @heartbeatStale. Qed.
Lemma quiet_resolveSelf : keeps I resolveSelf.
Proof. quietly @resolveSelf. Qed.

Hint Resolve quiet_waitStandby quiet_prove quiet_slotIdle quiet_slotKey quiet_scan quiet_allGone quiet_heartbeat quiet_resolveSelf : crash.

Lemma quiet_findEvidence agent version : keeps I (findEvidence options agent version).
Proof. quietly @findEvidence. Qed.
Lemma quiet_alone self : keeps I (aloneWithoutLock self).
Proof. quietly @aloneWithoutLock. Qed.

End quiet.

#[local] Hint Resolve quiet_ask quiet_note quiet_locked quiet_load quiet_read quiet_mutate quiet_remove quiet_processCurrent quiet_waitStandby quiet_prove
  quiet_slotIdle quiet_slotKey quiet_allGone quiet_heartbeat quiet_resolveSelf quiet_findEvidence quiet_alone : crash.

(** ** Who acts *)

Definition candidate (self : string) (journal : option dockerHandover) : Prop := self = "" \/ (classifyRole journal self).1 = roleCandidate.

(** This process holds the lock and is whom the journal lets act. *)
Definition entitled (pid : nat) (self : string) s : Prop := uLock s = Some pid /\ candidate self (seen s).

Lemma about_entitled pid self : about (entitled pid self).
Proof. intros s s' Hj Hl. unfold entitled, seen. by rewrite Hj, Hl. Qed.

(** The disk as another process that holds the lock left it. *)
Definition frozen (j : journalFile) (other : nat) s : Prop := uJournal s = j /\ uLock s = Some other.

Lemma about_frozen j other : about (frozen j other).
Proof. intros s s' Hj Hl. unfold frozen. by rewrite Hj, Hl. Qed.

#[local] Hint Resolve about_entitled about_frozen : crash.

(** *** Roles by phase *)

(** Past one check of a validation. *)
Lemma passed (b : bool) (e : string) (rest : option string) : (if b then Some e else rest) = None -> b = false /\ rest = None.
Proof. by destruct b. Qed.
Lemma passed_decide (P : Prop) `{!Decision P} (e : string) (rest : option string) : (if decide P then Some e else rest) = None -> ~ P /\ rest = None.
Proof. by destruct (decide P). Qed.

Lemma valid_successor h : validateHandover h = None -> SuccessorID h <> PredecessorID h /\ (HPhase h = handoverPrepared -> SuccessorID h = "") /\
  (SuccessorID h = "" -> HPhase h = handoverPrepared \/ HPhase h = handoverAborted).
Proof.
  unfold validateHandover. intros (_ & (_ & (_ & (_ & (Hpred & (_ & (_ & (_ & (_ & (_ & (Hprep & (Hmiss & (Hid & _)%passed_decide)%passed_decide)%passed_decide
    )%passed_decide)%passed)%passed)%passed)%passed)%passed)%passed)%passed_decide)%passed)%passed.
  assert (PredecessorID h <> "") as Hne. { intros Heq. rewrite Heq in Hpred. by vm_compute in Hpred. }
  split_and!; [intros Heq; apply Hid; rewrite Heq; auto|intros Hp; apply dec_stable; tauto|].
  intros He. destruct (decide (HPhase h = handoverPrepared)); [by left|]. destruct (decide (HPhase h = handoverAborted)); [by right|]. exfalso. by apply Hmiss.
Qed.

(** The predecessor may act before the commit and after it was undone, the
    successor from the commit on, and anyone else always. *)
Lemma predecessor_candidate h : validateHandover h = None -> HPhase h ∈ [handoverPrepared; handoverCreated; handoverAborted; handoverReverted] ->
  candidate (PredecessorID h) (Some h).
Proof.
  intros (Hne & _ & _)%valid_successor Hp. right. unfold classifyRole. destruct (decide (PredecessorID h = "")); [done|]. cbv zeta.
  rewrite (bool_decide_eq_false_2 (SuccessorID h <> "" /\ _)) by (intros [_ Heq]; congruence).
  repeat (apply elem_of_cons in Hp as [->|Hp]); try (by apply not_elem_of_nil in Hp); done.
Qed.

Lemma successor_candidate h : validateHandover h = None -> HPhase h ∈ [handoverCommitted; handoverCompleted; handoverAbandoned] -> candidate (SuccessorID h) (Some h).
Proof.
  intros (Hne & _ & Hs)%valid_successor Hp. right. unfold classifyRole. destruct (decide (SuccessorID h = "")) as [|Hs0]; [done|]. cbv zeta.
  rewrite (bool_decide_eq_false_2 (SuccessorID h = PredecessorID h)) by done. rewrite (bool_decide_eq_true_2 (SuccessorID h <> "" /\ _)) by done.
  repeat (apply elem_of_cons in Hp as [->|Hp]); try (by apply not_elem_of_nil in Hp); done.
Qed.

Lemma stranger_candidate self h : self <> PredecessorID h -> self <> SuccessorID h -> candidate self (Some h).
Proof.
  intros Hp Hs. right. unfold classifyRole. destruct (decide (self = "")); [done|]. cbv zeta. rewrite (bool_decide_eq_false_2 (self = PredecessorID h)) by done.
  rewrite (bool_decide_eq_false_2 (SuccessorID h <> "" /\ _)) by tauto. repeat case_decide; done.
Qed.

(** *** Reading *)

Lemma candidate_none self : candidate self None.
Proof. by right. Qed.

Lemma valid_record f j : journalRecord f = Ok (Some j) -> validateHandover j = None /\ seenFile f = Some j.
Proof. destruct f as [|h|]; simpl; [done| |done]. destruct (validateHandover h) eqn:Hv; [done|]. intros [= <-]. split; [done|]. by rewrite decide_True. Qed.

Lemma read_valid quarantine : returns (readHandover quarantine) (fun r => forall j, r = Ok (Some j) -> validateHandover j = None).
Proof.
  unfold readHandover. eapply (returns_bind _ _ (fun r => forall j, r = Ok (Some j) -> validateHandover j = None)).
  - unfold loadHandover. apply returns_after. intros []; [|by apply returns_ret..]. intros s a s' [= <- _] j Hj. by apply valid_record in Hj as [? _].
  - intros [r|[]] Hr; [by apply returns_ret|by apply returns_ret|]. destruct quarantine; [|by apply returns_ret]. do 2 (apply returns_after; intros ?).
    case_match; [by apply returns_ret| |]; apply returns_after; intros _; by apply returns_ret.
Qed.

Lemma read_entitled pid self quarantine : keeps (entitled pid self) (readHandover quarantine).
Proof.
  unfold readHandover. apply keeps_bind; [auto with crash|]. intros [|[]]; [by walk..|]. destruct quarantine; [|by walk]. do 2 (apply keeps_bind; [auto with crash|intros ?]).
  assert (keeps (entitled pid self) (putJournal FileAbsent)) by (intros s [Hl _]; split; [done|apply candidate_none]). walk.
Qed.

#[local] Hint Resolve read_entitled : crash.

(** *** Writing *)

(** No file operation of the host reports an error after it has taken effect. *)
Definition synced : Prop := forall e : E, (WriteOutcome e).1 <> Some WriteUnsynced.

(** What a write leaves: the journal as it was, or [next]. *)
Lemma ends_write next (I : ustate (E := E) -> Prop) Q : about I ->
  (forall e s, I s -> Q (Some e) s) ->
  (forall err s s', I s -> uLock s' = uLock s -> uJournal s' = FileDoc next -> validateHandover next = None -> (synced -> err = None) -> Q err s') ->
  runs (fun _ => True) I (writeHandover next) Q.
Proof.
  intros HI Hsame Hnew. unfold writeHandover. destruct (validateHandover next) eqn:Hv; [apply ends_ret; auto|].
  eapply ends_bind; [apply keeps_runs; auto with crash|]. intros [prev|]; [|apply ends_ret; auto]. eapply ends_bind; [apply keeps_runs; auto with crash|]. intros now.
  destruct (mayWrite prev next now); [apply ends_ret; auto|]. intros s Hs. unfold storeHandover, ask, mbind, crashM_bind. destruct (WriteOutcome (uHost s)) as [[out|] e] eqn:Hw; [|done].
  assert (I (setHost e s)) as Hs' by (by apply (HI s)). destruct out; [by apply Hsame| |]; eapply Hnew; try done; intros Hsync; by specialize (Hsync (uHost s)); rewrite Hw in Hsync.
Qed.

Lemma seen_doc s h : uJournal s = FileDoc h -> validateHandover h = None -> seen s = Some h.
Proof. intros Hj Hv. unfold seen. rewrite Hj. simpl. by rewrite decide_True. Qed.

(** A write of a journal under which this process may act. *)
Lemma write_entitled pid self next : (validateHandover next = None -> candidate self (Some next)) ->
  runs (fun _ => True) (entitled pid self) (writeHandover next) (fun _ => entitled pid self).
Proof.
  intros Hc. apply ends_write; [auto with crash|done|]. intros err s s' [Hl _] Hl' Hj Hv _. split; [by rewrite Hl'|]. rewrite (seen_doc _ _ Hj Hv). by apply Hc.
Qed.

(** A write that reports no error is there. *)
Lemma write_done pid next : runs (fun _ => True) (fun s => uLock s = Some pid) (writeHandover next)
  (fun err s => uLock s = Some pid /\ (err = None -> seen s = Some next /\ validateHandover next = None)).
Proof.
  apply ends_write; [intros s s' _ ->; done|done|]. intros err s s' Hl Hl' Hj Hv _. split; [by rewrite Hl'|]. intros _. by rewrite (seen_doc _ _ Hj Hv).
Qed.

(** ** A process that may act goes on being one *)

Section acting.
Context (options : helperOptions) (pid : nat) (self : string).

Notation ACTS m := (runs (fun _ => True) (entitled pid self) m (fun _ => entitled pid self)).

Lemma acts_quiet {A} (m : upM E A) : keeps (entitled pid self) m -> ACTS m.
Proof. apply keeps_runs. Qed.
Lemma acts_bind {A B} (m : upM E A) (f : A -> upM E B) : ACTS m -> (forall a, ACTS (f a)) -> ACTS (m ≫= f).
Proof. intros Hm Hf. by eapply ends_bind. Qed.
Lemma acts_ret {A} (a : A) : ACTS (mret a).
Proof. by apply ends_ret. Qed.

Hint Resolve acts_ret acts_quiet : crash.

Ltac acting :=
  repeat first
    [ progress eauto with crash
    | (apply acts_bind; [|intros ?])
    | match goal with |- runs _ _ (match ?x with _ => _ end) _ => destruct x end ].

Lemma acts_abort h known byName reason :
  (forall nb, validateHandover (withEnd reason nb (withPhase handoverAborted h)) = None -> candidate self (Some (withEnd reason nb (withPhase handoverAborted h)))) ->
  ACTS (abortHandover options h known byName reason).
Proof.
  intros Hc. unfold abortHandover. cbv zeta. apply acts_bind; [apply acts_quiet; walk|]. intros successor. apply acts_bind; [apply acts_quiet; walk|]. intros _.
  apply acts_bind; [apply acts_quiet; auto with crash|]. intros now. apply write_entitled. apply Hc.
Qed.

(** The predecessor's own abort. *)
Lemma acts_aborting h known byName reason : PredecessorID h = self -> ACTS (aborting options h known byName reason).
Proof.
  intros Hp. apply acts_bind; [|intros ?; acting]. apply acts_abort. intros nb Hv. rewrite <-Hp. apply (predecessor_candidate _ Hv). by do 2 right; left.
Qed.

Hint Resolve acts_aborting : crash.

Lemma acts_abortOrLeave h reason : PredecessorID h = self -> ACTS (abortOrLeave options h reason).
Proof. intros Hp. unfold abortOrLeave. acting. Qed.

Hint Resolve acts_abortOrLeave : crash.

(** What a handover leaves: it was committed, or the predecessor still acts. *)
Notation LEAVES m := (runs (fun _ => True) (entitled pid self) m (fun out s => out = HandedOver \/ entitled pid self s)).

Lemma leaves_acts (m : upM E handoverOutcome) : ACTS m -> LEAVES m.
Proof. intros Hm. eapply runs_conseq; [exact Hm|done|]. by right. Qed.

Context (Hsync : synced).

Lemma leaves_commit h : PredecessorID h = self -> LEAVES (commitHandover options h).
Proof.
  intros Hp. unfold commitHandover. apply (ends_bind _ _ (fun err s => err = None \/ entitled pid self s)).
  - apply ends_write; [auto with crash|by right|]. intros err s s' _ _ _ _ Hn. left. by apply Hn.
  - intros [e|]; [|by apply ends_ret; left]. eapply runs_pre; [by apply leaves_acts, acts_aborting|]. by intros s [].
Qed.

Lemma leaves_handOverTo fuel h t : PredecessorID h = self -> LEAVES (handOverTo options fuel h t).
Proof.
  intros Hp. unfold handOverTo. eapply ends_bind; [apply acts_quiet; auto with crash|]. intros inspected. destruct (verifySuccessor _ _ _ _); [by apply leaves_acts, acts_abortOrLeave|].
  eapply ends_bind; [apply acts_quiet; auto with crash|]. intros [started|]; [|by apply leaves_acts, acts_abortOrLeave].
  eapply ends_bind; [apply acts_quiet; auto with crash|]. intros reason. destruct (decide (reason = "")); [by apply leaves_commit|by apply leaves_acts, acts_abortOrLeave].
Qed.

Lemma leaves_handOver fuel t : cID (htSelf t) = self -> LEAVES (handOver options fuel t).
Proof.
  intros Ht. unfold handOver. cbv zeta. eapply ends_bind; [apply acts_quiet; auto with crash|]. intros [id|]; [|by apply ends_ret; right].
  set (h := preparedHandover options t id). assert (PredecessorID h = self) as Hp by done.
  eapply ends_bind; [apply write_entitled; intros Hv; rewrite <-Hp; apply (predecessor_candidate _ Hv); by left|]. intros [e|]; [by apply ends_ret; right|].
  eapply ends_bind; [apply acts_quiet; auto with crash|]. intros [c|[]]; try (by apply leaves_acts, acts_aborting).
  destruct (successorSource _) as [source|]; [|by apply leaves_acts, acts_aborting]. eapply ends_bind; [apply acts_quiet; auto with crash|].
  intros [successor|e]; [|by apply leaves_acts, acts_aborting].
  eapply ends_bind; [apply write_entitled; intros Hv; rewrite <-Hp; apply (predecessor_candidate (withSuccessor successor (withPhase handoverCreated h)) Hv); by right; left|].
  intros [e|]; [by apply leaves_acts, acts_aborting|by apply leaves_handOverTo].
Qed.

Lemma acts_tidy : ACTS (tidy options pid self).
Proof.
  unfold tidy. apply acts_quiet. apply keeps_bind; [auto with crash|]. intros held. destruct (_ || _); [auto with crash|].
  apply keeps_bind; [auto with crash|]. intros [[j|]|]; [|by walk..]. destruct (negb _); [by walk|]. unfold tidyContainer, tidyName. walk.
Qed.

Hint Resolve acts_tidy : crash.

(** Whom reconciling lets act. *)
Lemma reconcile_abort_candidate j reason nb : validateHandover j = None -> self <> "" -> (classifyRole (Some j) self).2 = reconcileAbort ->
  validateHandover (withEnd reason nb (withPhase handoverAborted j)) = None -> candidate self (Some (withEnd reason nb (withPhase handoverAborted j))).
Proof.
  intros (_ & Hprep & _)%valid_successor Hne Hact Hv. destruct (decide (self = PredecessorID j)) as [Heq|Hnp].
  - rewrite Heq. apply (predecessor_candidate _ Hv). by do 2 right; left.
  - apply stranger_candidate; [done|]. cbn. intros Heq. unfold classifyRole in Hact. rewrite decide_False in Hact by done. cbv zeta in Hact.
    destruct (decide (HPhase j = handoverPrepared)) as [Hp|]; [by rewrite Hprep in Heq|].
    rewrite (bool_decide_eq_true_2 (SuccessorID j <> "" /\ _)) in Hact by (split; congruence). rewrite (bool_decide_eq_false_2 (self = PredecessorID j)) in Hact by done.
    repeat (case_decide; [done|]). done.
Qed.

Lemma reconcile_finish_successor j : (classifyRole (Some j) self).2 = reconcileFinish -> self = SuccessorID j.
Proof.
  unfold classifyRole. case_decide; [done|]. cbv zeta. case_bool_decide as Hs; case_bool_decide as Hp; try (by intros _; destruct Hs); repeat (case_decide; [done|]); done.
Qed.

Lemma reconcile_supersede_stranger j : (classifyRole (Some j) self).2 = reconcileSupersede -> self <> PredecessorID j /\ (SuccessorID j = "" \/ self <> SuccessorID j).
Proof.
  unfold classifyRole. case_decide; [done|]. cbv zeta. case_bool_decide as Hs; case_bool_decide as Hp; repeat (case_decide; [done|]); try done.
  intros _. split; [done|]. destruct (decide (SuccessorID j = "")); [by left|]. right. tauto.
Qed.

Lemma acts_reconcile pending : ACTS (reconcile options pid self pending).
Proof.
  unfold reconcile. apply acts_bind; [acting|]. intros held. destruct (bool_decide (self = "")) eqn:Hself; cbn [orb]; [acting|].
  apply bool_decide_eq_false in Hself. destruct held; cbn [negb]; [|acting]. eapply ends_bind; [apply keeps_returns; [apply read_entitled|apply read_valid]|]. intros [journal|]; [|apply ends_ret; tauto].
  destruct journal as [j|]; [|eapply runs_pre; [apply acts_bind; acting|tauto]].
  eapply (runs_fact (validateHandover j = None)); [|intros s [_ Hj]; by apply Hj]. intros Hv. eapply runs_pre; [|intros s [Hs _]; exact Hs].
  destruct (classifyRole (Some j) self).2 eqn:Hact; [acting| | | |acting].
  - apply acts_bind; [|intros ?; acting]. apply acts_abort. intros nb. by apply reconcile_abort_candidate.
  - apply acts_bind; [|intros ?; acting]. unfold finish. apply acts_bind; [acting|]. intros before. apply acts_bind; [apply acts_quiet; walk|]. intros [e|]; [acting|]. apply write_entitled. intros Hv'.
    rewrite (reconcile_finish_successor _ Hact). apply (successor_candidate _ Hv'). by right; left.
  - destruct (reconcile_supersede_stranger _ Hact) as [Hp Hs]. apply acts_bind; [|intros ?; acting]. apply write_entitled. intros Hv'. apply stranger_candidate; [done|]. cbn. destruct Hs; congruence.
Qed.

Hint Resolve acts_reconcile : crash.

(** [followTarget] follows for this very container. *)
Lemma follow_self : returns (followTarget (E := E) options pid self) (fun r => forall t, r = Some t -> cID (htSelf t) = self).
Proof.
  unfold followTarget. cbv zeta.
  repeat first [ by apply returns_ret
               | progress (apply returns_after; intros ?)
               | match goal with |- returns (match ?x with _ => _ end) _ => destruct x eqn:? end ].
  apply returns_ret. intros t. destruct (nextHandoverAttempt _ _ _ _); [|done]. intros [= <-]. cbn. by apply dec_stable.
Qed.

Lemma acts_followTarget : keeps (entitled pid self) (followTarget options pid self).
Proof. unfold followTarget, followDisabled. cbv zeta. walk. Qed.

Lemma acts_followAgent fuel r : runs (fun _ => True) (entitled pid self) (followAgent options fuel pid self r) (fun out s => out.1 = true \/ entitled pid self s).
Proof.
  unfold followAgent. eapply ends_bind; [apply acts_quiet; auto with crash|]. intros held. destruct (_ || _); [by apply ends_ret; right|].
  eapply ends_bind; [apply acts_quiet; auto with crash|]. intros now. eapply (ends_bind _ _ (fun _ => entitled pid self)); [acting|]. intros finishAt.
  eapply ends_bind; [apply acts_quiet; auto with crash|]. intros slot. destruct (followDue _ _ _ _ _) as [due f]. destruct due; cbn [negb]; [|by apply ends_ret; right].
  eapply ends_bind; [apply acts_tidy|]. intros ?. eapply ends_bind; [apply keeps_returns; [apply acts_followTarget|apply follow_self]|]. intros [t|]; [|by apply ends_ret; right; tauto].
  eapply (runs_fact (cID (htSelf t) = self)); [|intros s [_ Ht]; by apply Ht]. intros Ht. eapply ends_bind; [eapply runs_pre; [by apply leaves_handOver|tauto]|].
  intros outcome. apply ends_ret. intros s0 Hor. destruct Hor as [Heq|Hs]; [left; by rewrite Heq|by right].
Qed.

End acting.

(** ** A process that takes the role *)

Notation ENDS P m Q := (runs (S := ustate (E := E)) (fun _ => True) P m Q).

Lemma runs_true {A} P (m : upM E A) : ENDS P m (fun _ _ => True).
Proof. intros s _. by destruct (m s) as [[]]. Qed.

Lemma tryLock_taken pid : ENDS (fun _ => True) (tryLock pid) (fun r s => r = LockTaken -> uLock s = Some pid).
Proof.
  unfold tryLock. eapply ends_bind; [apply runs_true|]. intros []; try (by apply ends_ret). intros s _. unfold flock. by case_decide.
Qed.

Lemma read_seen pid : ENDS (fun s => uLock s = Some pid) (readHandover true) (fun r s => uLock s = Some pid /\ forall j, r = Ok j -> seen s = j).
Proof.
  unfold readHandover, loadHandover. apply (ends_bind _ _ (fun r s => uLock s = Some pid /\ forall j, r = Ok j -> seen s = j)).
  - eapply ends_bind; [apply keeps_runs, quiet_ask; by intros s s' _ ->|]. intros []; [|by apply ends_ret..].
    intros s Hl. split; [done|]. intros j. unfold seen. destruct (uJournal s) as [|h|]; simpl; [by intros [= <-]| |done]. destruct (validateHandover h) eqn:Hv; [done|].
    intros [= <-]. by rewrite decide_True.
  - intros [j|[]]; [by apply ends_ret|by apply ends_ret|]. eapply (ends_bind _ _ (fun _ s => uLock s = Some pid)); [eapply runs_pre; [apply keeps_runs, quiet_ask; by intros s s' _ ->|by intros s []]|].
    intros now. eapply ends_bind; [apply keeps_runs, quiet_ask; by intros s s' _ ->|]. intros []; [by apply ends_ret| |];
      (intros s Hl; split; [done|]; by intros j [= <-]).
Qed.

Lemma fence_entitled pid self : ENDS (fun s => uLock s = Some pid) (fence pid self) (fun kept s => kept <> None -> entitled pid self s).
Proof.
  unfold fence. destruct (decide (self = "")) as [->|Hne].
  - rewrite bool_decide_eq_true_2 by done. eapply ends_bind; [apply keeps_runs, quiet_read; by intros s s' _ ->|]. intros [j|]; [|eapply ends_bind; [apply runs_true|]; intros ?; by apply ends_ret].
    case_decide; [|eapply ends_bind; [apply runs_true|]; intros ?; by apply ends_ret]. apply ends_ret. intros s Hl _. split; [done|by left].
  - rewrite bool_decide_eq_false_2 by done. eapply ends_bind; [apply read_seen|]. intros [j|]; [|eapply ends_bind; [apply runs_true|]; intros ?; by apply ends_ret].
    case_decide; [|eapply ends_bind; [apply runs_true|]; intros ?; by apply ends_ret]. apply ends_ret. intros s [Hl Hj] _. split; [done|]. right. by rewrite (Hj j eq_refl).
Qed.

Lemma stillNames_who j h phase who self : stillNames (Some j) h phase who self = true -> who j = self.
Proof. unfold stillNames. rewrite bool_decide_eq_true. tauto. Qed.

Ltac gives_up := eapply ends_bind; [apply runs_true|]; intros ?; by apply ends_ret.

Lemma abandon_entitled pid self h : ENDS (fun _ => True) (abandon pid self h) (fun acts s => acts = true -> entitled pid self s).
Proof.
  unfold abandon. eapply ends_bind; [apply tryLock_taken|]. intros []; [|by apply ends_ret..]. eapply ends_bind; [eapply runs_pre; [apply (read_seen pid)|intros s Hs; by apply Hs]|].
  intros [[j|]|]; [|gives_up..]. destruct (stillNames _ _ _ _ _) eqn:Hn; [|gives_up]. apply stillNames_who in Hn.
  eapply ends_bind; [eapply runs_pre; [apply (write_done pid)|by intros s []]|]. intros [e|]; [gives_up|]. apply ends_ret. intros s [Hl Hd] _. destruct (Hd eq_refl) as [Hs Hv].
  split; [done|]. rewrite Hs, <-Hn. apply (successor_candidate _ Hv). by do 2 right; left.
Qed.

Lemma reclaim_entitled options pid self h : ENDS (fun _ => True) (reclaim options pid self h) (fun acts s => acts = true -> entitled pid self s).
Proof.
  unfold reclaim. cbv zeta. eapply ends_bind; [apply tryLock_taken|]. intros []; [|by apply ends_ret..]. eapply ends_bind; [eapply runs_pre; [apply (read_seen pid)|intros s Hs; by apply Hs]|].
  intros [[j|]|]; [|gives_up..]. destruct (stillNames _ _ _ _ _) eqn:Hn; [|gives_up]. apply stillNames_who in Hn.
  apply (ends_bind _ _ (fun _ s => uLock s = Some pid)); [eapply runs_pre; [apply keeps_runs, quiet_ask; by intros s s' _ ->|by intros s []]|]. intros now.
  eapply ends_bind; [apply (write_done pid)|]. intros [e|]; [gives_up|]. apply (ends_bind _ _ (fun _ => entitled pid self)); [|intros ?; by apply ends_ret].
  eapply runs_pre; [apply keeps_runs; auto with crash|]. intros s [Hl Hd]. destruct (Hd eq_refl) as [Hs Hv]. split; [done|]. rewrite Hs, <-Hn.
  apply (predecessor_candidate _ Hv). by do 3 right; left.
Qed.

(** *** One turn *)

(** What a process that acts under the lock is. *)
Definition acting (p : process) : bool := match pDoing p with Acting false _ => true | _ => false end.
Definition actsOk (pid : nat) (p : process) s : Prop := acting p = true -> entitled pid (pSelf p) s.

Section turn.
Context (options : helperOptions) (pid : nat) (Hsync : synced).

Notation TURN P m := (runs (S := ustate (E := E)) (fun _ => True) P m (actsOk pid)).

Lemma turn_idle (P : ustate (E := E) -> Prop) p : acting p = false -> TURN P (mret p).
Proof. intros Hp. apply ends_ret. intros s _ Ha. by rewrite Ha in Hp. Qed.

Lemma turn_then {A} P (m : upM E A) f : (forall a, TURN (fun _ => True) (f a)) -> TURN P (m ≫= f).
Proof. intros Hf. eapply ends_bind; [apply runs_true|]. exact Hf. Qed.

Lemma turn_ending P p : TURN P (ending pid p).
Proof. unfold ending. apply turn_then. intros _. by apply turn_idle. Qed.

Hint Resolve turn_idle turn_ending : crash.

Lemma turn_primary_alone P p : TURN P (primary options pid true p).
Proof. unfold primary. apply turn_then. intros []; cbn [negb]; [|auto with crash]. do 3 (apply turn_then; intros ?). by apply turn_idle. Qed.

Lemma turn_primary p : TURN (entitled pid (pSelf p)) (primary options pid false p).
Proof.
  unfold primary. eapply ends_bind; [apply keeps_runs; auto with crash|]. intros []; cbn [negb]; [|auto with crash].
  eapply ends_bind; [apply acts_reconcile|]. intros finishAt. eapply ends_bind; [apply keeps_runs; auto with crash|]. intros now.
  eapply ends_bind; [apply keeps_runs; auto with crash|]. intros slot. apply ends_ret. by intros s Hs _.
Qed.

Lemma turn_unlocked P p : TURN P (unlocked options pid p).
Proof. unfold unlocked. apply turn_then. intros ?. apply turn_primary_alone. Qed.

Hint Resolve turn_unlocked : crash.

(** Programs with no claim on the role. *)
Ltac idling :=
  repeat first
    [ progress auto with crash
    | (apply turn_then; intros ?)
    | match goal with |- runs _ _ (match ?x with _ => _ end) _ => destruct x end ].

Lemma turn_start p : TURN (fun _ => True) (startTurn options pid p).
Proof. unfold startTurn. cbv zeta. idling. Qed.

Lemma turn_choose p : TURN (fun _ => True) (chooseTurn options pid p).
Proof. unfold chooseTurn. cbv zeta. idling. Qed.

Lemma turn_compete p : acting p = false -> TURN (fun _ => True) (competeTurn options pid p).
Proof.
  intros Hp. unfold competeTurn. cbv zeta. set (again := ask NextWait ≫= _).
  assert (forall P, TURN P again) as Hagain.
  { intros P. unfold again. apply turn_then. intros []; idling; (apply ends_ret; intros s _; repeat case_match; intros Ha; cbn in Ha; congruence). }
  eapply ends_bind; [apply tryLock_taken|]. intros [| |[]]; auto; [|apply turn_then; intros []; auto with crash..].
  eapply ends_bind; [eapply runs_pre; [apply (fence_entitled pid)|intros s Hs; by apply Hs]|]. intros [j|]; [|by apply turn_idle]. eapply runs_pre; [apply turn_primary|]. intros s Hs. by apply Hs.
Qed.

Lemma turn_act fuel p alone r : (alone = false -> acting p = true) ->
  TURN (fun s => acting p = true -> entitled pid (pSelf p) s) (actTurn options fuel pid p alone r).
Proof.
  intros Halone. unfold actTurn. destruct alone.
  - apply turn_then. intros []; [auto with crash..| | |];
      (apply turn_then; intros ?; apply turn_then; intros [[] r']; idling; by apply turn_idle).
  - specialize (Halone eq_refl). eapply runs_pre; [|intros s Hs; exact (Hs Halone)]. eapply ends_bind; [apply keeps_runs; auto with crash|].
    intros []; [auto with crash..| | |];
      (eapply ends_bind; [apply keeps_runs; auto with crash|]; intros ?; eapply ends_bind; [by apply acts_followAgent|]; intros [[] r']; cbn;
       [idling|apply ends_ret; intros s [Hd|Hs] _; [done|exact Hs]]).
Qed.

(** A turn leaves a process that acts only if it may. *)
Lemma turn_entitled fuel p : TURN (actsOk pid p) (turn options fuel pid p).
Proof.
  unfold turn. destruct (pDoing p) as [| | |h proven missing|h since stale| |alone r|] eqn:Hd.
  - eapply runs_pre; [apply turn_start|done].
  - eapply runs_pre; [apply turn_choose|done].
  - eapply runs_pre; [apply turn_compete; unfold acting; by rewrite Hd|done].
  - apply (ends_bind _ _ (fun next s => next = Acts -> entitled pid (pSelf p) s)).
    + unfold standbyTurn. cbv zeta. eapply ends_bind; [apply runs_true|]. intros event. destruct event; try (by apply ends_ret).
      * eapply ends_bind; [apply runs_true|]. intros ?. apply ends_ret. intros s _. by case_match.
      * destruct proven; (eapply ends_bind; [apply runs_true|]; intros ?; by apply ends_ret).
      * eapply ends_bind; [apply runs_true|]. intros gone. case_decide; [by apply ends_ret|]. destruct (negb proven); [by apply ends_ret|].
        eapply ends_bind; [eapply runs_pre; [apply abandon_entitled|done]|]. intros []; apply ends_ret; intros s Hs; [by intros _; apply Hs|done].
    + intros [[]| |]; [idling|idling|]. eapply runs_pre; [apply turn_primary|intros s Hs; by apply Hs].
  - apply (ends_bind _ _ (fun next s => next = Acts -> entitled pid (pSelf p) s)).
    + unfold retiredTurn. cbv zeta. eapply ends_bind; [apply runs_true|]. intros event. destruct event; [by apply ends_ret|..];
      (eapply ends_bind; [apply runs_true|]; intros ?; destruct (negb _); [by apply ends_ret|]; do 2 (eapply ends_bind; [apply runs_true|]; intros ?);
       destruct (_ && _); [|by apply ends_ret]; eapply ends_bind; [eapply runs_pre; [apply reclaim_entitled|done]|]; intros []; apply ends_ret; intros s Hs; [by intros _; apply Hs|done]).
    + intros [| |]; [idling|idling|]. eapply runs_pre; [apply turn_primary|intros s Hs; by apply Hs].
  - apply turn_then. intros []; try (by apply turn_ending); apply turn_idle; unfold acting; by rewrite Hd.
  - apply turn_act. intros ->. unfold acting. by rewrite Hd.
  - apply turn_idle. unfold acting. by rewrite Hd.
Qed.

End turn.

(** ** A process without the lock changes neither the journal nor the lock *)

Section frame.
Context (options : helperOptions) (pid : nat) (j : journalFile) (other : nat) (Hother : other <> pid).

Notation SAME := (frozen j other).

Lemma same_locked {B} (f : bool -> upM E B) : keeps SAME (f false) -> keeps SAME (locked pid ≫= f).
Proof.
  intros Hf s [Hj Hl]. unfold mbind, crashM_bind, locked. rewrite bool_decide_eq_false_2 by congruence. by apply Hf.
Qed.

Lemma same_tryLock {B} (f : lockTry -> upM E B) : (forall r, r <> LockTaken -> keeps SAME (f r)) -> keeps SAME (tryLock pid ≫= f).
Proof.
  intros Hf. apply (ends_bind _ _ (fun r s => SAME s /\ r <> LockTaken)).
  - unfold tryLock. eapply ends_bind; [by apply quiet_ask, about_frozen|]. intros []; try (by apply ends_ret). intros s [Hj Hl]. unfold flock.
    rewrite decide_False by (intros [Hn|Hn]; congruence). done.
  - intros r. eapply (runs_fact (r <> LockTaken)); [|by intros s []]. intros Hr. eapply runs_pre; [by apply Hf|by intros s []].
Qed.

Lemma same_unlock : keeps SAME (unlock pid).
Proof. intros s [Hj Hl]. unfold unlock. rewrite decide_False by congruence. done. Qed.

Hint Resolve same_unlock : crash.

Lemma same_ending p : keeps SAME (ending pid p).
Proof. unfold ending. walk. Qed.

Lemma same_reconcile self pending : keeps SAME (reconcile options pid self pending).
Proof. unfold reconcile. apply same_locked. rewrite orb_true_r. walk. Qed.

Hint Resolve same_ending same_reconcile : crash.

Lemma same_primary alone p : keeps SAME (primary options pid alone p).
Proof. unfold primary. walk. Qed.

Hint Resolve same_primary : crash.

Lemma same_unlocked p : keeps SAME (unlocked options pid p).
Proof. unfold unlocked. walk. Qed.

Hint Resolve same_unlocked : crash.

Lemma same_abandon self h : keeps SAME (abandon pid self h).
Proof. unfold abandon. apply same_tryLock. intros [] Hr; [done|walk..]. Qed.

Lemma same_reclaim self h : keeps SAME (reclaim options pid self h).
Proof. unfold reclaim. apply same_tryLock. intros [] Hr; [done|walk..]. Qed.

Hint Resolve same_abandon same_reclaim : crash.

Lemma same_followAgent fuel self r : keeps SAME (followAgent options fuel pid self r).
Proof. unfold followAgent. apply same_locked. rewrite orb_true_r. walk. Qed.

Hint Resolve same_followAgent : crash.

Lemma same_turn fuel p : keeps SAME (turn options fuel pid p).
Proof.
  unfold turn. destruct (pDoing p) as [| | |h proven missing|h since stale| |alone r|].
  - unfold startTurn. walk.
  - unfold chooseTurn. walk.
  - unfold competeTurn. cbv zeta. apply same_tryLock. intros r Hr. destruct r as [| |[]]; [done|walk..].
  - unfold standbyTurn. cbv zeta. walk.
  - unfold retiredTurn. cbv zeta. walk.
  - walk.
  - unfold actTurn. walk.
  - walk.
Qed.

End frame.

(** ** The system *)

(** The updater processes there have ever been, over one disk.  A process has its own
    build and options. *)
Record system := MkSystem { world : ustate (E := E); procs : gmap nat process }.

(** The kernel lets go of the lock of a process that dies. *)
Definition died (pid : nat) s : ustate := (unlock pid s).2.

(** A process starts, takes a turn, or is killed in one; the host changes. *)
Inductive step (optionsOf : nat -> helperOptions) : system -> system -> Prop :=
| step_start w ps pid : ps !! pid = None -> step optionsOf (MkSystem w ps) (MkSystem w (<[pid := MkProcess "" 0 Starting]> ps))
| step_turn w ps pid p fuel p' w' : ps !! pid = Some p -> turn (optionsOf pid) fuel pid p w = (Some p', w') ->
    step optionsOf (MkSystem w ps) (MkSystem w' (<[pid := p']> ps))
| step_killed w ps pid p fuel w' : ps !! pid = Some p -> turn (optionsOf pid) fuel pid p w = (None, w') ->
    step optionsOf (MkSystem w ps) (MkSystem (died pid w') (<[pid := doing p Ended]> ps))
| step_host w ps e : step optionsOf (MkSystem w ps) (MkSystem (setHost e w) ps).

(** Whatever the disk says at first, no process runs. *)
Definition initial (y : system) : Prop := procs y = ∅ /\ uLock (world y) = None.

Definition allOk (y : system) : Prop := forall pid p, procs y !! pid = Some p -> actsOk pid p (world y).

Lemma frozen_ok pid p s s' : frozen (uJournal s) pid s' -> acting p = true -> actsOk pid p s -> actsOk pid p s'.
Proof. intros [Hj Hl] Ha Hs _. destruct (Hs Ha) as [_ Hc]. split; [done|]. unfold seen in *. by rewrite Hj. Qed.

(** The others, after a program of one process that keeps their disk. *)
Lemma others_ok (y : system) pid q p s' :
  allOk y -> q <> pid -> procs y !! q = Some p -> (frozen (uJournal (world y)) q (world y) -> frozen (uJournal (world y)) q s') -> actsOk q p s'.
Proof.
  intros Hy Hne Hq Hf. destruct (acting p) eqn:Ha; [|intros Ha'; congruence]. eapply frozen_ok; [apply Hf; split; [done|]; by apply (Hy q p Hq)|done|by apply Hy].
Qed.

Lemma died_frozen j other pid s : other <> pid -> frozen j other s -> frozen j other (died pid s).
Proof. intros Hne Hf. unfold died. apply (keeps_snd _ _ _ (same_unlock pid j other Hne) Hf). Qed.

Lemma step_ok optionsOf y y' : synced -> step optionsOf y y' -> allOk y -> allOk y'.
Proof.
  intros Hsync [w ps pid Hpid|w ps pid p fuel p' w' Hpid Ht|w ps pid p fuel w' Hpid Ht|w ps e] Hy q pq Hq; cbn in Hq |- *.
  - apply lookup_insert_Some in Hq as [[<- <-]|[Hne Hq]]; [done|]. by apply (Hy q).
  - apply lookup_insert_Some in Hq as [[<- <-]|[Hne Hq]].
    + pose proof (turn_entitled (optionsOf pid) pid Hsync fuel p w (Hy pid p Hpid)) as Hok. by rewrite Ht in Hok.
    + eapply others_ok; [exact Hy|done|done|]. cbn. intros Hf. pose proof (keeps_snd _ _ _ (same_turn (optionsOf pid) pid _ q (not_eq_sym Hne) fuel p) Hf) as Hs. by rewrite Ht in Hs.
  - apply lookup_insert_Some in Hq as [[<- <-]|[Hne Hq]]; [done|]. eapply others_ok; [exact Hy|done|done|]. cbn. intros Hf. apply died_frozen; [done|].
    pose proof (keeps_snd _ _ _ (same_turn (optionsOf pid) pid _ q (not_eq_sym Hne) fuel p) Hf) as Hs. by rewrite Ht in Hs.
  - intros Ha. destruct (Hy q pq Hq Ha) as [Hl Hc]. by split.
Qed.

(** *** A lock that works *)

(** The updater directory has a lock file that opens, on a filesystem with locks. *)
Definition lockWorks : Prop := forall e : E, (LockAnswer e).1 <> Some LockUnopened /\ (LockAnswer e).1 <> Some LockUnsupported.

Definition actsAlone (p : process) : bool := match pDoing p with Acting true _ => true | _ => false end.
Notation LOCKED m := (returns (S := ustate (E := E)) m (fun p' => actsAlone p' = false)).

Lemma locked_ret p : actsAlone p = false -> LOCKED (mret p).
Proof. intros Hp. by apply returns_ret. Qed.
Lemma locked_ending pid p : LOCKED (ending pid p).
Proof. apply returns_after. intros ?. by apply locked_ret. Qed.
Lemma locked_primary options pid p : LOCKED (primary options pid false p).
Proof. unfold primary. apply returns_after. intros []; cbn [negb]; [|apply locked_ending]. do 3 (apply returns_after; intros ?). by apply locked_ret. Qed.

Lemma lock_answers : lockWorks -> returns (ask LockAnswer) (fun a => a <> LockUnopened /\ a <> LockUnsupported).
Proof.
  intros Hw s a s' Hr. unfold ask in Hr. specialize (Hw (uHost s)). destruct (LockAnswer (uHost s)) as [answer e]. cbn in Hw. injection Hr as -> _. split; intros ->; tauto.
Qed.

#[local] Hint Resolve locked_ret locked_ending locked_primary : crash.

Ltac locking :=
  repeat first
    [ progress auto with crash
    | (apply returns_after; intros ?)
    | match goal with |- returns (match ?x with _ => _ end) _ => destruct x end ].

Lemma locked_turn options fuel pid p : lockWorks -> actsAlone p = false -> LOCKED (turn options fuel pid p).
Proof.
  intros Hw Hp. unfold turn. destruct (pDoing p) as [| | |h proven missing|h since stale| |alone r|] eqn:Hd.
  - unfold startTurn. cbv zeta. do 2 (apply returns_after; intros ?). eapply returns_bind; [by apply lock_answers|]. intros [] [H1' H2']; try done; by apply locked_ret.
  - unfold chooseTurn. cbv zeta. locking.
  - unfold competeTurn. cbv zeta. set (again := ask NextWait ≫= _).
    assert (LOCKED again) as Hagain.
    { unfold again. apply returns_after. intros []; locking; (apply returns_ret; repeat case_match; done). }
    eapply (returns_bind _ _ (fun r => r <> LockError LockUnopened /\ r <> LockError LockUnsupported)).
    + unfold tryLock. eapply returns_bind; [by apply lock_answers|]. intros [] [H1' H2']; try done; [|by apply returns_ret].
      intros s a s' Hr. unfold flock in Hr. case_decide; injection Hr as <- _; done.
    + intros [| |[]] [H1' H2']; try done. locking.
  - apply returns_after. intros [[]| |]; locking.
  - apply returns_after. intros [| |]; locking.
  - locking.
  - unfold actTurn. assert (alone = false) as -> by (unfold actsAlone in Hp; rewrite Hd in Hp; by destruct alone).
    apply returns_after. intros []; locking; (apply returns_after; intros ?; apply returns_after; intros [[] r']; locking).
  - locking.
Qed.

Lemma step_locked optionsOf y y' : lockWorks -> step optionsOf y y' ->
  (forall pid p, procs y !! pid = Some p -> actsAlone p = false) -> forall pid p, procs y' !! pid = Some p -> actsAlone p = false.
Proof.
  intros Hw [w ps pid Hpid|w ps pid p fuel p' w' Hpid Ht|w ps pid p fuel w' Hpid Ht|w ps e] Hy q pq Hq; cbn in Hq; [..|by eapply Hy].
  - apply lookup_insert_Some in Hq as [[<- <-]|[Hne Hq]]; [done|]. by eapply Hy.
  - apply lookup_insert_Some in Hq as [[<- <-]|[Hne Hq]]; [|by eapply Hy]. eapply locked_turn; [done|by eapply Hy|exact Ht].
  - apply lookup_insert_Some in Hq as [[<- <-]|[Hne Hq]]; [done|]. by eapply Hy.
Qed.

(** *** One updater acts *)

Definition isActing (p : process) : Prop := exists alone r, pDoing p = Acting alone r.

Lemma acting_isActing p : isActing p -> actsAlone p = false -> acting p = true.
Proof. unfold isActing, actsAlone, acting. by intros (alone & r & ->); destruct alone. Qed.

(** What being a candidate excludes. *)
Lemma candidate_excludes self h : self <> "" -> candidate self (Some h) ->
  (HPhase h ∈ [handoverCommitted; handoverCompleted; handoverAbandoned; handoverSuperseded] -> self <> PredecessorID h) /\
  (HPhase h ∈ [handoverCreated; handoverAborted; handoverReverted; handoverSuperseded] -> self <> SuccessorID h).
Proof.
  intros Hne [->|Hc]; [done|]. unfold classifyRole in Hc. rewrite decide_False in Hc by done. cbv zeta in Hc. split; intros Hp Heq.
  - rewrite (bool_decide_eq_true_2 (self = PredecessorID h)) in Hc by done.
    repeat (apply elem_of_cons in Hp as [Hp|Hp]); try (by apply not_elem_of_nil in Hp); rewrite Hp in Hc; done.
  - rewrite (bool_decide_eq_true_2 (SuccessorID h <> "" /\ _)) in Hc by (split; congruence). rewrite orb_true_r in Hc.
    repeat (apply elem_of_cons in Hp as [Hp|Hp]); try (by apply not_elem_of_nil in Hp); rewrite Hp in Hc; done.
Qed.

(** C4. At most one updater acts, and the journal lets it.  Suppose that the lock file can
    be opened and locked, so that no updater runs without the lock, and that no write
    of the journal reports an error after it took effect.  Take any number of updater
    processes of any builds over one disk, whose journal is anything at first:
    starting, waiting for the lock, standing by, handing over, taking over,
    reclaiming, stopping and being killed anywhere.  In every state they can reach,
    two processes that act are the same one, it holds the lock, and, if it has resolved
    its own container, it is not the predecessor of a handover that was committed,
    completed, abandoned or superseded, nor the successor of one that is not yet
    committed, was aborted, reverted or superseded. *)
Theorem one_updater_acts optionsOf y y' :
  synced -> lockWorks -> initial y -> rtc (step optionsOf) y y' ->
  (forall pid p pid' p', procs y' !! pid = Some p -> isActing p -> procs y' !! pid' = Some p' -> isActing p' -> pid = pid') /\
  (forall pid p, procs y' !! pid = Some p -> isActing p ->
     uLock (world y') = Some pid /\
     forall h, seen (world y') = Some h -> pSelf p <> "" ->
       (HPhase h ∈ [handoverCommitted; handoverCompleted; handoverAbandoned; handoverSuperseded] -> pSelf p <> PredecessorID h) /\
       (HPhase h ∈ [handoverCreated; handoverAborted; handoverReverted; handoverSuperseded] -> pSelf p <> SuccessorID h)).
Proof.
  intros Hsync Hw [Hp Hl] Hr. assert (allOk y' /\ forall pid p, procs y' !! pid = Some p -> actsAlone p = false) as [Hok Hlk].
  { assert (allOk y /\ forall pid p, procs y !! pid = Some p -> actsAlone p = false) as Hy by (by split; intros pid p; rewrite Hp, lookup_empty).
    clear Hp Hl. induction Hr as [|y1 y2 y3 Hs _ IH]; [done|]. apply IH. destruct Hy as [Hy1 Hy2]. split; [by eapply step_ok|by eapply step_locked]. }
  assert (forall pid p, procs y' !! pid = Some p -> isActing p -> entitled pid (pSelf p) (world y')) as He.
  { intros pid p Hpid Ha. apply (Hok pid p Hpid). apply acting_isActing; [done|by eapply Hlk]. }
  split.
  - intros pid p pid' p' H1' Ha H2' Ha'. destruct (He _ _ H1' Ha) as [Hl1 _], (He _ _ H2' Ha') as [Hl2 _]. congruence.
  - intros pid p Hpid Ha. destruct (He _ _ Hpid Ha) as [Hl1 Hc]. split; [done|]. intros h Hh Hne. rewrite Hh in Hc. by apply candidate_excludes.
Qed.

End protocol.

(** ** A takeover *)

Module takeover_example.
Import Protocol.sample.

(** A schedule of the system: a process starts or takes a turn in its container. *)
Inductive move := Start (pid : nat) | Turn (pid : nat) (container : string).

Definition inContainer (container : string) (w : ustate (E := sampleHost)) : ustate :=
  setHost (MkSampleHost (shNames (uHost w)) container) w.

Fixpoint drive (moves : list move) (y : system (E := sampleHost)) : option system :=
  match moves with
  | [] => Some y
  | Start pid :: moves => if decide (procs y !! pid = None) then drive moves (MkSystem (world y) (<[pid := MkProcess "" 0 Starting]> (procs y))) else None
  | Turn pid container :: moves =>
      match procs y !! pid with
      | None => None
      | Some p =>
          match turn sample_options 3 pid p (inContainer container (world y)) with
          | (Some p', w') => drive moves (MkSystem w' (<[pid := p']> (procs y)))
          | (None, _) => None
          end
      end
  end.

Lemma drive_steps moves y y' : drive moves y = Some y' -> rtc (step (fun _ => sample_options)) y y'.
Proof.
  revert y. induction moves as [|[pid|pid container] moves IH]; intros y Hd; cbn in Hd; [by injection Hd as ->| |].
  - case_decide; [|done]. destruct y as [w ps]. eapply rtc_l; [by apply step_start|by apply IH].
  - destruct (procs y !! pid) as [p|] eqn:Hp; [|done]. destruct (turn _ _ _ _ _) as [[p'|] w'] eqn:Ht; [|done]. destruct y as [w ps].
    eapply rtc_l; [apply (step_host _ w ps (MkSampleHost (shNames (uHost w)) container))|]. eapply rtc_l; [by eapply step_turn|by apply IH].
Qed.

(** A handover is committed: process 0 runs in the successor, process 1 in the
    predecessor. *)
Definition committed_system : system := MkSystem (sample_world (FileDoc sample_committed) "") ∅.
Definition schedule : list move :=
  [Start 1; Turn 1 predecessorID; Start 0; Turn 0 successorID; Turn 0 successorID; Turn 0 successorID; Turn 1 predecessorID].

Definition after_takeover : system := default committed_system (drive schedule committed_system).

Lemma one_updater_acts_witness :
  (exists p q, procs after_takeover !! 0%nat = Some p /\ isActing p /\ pSelf p = successorID /\ procs after_takeover !! 1%nat = Some q /\ pDoing q = Retired) /\
  HPhase <$> seen (world after_takeover) = Some handoverCompleted /\ uLock (world after_takeover) = Some 0%nat.
Proof.
  assert (exists p q, procs after_takeover !! 0%nat = Some p /\ isActing p /\ pSelf p = successorID /\ procs after_takeover !! 1%nat = Some q /\ pDoing q = Retired) as Hex.
  { vm_compute. eexists _, _. split; [reflexivity|]. split; [eexists _, _; reflexivity|]. split; [reflexivity|]. split; reflexivity. }
  split; [exact Hex|]. split; [vm_compute; reflexivity|]. destruct Hex as (p & q & Hp & Ha & _).
  destruct (one_updater_acts (fun _ => sample_options) committed_system after_takeover) as [_ Hlock].
  - intros e. cbn. congruence.
  - intros e. cbn. split; congruence.
  - split; reflexivity.
  - apply (drive_steps schedule). vm_compute. reflexivity.
  - apply (Hlock 0%nat p Hp Ha).
Defined.

End takeover_example.
