(* ===== verification/SystemdHost.v ===== *)
(** * The host of the systemd upgrade helper ([internal/upgrade/helper_files.go],
      [files.go])

    What the privileged helper works on: the four managed files of an installation,
    the receipts and the retained previous files by task, the staged releases.  What
    else it meets (accounts, systemd, running processes, the network, the clocks, and
    whether a file operation succeeds) is a class over any state; a call without an
    answer is a helper that was killed in it. *)
From S2P Require Import Prelude Crash GoStrings Sha256 Catalog CatalogReview HandoverJournal UpgradeDocs.

(** ** Data *)

Record file := MkFile { fContent : string; fMode : Z; fGroup : Z }.

Record helperBackup := MkHelperBackup { BkPreviousVersion : string; OldSHA256 : string; NewSHA256 : string; BkStateSchema : Z }.

#[global] Instance helperBackup_eq_dec : EqDecision helperBackup.
Proof. solve_decision. Defined.

(** A directory [<task>.backup]: its files by name, and [metadata.json]. *)
Record backupDir := MkBackupDir { bdFiles : gmap string file; bdMeta : docRead helperBackup }.

Record BuildInfo := MkBuildInfo { BiVersion : string; BiStateSchema : Z; BiUpgradeContract : Z }.

(** What [Lstat] says; the owner is [None] when the system does not tell. *)
Record fileInfo := MkFileInfo { fiSymlink : bool; fiDir : bool; fiRegular : bool; fiPerm : Z; fiOwner : option Z }.

(** [user.Lookup]. *)
Record account := MkAccount { acHome : string; acUid : string; acGid : string }.

(** An HTTP exchange: its status, the declared length of the body ([-1] when there is
    none), the body, and whether reading it ended well. *)
Inductive httpAnswer := HttpFailed | HttpResponse (status length : Z) (body : string) (complete : bool).

(** The file operations whose outcome the host decides. *)
Inductive fsOp := FsOpenLock | FsFlock | FsRead | FsList | FsMkdir | FsChown | FsCreate | FsSync | FsRemove | FsRemoveAll | FsChmod | FsSyncDir.

(** [ReadRequest] is [None] when the request document cannot be read; [ReadFile],
    [FileDigest] and [RunBinary] when the file cannot be read or the command fails;
    [Systemctl] when the command fails.  [RunBinary] gives what a command printed.
    [TempDir] names a directory under the staging root.  [Strays] lists what a backup
    directory holds besides the files written to it whole.  [Tick] is [false] when the
    deadline of a wait has passed. *)
Class SystemdHost (E : Type) := {
  LookupAccount : E -> option (option account) * E;
  Lstat : string -> E -> option (option fileInfo) * E;
  ReadFile : string -> E -> option (option string) * E;
  FileDigest : string -> E -> option (option string) * E;
  RunBinary : string -> list string -> E -> option (option string) * E;
  Systemctl : list string -> E -> option (option string) * E;
  HttpGet : string -> E -> option httpAnswer * E;
  CtxDone : E -> option bool * E;
  BootNow : E -> option (option (string * Z)) * E;
  ReadRequest : E -> option (option Request) * E;
  ReadyDocument : string -> E -> option (docRead Ready) * E;
  Nonce : E -> option (option string) * E;
  TempDir : E -> option (option string) * E;
  ModTime : string -> E -> option (option Z) * E;
  Strays : string -> E -> option (list string) * E;
  Tick : E -> option bool * E;
  WriteAnswer : E -> option fileWrite * E;
  Attempt : fsOp -> E -> option bool * E
}.

(** [strings.TrimSuffix]. *)
Definition TrimSuffix (s suffix : string) : string := if HasSuffix s suffix then take_str (String.length s - String.length suffix) s else s.

Definition newline : string := String "010" "".

Definition maxHelperFile : Z := 268435456.

Section world.
Context {E : Type} `{SystemdHost E}.

(** Managed files by their path under the root, receipts and backups by task, staged
    releases by directory and name. *)
Record hstate := MkHState {
  hHost : E;
  hFiles : gmap string file;
  hReceipts : gmap string (docRead Receipt);
  hBackups : gmap string backupDir;
  hStage : gmap string (gmap string string)
}.

Notation hM := (crashM hstate).

Definition setHost (e : E) (s : hstate) : hstate := MkHState e (hFiles s) (hReceipts s) (hBackups s) (hStage s).
Definition ask {A} (call : E -> option A * E) : hM A := fun s => let '(a, e) := call (hHost s) in (a, setHost e s).
Definition attempt (op : fsOp) : hM bool := ask (Attempt op).
Definition look {A} (f : hstate -> A) : hM A := fun s => (Some (f s), s).
Definition change (f : hstate -> hstate) : hM unit := fun s => (Some tt, f s).

(** The rest of a function after a call that returned no error. *)
Definition try {A B} (m : hM (res string A)) (f : A -> hM (res string B)) : hM (res string B) :=
  r ← m; match r with Ok a => f a | Err e => mret (Err e) end.

(** ** Reads *)

(** [os.OpenFile] and [io.ReadAll]; a file that is not there cannot be opened. *)
Definition readVia (get : hstate -> option string) : hM (option string) :=
  ok ← attempt FsRead; if ok : bool then look get else mret None.

Definition content (path : string) (s : hstate) : option string := fContent <$> hFiles s !! path.
Definition retained (task name : string) (s : hstate) : option string := dir ← hBackups s !! task; fContent <$> bdFiles dir !! name.
Definition staged (dir name : string) (s : hstate) : option string := files ← hStage s !! dir; files !! name.

(** [BinaryDigest] of a file with this content. *)
Definition digestOf (content : option string) : option string :=
  c ← content; if decide (maxHelperFile < len c) then None else Some (sha256_hex c).

Definition BinaryDigest (get : hstate -> option string) : hM (option string) :=
  c ← readVia get; mret (digestOf c).

(** [ReadDocument]. *)
Definition readDoc {A} (get : hstate -> docRead A) : hM (docRead A) :=
  ok ← attempt FsRead; if ok : bool then look get else mret DocBroken.

Definition receiptAt (task : string) (s : hstate) : docRead Receipt := default DocAbsent (hReceipts s !! task).
Definition metaAt (task : string) (s : hstate) : docRead helperBackup := match hBackups s !! task with Some dir => bdMeta dir | None => DocAbsent end.

(** ** Writes *)

(** [atomicHelperFile]: the rename replaces the whole file, and an error after it has
    replaced it all the same. *)
Definition atomicHelperFile (name text : string) (put : hstate -> hstate) : hM (res string unit) :=
  if Contains name "/" then mret (Err "helper file name is not canonical") else
  answer ← ask WriteAnswer;
  match answer with
  | WriteRefused => mret (Err "file write")
  | _ =>
      if decide (maxHelperFile < len text) then mret (Err "helper file exceeds safe limit") else
      _ ← change put;
      mret (match answer with WriteDone => Ok tt | _ => Err "directory sync" end)
  end.

(** The text of a document is not modelled. *)
Definition atomicHelperDocument (name : string) (put : hstate -> hstate) : hM (res string unit) := atomicHelperFile name "" put.

Definition putManaged (path : string) (f : file) (s : hstate) : hstate := MkHState (hHost s) (<[path := f]> (hFiles s)) (hReceipts s) (hBackups s) (hStage s).
Definition putReceipt (task : string) (r : Receipt) (s : hstate) : hstate := MkHState (hHost s) (hFiles s) (<[task := DocIs r]> (hReceipts s)) (hBackups s) (hStage s).
Definition alterBackup (task : string) (f : backupDir -> backupDir) (s : hstate) : hstate :=
  MkHState (hHost s) (hFiles s) (hReceipts s) (alter f task (hBackups s)) (hStage s).
Definition putRetained (task name : string) (f : file) : hstate -> hstate :=
  alterBackup task (fun dir => MkBackupDir (<[name := f]> (bdFiles dir)) (bdMeta dir)).
Definition putMeta (task : string) (b : helperBackup) : hstate -> hstate :=
  alterBackup task (fun dir => MkBackupDir (bdFiles dir) (DocIs b)).
Definition newBackup (task : string) (s : hstate) : hstate :=
  MkHState (hHost s) (hFiles s) (hReceipts s) (<[task := MkBackupDir ∅ DocAbsent]> (hBackups s)) (hStage s).
Definition dropBackup (task : string) (s : hstate) : hstate :=
  MkHState (hHost s) (hFiles s) (hReceipts s) (delete task (hBackups s)) (hStage s).
Definition onStage (f : gmap string (gmap string string) -> gmap string (gmap string string)) (s : hstate) : hstate :=
  MkHState (hHost s) (hFiles s) (hReceipts s) (hBackups s) (f (hStage s)).

(** [os.OpenFile] with [O_EXCL] in a staging directory, and what is written to it. *)
Definition createStaged (dir name text : string) : hM bool :=
  files ← look (fun s => hStage s !! dir);
  ok ← attempt FsCreate;
  match files, ok with
  | Some files, true => if decide (files !! name = None) then _ ← change (onStage (fun stage => <[dir := <[name := text]> files]> stage)); mret true else mret false
  | _, _ => mret false
  end.

(** ** Ownership *)

(** [Err] when the path is missing, linked, foreign or writable by another account. *)
Definition checkOwnedPath (name : string) (owner : Z) (directory : bool) : hM (res string unit) :=
  info ← ask (Lstat name);
  mret (match info with
        | None => Err "managed upgrade path is missing, linked, foreign or writable by another account"
        | Some info =>
            if fiSymlink info || (directory && negb (fiDir info)) || (negb directory && negb (fiRegular info)) ||
               negb (bool_decide (Z.land (fiPerm info) 18 = 0))
            then Err "managed upgrade path is missing, linked, foreign or writable by another account" else
            if decide (fiOwner info = Some owner) then Ok tt else Err "managed upgrade path has an unexpected owner"
        end).

Fixpoint checkOwnedPaths (paths : list (string * Z * bool)) : hM (res string unit) :=
  match paths with
  | [] => mret (Ok tt)
  | (name, owner, directory) :: rest => try (checkOwnedPath name owner directory) (fun _ => checkOwnedPaths rest)
  end.

End world.

(** Programs of a helper on a host [E]. *)
Notation hM E := (crashM (hstate (E := E))).

Notation "x '←?' y ; z" := (try y (fun x => z)) (at level 20, y at level 100, z at level 200, only parsing).
