(* ===== verification/ReleaseFetch.v ===== *)
(** * Fetching a release ([internal/upgrade/release.go], [internal/releaseauth])

    The helper downloads the manifest of a release, its signature and its archive,
    authenticates the manifest with the pinned key, the archive with the manifest,
    and unpacks the three files it installs. *)
From S2P Require Import Prelude Crash GoStrings Sha256 ReleaseId Catalog CatalogReview HandoverJournal UpgradeDocs SystemdHost.

(** ** Base64, as the strict standard encoding *)

Definition base64Value (a : ascii) : option Z :=
  let n := Z.of_nat (nat_of_ascii a) in
  if decide (65 ≤ n ≤ 90) then Some (n - 65) else
  if decide (97 ≤ n ≤ 122) then Some (n - 71) else
  if decide (48 ≤ n ≤ 57) then Some (n + 4) else
  if decide (n = 43) then Some 62 else if decide (n = 47) then Some 63 else None.

Definition byteChar (z : Z) : ascii := ascii_of_nat (Z.to_nat z).

(** Groups of four; only the last is padded, and its spare bits are zero. *)
Fixpoint base64Decode (s : string) : option string :=
  match s with
  | "" => Some ""
  | String a (String b (String c (String d rest))) =>
      x ← base64Value a;
      y ← base64Value b;
      let first := byteChar (4 * x + y / 16) in
      if decide (c = "="%char) then
        if decide (d = "="%char /\ rest = "" /\ y mod 16 = 0) then Some (String first "") else None
      else
        z ← base64Value c;
        let second := byteChar (16 * (y mod 16) + z / 4) in
        if decide (d = "="%char) then
          if decide (rest = "" /\ z mod 4 = 0) then Some (String first (String second "")) else None
        else
          w ← base64Value d;
          tail ← base64Decode rest;
          Some (String first (String second (String (byteChar (64 * (z mod 4) + w)) tail)))
  | _ => None
  end.

(** ** Archives *)

(** [thBody] is [None] when reading the member fails. *)
Record tarEntry := MkTarEntry { thName : string; thLinkname : string; thSize : Z; thType : Z; thBody : option string }.

(** The members as [Next] returns them, whether they end in the end of the archive
    rather than an error, and then what is left to read: [None] when that fails, and
    how much of the limit would remain. *)
Record tarStream := MkTarStream { tsEntries : list tarEntry; tsEnds : bool; tsRest : option string; tsLeft : Z }.

(** [crypto/ed25519]; [compress/gzip] and [archive/tar] under a limit, [None] when the
    archive cannot be opened; [DecodeStrict] of what a binary says of itself. *)
Class ReleaseLibrary := {
  ed25519Verify : string -> string -> string -> bool;
  openArchive : Z -> string -> option tarStream;
  DecodeBuildInfo : string -> option BuildInfo
}.

Definition SignatureAssetName : string := "SHA256SUMS.txt.sig".
Definition publicKeyBase64 : string := "ugFw5h6D5JY9toC182RZZW//soFUvNjpGl+Ka7FIpMk=".

Definition releaseDownloadBase : string := "https://github.com/KazuhaHub/Passwall-Node/releases/download/".
Definition maxChecksumBytes : Z := 262144.
Definition maxSignatureBytes : Z := 4096.
Definition maxLicenseBytes : Z := 1048576.
Definition maxArchiveMembers : Z := 128.
Definition maxVersionOutput : Z := 4096.
Definition defaultArchiveLimit : Z := 134217728.
Definition defaultBinaryLimit : Z := 268435456.
Definition expandedLimit : Z := defaultBinaryLimit + 8388608.

Record Candidate := MkCandidate { CaDir : string; CaVersion : string; CaArchiveSHA256 : string; CaBinarySHA256 : string }.

Definition anyByte (p : ascii -> bool) (s : string) : bool := existsb p (String.list_ascii_of_string s).

Section fetch.
Context `{ReleaseLibrary}.

(** ** The manifest *)

(** [None] is a panic. *)
Definition PublicKey : option string :=
  key ← base64Decode publicKeyBase64; if decide (String.length key = 32%nat) then Some key else None.

Definition verifyManifest (publicKey manifest encodedSignature : string) : res string unit :=
  let trimmed := TrimSuffix encodedSignature newline in
  if bool_decide (trimmed = "") || anyByte (fun a => bool_decide (nat_of_ascii a ∈ [32; 9; 13; 10]%nat)) trimmed
  then Err "release manifest signature has invalid framing" else
  match base64Decode trimmed with
  | Some signature =>
      if decide (String.length signature <> 64%nat) then Err "release manifest signature is malformed" else
      if ed25519Verify publicKey manifest signature then Ok tt else Err "release manifest signature verification failed"
  | None => Err "release manifest signature is malformed"
  end.

Definition VerifyManifest (manifest encodedSignature : string) : res string unit :=
  match PublicKey with Some key => verifyManifest key manifest encodedSignature | None => Err "invalid compiled Passwall-Node release signing key" end.

(** The lines of the scanner, with the digest found and the number of entries so
    far; a line as long as the buffer ends the scan in an error. *)
Fixpoint checksumLines (asset digest : string) (count : Z) (lines : list string) : res string string :=
  match lines with
  | [] => if decide (count = 1) then Ok digest else Err "upgrade checksum entry must exist exactly once"
  | line :: rest =>
      if decide (maxChecksumBytes ≤ len line) then Err "upgrade checksum entry must exist exactly once" else
      match Fields line with
      | sum :: name :: more =>
          if decide (TrimPrefix name "*" <> asset) then checksumLines asset digest count rest else
          if decide (more <> [] \/ hex32 sum = false) then Err "upgrade checksum entry is malformed" else
          checksumLines asset (ascii_lower sum) (count + 1) rest
      | _ => checksumLines asset digest count rest
      end
  end.

Definition releaseChecksum (manifest asset : string) : res string string := checksumLines asset "" 0 (Split "010" manifest).

(** ** Addresses *)

(** [url.PathEscape]. *)
Definition escaped (a : ascii) : bool :=
  let n := nat_of_ascii a in
  negb (bool_decide (48 ≤ n ≤ 57 \/ 65 ≤ n ≤ 90 \/ 97 ≤ n ≤ 122)%nat || bool_decide (a ∈ ["-"; "_"; "."; "~"; "$"; "&"; "+"; ":"; "="; "@"]%char)).
Definition upperHexDigit (n : nat) : ascii := ascii_of_nat (if decide (n < 10)%nat then 48 + n else 55 + n).
Definition PathEscape (s : string) : string :=
  foldr (fun a acc => if escaped a then let n := nat_of_ascii a in String "%" (String (upperHexDigit (n / 16)) (String (upperHexDigit (n mod 16)) acc)) else String a acc)
    "" (String.list_ascii_of_string s).

Definition releaseTagPath (tag : string) : string := join "/" (PathEscape <$> Split "/" tag).

(** ** Downloads *)

Context {E : Type} `{SystemdHost E}.

Inductive downloadError := ReleaseMissing | DownloadFailed (text : string).

Definition downloadText (e : downloadError) : string :=
  match e with ReleaseMissing => "upgrade release download returned HTTP 404" | DownloadFailed text => text end.

(** At most [n] bytes. *)
Definition atMost (n : Z) (s : string) : string := if decide (len s ≤ n) then s else take_str (Z.to_nat n) s.

Definition download (dir source name : string) (limit : Z) : hM E (res downloadError string) :=
  answer ← ask (HttpGet source);
  match answer with
  | HttpFailed => stopped ← ask CtxDone; mret (Err (DownloadFailed (if stopped : bool then "context canceled" else "upgrade release HTTPS download failed")))
  | HttpResponse status length body complete =>
      if decide (status = 404) then mret (Err ReleaseMissing) else
      if decide (status <> 200) then mret (Err (DownloadFailed ("upgrade release download returned HTTP status " +:+ FormatInt status))) else
      if decide (limit < length) then mret (Err (DownloadFailed "upgrade release declared download size exceeds its limit")) else
      let written := atMost (limit + 1) body in
      created ← createStaged dir name written;
      if negb created then mret (Err (DownloadFailed "create private upgrade download failed")) else
      synced ← attempt FsSync;
      stopped ← ask CtxDone;
      if stopped : bool then mret (Err (DownloadFailed "context canceled")) else
      if negb complete || bool_decide (limit < len written) || negb synced
      then mret (Err (DownloadFailed "write bounded upgrade release download failed")) else
      mret (Ok (sha256_hex written))
  end.

Definition orFail {A} (m : hM E (res downloadError A)) : hM E (res string A) :=
  r ← m; mret (match r with Ok a => Ok a | Err e => Err (downloadText e) end).

Definition checksumsName : string := "SHA256SUMS.txt".

(** The addresses that are left, and the error of the last one tried. *)
Fixpoint resolveAddresses (dir version lastErr : string) (addresses : list (string -> res ReleaseError Tag)) : hM E (res string string) :=
  match addresses with
  | [] => mret (Err lastErr)
  | address :: rest =>
      match address version with
      | Err _ => mret (Err "upgrade requires an exact canonical PN release version")
      | Ok tag =>
          let path := releaseDownloadBase +:+ releaseTagPath (Raw tag) +:+ "/" in
          got ← download dir (path +:+ checksumsName) checksumsName maxChecksumBytes;
          match got with
          | Ok _ => mret (Ok path)
          | Err ReleaseMissing => resolveAddresses dir version (downloadText ReleaseMissing) rest
          | Err e => mret (Err (downloadText e))
          end
      end
  end.

Definition resolveReleasePath (dir version : string) : hM E (res string string) := resolveAddresses dir version "" [TagForVersion; HistoricalTagFor].

(** ** Unpacking *)

Record extraction := MkExtraction { exSeen : gset string; exFound : gset string; exTotal : Z; exDigest : string }.

Definition requiredLimit (member : string) : option Z :=
  if decide (member = "passwall-node") then Some defaultBinaryLimit else
  if decide (member = "LICENSE" \/ member = "NOTICE") then Some maxLicenseBytes else None.

(** What the loop does with the header of its turn number [entries]: the member to
    write, when it is a required one. *)
Definition admitEntry (package : string) (ex : extraction) (entries : Z) (h : tarEntry) : res string (extraction * option string) :=
  if decide (maxArchiveMembers ≤ entries) then Err "upgrade archive is invalid or contains too many entries" else
  let name := TrimSuffix (thName h) "/" in
  if bool_decide (name = "") || negb (bool_decide (Clean name = name)) || anyByte (fun a => bool_decide (nat_of_ascii a ∈ [92; 0]%nat)) name ||
     (negb (bool_decide (name = package)) && negb (HasPrefix name (package +:+ "/"))) || bool_decide (name ∈ exSeen ex) ||
     negb (bool_decide (thLinkname h = "")) || bool_decide (thSize h < 0)
  then Err "upgrade archive contains an unsafe or duplicate member" else
  let seen := {[ name ]} ∪ exSeen ex in
  let member := TrimPrefix name (package +:+ "/") in
  if decide (thType h = 53) then
    if negb (bool_decide (thSize h = 0)) || bool_decide (requiredLimit member <> None) then Err "upgrade archive directory is malformed" else
    Ok (MkExtraction seen (exFound ex) (exTotal ex) (exDigest ex), None)
  else
  if (negb (bool_decide (thType h = 48)) && negb (bool_decide (thType h = 0))) || negb (bool_decide (name = thName h)) || bool_decide (name = package)
  then Err "upgrade archive contains a non-regular member" else
  if decide (expandedLimit - exTotal ex < thSize h) then Err "upgrade expanded archive exceeds its limit" else
  let ex := MkExtraction seen (exFound ex) (exTotal ex + thSize h) (exDigest ex) in
  match requiredLimit member with
  | None => Ok (ex, None)
  | Some limit =>
      if decide (thSize h ≤ 0 \/ limit < thSize h) then Err "upgrade required member must be a non-empty bounded regular file" else
      Ok (ex, Some member)
  end.

Definition foundMember (ex : extraction) (member body : string) : extraction :=
  MkExtraction (exSeen ex) ({[ member ]} ∪ exFound ex) (exTotal ex) (if decide (member = "passwall-node") then sha256_hex body else exDigest ex).

Fixpoint extractEntries (dir package : string) (ex : extraction) (entries : Z) (l : list tarEntry) (ends : bool) : hM E (res string extraction) :=
  stopped ← ask CtxDone;
  if stopped : bool then mret (Err "context canceled") else
  match l with
  | [] => mret (if ends then Ok ex else Err "upgrade archive is invalid or contains too many entries")
  | h :: rest =>
      match admitEntry package ex entries h with
      | Err e => mret (Err e)
      | Ok (ex, None) => extractEntries dir package ex (entries + 1) rest ends
      | Ok (ex, Some member) =>
          let body := default "" (thBody h) in
          created ← createStaged dir member body;
          if negb created then mret (Err "create private upgrade archive member failed") else
          synced ← attempt FsSync;
          if bool_decide (thBody h = None) || negb (bool_decide (len body = thSize h)) || negb synced
          then mret (Err "write upgrade archive member failed") else
          extractEntries dir package (foundMember ex member body) (entries + 1) rest ends
      end
  end.

(** [zeroReleasePadding]. *)
Definition zeroPadding (s : string) : bool := negb (anyByte (fun a => negb (bool_decide (nat_of_ascii a = 0%nat))) s).

Definition archiveName : string := "release.tar.gz".

Definition extractRelease (dir package : string) : hM E (res string string) :=
  archive ← readVia (staged dir archiveName);
  match archive with
  | None => mret (Err "open staged upgrade archive failed")
  | Some archive =>
      match openArchive (expandedLimit + 1) archive with
      | None => mret (Err "open upgrade gzip archive failed")
      | Some stream =>
          ex ←? extractEntries dir package (MkExtraction ∅ ∅ 0 "") 0 (tsEntries stream) (tsEnds stream);
          if negb (forallb (fun member => bool_decide (member ∈ exFound ex)) ["passwall-node"; "LICENSE"; "NOTICE"])
          then mret (Err "upgrade archive is missing a required member") else
          match tsRest stream with
          | Some rest =>
              if negb (zeroPadding rest) || bool_decide (tsLeft stream ≤ 0) then mret (Err "upgrade gzip integrity verification failed") else
              marked ← attempt FsChmod;
              mret (if marked : bool then Ok (exDigest ex) else Err "mark private upgrade binary executable failed")
          | None => mret (Err "upgrade gzip integrity verification failed")
          end
      end
  end.

(** What the binary says to [--version]: the version, and the commit it may add. *)
Definition commitNote (s : string) : bool :=
  match CutPrefix s " (" with
  | Some rest =>
      HasSuffix rest ")" && (let digits := take_str (String.length rest - 1) rest in bool_decide (7 ≤ String.length digits ≤ 64)%nat && allBytes hexByte digits)
  | None => false
  end.
Definition reportsVersion (version output : string) : bool :=
  match CutPrefix output version with
  | Some note => let note := TrimSuffix note newline in bool_decide (note = "") || commitNote note
  | None => false
  end.

(** [releaseOutput]: a command that prints too much fails. *)
Definition boundedRun (path : string) (args : list string) : hM E (option string) :=
  output ← ask (RunBinary path args);
  mret (output ← output; if decide (maxVersionOutput < len output) then None else Some output).

Definition verifyReleaseBinary (path version : string) : hM E (res string unit) :=
  output ← boundedRun path ["--version"];
  match output with
  | None => stopped ← ask CtxDone; mret (Err (if stopped : bool then "context canceled" else "downloaded upgrade binary failed bounded native version verification"))
  | Some output => mret (if reportsVersion version output then Ok tt else Err "downloaded upgrade binary did not report the exact selected release")
  end.

(** ** The whole fetch *)

Context (goarch : string).

Definition packageName (version : string) : string := "passwall-node_" +:+ version +:+ "_linux_" +:+ goarch.
Definition assetName (version : string) : string := packageName version +:+ ".tar.gz".
Definition InstallRoot : string := "/opt/passwall-node".
Definition stageRoot : string := InstallRoot +:+ "/upgrades/staging".

(** [NewReleaseFetcher] with the options of the helper. *)
Definition NewReleaseFetcher : res string unit :=
  if negb (HasPrefix stageRoot "/") || negb (bool_decide (Clean stageRoot = stageRoot)) then Err "upgrade staging root must be an absolute canonical path" else
  if decide (goarch <> "amd64" /\ goarch <> "arm64") then Err "agent upgrades support only Linux amd64 and arm64 releases" else Ok tt.

Fixpoint removeStaged (dir : string) (names : list string) : hM E (res string unit) :=
  match names with
  | [] => mret (Ok tt)
  | name :: rest =>
      removed ← attempt FsRemove;
      if negb removed then mret (Err "remove temporary upgrade download failed") else
      _ ← change (onStage (alter (delete name) dir));
      removeStaged dir rest
  end.

Definition fetchInto (dir version : string) : hM E (res string Candidate) :=
  releasePath ←? resolveReleasePath dir version;
  _ ←? orFail (download dir (releasePath +:+ SignatureAssetName) SignatureAssetName maxSignatureBytes);
  checksums ← readVia (staged dir checksumsName);
  match checksums with
  | None => mret (Err "read staged upgrade checksums failed")
  | Some checksums =>
      signature ← readVia (staged dir SignatureAssetName);
      match signature with
      | None => mret (Err "read staged upgrade checksum signature failed")
      | Some signature =>
          match VerifyManifest checksums signature, releaseChecksum checksums (assetName version) with
          | Err e, _ => mret (Err ("authenticate upgrade release manifest: " +:+ e))
          | Ok _, Err e => mret (Err e)
          | Ok _, Ok wantDigest =>
              archiveDigest ←? orFail (download dir (releasePath +:+ assetName version) archiveName defaultArchiveLimit);
              if decide (archiveDigest <> wantDigest) then mret (Err "upgrade archive SHA-256 verification failed") else
              binaryDigest ←? extractRelease dir (packageName version);
              _ ←? verifyReleaseBinary (dir +:+ "/passwall-node") version;
              _ ←? removeStaged dir [checksumsName; SignatureAssetName; archiveName];
              mret (Ok (MkCandidate dir version archiveDigest binaryDigest))
          end
      end
  end.

(** [os.RemoveAll]. *)
Definition removeAll (dir : string) : hM E unit :=
  removed ← attempt FsRemoveAll; if removed : bool then change (onStage (delete dir)) else mret tt.

(** [os.MkdirTemp]: the name is a new one. *)
Definition mkdirTemp : hM E (option string) :=
  name ← ask TempDir;
  stage ← look hStage;
  match name with
  | Some dir => if decide (stage !! dir = None) then _ ← change (onStage (fun m => <[dir := ∅]> m)); mret (Some dir) else mret None
  | None => mret None
  end.

Definition Fetch (version : string) : hM E (res string Candidate) :=
  stopped ← ask CtxDone;
  if stopped : bool then mret (Err "context canceled") else
  if bool_decide (128 < len version) || negb (is_Ok (TagForVersion version)) then mret (Err "upgrade requires an exact canonical PN release version") else
  made ← attempt FsMkdir;
  if negb made then mret (Err "create upgrade staging root") else
  info ← ask (Lstat stageRoot);
  if negb (match info with Some info => fiDir info && bool_decide (Z.land (fiPerm info) 63 = 0) | None => false end)
  then mret (Err "upgrade staging root must be a private non-linked directory") else
  dir ← mkdirTemp;
  match dir with
  | None => mret (Err "create private upgrade candidate")
  | Some dir =>
      fetched ← fetchInto dir version;
      match fetched with
      | Ok candidate => mret (Ok candidate)
      | Err e => _ ← removeAll dir; mret (Err e)
      end
  end.

End fetch.
