(* ===== verification/SystemdSwap.v ===== *)
(** * The systemd upgrade helper ([internal/upgrade/helper_linux.go])

    The privileged helper of a systemd installation: it validates a request, fetches
    the release, retains the four managed files, replaces them with the service
    stopped, waits for the new process to prove itself, and otherwise puts the
    previous files back.  An interrupted upgrade is rolled back by the next helper. *)
From S2P Require Import Prelude Crash GoStrings Sha256 Protocol ReleaseId Catalog CatalogReview HandoverJournal UpgradeDocs SystemdHost ReleaseFetch.

Section helper.
Context {E : Type} `{SystemdHost E} `{ReleaseLibrary} `{Protocol} `{UpgradeProtocol}.
(** The state schema of the helper, its group and its architecture. *)
Context (schema egid : Z) (goarch : string).

Definition nodeService : string := "passwall-node.service".
Definition rooted (path : string) : string := InstallRoot +:+ "/" +:+ path.
Definition binaryFile : string := "bin/passwall-node".
Definition versionFile : string := "config/version".
Definition managedUpgradeFiles : list string := [binaryFile; versionFile; "licenses/LICENSE"; "licenses/NOTICE"].

(** [filepath.Base] of a managed file. *)
Definition baseName (file : string) : string := List.last (Split "/" file) "".
Definition backupName (file : string) : string := if decide (file = binaryFile) then "passwall-node" else baseName file.
Definition backupPath (task : string) : string := rooted ("upgrades/" +:+ task +:+ ".backup").

(** ** Receipts *)

Definition taskOf (receipt : Receipt) : string := TID (RqTask (RcRequest receipt)).

Definition helperTerminal (phase : string) : bool := bool_decide (phase = "succeeded" \/ phase = "failed" \/ phase = "indeterminate").

Definition writeReceipt (receipt : Receipt) : hM E (res string unit) :=
  let write := atomicHelperDocument (taskOf receipt +:+ ".json") (putReceipt (taskOf receipt) receipt) in
  previous ← readDoc (receiptAt (taskOf receipt));
  match previous with
  | DocIs previous =>
      if negb (sameTask (RqTask (RcRequest previous)) (RqTask (RcRequest receipt))) then mret (Err "immutable upgrade identity changed") else
      if helperTerminal (RcPhase previous) then mret (Err "terminal upgrade receipt cannot be overwritten") else write
  | DocBroken => mret (Err "existing receipt is not a safe document")
  | DocAbsent => write
  end.

Definition fail (request : Request) (code cause : string) : hM E (res string unit) :=
  _ ←? writeReceipt (MkReceipt request "failed" None code cause ""); mret (Err cause).

Definition markIndeterminate (receipt : Receipt) (message : string) : hM E (res string unit) :=
  _ ←? writeReceipt (MkReceipt (RcRequest receipt) "indeterminate" None "agent_upgrade_indeterminate" message (ActivationNonce receipt)); mret (Err message).

Definition inPhase (phase : string) (receipt : Receipt) : Receipt :=
  MkReceipt (RcRequest receipt) phase (RcResult receipt) (RcErrorCode receipt) (RcError receipt) (ActivationNonce receipt).

(** ** The installed release *)

(** The version a version file holds: at most 128 bytes, not empty; a final newline
    does not count. *)
Definition managedVersion (text : string) : option string :=
  let value := TrimSuffix (atMost 130 text) newline in
  if decide (128 < len value \/ value = "") then None else Some value.

Definition readManagedVersion : hM E (option string) := text ← readVia (content versionFile); mret (text ≫= managedVersion).

Definition readBuildInfo (path : string) : hM E (option BuildInfo) :=
  output ← boundedRun path ["--upgrade-info"]; mret (output ≫= DecodeBuildInfo).

(** The binary is a release of this version that this helper may exchange. *)
Definition supports (info : option BuildInfo) (version : string) : bool :=
  match info with
  | Some info => bool_decide (BiVersion info = version /\ BiStateSchema info = schema /\ BiUpgradeContract info = 1)
  | None => false
  end.

(** ** The running process *)

Definition parseUint32 (s : string) : option Z :=
  if decide (s = "") then None else
  match ParseUint 0 s with (n, None) => if decide (n < 4294967296) then Some n else None | _ => None end.

(** The lines of a process status: every [Uid:] line names only [uid], and there is
    one. *)
Fixpoint uidEvidence (uid : Z) (found : bool) (lines : list string) : res string unit :=
  match lines with
  | [] => if found then Ok tt else Err "managed process UID evidence is absent"
  | line :: rest =>
      if negb (HasPrefix line "Uid:") then uidEvidence uid found rest else
      match Fields line with
      | [_; a; b; c; d] =>
          if forallb (fun field => match parseUint32 field with Some n => bool_decide (n = uid /\ n <> 0) | None => false end) [a; b; c; d]
          then uidEvidence uid true rest else Err "managed process must run only as the dedicated non-root UID"
      | _ => Err "managed process UID evidence is malformed"
      end
  end.

Definition verifyRunningProcess (digest : string) (uid expectedPID : Z) : hM E (res string unit) :=
  output ← ask (Systemctl ["show"; nodeService; "--property=MainPID"; "--value"]);
  match output with
  | None => mret (Err "managed systemd operation failed")
  | Some output =>
      match ParseInt (TrimSpace output) with
      | (pid, None) =>
          if decide (pid ≤ 1) then mret (Err "managed service has no valid main process") else
          if decide (expectedPID <> 0 /\ pid <> expectedPID) then mret (Err "managed service main process does not match activation readiness") else
          let processRoot := "/proc/" +:+ FormatInt pid in
          status ← ask (ReadFile (processRoot +:+ "/status"));
          match status with
          | None => mret (Err "managed process status cannot be read")
          | Some status =>
              match uidEvidence uid false (Split "010" status) with
              | Err e => mret (Err e)
              | Ok _ =>
                  got ← ask (FileDigest (processRoot +:+ "/exe"));
                  mret (if decide (got = Some digest) then Ok tt else Err "managed process executable does not match the verified release")
              end
          end
      | _ => mret (Err "managed service has no valid main process")
      end
  end.

Fixpoint waitProcess (fuel : nat) (digest : string) (uid : Z) : hM E (res string unit) :=
  match fuel with
  | O => killed
  | S fuel =>
      seen ← verifyRunningProcess digest uid 0;
      match seen with
      | Ok _ => mret (Ok tt)
      | Err _ => again ← ask Tick; if again : bool then waitProcess fuel digest uid else mret (Err "context deadline exceeded")
      end
  end.

(** The readiness document answers this receipt. *)
Definition readyAnswers (receipt : Receipt) (ready : Ready) : bool :=
  bool_decide (String.length (ActivationNonce receipt) = 32%nat /\ RyNonce ready = ActivationNonce receipt /\ 1 < RyPID ready /\ RyTaskID ready = taskOf receipt /\
    RyInputSHA256 ready = TInputSHA256 (RqTask (RcRequest receipt)) /\ RyVersion ready = ArgVersion (RqArgs (RcRequest receipt)) /\
    Some (RyBinarySHA256 ready) = UrBinarySHA256 <$> RcResult receipt).

Fixpoint waitReady (fuel : nat) (receipt : Receipt) (uid : Z) : hM E (res string unit) :=
  match fuel with
  | O => killed
  | S fuel =>
      let again := more ← ask Tick; if more : bool then waitReady fuel receipt uid else mret (Err "context deadline exceeded") in
      read ← ask (ReadyDocument (taskOf receipt));
      match read with
      | DocIs ready =>
          if readyAnswers receipt ready then
            seen ← verifyRunningProcess (RyBinarySHA256 ready) uid (RyPID ready);
            match seen with Ok _ => mret (Ok tt) | Err _ => again end
          else again
      | _ => again
      end
  end.

(** ** Retaining, installing and restoring files *)

Definition mkdirBackup (task : string) : hM E (res string unit) :=
  there ← look (fun s => hBackups s !! task);
  made ← attempt FsMkdir;
  match there, made with
  | None, true => _ ← change (newBackup task); mret (Ok tt)
  | _, _ => mret (Err "mkdir")
  end.

Fixpoint retainFiles (task : string) (backup : helperBackup) (gid : Z) (files : list string) : hM E (res string unit) :=
  match files with
  | [] => mret (Ok tt)
  | file :: rest =>
      _ ←? (if decide (file = versionFile) then
              let text := BkPreviousVersion backup +:+ newline in
              atomicHelperFile "version" text (putRetained task "version" (MkFile text 416 gid))
            else
              text ← readVia (content file);
              match text with
              | None => mret (Err "open")
              | Some text => atomicHelperFile (backupName file) text (putRetained task (backupName file) (MkFile text 416 gid))
              end);
      retainFiles task backup gid rest
  end.

Definition prepareBackup (task : string) (backup : helperBackup) (gid : Z) : hM E (res string unit) :=
  _ ←? mkdirBackup task;
  owned ← attempt FsChown;
  if negb owned then mret (Err "chown") else
  _ ←? retainFiles task backup gid managedUpgradeFiles;
  atomicHelperDocument "metadata.json" (putMeta task backup).

(** The mode and group of a managed file: 0755, 0640 or 0644. *)
Definition managedMode (file : string) : Z := if decide (file = binaryFile) then 493 else if decide (file = versionFile) then 416 else 420.
Definition managedGroup (gid : Z) (file : string) : Z := if decide (file = versionFile) then gid else egid.

Definition putFile (gid : Z) (file text : string) : hM E (res string unit) :=
  atomicHelperFile (baseName file) text (putManaged file (MkFile text (managedMode file) (managedGroup gid file))).

Fixpoint installFiles (candidate : Candidate) (gid : Z) (files : list string) : hM E (res string unit) :=
  match files with
  | [] => mret (Ok tt)
  | file :: rest =>
      _ ←? (if decide (file = versionFile) then putFile gid file (CaVersion candidate +:+ newline) else
            text ← readVia (staged (CaDir candidate) (baseName file));
            match text with None => mret (Err "open") | Some text => putFile gid file text end);
      installFiles candidate gid rest
  end.
Definition installCandidate (candidate : Candidate) (gid : Z) : hM E (res string unit) := installFiles candidate gid managedUpgradeFiles.

Fixpoint restoreFiles (task : string) (gid : Z) (files : list string) : hM E (res string unit) :=
  match files with
  | [] => mret (Ok tt)
  | file :: rest =>
      text ← readVia (retained task (backupName file));
      match text with
      | None => mret (Err "open")
      | Some text => _ ←? putFile gid file text; restoreFiles task gid rest
      end
  end.

Definition restoreBackup (task : string) (backup : helperBackup) (gid : Z) : hM E (res string unit) :=
  _ ←? checkOwnedPath (backupPath task) 0 true;
  digest ← BinaryDigest (retained task "passwall-node");
  if decide (digest <> Some (OldSHA256 backup) \/ BkStateSchema backup <> schema) then mret (Err "retained binary or schema identity mismatch") else
  restoreFiles task gid managedUpgradeFiles.

(** ** Rolling back *)

Definition mixedNote (recorded : option string) (expected : string) : string :=
  match recorded with
  | None => "; the recorded version could not be read, so the installation is inconsistent and the next upgrade will be refused"
  | Some recorded =>
      if decide (expected <> "" /\ recorded <> expected) then
        "; the recorded version is " +:+ recorded +:+ " while the installed binary is " +:+ expected +:+
        ", so the installation is inconsistent and the next upgrade will be refused until it is repaired"
      else ""
  end.

Definition restartAfterFailedRestore (fuel : nat) (receipt : Receipt) (backup : helperBackup) (uid : Z) (message : string) : hM E string :=
  digest ← BinaryDigest (content binaryFile);
  let restart digest installed expected :=
    recorded ← readManagedVersion;
    let mixed := mixedNote recorded expected in
    started ← ask (Systemctl ["start"; nodeService]);
    match started with
    | None => mret (message +:+ "; " +:+ installed +:+ " is installed but the service could not be started" +:+ mixed)
    | Some _ =>
        seen ← waitProcess fuel digest uid;
        mret (match seen with
              | Err _ => message +:+ "; " +:+ installed +:+ " was started but its process could not be confirmed" +:+ mixed
              | Ok _ => message +:+ "; " +:+ installed +:+ " is installed and was restarted" +:+ mixed
              end)
    end in
  match digest with
  | None => mret (message +:+ "; the installed binary could not be identified, so it was not started")
  | Some digest =>
      if decide (digest = OldSHA256 backup) then restart digest "the retained previous release" (BkPreviousVersion backup) else
      if decide (digest = NewSHA256 backup) then restart digest "the verified target release" (match RcResult receipt with Some r => UrVersion r | None => "" end) else
      mret (message +:+ "; the installed binary is neither the retained previous release nor the verified target, so it was not started")
  end.

Definition rollback (fuel : nat) (receipt : Receipt) (backup : helperBackup) (uid gid : Z) (message : string) : hM E (res string unit) :=
  let receipt := inPhase "rolling_back" receipt in
  _ ←? writeReceipt receipt;
  stopped ← ask (Systemctl ["stop"; nodeService]);
  match stopped with
  | None => markIndeterminate receipt "cannot stop target service for rollback"
  | Some _ =>
      restored ← restoreBackup (taskOf receipt) backup gid;
      match restored with
      | Err _ =>
          text ← restartAfterFailedRestore fuel receipt backup uid "retained previous files could not be restored";
          markIndeterminate receipt text
      | Ok _ =>
          started ← ask (Systemctl ["start"; nodeService]);
          match started with
          | None => markIndeterminate receipt "previous release files restored but service could not start"
          | Some _ =>
              seen ← waitProcess fuel (OldSHA256 backup) uid;
              match seen with
              | Err _ => markIndeterminate receipt "previous release process could not be confirmed after rollback"
              | Ok _ =>
                  let text := message +:+ "; previous managed release restored" in
                  _ ←? writeReceipt (MkReceipt (RcRequest receipt) "failed" None "agent_upgrade_failed" text (ActivationNonce receipt));
                  mret (Err text)
              end
          end
      end
  end.

Definition recover (fuel : nat) (receipt : Receipt) (uid gid : Z) : hM E (res string unit) :=
  let expected := ExpectedVersion (RqArgs (RcRequest receipt)) in
  let unverifiable := markIndeterminate receipt "interrupted upgrade has no verifiable complete file backup" in
  read ← readDoc (metaAt (taskOf receipt));
  match read with
  | DocIs backup =>
      if bool_decide (BkPreviousVersion backup <> expected) || negb (bool_decide (Some (NewSHA256 backup) = UrBinarySHA256 <$> RcResult receipt)) ||
         negb (validSHA256 (OldSHA256 backup))
      then markIndeterminate receipt "interrupted upgrade backup identity mismatch" else
      digest ← BinaryDigest (content binaryFile);
      if decide (digest = Some (OldSHA256 backup) \/ digest = Some (NewSHA256 backup)) then rollback fuel receipt backup uid gid "remote upgrade helper was interrupted"
      else markIndeterminate receipt "installed binary is neither retained previous nor verified target release"
  | _ =>
      if decide (RcPhase receipt = "prepared") then
        version ← readManagedVersion;
        if decide (version = Some expected)
        then fail (RcRequest receipt) "agent_upgrade_interrupted" "upgrade preparation was interrupted before activation"
        else unverifiable
      else unverifiable
  end.

End helper.
