(* ===== verification/SystemdRun.v ===== *)
(** * A run of the systemd upgrade helper ([internal/upgrade/helper_linux.go])

    From the validation of the installation to the last receipt, and the retention of
    completed backups. *)
From S2P Require Import Prelude Crash GoStrings Sha256 Protocol ReleaseId Catalog CatalogReview HandoverJournal UpgradeDocs SystemdHost ReleaseFetch SystemdSwap.

(** ** Retention *)

(** A backup that may go: its task and when it was last changed. *)
Record completedBackup := MkCompletedBackup { cbTask : string; cbModified : Z }.

(** The order of [sort.Slice]; the names differ. *)
Definition notAfter (a b : completedBackup) : Prop :=
  cbModified a < cbModified b \/ (cbModified a = cbModified b /\ Compare (cbTask a +:+ ".backup") (cbTask b +:+ ".backup") ≤ 0).
#[global] Instance notAfter_dec a b : Decision (notAfter a b).
Proof. unfold notAfter. apply _. Defined.

Definition backupContents : list string := ["passwall-node"; "version"; "LICENSE"; "NOTICE"; "metadata.json"].

Section helper.
Context {E : Type} `{SystemdHost E} `{ReleaseLibrary} `{Protocol} `{UpgradeProtocol}.
Context (schema egid : Z) (goarch : string).

(** What [ReadDir] lists in a backup directory. *)
Definition namesIn (dir : backupDir) : list string :=
  (map_to_list (bdFiles dir)).*1 ++ (match bdMeta dir with DocAbsent => [] | _ => ["metadata.json"] end).

(** A name the directory may hold, of a file that is the helper's own. *)
Fixpoint allSafe (task : string) (names : list string) : hM E bool :=
  match names with
  | [] => mret true
  | name :: rest =>
      if negb (bool_decide (name ∈ backupContents)) then mret false else
      owned ← checkOwnedPath (backupPath task +:+ "/" +:+ name) 0 false;
      if is_Ok owned then allSafe task rest else mret false
  end.

(** [None]: not eligible. *)
Definition eligibleBackup (currentTask task : string) : hM E (option completedBackup) :=
  if decide (task = currentTask) then mret None else
  read ← readDoc (receiptAt task);
  match read with
  | DocIs receipt =>
      if decide (taskOf receipt <> task \/ (RcPhase receipt <> "succeeded" /\ RcPhase receipt <> "failed") \/ is_Ok (ParseArgs (RqTask (RcRequest receipt))) = false)
      then mret None else
      owned ← checkOwnedPath (backupPath task) 0 true;
      if negb (is_Ok owned) then mret None else
      meta ← readDoc (metaAt task);
      match meta with
      | DocIs backup =>
          if decide (BkPreviousVersion backup <> ExpectedVersion (RqArgs (RcRequest receipt)) \/ validSHA256 (OldSHA256 backup) = false \/ validSHA256 (NewSHA256 backup) = false)
          then mret None else
          listed ← attempt FsList;
          strays ← ask (Strays task);
          held ← look (fun s => match hBackups s !! task with Some dir => namesIn dir | None => [] end);
          let names := held ++ strays in
          if negb listed || negb (bool_decide (length names = 5%nat)) then mret None else
          safe ← allSafe task names;
          if negb safe then mret None else
          modified ← ask (ModTime task);
          mret (MkCompletedBackup task <$> modified)
      | _ => mret None
      end
  | _ => mret None
  end.

Fixpoint eligibleBackups (currentTask : string) (tasks : list string) : hM E (list completedBackup) :=
  match tasks with
  | [] => mret []
  | task :: rest =>
      first ← eligibleBackup currentTask task;
      others ← eligibleBackups currentTask rest;
      mret (match first with Some b => b :: others | None => others end)
  end.

(** [os.Remove] of a file of a backup, and of the empty directory. *)
Definition removeRetained (task name : string) : hM E (res string unit) :=
  dir ← look (fun s => hBackups s !! task);
  removed ← attempt FsRemove;
  match dir with
  | Some dir =>
      if decide (removed = true /\ name ∈ namesIn dir) then
        _ ← change (alterBackup task (fun dir =>
              if decide (name = "metadata.json") then MkBackupDir (bdFiles dir) DocAbsent else MkBackupDir (delete name (bdFiles dir)) (bdMeta dir)));
        mret (Ok tt)
      else mret (Err "remove")
  | None => mret (Err "remove")
  end.

Definition removeBackupDir (task : string) : hM E (res string unit) :=
  dir ← look (fun s => hBackups s !! task);
  removed ← attempt FsRemove;
  match dir with
  | Some dir => if decide (removed = true /\ namesIn dir = []) then _ ← change (dropBackup task); mret (Ok tt) else mret (Err "remove")
  | None => mret (Err "remove")
  end.

Fixpoint removeFiles (task : string) (names : list string) : hM E (res string unit) :=
  match names with
  | [] => mret (Ok tt)
  | name :: rest =>
      _ ←? checkOwnedPath (backupPath task +:+ "/" +:+ name) 0 false;
      _ ←? removeRetained task name;
      removeFiles task rest
  end.

Fixpoint removeBackups (backups : list completedBackup) : hM E (res string unit) :=
  match backups with
  | [] => mret (Ok tt)
  | old :: rest =>
      _ ←? checkOwnedPath (backupPath (cbTask old)) 0 true;
      _ ←? removeFiles (cbTask old) backupContents;
      _ ←? removeBackupDir (cbTask old);
      removeBackups rest
  end.

(** Two of the eligible backups stay, the last ones changed. *)
Definition pruneCompletedBackups (currentTask : string) : hM E (res string unit) :=
  listed ← attempt FsList;
  if negb listed then mret (Err "read directory") else
  tasks ← look (fun s => (map_to_list (hBackups s)).*1);
  eligible ← eligibleBackups currentTask tasks;
  let eligible := merge_sort notAfter eligible in
  _ ←? removeBackups (take (length eligible - 2) eligible);
  synced ← attempt FsSyncDir;
  mret (if synced : bool then Ok tt else Err "directory sync").

(** ** The installation *)

Definition unitFile : string := "/etc/systemd/system/passwall-node.service".

Definition unitContract : list string :=
  ["User=passwall-node" +:+ newline; "Group=passwall-node" +:+ newline; "NoNewPrivileges=true" +:+ newline; "ProtectSystem=strict" +:+ newline;
   "ExecStart=/opt/passwall-node/bin/passwall-node --endpoint "].

Definition validateManagedInstallation : hM E (res string (Z * Z)) :=
  account ← ask LookupAccount;
  match account with
  | None => mret (Err "managed dedicated service account is unavailable")
  | Some account =>
      if decide (acHome account <> InstallRoot) then mret (Err "managed dedicated service account is unavailable") else
      match parseUint32 (acUid account), parseUint32 (acGid account) with
      | Some uid, gid =>
          if decide (uid = 0) then mret (Err "managed service account must be non-root") else
          match gid with
          | None => mret (Err "managed service account group is invalid")
          | Some gid =>
              _ ←? checkOwnedPaths ([(InstallRoot, 0, true); (rooted "bin", 0, true); (rooted "licenses", 0, true); (rooted "upgrades", 0, true); (rooted "config", uid, true);
                     (rooted "bin/passwall-node", 0, false); (rooted "licenses/LICENSE", 0, false); (rooted "licenses/NOTICE", 0, false);
                     (rooted "passwall-node.service", 0, false); (unitFile, 0, false)]);
              installed ← ask (ReadFile unitFile);
              match installed with
              | None => mret (Err "managed unit cannot be read")
              | Some installed =>
                  kept ← ask (ReadFile (rooted "passwall-node.service"));
                  if decide (kept <> Some installed) then mret (Err "systemd unit differs from the managed installation") else
                  if negb (forallb (Contains installed) unitContract) then mret (Err "systemd unit lacks the managed non-root service contract") else
                  _ ←? checkOwnedPaths [(rooted "data", uid, true); (rooted "data/upgrades", uid, true)];
                  mret (Ok (uid, gid))
              end
          end
      | None, _ => mret (Err "managed service account must be non-root")
      end
  end.

Definition isAuthorized (request : Request) : hM E bool := boot ← ask BootNow; mret (authorized boot request).

Definition expired : string := "same-boot remote upgrade authorization is expired or invalid".

(** ** Forward *)

(** From the stop of the service on. *)
Definition activate (fuel : nat) (receipt : Receipt) (result : UpgradeResult) (backup : helperBackup) (candidate : Candidate) (uid gid : Z) : hM E (res string unit) :=
  stopped ← ask (Systemctl ["stop"; nodeService]);
  match stopped with
  | None => rollback schema egid fuel receipt backup uid gid "service stop failed"
  | Some _ =>
      nonce ← ask Nonce;
      match nonce with
      | None => rollback schema egid fuel receipt backup uid gid "fresh activation identity could not be generated"
      | Some nonce =>
          let receipt := MkReceipt (RcRequest receipt) (RcPhase receipt) (RcResult receipt) "" "" nonce in
          installed ← installCandidate egid candidate gid;
          match installed with
          | Err _ => rollback schema egid fuel receipt backup uid gid "atomic binary activation failed"
          | Ok _ =>
              let receipt := inPhase "activated" receipt in
              wrote ← writeReceipt receipt;
              match wrote with
              | Err _ => rollback schema egid fuel receipt backup uid gid "activation receipt could not be persisted"
              | Ok _ =>
                  started ← ask (Systemctl ["start"; nodeService]);
                  match started with
                  | None => rollback schema egid fuel receipt backup uid gid "target service start failed"
                  | Some _ =>
                      ready ← waitReady fuel receipt uid;
                      match ready with
                      | Err _ => rollback schema egid fuel receipt backup uid gid "target release did not provide verified authenticated readiness"
                      | Ok _ =>
                          writeReceipt (MkReceipt (RcRequest receipt) "succeeded"
                            (Some (MkUpgradeResult (UrVersion result) (PreviousVersion result) (UrBinarySHA256 result) true)) "" "" nonce)
                      end
                  end
              end
          end
      end
  end.

(** With a fetched candidate. *)
Definition exchange (fuel : nat) (request : Request) (version oldDigest : string) (candidate : Candidate) (uid gid : Z) : hM E (res string unit) :=
  let args := RqArgs request in
  let task := TID (RqTask request) in
  newInfo ← readBuildInfo (CaDir candidate +:+ "/passwall-node");
  if negb (supports schema newInfo (ArgVersion args))
  then fail request "agent_upgrade_schema_unsupported" "target release changes the state schema or lacks the remote upgrade contract; manual upgrade required" else
  if negb (bool_decide (CaVersion candidate = ArgVersion args)) || negb (validSHA256 (CaBinarySHA256 candidate))
  then fail request "agent_upgrade_download_failed" "verified candidate identity is invalid" else
  allowed ← isAuthorized request;
  if negb allowed then fail request "agent_upgrade_authorization_expired" expired else
  pruned ← pruneCompletedBackups task;
  match pruned with
  | Err _ => fail request "agent_upgrade_backup_retention_failed" "completed backup retention could not be performed safely"
  | Ok _ =>
      let result := MkUpgradeResult (ArgVersion args) version (CaBinarySHA256 candidate) false in
      let receipt := MkReceipt request "prepared" (Some result) "" "" "" in
      _ ←? writeReceipt receipt;
      let backup := MkHelperBackup version oldDigest (CaBinarySHA256 candidate) schema in
      prepared ← prepareBackup task backup gid;
      match prepared with
      | Err _ => fail request "agent_upgrade_backup_failed" "previous managed files could not be retained"
      | Ok _ =>
          let receipt := inPhase "activating" receipt in
          _ ←? writeReceipt receipt;
          allowed ← isAuthorized request;
          if negb allowed then fail request "agent_upgrade_authorization_expired" expired else
          activate fuel receipt result backup candidate uid gid
      end
  end.

(** A request without a receipt. *)
Definition begin (fuel : nat) (request : Request) (uid gid : Z) : hM E (res string unit) :=
  let args := RqArgs request in
  allowed ← isAuthorized request;
  if negb allowed then fail request "agent_upgrade_authorization_expired" expired else
  version ← readManagedVersion;
  match version with
  | None => fail request "agent_upgrade_version_conflict" "installed release no longer matches the expected release"
  | Some version =>
      if decide (version <> ExpectedVersion args) then fail request "agent_upgrade_version_conflict" "installed release no longer matches the expected release" else
      oldInfo ← readBuildInfo (rooted binaryFile);
      if negb (supports schema oldInfo version)
      then fail request "agent_upgrade_schema_unsupported" "installed binary does not support the same-schema upgrade contract" else
      oldDigest ← BinaryDigest (content binaryFile);
      match oldDigest with
      | None => fail request "agent_upgrade_installation_invalid" "installed binary cannot be verified"
      | Some oldDigest =>
          dropIns ← ask (Systemctl ["show"; nodeService; "--property=DropInPaths"; "--value"]);
          if decide (TrimSpace <$> dropIns <> Some "")
          then fail request "agent_upgrade_installation_invalid" "service drop-in overrides require manual maintenance" else
          current ← verifyRunningProcess oldDigest uid 0;
          match current, NewReleaseFetcher goarch with
          | Err _, _ => fail request "agent_upgrade_installation_invalid" "current managed non-root process cannot be verified"
          | Ok _, Err e => fail request "agent_upgrade_download_failed" e
          | Ok _, Ok _ =>
              fetched ← Fetch goarch (ArgVersion args);
              match fetched with
              | Err _ => fail request "agent_upgrade_download_failed" "official release download or verification failed"
              | Ok candidate =>
                  outcome ← exchange fuel request version oldDigest candidate uid gid;
                  _ ← removeAll (CaDir candidate);
                  mret outcome
              end
          end
      end
  end.

Definition processRequest (fuel : nat) (request : Request) (uid gid : Z) : hM E (res string unit) :=
  if negb (bool_decide (ParseArgs (RqTask request) = Ok (RqArgs request))) then mret (Err "upgrade request arguments do not match task identity") else
  prior ← readDoc (receiptAt (TID (RqTask request)));
  match prior with
  | DocBroken => mret (Err "existing upgrade receipt cannot be validated")
  | DocAbsent => begin fuel request uid gid
  | DocIs prior =>
      if negb (sameTask (RqTask (RcRequest prior)) (RqTask request)) || negb (bool_decide (RqArgs (RcRequest prior) = RqArgs request))
      then mret (Err "upgrade receipt identity conflict") else
      if helperTerminal (RcPhase prior) then mret (Ok tt) else
      if decide (RcPhase prior ∈ ["prepared"; "activating"; "activated"; "rolling_back"]) then recover schema egid fuel prior uid gid else
      mret (Err "unknown persisted upgrade phase")
  end.

(** [fuel] bounds the looks of its waits; from the guard on the process is root. *)
Definition RunHelper (euid : Z) (root : string) (fuel : nat) : hM E (res string unit) :=
  if decide (euid <> 0 \/ root <> InstallRoot) then mret (Err "upgrade helper requires root and the managed installation path") else
  ids ←? validateManagedInstallation;
  let '(uid, gid) := ids in
  _ ←? checkOwnedPath (rooted "upgrades") 0 true;
  opened ← attempt FsOpenLock;
  if negb opened then mret (Err "open managed upgrade lock failed") else
  locked ← attempt FsFlock;
  if negb locked then mret (Err "another remote upgrade helper is active") else
  request ← ask ReadRequest;
  match request with
  | None => mret (Err "read private upgrade request failed")
  | Some request => processRequest fuel request uid gid
  end.

End helper.
