(* ===== verification/SystemdLogic.v ===== *)
(** * Reasoning about the systemd helper

    What the helper only asks of its host leaves the installation, the receipts, the
    retained files and the staged releases alone. *)
From S2P Require Import Prelude Crash GoStrings Sha256 Protocol ReleaseId Catalog CatalogReview HandoverJournal UpgradeDocs SystemdHost ReleaseFetch SystemdSwap SystemdRun.

Section logic.
Context {E : Type} `{SystemdHost E}.
Implicit Types (s : hstate (E := E)) (P K : hstate (E := E) -> Prop).

(** ** Programs that only ask *)

Definition quiet {A} (m : hM E A) : Prop := forall s, exists a e, m s = (a, setHost e s).

Lemma setHost_same s : s = setHost (hHost s) s.
Proof. by destruct s. Qed.

Lemma quiet_ret {A} (a : A) : quiet (mret a).
Proof. intros s. exists (Some a), (hHost s). by rewrite <- setHost_same. Qed.
Lemma quiet_killed {A} : quiet (killed (A := A)).
Proof. intros s. exists None, (hHost s). by rewrite <- setHost_same. Qed.
Lemma quiet_asks {A} (call : E -> option A * E) : quiet (ask call).
Proof. intros s. unfold ask. destruct (call (hHost s)) as [a e]. by exists a, e. Qed.
Lemma quiet_look {A} (f : hstate (E := E) -> A) : quiet (look f).
Proof. intros s. exists (Some (f s)), (hHost s). by rewrite <- setHost_same. Qed.
Lemma quiet_bind {A B} (m : hM E A) (f : A -> hM E B) : quiet m -> (forall a, quiet (f a)) -> quiet (m ≫= f).
Proof.
  intros Hm Hf s. unfold mbind, crashM_bind. destruct (Hm s) as ([a|] & e & ->); [|by exists None, e]. destruct (Hf a (setHost e s)) as (b & e' & ->). by exists b, e'.
Qed.
Lemma quiet_try {A B} (m : hM E (res string A)) (f : A -> hM E (res string B)) : quiet m -> (forall a, quiet (f a)) -> quiet (try m f).
Proof. intros Hm Hf. apply quiet_bind; [done|]. intros [a|e]; [apply Hf|apply quiet_ret]. Qed.

(** ** Assertions *)

(** An assertion that does not look at the host. *)
Definition hostless (P : hstate (E := E) -> Prop) : Prop := forall e s, P s -> P (setHost e s).

Lemma runs_past {A B} K P Q (m : hM E A) (f : A -> hM E B) :
  quiet m -> hostless P -> (forall s, P s -> K s) -> (forall a, runs K P (f a) Q) -> runs K P (m ≫= f) Q.
Proof.
  intros Hm HP HK Hf s Hs. unfold mbind, crashM_bind. destruct (Hm s) as ([a|] & e & ->); [|by apply HK, HP]. by apply Hf, HP.
Qed.

Lemma runs_quiet_end {A} K P Q (m : hM E A) : quiet m -> hostless P -> (forall s, P s -> K s) -> (forall a s, P s -> Q a s) -> runs K P m Q.
Proof. intros Hm HP HK HQ s Hs. destruct (Hm s) as ([a|] & e & ->); [by apply HQ, HP|by apply HK, HP]. Qed.

Lemma runs_try {A B} K P R Q (m : hM E (res string A)) (f : A -> hM E (res string B)) :
  runs K P m R -> (forall a, runs K (R (Ok a)) (f a) Q) -> (forall e s, R (Err e) s -> Q (Err e) s) -> runs K P (try m f) Q.
Proof. intros Hm Hf He. eapply ends_bind; [exact Hm|]. intros [a|e]; [apply Hf|]. by apply ends_ret, He. Qed.

(** A read gives what is there, or fails. *)
Lemma runs_read {A} K P Q get (f : option string -> hM E A) :
  hostless P -> (forall e s, get (setHost e s) = get s) -> (forall s, P s -> K s) ->
  (forall v, runs K (fun s => P s /\ (v = None \/ get s = v)) (f v) Q) -> runs K P (readVia get ≫= f) Q.
Proof.
  intros HP Hg HK Hf s Hs. unfold mbind, crashM_bind, readVia, attempt, mbind, crashM_bind, ask, look. destruct (Attempt FsRead (hHost s)) as [[[]|] e]; [| |by apply HK, HP].
  - apply Hf. split; [by apply HP|by right].
  - apply Hf. split; [by apply HP|by left].
Qed.

Lemma runs_readDoc {A B} K P Q (get : hstate (E := E) -> docRead A) (f : docRead A -> hM E B) :
  hostless P -> (forall e s, get (setHost e s) = get s) -> (forall s, P s -> K s) ->
  (forall v, runs K (fun s => P s /\ (v = DocBroken \/ get s = v)) (f v) Q) -> runs K P (readDoc get ≫= f) Q.
Proof.
  intros HP Hg HK Hf s Hs. unfold mbind, crashM_bind, readDoc, attempt, mbind, crashM_bind, ask, look. destruct (Attempt FsRead (hHost s)) as [[[]|] e]; [| |by apply HK, HP].
  - apply Hf. split; [by apply HP|by right].
  - apply Hf. split; [by apply HP|by left].
Qed.

Lemma runs_look {A B} K P Q (g : hstate (E := E) -> A) (f : A -> hM E B) :
  (forall v, runs K (fun s => P s /\ g s = v) (f v) Q) -> runs K P (look g ≫= f) Q.
Proof. intros Hf s Hs. unfold mbind, crashM_bind, look. by apply Hf. Qed.

(** A write leaves the file alone and fails, or has replaced it. *)
Lemma ends_replace K P (Q : res string unit -> _ -> Prop) name text put :
  hostless P -> (forall s, P s -> K s) -> (forall e s, P s -> Q (Err e) s) -> (forall r s, P s -> Q r (put s)) -> runs K P (atomicHelperFile (E := E) name text put) Q.
Proof.
  intros HP HK He Hput s Hs. unfold atomicHelperFile. destruct (Contains name "/"); [by apply He|]. unfold mbind, crashM_bind, ask.
  destruct (WriteAnswer (hHost s)) as [[[]|] e]; [| | |by apply HK, HP]; [by apply He, HP| |]; (case_decide; [by apply He, HP|apply Hput, HP, Hs]).
Qed.

Lemma runs_change {A} K P Q g (f : unit -> hM E A) : (forall s, P s -> runs K (fun s' => s' = g s) (f tt) Q) -> runs K P (change g ≫= f) Q.
Proof. intros Hf s Hs. unfold mbind, crashM_bind, change. by apply (Hf s Hs). Qed.

End logic.

#[global] Hint Resolve quiet_ret quiet_killed quiet_asks quiet_look : crash.

(** Along a program that only asks. *)
Ltac hush :=
  repeat first
    [ progress auto with crash
    | (apply quiet_bind; [|intros ?])
    | (apply quiet_try; [|intros ?])
    | match goal with |- quiet (match ?x with _ => _ end) => destruct x end
    | match goal with |- quiet (let '(_, _) := ?x in _) => destruct x end ].

(** An assertion over a state with another host is the same assertion. *)
Ltac hostless := intros ? ? Hs; exact Hs.

(** ** What only asks *)

Section quiet.
Context {E : Type} `{SystemdHost E} `{ReleaseLibrary} `{Protocol} `{UpgradeProtocol} (schema egid : Z).

Lemma quiet_attempt op : quiet (E := E) (attempt op).
Proof. apply quiet_asks. Qed.
Lemma quiet_readVia get : quiet (E := E) (readVia get).
Proof. unfold readVia, attempt. hush. Qed.
Lemma quiet_readDoc {A} (get : hstate (E := E) -> docRead A) : quiet (readDoc get).
Proof. unfold readDoc, attempt. hush. Qed.
Hint Resolve quiet_attempt quiet_readVia quiet_readDoc : crash.

Lemma quiet_BinaryDigest get : quiet (E := E) (BinaryDigest get).
Proof. unfold BinaryDigest. hush. Qed.
Lemma quiet_readManagedVersion : quiet (E := E) readManagedVersion.
Proof. unfold readManagedVersion. hush. Qed.
Lemma quiet_checkOwnedPath name owner directory : quiet (E := E) (checkOwnedPath name owner directory).
Proof. unfold checkOwnedPath. hush. Qed.
Hint Resolve quiet_BinaryDigest quiet_readManagedVersion quiet_checkOwnedPath : crash.
Lemma quiet_checkOwnedPaths paths : quiet (E := E) (checkOwnedPaths paths).
Proof. induction paths as [|[[name owner] directory] rest IH]; simpl; hush. Qed.
Lemma quiet_boundedRun path args : quiet (E := E) (boundedRun path args).
Proof. unfold boundedRun. hush. Qed.
Hint Resolve quiet_checkOwnedPaths quiet_boundedRun : crash.
Lemma quiet_readBuildInfo path : quiet (E := E) (readBuildInfo path).
Proof. unfold readBuildInfo. hush. Qed.
Lemma quiet_verifyReleaseBinary path version : quiet (E := E) (verifyReleaseBinary path version).
Proof. unfold verifyReleaseBinary. hush. Qed.
Lemma quiet_verifyRunningProcess digest uid pid : quiet (E := E) (verifyRunningProcess digest uid pid).
Proof. unfold verifyRunningProcess. hush. Qed.
Hint Resolve quiet_readBuildInfo quiet_verifyReleaseBinary quiet_verifyRunningProcess : crash.
Lemma quiet_waitProcess fuel digest uid : quiet (E := E) (waitProcess fuel digest uid).
Proof. induction fuel as [|fuel IH]; simpl; hush. Qed.
Lemma quiet_waitsReady fuel receipt uid : quiet (E := E) (waitReady fuel receipt uid).
Proof. induction fuel as [|fuel IH]; simpl; hush. Qed.
Hint Resolve quiet_waitProcess quiet_waitsReady : crash.
Lemma quiet_restart fuel receipt backup uid message : quiet (E := E) (restartAfterFailedRestore fuel receipt backup uid message).
Proof. unfold restartAfterFailedRestore. hush. Qed.
Lemma quiet_isAuthorized request : quiet (E := E) (isAuthorized request).
Proof. unfold isAuthorized. hush. Qed.
Lemma quiet_validate : quiet (E := E) validateManagedInstallation.
Proof. unfold validateManagedInstallation. hush. Qed.
Lemma quiet_allSafe task names : quiet (E := E) (allSafe task names).
Proof. induction names as [|name rest IH]; simpl; hush. Qed.
Hint Resolve quiet_allSafe : crash.
Lemma quiet_eligibleBackup current task : quiet (E := E) (eligibleBackup current task).
Proof. unfold eligibleBackup. hush. Qed.
Hint Resolve quiet_eligibleBackup : crash.
Lemma quiet_eligibleBackups current tasks : quiet (E := E) (eligibleBackups current tasks).
Proof. induction tasks as [|task rest IH]; simpl; hush. Qed.

End quiet.

#[global] Hint Resolve quiet_attempt quiet_readVia quiet_readDoc quiet_BinaryDigest quiet_readManagedVersion quiet_checkOwnedPath quiet_checkOwnedPaths quiet_boundedRun
  quiet_readBuildInfo quiet_verifyReleaseBinary quiet_verifyRunningProcess quiet_waitProcess quiet_waitsReady quiet_restart quiet_isAuthorized quiet_validate
  quiet_eligibleBackups : crash.
