(* ===== verification/FetchAuthentic.v ===== *)
(** * What is fetched is authentic

    A fetch that succeeds leaves the three files of a release archive whose digest
    stands in a manifest signed with the pinned key, and changes nothing outside the
    staging directory. *)
From S2P Require Import Prelude Crash GoStrings Sha256 Protocol ReleaseId Catalog CatalogReview HandoverJournal UpgradeDocs SystemdHost ReleaseFetch SystemdSwap SystemdRun SystemdLogic.

Definition releaseMembers : list string := ["passwall-node"; "LICENSE"; "NOTICE"].

Section authentic.
Context {E : Type} `{SystemdHost E} `{ReleaseLibrary} (goarch : string).
Implicit Types (s : hstate (E := E)) (D : gmap string string -> Prop).

(** The archive of this version that a signed manifest names. *)
Definition authenticArchive (version : string) (stream : tarStream) : Prop :=
  exists manifest signature archive, VerifyManifest manifest signature = Ok tt /\ releaseChecksum manifest (assetName goarch version) = Ok (sha256_hex archive) /\
    openArchive (expandedLimit + 1) archive = Some stream.

Definition memberOf (stream : tarStream) (package member text : string) : Prop :=
  exists entry, entry ∈ tsEntries stream /\ thName entry = package +:+ "/" +:+ member /\ thBody entry = Some text.

(** The files of a release, and the digest of its binary. *)
Definition holdsMembers (stream : tarStream) (package digest : string) (files : gmap string string) : Prop :=
  forall member, member ∈ releaseMembers ->
    exists text, files !! member = Some text /\ memberOf stream package member text /\ (member = "passwall-node" -> digest = sha256_hex text).

(** ** Staging directories *)

(** The installation, receipts and backups of [s1]. *)
Context (s1 : hstate (E := E)).
Definition base s : Prop := hFiles s = hFiles s1 /\ hReceipts s = hReceipts s1 /\ hBackups s = hBackups s1.

Definition inDir (dir : string) D s : Prop := base s /\ exists files, hStage s !! dir = Some files /\ D files.

Lemma inDir_base dir D s : inDir dir D s -> base s.
Proof. by intros []. Qed.
Lemma inDir_mono dir D D' s : inDir dir D s -> (forall files, D files -> D' files) -> inDir dir D' s.
Proof. intros [Hb (files & Hf & Hd)] HD. split; [done|]. exists files. auto. Qed.
Hint Resolve inDir_base : crash.

Lemma runs_inDir {A B} dir D Q (m : hM E A) (f : A -> hM E B) : quiet m -> (forall a, runs base (inDir dir D) (f a) Q) -> runs base (inDir dir D) (m ≫= f) Q.
Proof. intros Hm Hf. apply runs_past; [done|hostless|intros s; apply inDir_base|done]. Qed.

Lemma runs_inDir_try {A B} dir D Q (m : hM E (res string A)) (f : A -> hM E (res string B)) :
  quiet m -> (forall a, runs base (inDir dir D) (f a) Q) -> (forall e s, base s -> Q (Err e) s) -> runs base (inDir dir D) (try m f) Q.
Proof. intros Hm Hf He. apply runs_inDir; [done|]. intros [a|e]; [apply Hf|]. apply ends_ret. intros s Hs. by eapply He, inDir_base. Qed.

Lemma ends_base {A} dir D (a : A) (Q : A -> _ -> Prop) : (forall s, base s -> Q a s) -> runs base (inDir dir D) (mret a) Q.
Proof. intros HQ. apply ends_ret. intros s Hs. eauto with crash. Qed.

Lemma runs_createStaged dir D name text :
  runs base (inDir dir D) (createStaged dir name text)
    (fun ok s => inDir dir (fun files' => if ok : bool then exists files, D files /\ files !! name = None /\ files' = <[name := text]> files else D files') s).
Proof.
  unfold createStaged. apply runs_look. intros files. apply runs_past; [auto with crash|hostless|by intros s [[Hb _] _]|]. intros ok.
  assert (forall s, inDir dir D s /\ hStage s !! dir = files -> inDir dir D s) as Hback by (by intros s [Hs _]).
  destruct files as [files|]; [|by apply ends_ret]. destruct ok; [|by apply ends_ret]. case_decide as Hn; [|by apply ends_ret].
  apply runs_change. intros s [[Hb (files' & Hf & Hd)] Hs]. apply ends_ret. intros s' ->. split; [done|]. exists (<[name := text]> files). cbn. rewrite lookup_insert_eq.
  split; [done|]. exists files. split_and!; [|done..]. congruence.
Qed.

(** ** Downloads *)

Lemma runs_download dir D source name limit :
  runs base (inDir dir D) (download dir source name limit)
    (fun r s => match r with
                | Ok digest => inDir dir (fun files' => exists files text, D files /\ files' = <[name := text]> files /\ digest = sha256_hex text) s
                | Err ReleaseMissing => inDir dir D s
                | Err _ => base s
                end).
Proof.
  unfold download. apply runs_inDir; [auto with crash|]. intros [|status length body complete]; [apply runs_inDir; [auto with crash|]; intros ?; by apply ends_base|].
  case_decide; [by apply ends_ret|]. do 2 (case_decide; [by apply ends_base|]). eapply ends_bind; [apply runs_createStaged|]. intros [|]; cbn [negb]; [|by apply ends_base].
  apply runs_inDir; [auto with crash|]. intros synced. apply runs_inDir; [auto with crash|]. intros [|]; [by apply ends_base|]. destruct (_ || _); [by apply ends_base|].
  apply ends_ret. intros s Hs. eapply inDir_mono; [exact Hs|]. intros files (before & Hd & _ & ->). by exists before, (atMost (limit + 1) body).
Qed.

Lemma runs_orFail_download dir D source name limit :
  runs base (inDir dir D) (orFail (download dir source name limit))
    (fun r s => match r with
                | Ok digest => inDir dir (fun files => exists text, files !! name = Some text /\ digest = sha256_hex text) s
                | Err _ => base s
                end).
Proof.
  eapply ends_bind; [apply runs_download|]. intros [digest|e]; cbn.
  - apply ends_ret. intros s Hs. eapply inDir_mono; [exact Hs|]. intros files (before & text & _ & -> & ->). exists text. by rewrite lookup_insert_eq.
  - apply ends_ret. intros s Hs. destruct e; [by eapply inDir_base|done].
Qed.

Lemma runs_resolve dir version lastErr addresses :
  runs base (inDir dir (fun _ => True)) (resolveAddresses dir version lastErr addresses) (fun r s => if is_Ok r then inDir dir (fun _ => True) s else base s).
Proof.
  revert lastErr. induction addresses as [|address rest IH]; intros lastErr; simpl; [by apply ends_base|]. destruct (address version) as [tag|]; [|by apply ends_base].
  eapply ends_bind; [apply runs_download|]. intros [digest|e].
  - apply ends_ret. intros s Hs. by eapply inDir_mono.
  - destruct e; [apply IH|by apply ends_ret].
Qed.

(** ** Unpacking *)

Lemma admitEntry_Ok package ex n h ex' o : admitEntry package ex n h = Ok (ex', o) ->
  exFound ex' = exFound ex /\ exDigest ex' = exDigest ex /\ (forall member, o = Some member -> thName h = package +:+ "/" +:+ member).
Proof.
  unfold admitEntry. destruct (decide (maxArchiveMembers ≤ n)); [done|]. destruct (_ || _) eqn:Hsafe; [done|]. rewrite !orb_false_iff in Hsafe. destruct Hsafe as [[[[_ Hpre] _] _] _].
  destruct (decide (thType h = 53)); [destruct (_ || _); [done|]; by intros [= <- <-]|]. destruct (_ || _) eqn:Hreg; [done|].
  apply orb_false_iff in Hreg as [Hreg Hpk%bool_decide_eq_false]. apply orb_false_iff in Hreg as [_ Hname%negb_false_iff%bool_decide_eq_true].
  rewrite (bool_decide_eq_false_2 _ Hpk) in Hpre. cbn [negb andb] in Hpre. apply negb_false_iff, HasPrefix_spec in Hpre as [member Hm].
  destruct (decide (_ < thSize h)); [done|]. destruct (requiredLimit _) as [limit|]; [|by intros [= <- <-]]. case_decide; [done|]. intros [= <- <-]. split_and!; [done..|]. intros m [= <-].
  rewrite Hname in Hm. rewrite Hname, Hm. unfold TrimPrefix. assert (CutPrefix ((package +:+ "/") +:+ member) (package +:+ "/") = Some member) as -> by (by apply CutPrefix_spec). by rewrite sapp_assoc.
Qed.

(** What has been unpacked so far. *)
Definition unpacked (stream : tarStream) (package : string) (ex : extraction) (files : gmap string string) : Prop :=
  forall member, member ∈ exFound ex ->
    exists text, files !! member = Some text /\ memberOf stream package member text /\ (member = "passwall-node" -> exDigest ex = sha256_hex text).

Lemma unpacked_next stream package ex ex' member body files :
  unpacked stream package ex files -> files !! member = None -> exFound ex' = exFound ex -> exDigest ex' = exDigest ex -> memberOf stream package member body ->
  unpacked stream package (foundMember ex' member body) (<[member := body]> files).
Proof.
  intros Hu Hnew Hf Hd Hm other Hin. cbn in Hin. rewrite Hf in Hin. destruct (decide (other = member)) as [->|Hne].
  - exists body. rewrite lookup_insert_eq. split_and!; [done..|]. intros ->. cbn. by rewrite decide_True.
  - assert (other ∈ exFound ex) as Hex by set_solver. destruct (Hu _ Hex) as (text & Ht & Hmem & Hdig). exists text. rewrite lookup_insert_ne by done. split_and!; [done..|].
    intros Hb. cbn. rewrite decide_False by congruence. rewrite Hd. auto.
Qed.

Lemma runs_extractEntries stream dir package ex n l ends : (forall h, h ∈ l -> h ∈ tsEntries stream) ->
  runs base (inDir dir (unpacked stream package ex)) (extractEntries dir package ex n l ends)
    (fun r s => match r with Ok ex => inDir dir (unpacked stream package ex) s | Err _ => base s end).
Proof.
  revert ex n. induction l as [|h rest IH]; intros ex n Hl; simpl; (apply runs_inDir; [auto with crash|]; intros [|]; [by apply ends_base|]); [destruct ends; [by apply ends_ret|by apply ends_base]|].
  destruct (admitEntry package ex n h) as [[ex' [member|]]|] eqn:Ha; [| |by apply ends_base]; apply admitEntry_Ok in Ha as (Hf & Hd & Hn).
  2:{ eapply runs_pre; [apply IH; set_solver|]. intros s Hs. eapply inDir_mono; [exact Hs|]. intros files Hu m Hm. rewrite Hf in Hm. rewrite Hd. auto. }
  eapply ends_bind; [apply runs_createStaged|]. intros [|]; cbn [negb]; [|by apply ends_base]. apply runs_inDir; [auto with crash|]. intros synced.
  destruct (bool_decide (thBody h = None)) eqn:Hb; [by apply ends_base|]. cbn [orb]. destruct (_ || _); [by apply ends_base|]. apply bool_decide_eq_false in Hb.
  eapply runs_pre; [apply IH; set_solver|]. intros s Hs. eapply inDir_mono; [exact Hs|]. intros files (before & Hu & Hnone & ->). eapply unpacked_next; try done.
  exists h. split_and!; [apply Hl; by left|by apply Hn|]. by destruct (thBody h).
Qed.

Lemma runs_extractRelease dir package digest :
  runs base (inDir dir (fun files => exists archive, files !! archiveName = Some archive /\ digest = sha256_hex archive)) (extractRelease dir package)
    (fun r s => match r with
                | Ok binary => exists archive stream, digest = sha256_hex archive /\ openArchive (expandedLimit + 1) archive = Some stream /\ inDir dir (holdsMembers stream package binary) s
                | Err _ => base s
                end).
Proof.
  unfold extractRelease. apply runs_read; [hostless|done|intros s; apply inDir_base|]. intros [archive|]; [|apply ends_ret; by intros s [[Hb _] _]].
  destruct (openArchive (expandedLimit + 1) archive) as [stream|] eqn:Hopen; [|apply ends_ret; by intros s [[Hb _] _]].
  eapply (runs_fact (digest = sha256_hex archive)).
  2:{ intros s [[_ (files & Hf & a & Ha & ->)] [?|Hst]]; [done|]. unfold staged in Hst. rewrite Hf in Hst. cbn in Hst. congruence. }
  intros Hdig. eapply runs_try.
  - eapply runs_pre; [apply (runs_extractEntries stream); auto|]. intros s [[Hb (files & Hf & _)] _]. split; [done|]. exists files. split; [done|]. by intros m Hm%elem_of_empty.
  - intros ex. destruct (forallb _ _) eqn:Hall; cbn [negb]; [|by apply ends_base]. destruct (tsRest stream) as [rest|]; [|by apply ends_base]. destruct (_ || _); [by apply ends_base|].
    apply runs_inDir; [auto with crash|]. intros [|]; [|by apply ends_base]. apply ends_ret. intros s Hs. exists archive, stream. split_and!; [done..|].
    eapply inDir_mono; [exact Hs|]. intros files Hu member Hm. apply Hu. rewrite forallb_forall in Hall. eapply bool_decide_eq_true_1, Hall. by apply list_elem_of_In.
  - done.
Qed.

Lemma runs_removeStaged dir names D :
  (forall name files, name ∈ names -> D files -> D (delete name files)) ->
  runs base (inDir dir D) (removeStaged dir names) (fun r s => if is_Ok r then inDir dir D s else base s).
Proof.
  intros HD. induction names as [|name rest IH]; simpl; [by apply ends_ret|]. apply runs_inDir; [auto with crash|]. intros [|]; cbn [negb]; [|by apply ends_base].
  apply runs_change. intros s [Hb (files & Hf & Hd)]. eapply runs_pre; [apply IH; intros n f Hn; apply HD; by right|]. intros s' ->. split; [done|]. exists (delete name files).
  cbn. rewrite lookup_alter_eq, Hf. split; [done|]. apply HD; [by left|done].
Qed.

Lemma holdsMembers_delete stream package digest name files :
  name ∈ [checksumsName; SignatureAssetName; archiveName] -> holdsMembers stream package digest files -> holdsMembers stream package digest (delete name files).
Proof.
  intros Hn Hh member Hm. destruct (Hh member Hm) as (text & Ht & Hrest). exists text. split; [|done]. rewrite lookup_delete_ne; [done|]. intros ->. revert Hn Hm. unfold releaseMembers. set_solver.
Qed.

(** ** The whole fetch *)

(** A staged release. *)
Definition stagedRelease (version : string) (candidate : Candidate) s : Prop :=
  CaVersion candidate = version /\
  exists stream, authenticArchive version stream /\ inDir (CaDir candidate) (holdsMembers stream (packageName goarch version) (CaBinarySHA256 candidate)) s.

Definition fetchOk (version : string) (r : res string Candidate) s : Prop :=
  match r with Ok candidate => stagedRelease version candidate s | Err _ => base s end.

Lemma runs_fetchInto dir version : runs base (inDir dir (fun _ => True)) (fetchInto goarch dir version) (fetchOk version).
Proof.
  unfold fetchInto. eapply runs_try; [apply runs_resolve| |done]. intros path. cbn [is_Ok].
  eapply runs_try; [apply runs_orFail_download| |done]. intros signed.
  apply runs_read; [hostless|done|intros s; apply inDir_base|]. intros [manifest|]; [|apply ends_ret; by intros s [[Hb _] _]].
  eapply runs_pre; [|by intros s [Hs _]; exact Hs]. apply runs_read; [hostless|done|intros s; apply inDir_base|]. intros [signature|]; [|apply ends_ret; by intros s [[Hb _] _]].
  eapply runs_pre; [|by intros s [Hs _]; exact Hs].
  destruct (VerifyManifest manifest signature) as [[]|] eqn:Hv; [|by apply ends_base]. destruct (releaseChecksum manifest _) as [want|] eqn:Hc; [|by apply ends_base].
  eapply runs_try; [apply runs_orFail_download| |done]. intros digest. case_decide as Hd; [by apply ends_base|]. subst want.
  eapply runs_try; [apply runs_extractRelease| |done]. intros binary.
  apply runs_exists. intros archive. apply runs_exists. intros stream. apply runs_pure. intros ->. apply runs_pure. intros Ho.
  apply runs_inDir_try; [auto with crash| |done]. intros _. eapply runs_try.
  - apply runs_removeStaged. intros name files. apply holdsMembers_delete.
  - intros u. apply ends_ret. intros s Hs. split; [done|]. exists stream. split; [|done]. by exists manifest, signature, archive.
  - done.
Qed.

Lemma runs_base {A B} Q (m : hM E A) (f : A -> hM E B) : quiet m -> (forall a, runs base base (f a) Q) -> runs base base (m ≫= f) Q.
Proof. intros Hm Hf. apply runs_past; [done|hostless|done|done]. Qed.

Lemma runs_removeAll dir : runs base base (removeAll dir) (fun _ => base).
Proof. unfold removeAll. apply runs_base; [auto with crash|]. intros [|]; [|by apply ends_ret]. by intros s Hs. Qed.

Lemma runs_Fetch version : runs base base (Fetch goarch version) (fetchOk version).
Proof.
  unfold Fetch. apply runs_base; [auto with crash|]. intros [|]; [by apply ends_ret|]. destruct (_ || _); [by apply ends_ret|]. apply runs_base; [auto with crash|].
  intros [|]; [|by apply ends_ret]. cbn [negb]. apply runs_base; [auto with crash|]. intros info. destruct (negb _); [by apply ends_ret|].
  eapply (ends_bind _ _ (fun r s => match r with Some dir => inDir dir (fun _ => True) s | None => base s end)).
  - unfold mkdirTemp. apply runs_base; [auto with crash|]. intros name. apply runs_look. intros stage. destruct name as [dir|]; [|apply ends_ret; by intros s []].
    case_decide; [|apply ends_ret; by intros s []]. apply runs_change. intros s [Hb _]. apply ends_ret. intros s' ->. split; [done|]. exists ∅. cbn. by rewrite lookup_insert_eq.
  - intros [dir|]; [|by apply ends_ret]. eapply ends_bind; [apply runs_fetchInto|]. intros [candidate|e]; [by apply ends_ret|].
    eapply ends_bind; [eapply runs_pre; [apply runs_removeAll|done]|]. intros u. by apply ends_ret.
Qed.

End authentic.
