(* ===== verification/Retention.v ===== *)
(** * Retention spares live evidence

    Pruning removes backups of other tasks only, and only of tasks whose receipt says
    that they succeeded or failed; wherever it stops, everything else is as before. *)
From S2P Require Import Prelude Crash GoStrings Sha256 Protocol ReleaseId Catalog CatalogReview HandoverJournal UpgradeDocs SystemdHost ReleaseFetch SystemdSwap SystemdRun SystemdLogic.

Section retention.
Context {E : Type} `{SystemdHost E} `{ReleaseLibrary} `{Protocol} `{UpgradeProtocol} (current : string).
Implicit Types (s : hstate (E := E)).

(** The task has a receipt that it succeeded or failed. *)
Definition completed s (task : string) : Prop := exists r, receiptAt task s = DocIs r /\ (RcPhase r = "succeeded" \/ RcPhase r = "failed").

(** A backup that pruning for [current] may remove. *)
Definition removable s (task : string) : Prop := task <> current /\ completed s task.

Definition spares s s' : Prop :=
  hFiles s' = hFiles s /\ hReceipts s' = hReceipts s /\ hStage s' = hStage s /\ forall task, ~ removable s task -> hBackups s' !! task = hBackups s !! task.

Lemma spares_refl s : spares s s.
Proof. done. Qed.

Context (s1 : hstate (E := E)).
Notation P := (spares s1).

Lemma keeps_quiet {A} (m : hM E A) : quiet m -> keeps P m.
Proof. intros Hm. by apply runs_quiet_end; [|hostless| |]. Qed.

Lemma keeps_try {A B} (m : hM E (res string A)) (f : A -> hM E (res string B)) : keeps P m -> (forall a, keeps P (f a)) -> keeps P (try m f).
Proof. intros Hm Hf. apply keeps_bind; [done|]. intros [a|e]; [apply Hf|apply keeps_ret]. Qed.
Hint Resolve keeps_quiet : crash.

Lemma spares_change task g : removable s1 task -> (forall s, hFiles (g s) = hFiles s /\ hReceipts (g s) = hReceipts s /\ hStage (g s) = hStage s) ->
  (forall s other, other <> task -> hBackups (g s) !! other = hBackups s !! other) -> keeps P (change g).
Proof.
  intros Hr Hg Hb s (Hf & Hrc & Hst & Hk). cbn. unfold spares. destruct (Hg s) as (-> & -> & ->). split_and!; [done..|]. intros other Ho. rewrite Hb; [auto|congruence].
Qed.

Lemma keeps_removeRetained task name : removable s1 task -> keeps P (removeRetained task name).
Proof.
  intros Hr. unfold removeRetained. walk. eapply spares_change; [done|done|]. intros s other Hne. cbn. by rewrite lookup_alter_ne.
Qed.

Lemma keeps_removeBackupDir task : removable s1 task -> keeps P (removeBackupDir task).
Proof.
  intros Hr. unfold removeBackupDir. walk. eapply spares_change; [done|done|]. intros s other Hne. cbn. by rewrite lookup_delete_ne.
Qed.

Lemma keeps_removeFiles task names : removable s1 task -> keeps P (removeFiles task names).
Proof.
  intros Hr. induction names as [|name rest IH]; simpl; [apply keeps_ret|]. apply keeps_try; [auto with crash|]. intros _. apply keeps_try; [by apply keeps_removeRetained|done].
Qed.

Lemma keeps_removeBackups backups : Forall (fun b => removable s1 (cbTask b)) backups -> keeps P (removeBackups backups).
Proof.
  induction 1 as [|b rest Hb _ IH]; cbn [removeBackups]; [apply keeps_ret|]. apply keeps_try; [auto with crash|]. intros _. apply keeps_try; [by apply keeps_removeFiles|]. intros _.
  apply keeps_try; [by apply keeps_removeBackupDir|done].
Qed.

Lemma runs_eligibleBackup task :
  runs P P (eligibleBackup current task) (fun o s => P s /\ forall b, o = Some b -> removable s1 (cbTask b)).
Proof.
  assert (forall s, P s -> P s /\ forall b, @None completedBackup = Some b -> removable s1 (cbTask b)) as Hnone by done.
  unfold eligibleBackup. case_decide as Hc; [by apply ends_ret|]. apply runs_readDoc; [hostless|done|done|]. intros [|receipt|]; [apply ends_ret; by intros s [Hs _]| |apply ends_ret; by intros s [Hs _]].
  case_decide as Hph; [apply ends_ret; by intros s [Hs _]|]. apply (runs_fact (removable s1 task)).
  2:{ intros s [(_ & Hrc & _) [|Hr]]; [done|]. split; [done|]. exists receipt. split; [unfold receiptAt in *; by rewrite <- Hrc|].
      destruct (decide (RcPhase receipt = "succeeded")); [by left|]. right. apply dec_stable. tauto. }
  intros Hr. eapply runs_pre; [|by intros s [Hs _]; exact Hs].
  apply runs_past; [auto with crash|hostless|done|]. intros owned. destruct (negb _); [by apply ends_ret|].
  apply runs_past; [auto with crash|hostless|done|]. intros [|backup|]; try (by apply ends_ret). case_decide; [by apply ends_ret|].
  do 3 (apply runs_past; [auto with crash|hostless|done|]; intros ?). destruct (_ || _); [by apply ends_ret|].
  apply runs_past; [apply quiet_allSafe|hostless|done|]. intros [|]; cbn [negb]; [|by apply ends_ret].
  apply runs_past; [auto with crash|hostless|done|]. intros [modified|]; [|by apply ends_ret]. apply ends_ret. intros s Hs. split; [done|]. by intros b [= <-].
Qed.

Lemma runs_eligibleBackups tasks :
  runs P P (eligibleBackups current tasks) (fun l s => P s /\ Forall (fun b => removable s1 (cbTask b)) l).
Proof.
  induction tasks as [|task rest IH]; simpl; [by apply ends_ret|]. eapply ends_bind; [apply runs_eligibleBackup|]. intros first.
  apply (runs_fact (forall b, first = Some b -> removable s1 (cbTask b))); [|by intros s []]. intros Hfirst. eapply ends_bind.
  - eapply runs_pre; [exact IH|by intros s []].
  - intros others. apply ends_ret. intros s [Hs Ho]. split; [done|]. destruct first; [|done]. constructor; auto.
Qed.

Lemma keeps_prune : keeps P (pruneCompletedBackups current).
Proof.
  unfold pruneCompletedBackups. apply keeps_bind; [auto with crash|]. intros [|]; cbn [negb]; [|apply keeps_ret]. apply keeps_bind; [auto with crash|]. intros tasks.
  eapply ends_bind; [apply runs_eligibleBackups|]. intros eligible. apply (runs_fact (Forall (fun b => removable s1 (cbTask b)) eligible)); [|by intros s []]. intros Hall.
  eapply runs_pre; [|by intros s [Hs _]; exact Hs]. apply keeps_try.
  - apply keeps_removeBackups. apply Forall_take. by rewrite (merge_sort_Permutation notAfter eligible).
  - intros _. apply keeps_bind; [auto with crash|]. intros synced. apply keeps_ret.
Qed.

End retention.
