(* ===== verification/SystemdSafety.v ===== *)
(** * The systemd upgrade is honest

    Whatever the host answers and wherever the helper is killed: the managed files are
    the previous ones or those of an authentic release, the previous ones are retained
    while an upgrade is under way, and what the receipt finally says is so. *)
From S2P Require Import Prelude Crash GoStrings Sha256 Protocol ReleaseId Catalog CatalogReview HandoverJournal UpgradeDocs SystemdHost ReleaseFetch SystemdSwap SystemdRun SystemdLogic FetchAuthentic Retention UpdaterSample.

(** The managed files a release brings; the version file is written. *)
Definition programFiles : list string := [binaryFile; "licenses/LICENSE"; "licenses/NOTICE"].

Lemma managed_cases f : f ∈ managedUpgradeFiles -> f = versionFile \/ (f <> versionFile /\ f ∈ programFiles).
Proof. unfold managedUpgradeFiles, programFiles. intros Hf. destruct (decide (f = versionFile)); [by left|right]. set_solver. Qed.

Lemma program_managed f : f ∈ programFiles -> f ∈ managedUpgradeFiles /\ f <> versionFile.
Proof. unfold programFiles, managedUpgradeFiles. intros Hf. split; [set_solver|]. intros ->. vm_compute in Hf. repeat (apply elem_of_cons in Hf as [Hf|Hf]; [done|]). by apply not_elem_of_nil in Hf. Qed.

Lemma program_member f : f ∈ programFiles -> baseName f ∈ releaseMembers.
Proof. unfold programFiles. intros Hf. repeat (apply elem_of_cons in Hf as [->|Hf]; [vm_compute; set_solver|]). by apply not_elem_of_nil in Hf. Qed.

Lemma backupName_inj f g : f ∈ managedUpgradeFiles -> g ∈ managedUpgradeFiles -> backupName f = backupName g -> f = g.
Proof.
  unfold managedUpgradeFiles. intros Hf Hg. repeat (apply elem_of_cons in Hf as [->|Hf]; [repeat (apply elem_of_cons in Hg as [->|Hg]; [done|]); by apply not_elem_of_nil in Hg|]).
  by apply not_elem_of_nil in Hf.
Qed.

(** ** Version files *)

Lemma drop_str_app a b : drop_str (String.length a) (a +:+ b) = b.
Proof.
  unfold drop_str. rewrite length_sapp. replace (String.length a + String.length b - String.length a)%nat with (String.length b) by lia.
  induction a as [|c a IH]; simpl; [|done]. clear. induction b as [|c b IH]; simpl; [done|]. by f_equal.
Qed.

Lemma take_str_app a b : take_str (String.length a) (a +:+ b) = a.
Proof. unfold take_str. induction a as [|c a IH]; simpl; [by destruct b|]. by f_equal. Qed.

Lemma TrimSuffix_app a suffix : TrimSuffix (a +:+ suffix) suffix = a.
Proof.
  unfold TrimSuffix, HasSuffix. rewrite length_sapp. replace (String.length a + String.length suffix - String.length suffix)%nat with (String.length a) by lia.
  rewrite drop_str_app, take_str_app. rewrite !bool_decide_eq_true_2 by (done || lia). done.
Qed.

(** A version that was read is read again from the file that records it. *)
Lemma managedVersion_again text v : managedVersion text = Some v -> managedVersion (v +:+ newline) = Some v.
Proof.
  unfold managedVersion at 1. cbv zeta. destruct (decide (128 < len _ \/ _ = "")) as [|Hv]; [done|]. intros [= <-]. set (v := TrimSuffix _ _) in *.
  unfold managedVersion, atMost. assert (len (v +:+ newline) = len v + 1) as -> by (unfold len; rewrite length_sapp; simpl; lia).
  pose proof Hv as [Hlen _]%Decidable.not_or. destruct (decide (len v + 1 ≤ 130)); [|lia]. rewrite TrimSuffix_app. by rewrite decide_False.
Qed.

Section safety.
Context {E : Type} `{SystemdHost E} `{ReleaseLibrary} `{Protocol} `{UpgradeProtocol} (schema egid : Z) (goarch : string).
(** One upgrade task, and the installation before it. *)
Context (task : string) (s0 : hstate (E := E)).
Implicit Types (s : hstate (E := E)).

(** ** What is promised *)

Definition versionIn s : option string := content versionFile s ≫= managedVersion.

(** The installation is the one before. *)
Definition intact s : Prop := (forall f, f ∈ programFiles -> content f s = content f s0) /\ versionIn s = versionIn s0.

(** Every file is the one before or that of an authentic release. *)
Definition genuineAt (f : string) (c : option string) : Prop := c = content f s0 \/
  exists version stream text, authenticArchive goarch version stream /\ memberOf stream (packageName goarch version) (baseName f) text /\ c = Some text.
Definition genuine s : Prop := forall f, f ∈ programFiles -> genuineAt f (content f s).

(** The previous files are retained. *)
Definition keptAll s : Prop :=
  (forall f, f ∈ programFiles -> retained task (backupName f) s = content f s0) /\ exists v, versionIn s0 = Some v /\ retained task "version" s = Some (v +:+ newline).

Definition complete s : Prop := keptAll s /\ exists b, metaAt task s = DocIs b.

(** The installation is the release this receipt is about. *)
Definition releaseFiles (version digest : string) s : Prop :=
  exists stream, authenticArchive goarch version stream /\ content versionFile s = Some (version +:+ newline) /\
    forall f, f ∈ programFiles -> exists text, content f s = Some text /\ memberOf stream (packageName goarch version) (baseName f) text /\
      (f = binaryFile -> digest = sha256_hex text).

Definition installed (r : Receipt) s : Prop :=
  exists result, RcResult r = Some result /\ UrVersion result = ArgVersion (RqArgs (RcRequest r)) /\ Some (PreviousVersion result) = versionIn s0 /\ Restarted result = true /\
    releaseFiles (UrVersion result) (UrBinarySHA256 result) s.

Definition phaseOk (r : Receipt) s : Prop :=
  if decide (RcPhase r = "prepared") then intact s /\ (forall b, metaAt task s = DocIs b -> keptAll s) else
  if decide (RcPhase r = "failed") then intact s else
  if decide (RcPhase r = "succeeded") then installed r s else
  if decide (RcPhase r = "indeterminate") then True else complete s.

Definition outcome s : Prop :=
  genuine s /\
  match receiptAt task s with
  | DocAbsent => intact s /\ hBackups s !! task = None
  | DocBroken => True
  | DocIs r => taskOf r = task /\ phaseOk r s
  end.

(** ** Where a run can be *)

Definition receiptIn (phases : list string) s : Prop := exists r, receiptAt task s = DocIs r /\ taskOf r = task /\ RcPhase r ∈ phases.

(** No receipt yet. *)
Definition fresh s : Prop := genuine s /\ receiptAt task s = DocAbsent /\ intact s /\ hBackups s !! task = None.

(** Prepared, with a backup that may not be whole. *)
Definition preparing s : Prop := genuine s /\ receiptIn ["prepared"] s /\ intact s.

(** The managed files may be changed. *)
Definition live s : Prop := genuine s /\ receiptIn ["activating"; "activated"; "rolling_back"] s /\ complete s.

Lemma fresh_outcome s : fresh s -> outcome s.
Proof. intros (Hg & Hr & Hi & Hb). split; [done|]. by rewrite Hr. Qed.

Lemma preparing_outcome s : preparing s -> (forall b, metaAt task s = DocIs b -> keptAll s) -> outcome s.
Proof.
  intros (Hg & (r & Hr & Ht & Hp) & Hi) Hm. split; [done|]. rewrite Hr. split; [done|]. unfold phaseOk. apply list_elem_of_singleton in Hp. by rewrite decide_True.
Qed.

Lemma complete_phase r s : RcPhase r ∈ ["activating"; "activated"; "rolling_back"] -> complete s <-> phaseOk r s.
Proof. intros Hp. unfold phaseOk. repeat (apply elem_of_cons in Hp as [->|Hp]; [done|]). by apply not_elem_of_nil in Hp. Qed.

Lemma live_outcome s : live s -> outcome s.
Proof. intros (Hg & (r & Hr & Ht & Hp) & Hc). split; [done|]. rewrite Hr. split; [done|]. by apply complete_phase. Qed.
Hint Resolve fresh_outcome live_outcome : crash.

Lemma intact_genuine s : intact s -> genuine s.
Proof. intros [Hf _] f Hin. left. by apply Hf. Qed.

Lemma receiptAt_put r s : receiptAt task (putReceipt task r s) = DocIs r.
Proof. unfold receiptAt, putReceipt. cbn. by rewrite lookup_insert_eq. Qed.

(** ** Receipts *)

Lemma runs_writeReceipt P (Q : res string unit -> _ -> Prop) r :
  taskOf r = task -> hostless P -> (forall s, P s -> outcome s) -> (forall e s, P s -> Q (Err e) s) -> (forall a s, P s -> Q a (putReceipt task r s)) ->
  runs outcome P (writeReceipt r) Q.
Proof.
  intros Ht HP HK He Hput. assert (runs outcome P (atomicHelperDocument (taskOf r +:+ ".json") (putReceipt (taskOf r) r)) Q) as Hw.
  { apply ends_replace; [done..|]. rewrite Ht. done. }
  unfold writeReceipt. apply runs_past; [auto with crash|done..|]. intros [|previous|]; [done| |apply ends_ret, He]. repeat (case_match; [apply ends_ret, He|]). done.
Qed.

Lemma runs_receipt_end P r : taskOf r = task -> hostless P -> (forall s, P s -> outcome s) -> (forall s, P s -> phaseOk r (putReceipt task r s)) ->
  runs outcome P (writeReceipt r) (fun _ => outcome).
Proof.
  intros Ht HP HK Hput. apply runs_writeReceipt; [done..|by intros _|]. intros _ s Hs. split; [exact (proj1 (HK s Hs))|]. rewrite receiptAt_put. auto.
Qed.

Lemma runs_try_end {A B} P (m : hM E (res string A)) (f : A -> hM E (res string B)) :
  runs outcome P m (fun _ => outcome) -> (forall a, runs outcome outcome (f a) (fun _ => outcome)) -> runs outcome P (try m f) (fun _ => outcome).
Proof. intros Hm Hf. by eapply runs_try. Qed.

Lemma ends_fail P request code cause : TID (RqTask request) = task -> hostless P -> (forall s, P s -> outcome s) -> (forall s, P s -> intact s) ->
  runs outcome P (fail request code cause) (fun _ => outcome).
Proof. intros Ht HP HK Hi. apply runs_try_end; [|intros _; by apply ends_ret]. apply runs_receipt_end; [done..|]. intros s Hs. exact (Hi s Hs). Qed.

Lemma runs_indeterminate P receipt message : taskOf receipt = task -> hostless P -> (forall s, P s -> outcome s) ->
  runs outcome P (markIndeterminate receipt message) (fun _ => outcome).
Proof. intros Ht HP HK. apply runs_try_end; [|intros _; by apply ends_ret]. by apply runs_receipt_end. Qed.

(** ** Managed files *)

Lemma content_put f g new s : content f (putManaged g new s) = if decide (f = g) then Some (fContent new) else content f s.
Proof. unfold content, putManaged. cbn. case_decide; subst; [by rewrite lookup_insert_eq|by rewrite lookup_insert_ne]. Qed.

Lemma genuine_put f new s : genuine s -> (f ∈ programFiles -> genuineAt f (Some (fContent new))) -> genuine (putManaged f new s).
Proof. intros Hg Hn g Hin. rewrite content_put. case_decide as Heq; [subst; auto|auto]. Qed.

Lemma live_put f new s : live s -> (f ∈ programFiles -> genuineAt f (Some (fContent new))) -> live (putManaged f new s).
Proof. intros (Hg & Hr & Hc) Hn. split_and!; [by apply genuine_put|done|done]. Qed.

(** One file of a sequence that fills [done] in: its new content is [text]. *)
Lemma runs_putFile P (Q : res string unit -> _ -> Prop) gid f text :
  hostless P -> (forall s, P s -> outcome s) -> (forall e s, P s -> Q (Err e) s) ->
  (forall r s, P s -> Q r (putManaged f (MkFile text (managedMode f) (managedGroup egid gid f)) s)) -> runs outcome P (putFile egid gid f text) Q.
Proof. intros HP HK He Hput. unfold putFile. by apply ends_replace. Qed.

(** ** Restoring *)

Definition restoredOK (f : string) s : Prop :=
  if decide (f = versionFile) then exists v, versionIn s0 = Some v /\ content versionFile s = Some (v +:+ newline) else content f s = content f s0.

Lemma restored_intact s : (forall f, f ∈ managedUpgradeFiles -> restoredOK f s) -> intact s.
Proof.
  intros Hall. split.
  - intros f [Hm Hne]%program_managed. specialize (Hall f Hm). unfold restoredOK in Hall. by rewrite decide_False in Hall.
  - assert (versionFile ∈ managedUpgradeFiles) as Hv by (right; left). specialize (Hall _ Hv). unfold restoredOK in Hall. rewrite decide_True in Hall by done.
    destruct Hall as (v & Hv0 & Hc). unfold versionIn at 1. rewrite Hc. cbn. rewrite Hv0. unfold versionIn in Hv0. destruct (content versionFile s0); [|done]. by eapply managedVersion_again.
Qed.

(** What is retained for a managed file restores it. *)
Lemma retained_restores f text new s s' : complete s -> f ∈ managedUpgradeFiles -> retained task (backupName f) s = Some text -> fContent new = text ->
  restoredOK f (putManaged f new s') /\ (f ∈ programFiles -> genuineAt f (Some text)).
Proof.
  intros [[Hk (v & Hv & Hkv)] _] Hm Hr Hn. unfold restoredOK. destruct (managed_cases f Hm) as [->|[Hne Hp]].
  - rewrite decide_True by done. rewrite content_put, decide_True, Hn by done. split; [exists v; split; [done|]; change (backupName versionFile) with "version" in Hr; congruence|].
    intros Hp%program_managed. by destruct Hp.
  - rewrite decide_False by done. rewrite content_put, decide_True, Hn by done. rewrite (Hk f Hp) in Hr. split; [by rewrite Hr|]. intros _. by left.
Qed.

Lemma restoredOK_put f g new s : g <> f -> restoredOK f s -> restoredOK f (putManaged g new s).
Proof. unfold restoredOK. intros Hne. case_decide; rewrite content_put; subst; by rewrite decide_False. Qed.

Lemma runs_restoreFiles gid files before : (forall f, f ∈ files -> f ∈ managedUpgradeFiles) ->
  runs outcome (fun s => live s /\ forall f, f ∈ before -> restoredOK f s) (restoreFiles egid task gid files)
    (fun r s => live s /\ (is_Ok r = true -> forall f, f ∈ before ++ files -> restoredOK f s)).
Proof.
  revert before. induction files as [|file rest IH]; intros before Hm; simpl; [apply ends_ret; intros s [Hs Hd]; rewrite app_nil_r; auto|].
  apply runs_read; [hostless|done|intros s [Hs _]; auto with crash|]. intros [text|]; [|apply ends_ret; by intros s [[Hs _] _]].
  eapply (runs_try _ _ (fun r s => live s /\ (is_Ok r = true -> forall f, f ∈ before ++ [file] -> restoredOK f s))).
  - apply runs_putFile; [hostless|intros s [[Hs _] _]; auto with crash|by intros e s [[Hs _] _]|]. intros r s [[Hs Hd] [|Hr]]; [done|].
    destruct (retained_restores file text (MkFile text (managedMode file) (managedGroup egid gid file)) s s) as [Hok Hg]; [by destruct Hs as (_ & _ & ?)|apply Hm; by left|done|done|].
    split; [by apply live_put|]. intros _ f [Hf|Hf]%elem_of_app; [|by apply list_elem_of_singleton in Hf as ->]. destruct (decide (f = file)) as [->|Hne]; [done|]. apply restoredOK_put; auto.
  - intros a. cbn [is_Ok]. eapply runs_conseq; [apply (IH (before ++ [file])); intros f Hf; apply Hm; by right|intros s [Hs Hd]; auto|]. intros r s. by rewrite <- app_assoc.
  - intros e s [Hs _]. done.
Qed.

Lemma runs_restoreBackup backup gid :
  runs outcome live (restoreBackup schema egid task backup gid) (fun r s => live s /\ (is_Ok r = true -> intact s)).
Proof.
  assert (forall e s, live s -> live s /\ (is_Ok (@Err string unit e) = true -> intact s)) as Hend by done.
  unfold restoreBackup. eapply (runs_try _ _ (fun _ => live)); [apply runs_quiet_end; [auto with crash|hostless|auto with crash|done]| |done]. intros _.
  apply runs_past; [auto with crash|hostless|auto with crash|]. intros digest. case_decide; [by apply ends_ret|].
  eapply runs_conseq; [apply (runs_restoreFiles gid managedUpgradeFiles []); done|intros s Hs; split; [done|by intros f Hf%not_elem_of_nil]|]. intros r s [Hs Hr].
  split; [done|]. intros Hok. by apply restored_intact, Hr.
Qed.

Lemma runs_rollback fuel receipt backup uid gid message : taskOf receipt = task ->
  runs outcome (fun s => outcome s /\ complete s) (rollback schema egid fuel receipt backup uid gid message) (fun _ => outcome).
Proof.
  intros Ht. unfold rollback. set (rolling := inPhase "rolling_back" receipt). assert (taskOf rolling = task) as Hrt by done.
  eapply (runs_try _ _ (fun r s => if is_Ok r then live s else outcome s)); [|intros a; cbn [is_Ok]|done].
  - apply runs_writeReceipt; [done|hostless|by intros s []|by intros e s []|]. intros r s [[Hg _] Hc]. assert (live (putReceipt task rolling s)) as Hl.
    { split_and!; [done| |done]. exists rolling. split; [apply receiptAt_put|]. split; [done|]. right; right; left. }
    destruct (is_Ok r); auto with crash.
  - apply runs_past; [auto with crash|hostless|auto with crash|]. intros [stopped|]; [|by apply runs_indeterminate; [|hostless|auto with crash]].
    eapply ends_bind; [rewrite Hrt; apply runs_restoreBackup|]. intros [u|e]; cbn [is_Ok].
    + apply runs_past; [auto with crash|hostless|intros s [Hs _]; auto with crash|]. intros [started|]; [|apply runs_indeterminate; [done|hostless|intros s [Hs _]; auto with crash]].
      apply runs_past; [auto with crash|hostless|intros s [Hs _]; auto with crash|]. intros [seen|]; [|apply runs_indeterminate; [done|hostless|intros s [Hs _]; auto with crash]].
      apply runs_try_end; [|intros _; by apply ends_ret]. apply runs_receipt_end; [done|hostless|intros s [Hs _]; auto with crash|]. intros s [_ Hi]. exact (Hi eq_refl).
    + eapply runs_pre; [|by intros s [Hs _]; exact Hs]. apply runs_past; [auto with crash|hostless|auto with crash|]. intros text. by apply runs_indeterminate; [|hostless|auto with crash].
Qed.

(** ** Recovery *)

Lemma runs_recover fuel receipt uid gid : taskOf receipt = task -> helperTerminal (RcPhase receipt) = false ->
  runs outcome (fun s => outcome s /\ receiptAt task s = DocIs receipt) (recover schema egid fuel receipt uid gid) (fun _ => outcome).
Proof.
  intros Ht Hterm. unfold recover. rewrite Ht. assert (forall text, runs outcome (fun s => outcome s /\ receiptAt task s = DocIs receipt) (markIndeterminate receipt text) (fun _ => outcome)) as Hind.
  { intros text. by apply runs_indeterminate; [|hostless|intros s []]. }
  assert (forall s, outcome s /\ receiptAt task s = DocIs receipt -> phaseOk receipt s) as Hphase by (intros s [[_ Ho] Hr]; rewrite Hr in Ho; apply Ho).
  apply runs_readDoc; [hostless|done|by intros s []|]. intros read. destruct read as [|backup|].
  2:{ destruct (_ || _); [eapply runs_pre; [apply Hind|by intros s []]|]. eapply runs_pre with (P := fun s => (outcome s /\ receiptAt task s = DocIs receipt) /\ metaAt task s = DocIs backup).
      2:{ intros s [Hs [|Hm]]; [done|]. by split. }
      apply runs_past; [auto with crash|hostless|by intros s [[]]|]. intros digest. case_decide; [|eapply runs_pre; [apply Hind|by intros s []]].
      eapply runs_pre; [by apply runs_rollback|]. intros s [Hs Hm]. split; [apply Hs|]. pose proof (Hphase s Hs) as Hp. unfold phaseOk, helperTerminal in *. apply bool_decide_eq_false in Hterm.
      repeat case_decide; try tauto. split; [|eauto]. by eapply Hp. }
  all: case_decide as Hprep; [|eapply runs_pre; [apply Hind|by intros s []]]; (apply runs_past; [auto with crash|hostless|by intros s [[]]|]); intros version;
    (case_decide; [|eapply runs_pre; [apply Hind|by intros s []]]); (apply ends_fail; [done|hostless|by intros s [[]]|]); intros s [Hs _]; pose proof (Hphase s Hs) as Hp;
    unfold phaseOk in Hp; rewrite decide_True in Hp by done; apply Hp.
Qed.

(** ** Retaining *)

(** The fetched release is still staged. *)
Definition stagedFrom (stream : tarStream) (version : string) (candidate : Candidate) s : Prop :=
  exists files, hStage s !! CaDir candidate = Some files /\ holdsMembers stream (packageName goarch version) (CaBinarySHA256 candidate) files.
Definition stagedAt (version : string) (candidate : Candidate) s : Prop :=
  CaVersion candidate = version /\ exists stream, authenticArchive goarch version stream /\ stagedFrom stream version candidate s.

Section forward.
Context (version : string) (candidate : Candidate).
Notation STAGED := (stagedAt version candidate).

(** The previous version, as the version file has it. *)
Context (v : string) (Hv : versionIn s0 = Some v).

Definition retainedOK (f : string) s : Prop := retained task (backupName f) s = if decide (f = versionFile) then Some (v +:+ newline) else content f s0.

Definition filling (before : list string) s : Prop :=
  (preparing s /\ STAGED s) /\ metaAt task s = DocAbsent /\ (exists dir, hBackups s !! task = Some dir) /\ forall f, f ∈ before -> retainedOK f s.

Lemma filling_outcome before s : filling before s -> outcome s.
Proof. intros ([Hp _] & Hm & _). apply preparing_outcome; [done|]. intros b. by rewrite Hm. Qed.

Lemma retained_put n name new s dir : hBackups s !! task = Some dir ->
  retained task n (putRetained task name new s) = if decide (n = name) then Some (fContent new) else retained task n s.
Proof.
  intros Hd. unfold retained, putRetained, alterBackup. cbn. rewrite lookup_alter_eq, Hd. cbn. case_decide; subst; [by rewrite lookup_insert_eq|by rewrite lookup_insert_ne].
Qed.

Lemma filling_put before f new s : f ∈ managedUpgradeFiles -> (forall g, g ∈ before -> g ∈ managedUpgradeFiles) ->
  Some (fContent new) = (if decide (f = versionFile) then Some (v +:+ newline) else content f s0) ->
  filling before s -> filling (before ++ [f]) (putRetained task (backupName f) new s).
Proof.
  intros Hf Hb Hn ([Hp Hst] & Hm & [dir Hd] & Hr). split; [by split|]. split_and!.
  - unfold metaAt in *. cbn. rewrite lookup_alter_eq. rewrite Hd in *. done.
  - cbn. rewrite lookup_alter_eq, Hd. by eexists.
  - intros g Hg. unfold retainedOK. rewrite (retained_put _ _ _ _ dir Hd). destruct (decide (backupName g = backupName f)) as [Heq|Hne].
    + assert (g = f) as -> by (apply backupName_inj; [apply elem_of_app in Hg as [Hg|Hg]; [auto|by apply list_elem_of_singleton in Hg as ->]|done..]). exact Hn.
    + apply elem_of_app in Hg as [Hg|Hg]; [by apply Hr|by apply list_elem_of_singleton in Hg as ->].
Qed.

Lemma runs_retainFiles backup gid files before : BkPreviousVersion backup = v -> (forall f, f ∈ before ++ files -> f ∈ managedUpgradeFiles) ->
  runs outcome (filling before) (retainFiles task backup gid files) (fun r s => if is_Ok r then filling (before ++ files) s else filling [] s).
Proof.
  intros Hbk. assert (forall l s, filling l s -> filling [] s) as Hnil by (intros l s (Ha & Hb & Hc & _); do 3 (split; [done|]); by intros f Hf%not_elem_of_nil).
  revert before. induction files as [|file rest IH]; intros before Hm; cbn [retainFiles]; [apply ends_ret; by rewrite app_nil_r|].
  assert (file ∈ managedUpgradeFiles) as Hfile by (apply Hm; set_solver). assert (forall g, g ∈ before -> g ∈ managedUpgradeFiles) as Hbefore by (intros g Hg; apply Hm; set_solver).
  eapply (runs_try _ _ (fun r s => if is_Ok r then filling (before ++ [file]) s else filling [] s)); [| |done].
  - case_decide as Hver.
    + apply ends_replace; [hostless|apply filling_outcome|intros e; apply Hnil|]. intros r s Hs. subst file.
      assert (filling (before ++ [versionFile]) (putRetained task (backupName versionFile) (MkFile (BkPreviousVersion backup +:+ newline) 416 gid) s)) as Hf by (by apply filling_put; [..|rewrite decide_True, Hbk|]).
      destruct (is_Ok r); [exact Hf|exact (Hnil _ _ Hf)].
    + apply runs_read; [hostless|done|apply filling_outcome|]. intros [text|]; [|apply ends_ret; intros s [Hs _]; by eapply Hnil].
      apply ends_replace; [hostless|intros s [Hs _]; by eapply filling_outcome|intros e s [Hs _]; by eapply Hnil|]. intros r s [Hs [|Ht]]; [done|].
      assert (filling (before ++ [file]) (putRetained task (backupName file) (MkFile text 416 gid) s)) as Hf.
      { apply filling_put; [done|done| |done]. rewrite decide_False by done. destruct (managed_cases file Hfile) as [|[_ Hp]]; [done|].
        destruct Hs as ([(_ & _ & Hi & _) _] & _). rewrite <- (Hi file Hp). done. }
      destruct (is_Ok r); [exact Hf|by eapply Hnil].
  - intros a. cbn [is_Ok]. eapply runs_conseq; [apply (IH (before ++ [file])); intros f; rewrite <- app_assoc; apply Hm|done|]. intros r s. by rewrite <- app_assoc.
Qed.

Lemma filling_kept s : filling managedUpgradeFiles s -> keptAll s.
Proof.
  intros (_ & _ & _ & Hr). split.
  - intros f [Hm Hne]%program_managed. rewrite (Hr f Hm). by rewrite decide_False.
  - exists v. split; [done|]. assert (versionFile ∈ managedUpgradeFiles) as Hin by (right; left). apply (Hr _ Hin).
Qed.

Lemma metaAt_put b s dir : hBackups s !! task = Some dir -> metaAt task (putMeta task b s) = DocIs b.
Proof. intros Hd. unfold metaAt. cbn. by rewrite lookup_alter_eq, Hd. Qed.

Lemma keptAll_meta b s : keptAll s -> keptAll (putMeta task b s).
Proof.
  assert (forall name, retained task name (putMeta task b s) = retained task name s) as Hsame.
  { intros name. unfold retained. cbn. rewrite lookup_alter_eq. by destruct (hBackups s !! task). }
  intros [Hk (w & Hw & Hkw)]. split; [intros f Hf; rewrite Hsame; auto|]. exists w. by rewrite Hsame.
Qed.

Lemma runs_prepareBackup backup gid : BkPreviousVersion backup = v ->
  runs outcome (fun s => (preparing s /\ STAGED s) /\ hBackups s !! task = None) (prepareBackup task backup gid)
    (fun r s => (preparing s /\ STAGED s) /\ if is_Ok r then complete s else forall b, metaAt task s = DocIs b -> keptAll s).
Proof.
  intros Hbk. unfold prepareBackup. assert (forall s, (preparing s /\ STAGED s) /\ hBackups s !! task = None -> (preparing s /\ STAGED s) /\ forall b, metaAt task s = DocIs b -> keptAll s) as Hnone.
  { intros s [Hs Hb]. split; [done|]. unfold metaAt. by rewrite Hb. }
  assert (forall s, (preparing s /\ STAGED s) /\ hBackups s !! task = None -> outcome s) as Hout by (intros s Hs; destruct (Hnone s Hs) as [[Hp _] Hm]; by apply preparing_outcome).
  assert (forall l s, filling l s -> (preparing s /\ STAGED s) /\ forall b, metaAt task s = DocIs b -> keptAll s) as Hfill by (intros l s (Hs & Hm & _); split; [done|]; intros b; by rewrite Hm).
  eapply (runs_try _ _ (fun r s => if is_Ok r then filling [] s else (preparing s /\ STAGED s) /\ forall b, metaAt task s = DocIs b -> keptAll s)); [| |done].
  - unfold mkdirBackup. apply runs_look. intros there. apply runs_past; [auto with crash|hostless|intros s [Hs _]; auto|]. intros made.
    destruct there, made; try (apply ends_ret; intros s [Hs _]; by apply Hnone). apply runs_change. intros s [[Hs _] _]. apply ends_ret. intros s' ->. split; [done|]. split_and!.
    + unfold metaAt. cbn. by rewrite lookup_insert_eq.
    + cbn. rewrite lookup_insert_eq. by eexists.
    + by intros f Hf%not_elem_of_nil.
  - intros a. cbn [is_Ok]. apply runs_past; [auto with crash|hostless|apply filling_outcome|]. intros [|]; cbn [negb]; [|apply ends_ret; apply Hfill].
    eapply runs_try; [apply (runs_retainFiles _ _ _ [] Hbk); done| |intros e s; apply Hfill]. intros u. cbn [is_Ok app]. apply ends_replace; [hostless|apply filling_outcome|intros e; apply Hfill|].
    intros r s Hs. pose proof (filling_kept s Hs) as Hk. destruct Hs as (Hs & _ & [dir Hd] & _). split; [done|]. pose proof (keptAll_meta backup s Hk). destruct (is_Ok r); [|done].
    split; [done|]. exists backup. by apply (metaAt_put _ _ dir).
Qed.

(** ** Installing *)

Definition installedOK (stream : tarStream) (f : string) s : Prop :=
  if decide (f = versionFile) then content versionFile s = Some (version +:+ newline)
  else exists text, content f s = Some text /\ memberOf stream (packageName goarch version) (baseName f) text /\ (f = binaryFile -> CaBinarySHA256 candidate = sha256_hex text).

Lemma installedOK_put stream f g new s : g <> f -> installedOK stream f s -> installedOK stream f (putManaged g new s).
Proof. unfold installedOK. intros Hne. case_decide; setoid_rewrite content_put; subst; by rewrite decide_False. Qed.

Lemma runs_installFiles stream gid files before : CaVersion candidate = version -> authenticArchive goarch version stream -> (forall f, f ∈ files -> f ∈ managedUpgradeFiles) ->
  runs outcome (fun s => (live s /\ stagedFrom stream version candidate s) /\ forall f, f ∈ before -> installedOK stream f s) (installFiles egid candidate gid files)
    (fun r s => live s /\ (is_Ok r = true -> forall f, f ∈ before ++ files -> installedOK stream f s)).
Proof.
  intros Hcv Hau. revert before. induction files as [|file rest IH]; intros before Hm; cbn [installFiles]; [apply ends_ret; intros s [[Hs _] Hd]; rewrite app_nil_r; auto|].
  assert (forall text gid, (file ∈ programFiles -> memberOf stream (packageName goarch version) (baseName file) text) ->
            (forall s, installedOK stream file (putManaged file (MkFile text (managedMode file) (managedGroup egid gid file)) s)) ->
            runs outcome (fun s => (live s /\ stagedFrom stream version candidate s) /\ forall f, f ∈ before -> installedOK stream f s) (putFile egid gid file text)
              (fun r s => (live s /\ stagedFrom stream version candidate s) /\ (is_Ok r = true -> forall f, f ∈ before ++ [file] -> installedOK stream f s))) as Hput.
  { intros text g Hmem Hok. apply runs_putFile; [hostless|intros s [[Hs _] _]; auto with crash|by intros e s [Hs _]|]. intros r s [[Hs Hst] Hd].
    split; [split; [apply live_put; [done|]; intros Hp; right; by eexists version, stream, text; auto|done]|].
    intros _ f [Hf|Hf]%elem_of_app; [|by apply list_elem_of_singleton in Hf as ->]. destruct (decide (f = file)) as [->|Hne]; [done|]. apply installedOK_put; auto. }
  eapply (runs_try _ _ (fun r s => (live s /\ stagedFrom stream version candidate s) /\ (is_Ok r = true -> forall f, f ∈ before ++ [file] -> installedOK stream f s))).
  - case_decide as Hver.
    + apply Hput; [intros Hp%program_managed; by destruct Hp|]. intros s. unfold installedOK. rewrite decide_True by done. rewrite content_put, decide_True by done. by rewrite Hcv.
    + destruct (managed_cases file) as [|[_ Hp]]; [apply Hm; by left|done|]. apply runs_read; [hostless|done|intros s [[Hs _] _]; auto with crash|].
      intros [text|]; [|apply ends_ret; intros s [[Hs _] _]; by split].
      apply (runs_fact (memberOf stream (packageName goarch version) (baseName file) text /\ (baseName file = "passwall-node" -> CaBinarySHA256 candidate = sha256_hex text))).
      2:{ intros s [[[_ (files & Hf & Hh)] _] [|Ht]]; [done|]. destruct (Hh _ (program_member _ Hp)) as (text' & Ht' & Hmem & Hdig). unfold staged in Ht. rewrite Hf in Ht. cbn in Ht.
          rewrite Ht' in Ht. by injection Ht as ->. }
      intros [Hmem Hdig]. eapply runs_pre; [apply Hput; [done|]|by intros s [Hs _]]. intros s. unfold installedOK. rewrite decide_False by done. exists text. rewrite content_put, decide_True by done.
      split_and!; [done..|]. intros ->. by apply Hdig.
  - intros a. cbn [is_Ok]. eapply runs_conseq; [apply (IH (before ++ [file])); intros f Hf; apply Hm; by right|intros s [Hs Hd]; auto|]. intros r s. by rewrite <- app_assoc.
  - intros e s [[Hs _] _]. done.
Qed.

Lemma installed_release stream s : authenticArchive goarch version stream -> (forall f, f ∈ managedUpgradeFiles -> installedOK stream f s) ->
  releaseFiles version (CaBinarySHA256 candidate) s.
Proof.
  intros Hau Hall. exists stream. split; [done|]. split.
  - assert (versionFile ∈ managedUpgradeFiles) as Hin by (right; left). specialize (Hall _ Hin). unfold installedOK in Hall. by rewrite decide_True in Hall.
  - intros f [Hm Hne]%program_managed. specialize (Hall f Hm). unfold installedOK in Hall. by rewrite decide_False in Hall.
Qed.

Lemma runs_installCandidate gid :
  runs outcome (fun s => live s /\ STAGED s) (installCandidate egid candidate gid) (fun r s => live s /\ (is_Ok r = true -> releaseFiles version (CaBinarySHA256 candidate) s)).
Proof.
  intros s [Hl (Hcv & stream & Hau & Hst)]. pose proof (runs_installFiles stream gid managedUpgradeFiles [] Hcv Hau (fun f Hf => Hf) s) as Hr.
  unfold installCandidate. destruct (installFiles egid candidate gid managedUpgradeFiles s) as [[r|] s']; [|apply Hr; split; [done|by intros f Hf%not_elem_of_nil]].
  destruct Hr as [Hl' Hall]; [split; [done|by intros f Hf%not_elem_of_nil]|]. split; [done|]. intros Hok. by eapply installed_release; auto.
Qed.

End forward.

(** ** The run *)

Lemma runs_writeLive P r : taskOf r = task -> RcPhase r ∈ ["activating"; "activated"; "rolling_back"] -> hostless P -> (forall s, P s -> outcome s) -> (forall s, P s -> complete s) ->
  runs outcome P (writeReceipt r) (fun a s => if is_Ok a then live s /\ exists s', P s' /\ s = putReceipt task r s' else outcome s /\ complete s).
Proof.
  intros Ht Hp HP HK Hc. apply runs_writeReceipt; [done..|intros e s Hs; split; auto|]. intros a s Hs.
  assert (live (putReceipt task r s)) as Hl by (split_and!; [exact (proj1 (HK s Hs))|exists r; split; [apply receiptAt_put|done]|exact (Hc s Hs)]).
  destruct (is_Ok a); [split; [done|by exists s]|]. split; [by apply live_outcome|exact (Hc s Hs)].
Qed.

Lemma runs_activate fuel receipt result backup candidate uid gid : taskOf receipt = task -> RcResult receipt = Some result -> UrVersion result = ArgVersion (RqArgs (RcRequest receipt)) ->
  Some (PreviousVersion result) = versionIn s0 -> UrBinarySHA256 result = CaBinarySHA256 candidate ->
  runs outcome (fun s => live s /\ stagedAt (UrVersion result) candidate s) (activate schema egid fuel receipt result backup candidate uid gid) (fun _ => outcome).
Proof.
  intros Ht Hres Hver Hprev Hsha. unfold activate.
  assert (forall P r text, taskOf r = task -> (forall s, P s -> outcome s /\ complete s) -> runs outcome P (rollback schema egid fuel r backup uid gid text) (fun _ => outcome)) as Hroll.
  { intros P r text Hr HP. eapply runs_pre; [by apply runs_rollback|done]. }
  assert (forall s, live s -> outcome s /\ complete s) as Hlive by (intros s Hs; split; [by apply live_outcome|apply Hs]).
  apply runs_past; [auto with crash|hostless|intros s [Hs _]; by apply live_outcome|]. intros [stopped|]; [|apply Hroll; [done|]; intros s [Hs _]; auto].
  apply runs_past; [auto with crash|hostless|intros s [Hs _]; by apply live_outcome|]. intros [nonce|]; [|apply Hroll; [done|]; intros s [Hs _]; auto].
  eapply ends_bind; [apply runs_installCandidate|]. intros [u|e]; [|apply Hroll; [done|]; intros s [Hs _]; auto].
  eapply runs_pre with (P := fun s => live s /\ releaseFiles (UrVersion result) (CaBinarySHA256 candidate) s); [|intros s [Hs Hi]; auto].
  eapply ends_bind; [apply runs_writeLive; [done|right; left|hostless|intros s [Hs _]; by apply live_outcome|intros s [Hs _]; apply Hs]|].
  intros [w|e]; cbn [is_Ok]; [|apply Hroll; [done|]; auto].
  eapply runs_pre with (P := fun s => live s /\ releaseFiles (UrVersion result) (CaBinarySHA256 candidate) s); [|by intros s [Hs (s' & [_ Hf] & ->)]; split].
  apply runs_past; [auto with crash|hostless|intros s [Hs _]; by apply live_outcome|]. intros [started|]; [|apply Hroll; [done|]; intros s [Hs _]; auto].
  apply runs_past; [auto with crash|hostless|intros s [Hs _]; by apply live_outcome|]. intros [ready|]; [|apply Hroll; [done|]; intros s [Hs _]; auto].
  apply runs_receipt_end; [done|hostless|intros s [Hs _]; by apply live_outcome|]. intros s [_ Hf]. change (installed (MkReceipt (RcRequest receipt) "succeeded"
    (Some (MkUpgradeResult (UrVersion result) (PreviousVersion result) (UrBinarySHA256 result) true)) "" "" nonce) s). eexists. split; [done|]. cbn. by rewrite Hsha.
Qed.

Lemma runs_exchange fuel request version oldDigest candidate uid gid : TID (RqTask request) = task -> versionIn s0 = Some version ->
  runs outcome (fun s => fresh s /\ stagedAt (ArgVersion (RqArgs request)) candidate s) (exchange schema egid fuel request version oldDigest candidate uid gid) (fun _ => outcome).
Proof.
  intros Ht Hv. unfold exchange. set (P := fun s => fresh s /\ stagedAt (ArgVersion (RqArgs request)) candidate s). assert (hostless P) as HP by hostless.
  assert (forall s, P s -> outcome s) as HK by (intros s [Hs _]; by apply fresh_outcome). assert (forall s, P s -> intact s) as HI by (intros s [(_ & _ & Hi & _) _]; done).
  assert (forall code cause, runs outcome P (fail request code cause) (fun _ => outcome)) as Hfail by (intros; by apply ends_fail).
  apply runs_past; [auto with crash|done..|]. intros info. destruct (negb _); [done|]. destruct (_ || _); [done|]. apply runs_past; [auto with crash|done..|]. intros [|]; cbn [negb]; [|done].
  eapply (ends_bind _ _ (fun _ => P)).
  { intros s Hs. pose proof (keeps_prune task s s (spares_refl task s)) as Hp. rewrite Ht. assert (forall s', spares task s s' -> P s') as Hkeep.
    { intros s' (Hf & Hr & Hst & Hb). destruct Hs as [(Hg & Hra & Hi & Hno) Hstage]. unfold P, fresh, genuine, intact, versionIn, content, receiptAt, stagedAt, stagedFrom in *. rewrite Hf, Hr, Hst.
      rewrite Hb; [done|]. by intros []. }
    destruct (pruneCompletedBackups task s) as [[a|] s']; auto. }
  intros [u|e]; [|done]. set (result := MkUpgradeResult _ _ _ _). set (prepared := MkReceipt request "prepared" (Some result) "" "" "").
  eapply (runs_try _ _ (fun r s => if is_Ok r then (preparing s /\ stagedAt (ArgVersion (RqArgs request)) candidate s) /\ hBackups s !! task = None else outcome s)); [| |done].
  { apply runs_writeReceipt; [done..|auto|]. intros a s [(Hg & _ & Hi & Hno) Hst]. assert (preparing (putReceipt task prepared s)) as Hpr.
    { split_and!; [done| |done]. exists prepared. split; [apply receiptAt_put|]. split; [done|by left]. }
    destruct (is_Ok a); [done|]. apply preparing_outcome; [done|]. unfold metaAt. cbn. by rewrite Hno. }
  intros a. cbn [is_Ok]. eapply ends_bind; [rewrite Ht; by apply (runs_prepareBackup _ _ version Hv)|]. intros [w|e]; cbn [is_Ok].
  2:{ apply ends_fail; [done|hostless| |]; intros s [[Hp _] Hm]; [by apply preparing_outcome|apply Hp]. }
  set (Q := fun s => (preparing s /\ stagedAt (ArgVersion (RqArgs request)) candidate s) /\ complete s).
  assert (forall s, Q s -> outcome s) as HQ by (intros s [[Hp _] [Hk _]]; by apply preparing_outcome).
  eapply (runs_try _ _ (fun r s => if is_Ok r then (live s /\ stagedAt (ArgVersion (RqArgs request)) candidate s) /\ intact s else outcome s)); [| |done].
  { eapply runs_conseq; [apply (runs_writeLive Q); [done|by left|hostless|done|by intros s []]|done|]. intros r s. cbv beta. destruct (is_Ok r); [|by intros []].
    intros [Hl (s' & [[Hp Hst] _] & ->)]. split; [by split|apply Hp]. }
  intros b. cbn [is_Ok]. apply runs_past; [auto with crash|hostless|intros s [[Hs _] _]; by apply live_outcome|]. intros [|]; cbn [negb].
  - eapply runs_pre; [by apply runs_activate|by intros s []].
  - apply ends_fail; [done|hostless|intros s [[Hs _] _]; by apply live_outcome|by intros s []].
Qed.

Lemma runs_removeAll_outcome dir : keeps outcome (removeAll (E := E) dir).
Proof. unfold removeAll. apply runs_past; [auto with crash|hostless|done|]. intros [|]; [|by apply ends_ret]. by intros s Hs. Qed.

Lemma runs_begin fuel request uid gid : TID (RqTask request) = task -> runs outcome fresh (begin schema egid goarch fuel request uid gid) (fun _ => outcome).
Proof.
  intros Ht. unfold begin. assert (hostless fresh) as HP by hostless. assert (forall s, fresh s -> intact s) as HI by (by intros s (_ & _ & Hi & _)).
  assert (forall code cause, runs outcome fresh (fail request code cause) (fun _ => outcome)) as Hfail by (intros; apply ends_fail; auto with crash).
  apply runs_past; [auto with crash|done|auto with crash|]. intros [|]; cbn [negb]; [|done].
  eapply (ends_bind _ _ (fun r s => fresh s /\ forall version, r = Some version -> versionIn s0 = Some version)).
  { unfold readManagedVersion. apply runs_read; [done|done|auto with crash|]. intros text. apply ends_ret. intros s [Hs Hr]. split; [done|]. intros version Hver.
    destruct Hr as [->|Hr]; [done|]. destruct (HI s Hs) as [_ <-]. unfold versionIn. by rewrite Hr. }
  intros [version|]; [|by eapply runs_pre; [apply Hfail|intros s []]]. apply (runs_fact (versionIn s0 = Some version)); [|by intros s [_ Hver]; apply Hver]. intros Hv.
  eapply runs_pre; [|by intros s [Hs _]; exact Hs]. case_decide; [done|]. apply runs_past; [auto with crash|done|auto with crash|]. intros info. destruct (negb _); [done|].
  apply runs_past; [auto with crash|done|auto with crash|]. intros [digest|]; [|done]. apply runs_past; [auto with crash|done|auto with crash|]. intros dropIns. case_decide; [done|].
  apply runs_past; [auto with crash|done|auto with crash|]. intros [u|]; [|done]. destruct (NewReleaseFetcher goarch); [|done].
  eapply (ends_bind _ _ (fun r s => fresh s /\ match r with Ok candidate => stagedAt (ArgVersion (RqArgs request)) candidate s | Err _ => True end)).
  { intros s Hs. pose proof (runs_Fetch goarch s (ArgVersion (RqArgs request)) s) as Hf. assert (forall s', base s s' -> fresh s') as Hbase.
    { intros s' (Hfi & Hr & Hb). unfold fresh, genuine, intact, versionIn, content, receiptAt in *. by rewrite Hfi, Hr, Hb. }
    destruct (Fetch goarch (ArgVersion (RqArgs request)) s) as [[[candidate|e]|] s']; [|split; [|done]; apply Hbase, Hf; done|apply fresh_outcome, Hbase, Hf; done].
    destruct Hf as (Hcv & stream & Hau & Hb & Hst); [done|]. split; [by apply Hbase|]. split; [done|]. by exists stream. }
  intros [candidate|]; [|by eapply runs_pre; [apply Hfail|intros s []]]. eapply ends_bind; [by apply runs_exchange|]. intros r.
  eapply ends_bind; [apply runs_removeAll_outcome|]. intros w. by apply ends_ret.
Qed.

Lemma runs_processRequest fuel request uid gid : TID (RqTask request) = task ->
  runs outcome outcome (processRequest schema egid goarch fuel request uid gid) (fun _ => outcome).
Proof.
  intros Ht. unfold processRequest. destruct (negb _); [by apply ends_ret|]. rewrite Ht. apply runs_readDoc; [hostless|done|done|]. intros [|prior|].
  - eapply runs_pre; [by apply runs_begin|]. intros s [[Hg Ho] [|Hr]]; [done|]. rewrite Hr in Ho. destruct Ho as [Hi Hb]. done.
  - destruct (_ || _); [apply ends_ret; by intros s []|]. destruct (helperTerminal (RcPhase prior)) eqn:Hterm; [apply ends_ret; by intros s []|].
    case_decide; [|apply ends_ret; by intros s []]. apply (runs_fact (taskOf prior = task)).
    + intros Htp. eapply runs_pre; [by apply runs_recover|]. intros s [Hs [|Hr]]; [done|]. by split.
    + intros s [[_ Ho] [|Hr]]; [done|]. rewrite Hr in Ho. apply Ho.
  - apply ends_ret. by intros s [].
Qed.

(** ** Whole upgrades *)

(** Every request the helper reads is for the task. *)
Context (Honly : forall e request, (ReadRequest e).1 = Some (Some request) -> TID (RqTask request) = task).

Lemma runs_RunHelper P euid root fuel : hostless P -> (forall request uid gid, TID (RqTask request) = task -> keeps P (processRequest schema egid goarch fuel request uid gid)) ->
  keeps P (RunHelper schema egid goarch euid root fuel).
Proof.
  intros HP Hproc. unfold RunHelper, try. case_decide; [apply keeps_ret|]. apply runs_past; [auto with crash|done..|]. intros [[uid gid]|]; [|apply keeps_ret].
  do 3 (apply runs_past; [auto with crash|done..|]; intros []; cbn [negb]; [|apply keeps_ret || idtac]; try apply keeps_ret).
  intros s Hs. unfold mbind, crashM_bind, ask. pose proof (Honly (hHost s)) as Hq. destruct (ReadRequest (hHost s)) as [[[request|]|] e]; [|by apply HP..].
  apply Hproc; [by apply Hq|by apply HP].
Qed.

(** Helpers run one after the other, each killed anywhere, and the host changes in
    between. *)
Inductive helping s : hstate (E := E) -> Prop :=
| helping_start : helping s s
| helping_run s' euid root fuel : helping s s' -> helping s (RunHelper schema egid goarch euid root fuel s').2
| helping_host s' e : helping s s' -> helping s (setHost e s').

Lemma helping_keeps P s s' : hostless P -> (forall euid root fuel, keeps P (RunHelper schema egid goarch euid root fuel)) -> P s -> helping s s' -> P s'.
Proof. intros HP Hrun Hs. induction 1 as [|s' euid root fuel _ IH|s' e _ IH]; [done|by apply keeps_snd|by apply HP]. Qed.

Lemma terminal_receipt_kept r : taskOf r = task -> helperTerminal (RcPhase r) = true -> forall euid root fuel, keeps (fun s => receiptAt task s = DocIs r) (RunHelper schema egid goarch euid root fuel).
Proof.
  intros Ht Hterm euid root fuel. apply runs_RunHelper; [hostless|]. intros request uid gid Hq. unfold processRequest. destruct (negb _); [apply keeps_ret|]. rewrite Hq.
  apply runs_readDoc; [hostless|done|done|]. intros [|prior|]; [by intros s [Hs [|Hr]]; [|rewrite Hs in Hr]| |apply ends_ret; by intros s []].
  apply (runs_fact (prior = r)); [|intros s [Hs [|Hr]]; [done|congruence]]. intros ->. destruct (_ || _); [apply ends_ret; by intros s []|]. rewrite Hterm. apply ends_ret. by intros s [].
Qed.

(** C6. The systemd upgrade is honest.  Start without a receipt or a backup of the task.
    However often helpers run, one at a time and on requests for this task, wherever
    they are killed and whatever the host answers: every program file is the previous one or a member of a release archive
    whose digest stands in a signed manifest; as long as the receipt says nothing,
    prepared or failed the installation is the previous one; once the service may be
    disturbed all previous files are retained, until the receipt is terminal; a
    receipt that says succeeded means that the four files are those of the release it
    names, with the digest it names; and a terminal receipt is never changed. *)
Theorem systemd_upgrade_is_honest s' :
  receiptAt task s0 = DocAbsent -> hBackups s0 !! task = None -> helping s0 s' ->
  genuine s' /\
  (receiptAt task s' = DocAbsent -> intact s') /\
  (forall r, receiptAt task s' = DocIs r ->
     (RcPhase r = "prepared" \/ RcPhase r = "failed" -> intact s') /\
     (RcPhase r ∈ ["activating"; "activated"; "rolling_back"] -> complete s') /\
     (RcPhase r = "succeeded" -> installed r s') /\
     (helperTerminal (RcPhase r) = true -> forall s'', helping s' s'' -> receiptAt task s'' = DocIs r)).
Proof.
  intros Hr Hb Hup. assert (intact s0) as Hi by done. assert (outcome s0) as Ho by (split; [by apply intact_genuine|]; by rewrite Hr).
  destruct (helping_keeps outcome s0 s') as [Hg Hout]; [hostless|intros euid root fuel; apply runs_RunHelper; [hostless|]; intros; by apply runs_processRequest|done|done|].
  split; [done|]. split; [intros Hn; rewrite Hn in Hout; apply Hout|]. intros r Hr'. rewrite Hr' in Hout. destruct Hout as [Ht Hph]. split_and!.
  - intros [Hp|Hp]; unfold phaseOk in Hph; rewrite Hp in Hph; [apply Hph|done].
  - intros Hp. by apply (complete_phase r).
  - intros Hp. unfold phaseOk in Hph. by rewrite Hp in Hph.
  - intros Hterm s'' Hup'. eapply (helping_keeps (fun s => receiptAt task s = DocIs r)); [hostless|by apply terminal_receipt_kept|done|done].
Qed.

End safety.

Module systemd_example.
Import Protocol.sample UpdaterSample.

(** Whether the service runs the new binary: every start exchanges the two. *)
Definition sampleE : Type := bool.

Definition oldBinary : string := "binary 4.0.0".
Definition newBinary : string := "binary 4.1.0".
Definition samplePackage : string := "passwall-node_4.1.0_linux_amd64".
Definition sampleArchive : string := "archive".
Definition sampleManifest : string := sha256_hex sampleArchive +:+ "  " +:+ samplePackage +:+ ".tar.gz" +:+ newline.
Definition sampleMember (name body : string) : tarEntry := MkTarEntry (samplePackage +:+ "/" +:+ name) "" (len body) 48 (Some body).

#[export] Instance sample_library : ReleaseLibrary := {|
  ed25519Verify _ _ _ := true;
  openArchive _ _ := Some (MkTarStream [sampleMember "passwall-node" newBinary; sampleMember "LICENSE" "license 2"; sampleMember "README.md" "read me"; sampleMember "NOTICE" "notice 2"] true (Some "") 1);
  DecodeBuildInfo text := Some (MkBuildInfo text 7 1)
|}.

Definition sampleUnit : string := foldr String.append "" unitContract.

Definition sampleDownload (url : string) : string :=
  if HasSuffix url ".sig" then times 86 "A" +:+ "==" else if HasSuffix url ".txt" then sampleManifest else sampleArchive.

Definition owner (path : string) : Z := if decide (path = rooted "config" \/ HasPrefix path (rooted "data") = true) then 990 else 0.

Definition isFile (path : string) : bool := bool_decide (path <> InstallRoot) && existsb (HasSuffix path) ["/passwall-node"; "LICENSE"; "NOTICE"; ".service"].

#[export] Instance sample_systemd : SystemdHost sampleE := {|
  LookupAccount e := (Some (Some (MkAccount InstallRoot "990" "990")), e);
  Lstat path e := (Some (Some (MkFileInfo false (negb (isFile path)) (isFile path) 448 (Some (owner path)))), e);
  ReadFile path e := (Some (Some (if HasPrefix path "/proc/" then "Name: x" +:+ newline +:+ "Uid: 990 990 990 990" +:+ newline else sampleUnit)), e);
  FileDigest path e := (Some (Some (sha256_hex (if e : bool then newBinary else oldBinary))), e);
  RunBinary path args e := (Some (Some (if HasPrefix path stageRoot then "4.1.0" else "4.0.0")), e);
  Systemctl args e := (Some (Some (if decide ("--property=MainPID" ∈ args) then "42" +:+ newline else "")), if decide ("start" ∈ args) then negb e else e);
  HttpGet url e := (Some (HttpResponse 200 (-1) (sampleDownload url) true), e);
  CtxDone e := (Some false, e);
  BootNow e := (Some (Some ("boot", 5)), e);
  ReadRequest e := (Some (Some sample_request), e);
  ReadyDocument task e := (Some (DocIs (MkReady task "" "4.1.0" (sha256_hex newBinary) sampleNonce 42)), e);
  Nonce e := (Some (Some sampleNonce), e);
  TempDir e := (Some (Some (stageRoot +:+ "/.candidate-1")), e);
  ModTime task e := (Some (Some 1), e);
  Strays task e := (Some [], e);
  Tick e := (Some true, e);
  WriteAnswer e := (Some WriteDone, e);
  Attempt op e := (Some true, e)
|}.

Definition sample_installation : hstate :=
  MkHState false (list_to_map [(binaryFile, MkFile oldBinary 493 0); (versionFile, MkFile ("4.0.0" +:+ newline) 416 990); ("licenses/LICENSE", MkFile "license 1" 420 0);
    ("licenses/NOTICE", MkFile "notice 1" 420 0)]) ∅ ∅ ∅.

Definition sample_upgraded : hstate := (RunHelper 7 0 "amd64" 0 InstallRoot 3 sample_installation).2.

(** A helper killed as it waits for the new process, and the next one. *)
Definition sample_interrupted : hstate := (RunHelper 7 0 "amd64" 0 InstallRoot 0 sample_installation).2.
Definition sample_rolledBack : hstate := (RunHelper 7 0 "amd64" 0 InstallRoot 3 sample_interrupted).2.

Lemma systemd_upgrade_is_honest_witness :
  (exists r, receiptAt "t1" sample_upgraded = DocIs r /\ RcPhase r = "succeeded" /\ installed "amd64" sample_installation r sample_upgraded) /\
  (exists r, receiptAt "t1" sample_interrupted = DocIs r /\ RcPhase r = "activated" /\ complete "t1" sample_installation sample_interrupted) /\
  (exists r, receiptAt "t1" sample_rolledBack = DocIs r /\ RcPhase r = "failed" /\ intact sample_installation sample_rolledBack).
Proof.
  assert (forall (e : sampleE) request, (ReadRequest e).1 = Some (Some request) -> TID (RqTask request) = "t1") as Honly by (by intros e request [= <-]).
  pose proof (fun s' => systemd_upgrade_is_honest 7 0 "amd64" "t1" sample_installation Honly s' eq_refl eq_refl) as Hhonest.
  assert (helping 7 0 "amd64" sample_installation sample_interrupted) as Hint by exact (helping_run 7 0 "amd64" _ _ 0 InstallRoot 0 (helping_start 7 0 "amd64" _)).
  assert (helping 7 0 "amd64" sample_installation sample_upgraded) as Hup by exact (helping_run 7 0 "amd64" _ _ 0 InstallRoot 3 (helping_start 7 0 "amd64" _)).
  assert (helping 7 0 "amd64" sample_installation sample_rolledBack) as Hback by exact (helping_run 7 0 "amd64" _ sample_interrupted 0 InstallRoot 3 Hint).
  split_and!.
  - destruct (Hhonest _ Hup) as (_ & _ & Hr). eexists. split; [vm_compute; reflexivity|]. split; [vm_compute; reflexivity|]. apply Hr; vm_compute; reflexivity.
  - destruct (Hhonest _ Hint) as (_ & _ & Hr). eexists. split; [vm_compute; reflexivity|]. split; [vm_compute; reflexivity|]. eapply Hr; [vm_compute; reflexivity|]. right; left.
  - destruct (Hhonest _ Hback) as (_ & _ & Hr). eexists. split; [vm_compute; reflexivity|]. split; [vm_compute; reflexivity|]. eapply Hr; [vm_compute; reflexivity|]. by right.
Defined.

End systemd_example.
